(** * giraffe-startups: period calendar, cohorts and growth accounting

    A shallow embedding of [aux.py], [cohorts_pmf.py] and
    [growth_accounting_pmf.py].

    Conventions of the embedding:
    - a [datetime.date] is a record of three integers; the functions of the
      [datetime] module the code calls ([toordinal], [fromordinal],
      [isocalendar], [strptime] with ['%G %V %u']) are written after the
      algorithms of CPython's [datetime.py] and [_strptime.py];
    - Python exceptions are the [Raise] results of a small error monad;
    - a pandas column of floats is a list of [fval]: an exact rational, one
      of the two infinities, or NaN.  Arithmetic on finite values is exact
      (rounding is not modelled);
    - a DataFrame is its index (or key columns) together with an ordered
      list of named columns; group-by results are listed in the sorted
      order of their keys, and a series assigned to a column is aligned on
      the index of the table, as pandas does;
    - ids are integers and the quantity column holds numbers (no NaN in
      the input);
    - the labels of the periods are texts, built as [str], ['{:02d}'] and
      [strftime] are documented to build them;
    - the plots, [apply_personalized] and [compound_growth] are left
      out. *)

From Stdlib Require Import ZArith List Bool Lia String QArith Qfield Sorted.
From Stdlib Require Import Ascii.
From Stdlib Require DecimalString DecimalZ DecimalPos Lqa.
Import ListNotations.
Open Scope Z_scope.

(** ** Errors *)

Inductive error : Type :=
| ValueError (msg : string)
| AttributeError (attr : string)
| KeyError (key : string).

Inductive result (A : Type) : Type :=
| Ok (a : A)
| Raise (e : error).
Arguments Ok {A} a.
Arguments Raise {A} e.

Definition bind {A B} (r : result A) (k : A -> result B) : result B :=
  match r with
  | Ok a => k a
  | Raise e => Raise e
  end.

Notation "x <- c1 ;; c2" := (bind c1 (fun x => c2))
  (at level 61, c1 at next level, right associativity).

Fixpoint mapM {A B} (f : A -> result B) (l : list A) : result (list B) :=
  match l with
  | [] => Ok []
  | a :: l' => b <- f a ;; bs <- mapM f l' ;; Ok (b :: bs)
  end.

(** ** Calendar: the part of [datetime] that [aux.py] relies on *)

Module Calendar.

Record date : Type := mkdate { year : Z; month : Z; day : Z }.

Definition MINYEAR : Z := 1.
Definition MAXYEAR : Z := 9999.
Definition MAXORDINAL : Z := 3652059.

Definition DAYS_IN_MONTH : list Z :=
  [-1; 31; 28; 31; 30; 31; 30; 31; 31; 30; 31; 30; 31].
Definition DAYS_BEFORE_MONTH : list Z :=
  [-1; 0; 31; 59; 90; 120; 151; 181; 212; 243; 273; 304; 334].

Definition tbl (t : list Z) (i : Z) : Z := nth (Z.to_nat i) t 0.

(* year % 4 == 0 and (year % 100 != 0 or year % 400 == 0) *)
Definition is_leap (y : Z) : bool :=
  (y mod 4 =? 0) && (negb (y mod 100 =? 0) || (y mod 400 =? 0)).

(* y = year - 1; y*365 + y//4 - y//100 + y//400 *)
Definition days_before_year (y : Z) : Z :=
  let y := y - 1 in y * 365 + y / 4 - y / 100 + y / 400.

Definition days_in_month (y m : Z) : Z :=
  if (m =? 2) && is_leap y then 29 else tbl DAYS_IN_MONTH m.

Definition days_before_month (y m : Z) : Z :=
  tbl DAYS_BEFORE_MONTH m + (if (m >? 2) && is_leap y then 1 else 0).

Definition ymd2ord (y m d : Z) : Z :=
  days_before_year y + days_before_month y m + d.

Definition DI400Y : Z := 146097.
Definition DI100Y : Z := 36524.
Definition DI4Y : Z := 1461.

(* The tail of _ord2ymd: month and day from the 0-based day of the year;
   month = (n + 50) >> 5 is an estimate that is at most one too large. *)
Definition month_day (n : Z) (leapyear : bool) : Z * Z :=
  let month := Z.shiftr (n + 50) 5 in
  let preceding :=
    tbl DAYS_BEFORE_MONTH month
    + (if (month >? 2) && leapyear then 1 else 0) in
  if preceding >? n then
    let month := month - 1 in
    let preceding :=
      preceding
      - (tbl DAYS_IN_MONTH month
         + (if (month =? 2) && leapyear then 1 else 0)) in
    (month, n - preceding + 1)
  else (month, n - preceding + 1).

Definition ord2ymd (n : Z) : Z * Z * Z :=
  let n := n - 1 in
  let n400 := n / DI400Y in
  let n := n mod DI400Y in
  let year := n400 * 400 + 1 in
  let n100 := n / DI100Y in
  let n := n mod DI100Y in
  let n4 := n / DI4Y in
  let n := n mod DI4Y in
  let n1 := n / 365 in
  let n := n mod 365 in
  let year := year + (n100 * 100 + n4 * 4 + n1) in
  if (n1 =? 4) || (n100 =? 4) then (year - 1, 12, 31)
  else
    let leapyear := (n1 =? 3) && (negb (n4 =? 24) || (n100 =? 3)) in
    let '(month, day) := month_day n leapyear in
    (year, month, day).

Definition valid_ymd (y m d : Z) : bool :=
  (MINYEAR <=? y) && (y <=? MAXYEAR) && (1 <=? m) && (m <=? 12)
  && (1 <=? d) && (d <=? days_in_month y m).

Definition valid (d : date) : bool := valid_ymd (year d) (month d) (day d).

(* dt.date(year, month, day) *)
Definition date_new (y m d : Z) : result date :=
  if valid_ymd y m d then Ok (mkdate y m d)
  else Raise (ValueError "date value out of range").

Definition toordinal (d : date) : Z := ymd2ord (year d) (month d) (day d).

(* date.fromordinal(n) *)
Definition fromordinal (n : Z) : result date :=
  if n <? 1 then Raise (ValueError "ordinal must be >= 1")
  else if n >? MAXORDINAL then Raise (ValueError "year is out of range")
  else let '(y, m, d) := ord2ymd n in Ok (mkdate y m d).

(* self.toordinal() % 7 or 7 *)
Definition isoweekday (d : date) : Z :=
  let r := toordinal d mod 7 in if r =? 0 then 7 else r.

Definition isoweek1monday (y : Z) : Z :=
  let THURSDAY := 3 in
  let firstday := ymd2ord y 1 1 in
  let firstweekday := (firstday + 6) mod 7 in
  let week1monday := firstday - firstweekday in
  if firstweekday >? THURSDAY then week1monday + 7 else week1monday.

(* date.isocalendar(): (ISO year, ISO week, ISO weekday) *)
Definition isocalendar (d : date) : Z * Z * Z :=
  let y := year d in
  let week1monday := isoweek1monday y in
  let today := toordinal d in
  let week := (today - week1monday) / 7 in
  let wd := (today - week1monday) mod 7 in
  if week <? 0 then
    let y := y - 1 in
    let week1monday := isoweek1monday y in
    let week := (today - week1monday) / 7 in
    let wd := (today - week1monday) mod 7 in
    (y, week + 1, wd + 1)
  else if (week >=? 52) && (today >=? isoweek1monday (y + 1)) then
    (y + 1, 1, wd + 1)
  else (y, week + 1, wd + 1).

Definition date_compare (a b : date) : comparison :=
  match year a ?= year b with
  | Eq => match month a ?= month b with
          | Eq => day a ?= day b
          | c => c
          end
  | c => c
  end.

Definition date_eqb (a b : date) : bool :=
  match date_compare a b with Eq => true | _ => false end.
Definition date_leb (a b : date) : bool :=
  match date_compare a b with Gt => false | _ => true end.

(* _strptime._calc_julian_from_V *)
Definition calc_julian_from_V (iso_year iso_week iso_weekday : Z)
  : result (Z * Z) :=
  jan4 <- date_new iso_year 1 4 ;;
  let correction := isoweekday jan4 + 3 in
  let ordinal := iso_week * 7 + iso_weekday - correction in
  if ordinal <? 1 then
    jan1 <- date_new iso_year 1 1 ;;
    let ordinal := ordinal + toordinal jan1 in
    let iso_year := iso_year - 1 in
    jan1' <- date_new iso_year 1 1 ;;
    Ok (iso_year, ordinal - toordinal jan1')
  else Ok (iso_year, ordinal).

(* datetime.strptime('{:04d} {:02d} {}'.format(G, V, u), '%G %V %u').date():
   the text is accepted when the year prints as four digits, the week is
   01..53 and the weekday is 1..7; the day is then found from the day of
   the year that _calc_julian_from_V returns. *)
Definition strptime_GVu (G V u : Z) : result date :=
  if (0 <=? G) && (G <=? 9999) && (1 <=? V) && (V <=? 53)
     && (1 <=? u) && (u <=? 7)
  then
    yj <- calc_julian_from_V G V u ;;
    let '(y, julian) := yj in
    jan1 <- date_new y 1 1 ;;
    fromordinal (julian - 1 + toordinal jan1)
  else Raise (ValueError "time data does not match format").

End Calendar.

(** ** aux.py *)

Import Calendar.

(* The period tags that both constructors accept after lower-casing:
   ['m','q','d','28d','7d']. *)
Inductive tipo : Type := T7d | T28d | Tm | Td | Tq.

Definition custom_representative (t : tipo) (d : date) : result date :=
  match t with
  | T7d =>
      let '(iy, iw, _) := isocalendar d in
      strptime_GVu iy iw 1
  | T28d =>
      let '(iy, iw, _) := isocalendar d in
      strptime_GVu iy (if negb (iw / 4 =? 0) then iw / 4 * 4 else 1) 1
  | Tm => date_new (year d) (month d) 1
  | Td => Ok d
  | Tq =>
      date_new (year d)
        (if negb (month d / 3 =? 0) then month d / 3 * 3 else 1) 1
  end.

(* period_q: the label of the quarter; the year part x[0] is kept as a
   number, the suffix is the text the source appends. *)
Definition period_q (d : date) : Z * string :=
  let m := month d in
  if m <? 4 then (year d, "q1"%string)
  else if m <? 7 then (year d, "q2"%string)
  else if m <? 10 then (year d, "q3"%string)
  else (year d, "q4"%string).

(* period_28d: str(x[0])+'-28d-'+str(x[1]//4+1), kept as the two numbers. *)
Definition period_28d (d : date) : Z * Z :=
  let '(iy, iw, _) := isocalendar d in (iy, iw / 4 + 1).


(** ** Floats, columns and the pandas operations the two classes use *)

(* A float64 cell.  Finite values are exact rationals: rounding and the
   sign of zero are not modelled. *)
Inductive fval : Type :=
| Fin (q : Q)
| PInf
| NInf
| NaN.

Definition Qzero_b (q : Q) : bool := Qeq_bool q 0.
Definition Qpos_b (q : Q) : bool := negb (Qle_bool q 0).
Definition Qneg_b (q : Q) : bool := negb (Qle_bool 0 q).

Definition fneg (x : fval) : fval :=
  match x with
  | Fin q => Fin (- q)
  | PInf => NInf
  | NInf => PInf
  | NaN => NaN
  end.

Definition fadd (x y : fval) : fval :=
  match x, y with
  | NaN, _ | _, NaN => NaN
  | Fin a, Fin b => Fin (a + b)
  | PInf, NInf | NInf, PInf => NaN
  | PInf, _ | _, PInf => PInf
  | NInf, _ | _, NInf => NInf
  end.

Definition fsub (x y : fval) : fval := fadd x (fneg y).

(* numpy division: x/0 is +-inf, 0/0 is nan, no exception. *)
Definition fdiv (x y : fval) : fval :=
  match x, y with
  | NaN, _ | _, NaN => NaN
  | Fin a, Fin b =>
      if Qzero_b b then
        if Qpos_b a then PInf else if Qneg_b a then NInf else NaN
      else Fin (a / b)
  | Fin _, PInf | Fin _, NInf => Fin 0
  | PInf, Fin b => if Qneg_b b then NInf else PInf
  | NInf, Fin b => if Qneg_b b then PInf else NInf
  | _, _ => NaN
  end.

Definition column : Type := list fval.
Definition columns : Type := list (string * column).

(* frame[name] = values: an existing column is overwritten in place, a new
   one is added at the end. *)
Fixpoint set_col (name : string) (v : column) (cols : columns) : columns :=
  match cols with
  | [] => [(name, v)]
  | (n, c) :: rest =>
      if String.eqb n name then (n, v) :: rest
      else (n, c) :: set_col name v rest
  end.

Fixpoint find_col (name : string) (cols : columns) : option column :=
  match cols with
  | [] => None
  | (n, c) :: rest => if String.eqb n name then Some c else find_col name rest
  end.

(* name in frame.columns *)
Definition has_col (name : string) (cols : columns) : bool :=
  match find_col name cols with Some _ => true | None => false end.

(* frame[name]; a missing label raises KeyError. *)
Definition get_col (name : string) (cols : columns) : result column :=
  match find_col name cols with
  | Some c => Ok c
  | None => Raise (KeyError name)
  end.

Definition column_names (cols : columns) : list string := map fst cols.

(* frame[[n1; n2; ...]] *)
Definition select_cols (names : list string) (cols : columns)
  : result columns :=
  mapM (fun n => c <- get_col n cols ;; Ok (n, c)) names.

(** Sorted distinct keys: the order in which groupby and unstack list
    their labels. *)
Fixpoint insert_key {K} (cmp : K -> K -> comparison) (k : K) (l : list K)
  : list K :=
  match l with
  | [] => [k]
  | x :: l' =>
      match cmp k x with
      | Lt => k :: l
      | Eq => l
      | Gt => x :: insert_key cmp k l'
      end
  end.

Definition distinct_sorted {K} (cmp : K -> K -> comparison) (l : list K)
  : list K :=
  fold_right (insert_key cmp) [] l.

Definition cmp_eqb {K} (cmp : K -> K -> comparison) (a b : K) : bool :=
  match cmp a b with Eq => true | _ => false end.

Definition pair_compare {A B} (ca : A -> A -> comparison)
  (cb : B -> B -> comparison) (x y : A * B) : comparison :=
  match ca (fst x) (fst y) with
  | Eq => cb (snd x) (snd y)
  | c => c
  end.

(* Series.sum() with the default skipna=True; an empty or all-NaN group
   sums to 0. *)
Fixpoint sum_skipna (l : list (option Q)) : Q :=
  match l with
  | [] => 0%Q
  | Some q :: l' => (q + sum_skipna l')%Q
  | None :: l' => sum_skipna l'
  end.

(* rows.groupby(key)[val].agg(): one entry per distinct key, keys sorted. *)
Definition groupby_agg {K A V} (cmp : K -> K -> comparison) (key : A -> K)
  (agg : list A -> V) (rows : list A) : list (K * V) :=
  map (fun k => (k, agg (filter (fun r => cmp_eqb cmp (key r) k) rows)))
      (distinct_sorted cmp (map key rows)).

Fixpoint lookup {K V} (cmp : K -> K -> comparison) (k : K)
  (s : list (K * V)) : option V :=
  match s with
  | [] => None
  | (k', v) :: s' => if cmp_eqb cmp k' k then Some v else lookup cmp k s'
  end.

(* frame[name] = series: the series is aligned on the index of the frame;
   a label of the index that the series lacks gets NaN. *)
Definition align {K} (cmp : K -> K -> comparison) (idx : list K)
  (s : list (K * Q)) : column :=
  map (fun k => match lookup cmp k s with Some q => Fin q | None => NaN end)
      idx.

Definition fillna (v : Q) (c : column) : column :=
  map (fun x => match x with NaN => Fin v | _ => x end) c.

(* Series.shift(1) *)
Definition shift1 (c : column) : column :=
  match c with
  | [] => []
  | _ => NaN :: removelast c
  end.

Definition zip_with {A B C} (f : A -> B -> C) (a : list A) (b : list B)
  : list C :=
  map (fun p => f (fst p) (snd p)) (combine a b).

(* frame.replace(np.inf, np.nan).replace(-np.inf, np.nan) on one column *)
Definition replace_inf (c : column) : column :=
  map (fun x => match x with PInf | NInf => NaN | _ => x end) c.

(* rows.groupby(key).apply(g), for a g that returns one value per row of
   its group: row i gets the value that g gave to its position within its
   group. *)
Fixpoint groupby_apply_from {K A B} (eqb : K -> K -> bool) (key : A -> K)
  (g : list A -> list B) (dflt : B) (all seen rest : list A) : list B :=
  match rest with
  | [] => []
  | r :: rest' =>
      let same := fun x => eqb (key x) (key r) in
      nth (List.length (filter same seen)) (g (filter same all)) dflt
      :: groupby_apply_from eqb key g dflt all (r :: seen) rest'
  end.

Definition groupby_apply {K A B} (eqb : K -> K -> bool) (key : A -> K)
  (g : list A -> list B) (dflt : B) (rows : list A) : list B :=
  groupby_apply_from eqb key g dflt rows [] rows.

(* Series.diff() *)
Fixpoint diff_from {A} (sub : A -> A -> A) (prev : A) (l : list A)
  : list (option A) :=
  match l with
  | [] => []
  | x :: l' => Some (sub x prev) :: diff_from sub x l'
  end.

Definition diff {A} (sub : A -> A -> A) (l : list A) : list (option A) :=
  match l with
  | [] => []
  | x :: l' => None :: diff_from sub x l'
  end.

Fixpoint enumerate_from {A} (i : Z) (l : list A) : list (Z * A) :=
  match l with
  | [] => []
  | a :: l' => (i, a) :: enumerate_from (i + 1) l'
  end.

(** ** The input table and its preparation (shared by both [fit]s) *)

(* One row of [data]: the cells under column_id, column_date and (when the
   table has one) the quantity column. *)
Record event : Type := mkevent {
  ev_id : Z;
  ev_date : date;
  ev_quantity : Q
}.

(* One row of [df] after the preparation. *)
Record prow : Type := mkprow {
  r_id : Z;
  r_unique_id : Z;
  r_input : Q;
  r_period : date;
  r_cohort : date
}.

(* The columns of [df] that the metric methods are called with. *)
Inductive colname : Type := column_id | column_input.

Definition cell (c : colname) (r : prow) : Q :=
  match c with
  | column_id => inject_Z (r_id r)
  | column_input => r_input r
  end.

Definition date_min (a b : date) : date :=
  match date_compare a b with Gt => b | _ => a end.

(* not column_input, for the optional argument of fit *)
Definition not_given (column_input : option string) : bool :=
  match column_input with
  | None => true
  | Some s => String.eqb s ""
  end.

(* df=deepcopy(data); df['unique_id']=np.arange(len(df));
   if simple: df[column_input]=1;
   df['period']=df[column_date].apply(custom_representative(period, .));
   df['cohort']=df.groupby(column_id)['period'].min(), aligned on the id *)
Definition prepare (period : tipo) (simple : bool) (data : list event)
  : result (list prow) :=
  rows <- mapM (fun ie =>
                  p <- custom_representative period (ev_date (snd ie)) ;;
                  Ok (fst ie, snd ie, p))
               (enumerate_from 0 data) ;;
  let cohort_of := fun (id : Z) (p0 : date) =>
    fold_right date_min p0
      (map snd (filter (fun x => ev_id (snd (fst x)) =? id) rows)) in
  Ok (map (fun x =>
             let '(i, e, p) := x in
             mkprow (ev_id e) i (if simple then 1%Q else ev_quantity e) p
                    (cohort_of (ev_id e) p))
          rows).

(* series.unstack().fillna(0).stack().reset_index() for a series keyed by
   pairs: every first key crossed with every second key, both sorted, the
   cells that the series lacks holding 0. *)
Definition unstack_fill_stack {K1 K2} (c1 : K1 -> K1 -> comparison)
  (c2 : K2 -> K2 -> comparison) (s : list ((K1 * K2) * Q))
  : list ((K1 * K2) * Q) :=
  let rows := distinct_sorted c1 (map (fun x => fst (fst x)) s) in
  let cols := distinct_sorted c2 (map (fun x => snd (fst x)) s) in
  flat_map
    (fun a =>
       map (fun b =>
              ((a, b),
               match lookup (pair_compare c1 c2) (a, b) s with
               | Some v => v
               | None => 0%Q
               end))
           cols)
    rows.

Definition count_rows {A} (g : list A) : Q := inject_Z (Z.of_nat (List.length g)).

(** ** cohorts_pmf.py *)

Module CohortsPmf.

(* The three key columns of df_cohorts. *)
Record cell_key : Type := mkkey {
  cohort : date;
  period : date;
  period_num : Z
}.

(* df_cohorts: the key columns and the metric columns, row by row. *)
Record frame : Type := mkframe {
  keys : list cell_key;
  cols : columns
}.

(* nums: data['period_num']=np.arange(len(data)) *)
Definition nums {A} (data : list A) : list Z :=
  map Z.of_nat (seq 0 (List.length data)).

(* perc: data[name]=data[column]/data[column2].iloc[0]; a row of the group
   is the pair of its cells under column and column2. *)
Definition perc (data : list (fval * fval)) : list fval :=
  map (fun x => fdiv (fst x) (snd (hd (NaN, NaN) data))) data.

(* churn: data[name]=data[column].iloc[0]-data[column] *)
Definition churn (data : list fval) : list fval :=
  map (fun x => fsub (hd NaN data) x) data.

(* Series.cumsum(): NaN cells stay NaN and are skipped by the running sum *)
Fixpoint cumsum_from (acc : fval) (l : list fval) : list fval :=
  match l with
  | [] => []
  | NaN :: l' => NaN :: cumsum_from acc l'
  | x :: l' => fadd acc x :: cumsum_from (fadd acc x) l'
  end.

(* accum: data[name]=data[column].cumsum() *)
Definition accum (data : list fval) : list fval := cumsum_from (Fin 0) data.

(* df_cohorts.groupby('cohort').apply(perc,name=..,column=..,column2=..) *)
Definition groupby_cohort_perc (name column column2 : string) (f : frame)
  : result frame :=
  c1 <- get_col column (cols f) ;;
  c2 <- get_col column2 (cols f) ;;
  let v := groupby_apply date_eqb (fun x => cohort (fst x))
             (fun g => perc (map snd g)) NaN
             (combine (keys f) (combine c1 c2)) in
  Ok (mkframe (keys f) (set_col name v (cols f))).

(* df_cohorts.groupby('cohort').apply(fn,name=..,column=..) for churn and
   accum *)
Definition groupby_cohort_col (fn : list fval -> list fval)
  (name column : string) (f : frame) : result frame :=
  c <- get_col column (cols f) ;;
  let v := groupby_apply date_eqb (fun x => cohort (fst x))
             (fun g => fn (map snd g)) NaN (combine (keys f) c) in
  Ok (mkframe (keys f) (set_col name v (cols f))).

Record Cohorts : Type := mkCohorts {
  self_period : tipo;
  self_simple : bool;
  arguments : list string;
  df_period_cohort : option (list prow);
  df_cohorts : option frame
}.

(* __init__, for a period tag that passed the membership test *)
Definition init (period : tipo) (simple : bool) : Cohorts :=
  mkCohorts period simple [] None None.

(* self.df_period_cohort and self.df_cohorts exist only after fit *)
Definition attr_df_period_cohort (self : Cohorts) : result (list prow) :=
  match df_period_cohort self with
  | Some df => Ok df
  | None => Raise (AttributeError "df_period_cohort")
  end.

Definition attr_df_cohorts (self : Cohorts) : result frame :=
  match df_cohorts self with
  | Some f => Ok f
  | None => Raise (AttributeError "df_cohorts")
  end.

Definition set_df_cohorts (self : Cohorts) (f : frame) : Cohorts :=
  mkCohorts (self_period self) (self_simple self) (arguments self)
            (df_period_cohort self) (Some f).

Definition key2 (k : cell_key) : date * date := (cohort k, period k).
Definition row_key2 (r : prow) : date * date := (r_cohort r, r_period r).
Definition cmp2 : date * date -> date * date -> comparison :=
  pair_compare date_compare date_compare.

(* Series.nunique() *)
Definition nunique (l : list Q) : Q :=
  count_rows (distinct_sorted Qcompare l).

Definition apply_unique_users (self : Cohorts) (column_id : colname)
  : result Cohorts :=
  df <- attr_df_period_cohort self ;;
  df_cohorts <- attr_df_cohorts self ;;
  let s := groupby_agg cmp2 row_key2
             (fun g => nunique (map (cell column_id) g)) df in
  let df_cohorts :=
    mkframe (keys df_cohorts)
      (set_col "unique_users" (align cmp2 (map key2 (keys df_cohorts)) s)
               (cols df_cohorts)) in
  df_cohorts <-
    groupby_cohort_perc "perc_unique_users" "unique_users" "unique_users"
      df_cohorts ;;
  Ok (set_df_cohorts self df_cohorts).

Definition apply_total (self : Cohorts) (column_input : colname)
  : result Cohorts :=
  df <- attr_df_period_cohort self ;;
  df_cohorts <- attr_df_cohorts self ;;
  let s := groupby_agg cmp2 row_key2
             (fun g => sum_skipna (map (fun r => Some (cell column_input r)) g))
             df in
  let df_cohorts :=
    mkframe (keys df_cohorts)
      (set_col "total" (align cmp2 (map key2 (keys df_cohorts)) s)
               (cols df_cohorts)) in
  df_cohorts <- groupby_cohort_perc "perc_total" "total" "total" df_cohorts ;;
  Ok (set_df_cohorts self df_cohorts).

Definition apply_churn_total (self : Cohorts) (column_input : colname)
  : result Cohorts :=
  df_cohorts <- attr_df_cohorts self ;;
  self <- (if negb (has_col "total" (cols df_cohorts))
           then apply_total self column_input else Ok self) ;;
  df_cohorts <- attr_df_cohorts self ;;
  df_cohorts <- groupby_cohort_col churn "churn_total" "total" df_cohorts ;;
  df_cohorts <-
    groupby_cohort_perc "perc_churn_total" "churn_total" "total" df_cohorts ;;
  Ok (set_df_cohorts self df_cohorts).

(* self.<name>: the methods of one column argument that class Cohorts
   defines are apply_unique_users, apply_total, apply_churn_total,
   apply_churn_unique_users and apply_accum; its other attributes are
   apply_per_user, apply_personalized, fit, transform_pd, transform_np,
   plot_heatmap, plot_trends and the instance attributes.  Looking up any
   other name raises AttributeError.  The table below holds the methods
   defined before apply_churn_unique_users, which is all that its body can
   reach by a name that exists. *)
Definition method1 : Type := Cohorts -> colname -> result Cohorts.

Definition methods1 : list (string * method1) :=
  [("apply_unique_users"%string, apply_unique_users);
   ("apply_total"%string, apply_total);
   ("apply_churn_total"%string, apply_churn_total)].

Fixpoint getattr1 (tbl : list (string * method1)) (name : string)
  : result method1 :=
  match tbl with
  | [] => Raise (AttributeError name)
  | (n, m) :: tbl' => if String.eqb n name then Ok m else getattr1 tbl' name
  end.

Definition apply_churn_unique_users (self : Cohorts) (column_id : colname)
  : result Cohorts :=
  df_cohorts <- attr_df_cohorts self ;;
  self <- (if negb (has_col "unique_users" (cols df_cohorts))
           then (m <- getattr1 methods1 "apply_unique" ;; m self column_id)
           else Ok self) ;;
  df_cohorts <- attr_df_cohorts self ;;
  df_cohorts <-
    groupby_cohort_col churn "churn_unique" "unique_users" df_cohorts ;;
  df_cohorts <-
    groupby_cohort_perc "perc_churn_unique" "churn_unique" "unique_users"
      df_cohorts ;;
  Ok (set_df_cohorts self df_cohorts).

Definition apply_accum (self : Cohorts) (column_input : colname)
  : result Cohorts :=
  df_cohorts <- attr_df_cohorts self ;;
  self <- (if negb (has_col "total" (cols df_cohorts))
           then apply_total self column_input else Ok self) ;;
  df_cohorts <- attr_df_cohorts self ;;
  df_cohorts <- groupby_cohort_col accum "accum" "total" df_cohorts ;;
  df_cohorts <- groupby_cohort_perc "perc_accum" "accum" "total" df_cohorts ;;
  Ok (set_df_cohorts self df_cohorts).

Definition apply_per_user (self : Cohorts) (column_input column_id : colname)
  : result Cohorts :=
  df_cohorts <- attr_df_cohorts self ;;
  self <- (if negb (has_col "total" (cols df_cohorts))
           then apply_total self column_input else Ok self) ;;
  df_cohorts <- attr_df_cohorts self ;;
  self <- (if negb (has_col "unique_users" (cols df_cohorts))
           then apply_unique_users self column_id else Ok self) ;;
  df_cohorts <- attr_df_cohorts self ;;
  total <- get_col "total" (cols df_cohorts) ;;
  unique_users <- get_col "unique_users" (cols df_cohorts) ;;
  let df_cohorts :=
    mkframe (keys df_cohorts)
      (set_col "per_user" (zip_with fdiv total unique_users)
               (cols df_cohorts)) in
  df_cohorts <-
    groupby_cohort_perc "perc_per_user" "per_user" "per_user" df_cohorts ;;
  Ok (set_df_cohorts self df_cohorts).

(* The grid of fit:
   cohorts=df.groupby(['cohort','period'])[[column_input]].count()
   cohorts=cohorts.unstack().fillna(0).stack().reset_index()
   cohorts=cohorts[cohorts['cohort']<=cohorts['period']]
   cohorts=cohorts.groupby('cohort').apply(nums)
   self.df_cohorts=cohorts[['cohort','period','period_num']] *)
Definition grid (df : list prow) : list cell_key :=
  let cohorts := groupby_agg cmp2 row_key2 count_rows df in
  let cohorts := unstack_fill_stack date_compare date_compare cohorts in
  let cohorts := filter (fun x => date_leb (fst (fst x)) (snd (fst x)))
                        cohorts in
  let num := groupby_apply date_eqb (fun x => fst (fst x)) nums 0 cohorts in
  zip_with (fun x n => mkkey (fst (fst x)) (snd (fst x)) n) cohorts num.

(* for item in how: ... *)
Fixpoint fit_how (self : Cohorts) (how : list string) : result Cohorts :=
  match how with
  | [] => Ok self
  | item :: how' =>
      self <-
        (if existsb (String.eqb item) ["total"; "churn_total"; "accum"]%string
         then
           (if String.eqb item "total" then apply_total self column_input
            else if String.eqb item "churn_total"
                 then apply_churn_total self column_input
                 else apply_accum self column_input)
         else if existsb (String.eqb item)
                   ["unique_users"; "churn_unique_users"]%string
         then
           (if String.eqb item "unique_users"
            then apply_unique_users self column_id
            else apply_churn_unique_users self column_id)
         else if String.eqb item "per_user"
         then apply_per_user self column_input column_id
         else Raise (ValueError "How values should be inside some of these")) ;;
      fit_how self how'
  end.

(* list(set(l)): the distinct items; the order Python gives them is not
   modelled. *)
Definition list_set (l : list string) : list string :=
  nodup string_dec l.

(* fit(self,data,column_date,column_id,column_input=None,how=[]); the
   labels period_list and cohort_list, which only the plots read, are left
   out. *)
Definition fit (self : Cohorts) (data : list event)
  (column_input : option string) (how : list string) : result Cohorts :=
  if negb (self_simple self) && not_given column_input
  then Raise (ValueError "simple = False requires argument 'column_input'")
  else
    df <- prepare (self_period self) (self_simple self) data ;;
    let self :=
      mkCohorts (self_period self) (self_simple self) (arguments self)
                (Some df) (Some (mkframe (grid df) [])) in
    self <- fit_how self how ;;
    Ok (mkCohorts (self_period self) (self_simple self)
                  (list_set (how ++ arguments self))
                  (df_period_cohort self) (df_cohorts self)).

End CohortsPmf.

(** ** growth_accounting_pmf.py *)

Module GrowthAccountingPmf.

(* A row of df_users. *)
Record user_row : Type := mkuser {
  u_id : Z;
  u_cohort_rep : date;
  u_period_rep : date;
  u_freq : Z;
  u_uniques : Z;
  u_change : Z;
  u_supercolumn : Z
}.

(* A row of df_revenue. *)
Record revenue_row : Type := mkrevenue {
  v_id : Z;
  v_cohort_rep : date;
  v_period_rep : date;
  v_supercolumn : Z;
  v_revenue : Q;
  v_revchange : option Q;
  v_revstatus : Z;
  v_retained : option Q
}.

(* dfgrowth and self.df: the index and the named columns. *)
Record frame : Type := mkframe {
  index : list date;
  cols : columns
}.

Definition id_eqb (a b : Z * date) : bool :=
  (fst a =? fst b) && date_eqb (snd a) (snd b).

Definition id_cohort_compare : Z * date -> Z * date -> comparison :=
  pair_compare Z.compare date_compare.

Definition id_period_compare : Z * date -> Z * date -> comparison :=
  pair_compare Z.compare date_compare.

(* astype(int) *)
Definition astype_int (q : Q) : Z := Z.quot (Qnum q) (Zpos (Qden q)).

(* df_users, up to the column 'uniques': a row is its key
   ((column_id, cohort_rep), period_rep), its freq and its uniques. *)
Definition users_base (df : list prow)
  : list (((Z * date) * date) * Z * Z) :=
  (* df.groupby([column_id,'cohort_rep','period_rep'])[['unique_id']]
       .count().rename(columns={'unique_id':'freq'}) *)
  let freq :=
    groupby_agg (pair_compare id_cohort_compare date_compare)
      (fun r => ((r_id r, r_cohort r), r_period r)) count_rows df in
  (* .unstack().fillna(0).stack().reset_index() *)
  let rows := unstack_fill_stack id_cohort_compare date_compare freq in
  (* df_users[df_users['period_rep']>=df_users['cohort_rep']] *)
  let rows :=
    filter (fun x => date_leb (snd (fst (fst x))) (snd (fst x))) rows in
  (* freq.astype(int); uniques = np.where(x>0,1,0) *)
  map (fun x =>
         let f := astype_int (snd x) in
         (fst x, f, if f >? 0 then 1 else 0)) rows.

(* groupby([column_id,'cohort_rep']).apply(user_change):
   df['change']=df['uniques'].diff() *)
Definition users_change (df : list prow) : list (option Z) :=
  groupby_apply id_eqb
    (fun x : ((Z * date) * date) * Z * Z => fst (fst (fst x)))
    (fun g => diff Z.sub (map snd g)) None (users_base df).

(* df_users, with change.fillna(2) and supercolumn = change + uniques *)
Definition df_users (df : list prow) : list user_row :=
  zip_with
    (fun (x : ((Z * date) * date) * Z * Z) (ch : option Z) =>
       let '(k, f, u) := x in
       let c := match ch with Some c => c | None => 2 end in
       mkuser (fst (fst k)) (snd (fst k)) (snd k) f u c (c + u))
    (users_base df) (users_change df).

(* df_revenue, up to the column 'revenue':
   df_revenue['revenue']=df.groupby([column_id,'period_rep'])[column_input]
     .sum(), aligned on (column_id, period_rep); then fillna(0) *)
Definition revenue_base (df : list prow) : list (user_row * Q) :=
  let s :=
    groupby_agg id_period_compare (fun r => (r_id r, r_period r))
      (fun g => sum_skipna (map (fun r => Some (r_input r)) g)) df in
  map (fun u =>
         (u,
          match lookup id_period_compare (u_id u, u_period_rep u) s with
          | Some q => q
          | None => 0%Q
          end)) (df_users df).

(* groupby([column_id,'cohort_rep']).apply(revenue_change):
   df['revchange']=df['revenue'].diff() *)
Definition revenue_change (df : list prow) : list (option Q) :=
  groupby_apply id_eqb
    (fun x : user_row * Q => (u_id (fst x), u_cohort_rep (fst x)))
    (fun g => diff Qminus (map snd g)) None (revenue_base df).

(* revstatus: np.where(x>0,1,np.where(x<0,-1,0)) *)
Definition revstatus_of (rc : option Q) : Z :=
  match rc with
  | Some x => if Qpos_b x then 1 else if Qneg_b x then -1 else 0
  | None => 0
  end.

(* retained: revenue - np.where(x<0,0,x) *)
Definition retained_of (revenue : Q) (rc : option Q) : option Q :=
  match rc with
  | Some x => Some (revenue - (if Qneg_b x then 0 else x))%Q
  | None => None
  end.

Definition df_revenue (df : list prow) : list revenue_row :=
  zip_with
    (fun (x : user_row * Q) (rc : option Q) =>
       let '(u, revenue) := x in
       mkrevenue (u_id u) (u_cohort_rep u) (u_period_rep u)
         (u_supercolumn u) revenue rc (revstatus_of rc)
         (retained_of revenue rc))
    (revenue_base df) (revenue_change df).

(* df_revenue[cond].groupby('period_rep')[col].sum(), aligned on the index
   of dfgrowth *)
Definition category (idx : list date) (cond : revenue_row -> bool)
  (col : revenue_row -> option Q) (rev : list revenue_row) : column :=
  align date_compare idx
    (groupby_agg date_compare v_period_rep
       (fun g => sum_skipna (map col g)) (filter cond rev)).

Definition nunique_ids (g : list prow) : Q :=
  count_rows (distinct_sorted Z.compare (map r_id g)).

Definition col_add : column -> column -> column := zip_with fadd.
Definition col_sub : column -> column -> column := zip_with fsub.
Definition col_div : column -> column -> column := zip_with fdiv.
Definition col_neg : column -> column := map fneg.

(* dfgrowth=df.groupby(['cohort_rep'])[[column_id]].nunique(): its index,
   the sorted cohorts, is the index of dfgrowth from here on; every later
   column is a series aligned on it. *)
Definition new_ids_series (df : list prow) : list (date * Q) :=
  groupby_agg date_compare r_cohort nunique_ids df.

Definition growth_index (df : list prow) : list date :=
  map fst (new_ids_series df).

(** The columns of dfgrowth, each under the name it has in the table.
    The nine columns assigned before dfgrowth=dfgrowth.fillna(0) are given
    here with that fill applied. *)

Definition c_new_ids (df : list prow) : column :=
  fillna 0 (map (fun x => Fin (snd x)) (new_ids_series df)).

Definition c_total_ids (df : list prow) : column :=
  fillna 0
    (align date_compare (growth_index df)
       (groupby_agg date_compare r_period nunique_ids df)).

Definition c_total_orders (df : list prow) : column :=
  fillna 0
    (align date_compare (growth_index df)
       (groupby_agg date_compare r_period count_rows df)).

Definition is_new (r : revenue_row) : bool := v_supercolumn r =? 3.
Definition is_resurrected (r : revenue_row) : bool := v_supercolumn r =? 2.
Definition is_expansion (r : revenue_row) : bool :=
  (v_supercolumn r =? 1) && (v_revstatus r =? 1).
Definition is_contraction (r : revenue_row) : bool :=
  (v_supercolumn r =? 1) && (v_revstatus r =? -1).
Definition is_retained (r : revenue_row) : bool := v_supercolumn r =? 1.
Definition is_churned (r : revenue_row) : bool := v_supercolumn r =? -1.
Definition some_revenue (r : revenue_row) : option Q := Some (v_revenue r).

Definition c_new (df : list prow) : column :=
  fillna 0 (category (growth_index df) is_new some_revenue (df_revenue df)).
Definition c_resurrected (df : list prow) : column :=
  fillna 0
    (category (growth_index df) is_resurrected some_revenue (df_revenue df)).
Definition c_expansion (df : list prow) : column :=
  fillna 0
    (category (growth_index df) is_expansion v_revchange (df_revenue df)).
Definition c_contraction (df : list prow) : column :=
  fillna 0
    (category (growth_index df) is_contraction v_revchange (df_revenue df)).
Definition c_retained (df : list prow) : column :=
  fillna 0
    (category (growth_index df) is_retained v_retained (df_revenue df)).
Definition c_churned (df : list prow) : column :=
  fillna 0
    (category (growth_index df) is_churned v_revchange (df_revenue df)).

(* assigned after the fill *)
Definition c_total (df : list prow) : column :=
  category (growth_index df) (fun _ => true) some_revenue (df_revenue df).

Definition c_total_rev2 (df : list prow) : column :=
  col_add (col_add (col_add (c_new df) (c_retained df)) (c_expansion df))
          (c_resurrected df).
Definition c_total_rev_1 (df : list prow) : column :=
  col_sub (col_sub (c_retained df) (c_churned df)) (c_contraction df).

(* category / category.shift(1) *)
Definition rate (c : column) : column := col_div c (shift1 c).

Definition c_new_rate (df : list prow) : column := rate (c_new df).
Definition c_resurrected_rate (df : list prow) : column :=
  rate (c_resurrected df).
Definition c_expansion_rate (df : list prow) : column :=
  rate (c_expansion df).
Definition c_contraction_rate (df : list prow) : column :=
  rate (c_contraction df).
Definition c_retained_rate (df : list prow) : column := rate (c_retained df).
Definition c_churned_rate (df : list prow) : column := rate (c_churned df).

Definition c_growth_rate (df : list prow) : column :=
  col_sub
    (col_sub
       (col_add (col_add (c_new_rate df) (c_resurrected_rate df))
                (c_expansion_rate df))
       (c_contraction_rate df))
    (c_churned_rate df).

Definition c_gross_retention (df : list prow) : column :=
  col_div (c_retained df) (shift1 (c_total df)).

Definition c_quick_ratio (df : list prow) : column :=
  col_div (col_add (col_add (c_new df) (c_resurrected df)) (c_expansion df))
          (col_sub (col_neg (c_churned df)) (c_contraction df)).

Definition c_net_churn (df : list prow) : column :=
  col_div
    (col_sub
       (col_sub (col_sub (col_neg (c_churned df)) (c_contraction df))
                (c_resurrected df))
       (c_expansion df))
    (shift1 (c_total df)).

(* The table dfgrowth as fit leaves it, after
   dfgrowth.replace(np.inf, np.nan).replace(-np.inf, np.nan). *)
Definition dfgrowth (df : list prow) : frame :=
  mkframe (growth_index df)
    (map (fun nc => (fst nc, replace_inf (snd nc)))
       [("new_ids", c_new_ids df); ("total_ids", c_total_ids df);
        ("total_orders", c_total_orders df); ("new", c_new df);
        ("resurrected", c_resurrected df); ("expansion", c_expansion df);
        ("contraction", c_contraction df); ("retained", c_retained df);
        ("churned", c_churned df); ("total", c_total df);
        ("total_rev2", c_total_rev2 df); ("total_rev-1", c_total_rev_1 df);
        ("new_rate", c_new_rate df);
        ("resurrected_rate", c_resurrected_rate df);
        ("expansion_rate", c_expansion_rate df);
        ("contraction_rate", c_contraction_rate df);
        ("retained_rate", c_retained_rate df);
        ("churned_rate", c_churned_rate df);
        ("growth_rate", c_growth_rate df);
        ("gross_retention", c_gross_retention df);
        ("quick_ratio", c_quick_ratio df);
        ("net_churn", c_net_churn df)]%string).

(* The column list of self.df=dfgrowth[[...]] *)
Definition df_column_list : list string :=
  ["total"; "new"; "resurrected"; "expansion"; "contraction"; "retained";
   "churned";
   "new_rate"; "resurrected_rate"; "expansion_rate"; "retained_rate";
   "churned_rate";
   "growth_rate"; "gross_retention"; "quick_ratio"; "net_churn"]%string.

(* The names under which fit copies the columns of dfgrowth to the
   attributes self.total ... self.net_churn. *)
Definition attribute_list : list string :=
  ["total"; "new"; "resurrected"; "expansion"; "contraction"; "retained";
   "churned";
   "new_rate"; "resurrected_rate"; "expansion_rate"; "contraction_rate";
   "retained_rate"; "churned_rate";
   "growth_rate"; "gross_retention"; "quick_ratio"; "net_churn"]%string.

Record GrowthAccounting : Type := mkGrowthAccounting {
  self_period : tipo;
  self_simple : bool;
  period_rep_list : list date;
  (* self.total ... self.net_churn, by name *)
  arrays : columns;
  df : option frame
}.

Definition init (period : tipo) (simple : bool) : GrowthAccounting :=
  mkGrowthAccounting period simple [] [] None.

(* fit(self,data,column_date,column_id,column_input=None); the labels
   period_list, which only the plots read, are left out. *)
Definition fit (self : GrowthAccounting) (data : list event)
  (column_input : option string) : result GrowthAccounting :=
  if negb (self_simple self) && not_given column_input
  then Raise (ValueError "simple = False requires argument 'column_input'")
  else
    df <- prepare (self_period self) (self_simple self) data ;;
    let g := dfgrowth df in
    arrays <- select_cols attribute_list (cols g) ;;
    table <- select_cols df_column_list (cols g) ;;
    Ok (mkGrowthAccounting (self_period self) (self_simple self)
          (index g) arrays (Some (mkframe (index g) table))).

End GrowthAccountingPmf.

(** Names for parts of the functions above, used to state facts about
    them. *)

(* The check that [month_day] finds the month and day of day [k] of a year. *)
Definition month_day_ok (L : bool) (k : nat) : bool :=
  let n := Z.of_nat k in
  let '(m, d) := month_day n L in
  (1 <=? m) && (m <=? 12) && (1 <=? d)
  && (d <=? (if (m =? 2) && L then 29 else tbl DAYS_IN_MONTH m))
  && (tbl DAYS_BEFORE_MONTH m + (if (m >? 2) && L then 1 else 0) + d
      =? n + 1).

(* The ordinal of January 1st. *)
Definition firstday (y : Z) : Z := ymd2ord y 1 1.

(* The week that the '28d' branch passes to strptime. *)
Definition quad_week (w : Z) : Z := if negb (w / 4 =? 0) then w / 4 * 4 else 1.

(* The month that the 'q' branch passes to dt.date. *)
Definition quarter_month (m : Z) : Z :=
  if negb (m / 3 =? 0) then m / 3 * 3 else 1.

(* The 28-day anchor as the specification words it: quad = w//4 if
   w//4 != 0 else 1, anchor = Monday of ISO week quad*4.  Kept apart from
   [custom_representative] to compare the two. *)
Definition spec_representative_28d (d : date) : result date :=
  let '(iy, iw, _) := isocalendar d in
  let quad := if negb (iw / 4 =? 0) then iw / 4 else 1 in
  strptime_GVu iy (quad * 4) 1.

(* What the preparation guarantees about the columns 'period' and 'cohort'
   of df: the cohort of a row is the earliest period among the rows of the
   same id. *)
Record well_prepared (df : list prow) : Prop := {
  cohort_of_id :
    forall r r', In r df -> In r' df -> r_id r = r_id r' ->
                 r_cohort r = r_cohort r';
  cohort_least :
    forall r r', In r df -> In r' df -> r_id r = r_id r' ->
                 date_leb (r_cohort r) (r_period r') = true;
  cohort_attained :
    forall r, In r df ->
              exists r', In r' df /\ r_id r' = r_id r
                         /\ r_period r' = r_cohort r
}.

(* The cells of the grid: every cohort of [cs] with every period of [ps]
   that is not before it. *)
Definition grid_pairs (cs ps : list date) : list (date * date) :=
  flat_map (fun c => map (pair c) (filter (date_leb c) ps)) cs.

(* The rows of the grid that belong to cohort [c]. *)
Definition rows_of_cohort (c : date) (g : list CohortsPmf.cell_key)
  : list CohortsPmf.cell_key :=
  filter (fun k => date_eqb (CohortsPmf.cohort k) c) g.

Definition date_lt (a b : date) : Prop := date_compare a b = Lt.

(* [c] is the cohort of some row of df; [p] is the period of some row. *)
Definition observed_cohort (df : list prow) (c : date) : Prop :=
  exists r, In r df /\ r_cohort r = c.
Definition observed_period (df : list prow) (p : date) : Prop :=
  exists r, In r df /\ r_period r = p.

(* Two states of a Cohorts object that hold the same df_period_cohort and
   the same key columns of df_cohorts. *)
Definition same_grid (self self' : CohortsPmf.Cohorts) : Prop :=
  CohortsPmf.df_period_cohort self' = CohortsPmf.df_period_cohort self
  /\ option_map CohortsPmf.keys (CohortsPmf.df_cohorts self')
     = option_map CohortsPmf.keys (CohortsPmf.df_cohorts self).

(* The rows of df that fall in the cell of key [k]. *)
Definition cell_rows (df : list prow) (k : CohortsPmf.cell_key) : list prow :=
  filter (fun r => cmp_eqb CohortsPmf.cmp2 (CohortsPmf.row_key2 r)
                     (CohortsPmf.key2 k)) df.

(* A small dataset: id 1 is active in January and in March 2024, id 2 in
   February 2024 only. *)
Definition sample_events : list event :=
  [mkevent 1 (mkdate 2024 1 5) 1; mkevent 1 (mkdate 2024 3 9) 1;
   mkevent 2 (mkdate 2024 2 7) 1].

Definition jan : date := mkdate 2024 1 1.
Definition feb : date := mkdate 2024 2 1.
Definition mar : date := mkdate 2024 3 1.

(* The position of row [i] within its group: the number of earlier rows
   with the same key. *)
Definition rank_of {K} (eqb : K -> K -> bool) (ks : list K) (i : nat) (k : K)
  : nat :=
  List.length (filter (fun x => eqb x k) (firstn i ks)).

(* The keys that unstack-fill-stack followed by a filter on the keys
   leaves: every row label with the column labels that pass. *)
Definition cross_pairs {K1 K2} (P : K1 -> K2 -> bool) (rows : list K1)
  (cols : list K2) : list (K1 * K2) :=
  flat_map (fun a => map (pair a) (filter (P a) cols)) rows.

(* The order of the rows of df_users: by id and cohort, then by period. *)
Definition cmp3 : (Z * date) * date -> (Z * date) * date -> comparison :=
  pair_compare GrowthAccountingPmf.id_cohort_compare date_compare.

(* The rows of df_revenue of period [p]. *)
Definition rows_of_period (p : date)
  (rev : list GrowthAccountingPmf.revenue_row)
  : list GrowthAccountingPmf.revenue_row :=
  filter (fun r => date_eqb (GrowthAccountingPmf.v_period_rep r) p) rev.

(* The sum of column [col] over the rows of class [cond] of period [p]. *)
Definition class_sum (cond : GrowthAccountingPmf.revenue_row -> bool)
  (col : GrowthAccountingPmf.revenue_row -> option Q) (p : date)
  (rev : list GrowthAccountingPmf.revenue_row) : Q :=
  sum_skipna (map col (filter cond (rows_of_period p rev))).

(* What a row adds to the sum of a class. *)
Definition contrib {A} (cond : A -> bool) (col : A -> option Q) (v : A) : Q :=
  if cond v then match col v with Some q => q | None => 0%Q end else 0%Q.

Fixpoint qsum {A} (f : A -> Q) (l : list A) : Q :=
  match l with
  | [] => 0%Q
  | v :: l' => (f v + qsum f l')%Q
  end.

(* The table self.df of a fitted GrowthAccounting, column by column. *)
Definition df_table (df : list prow) : columns :=
  let r := replace_inf in
  [("total", r (GrowthAccountingPmf.c_total df));
   ("new", r (GrowthAccountingPmf.c_new df));
   ("resurrected", r (GrowthAccountingPmf.c_resurrected df));
   ("expansion", r (GrowthAccountingPmf.c_expansion df));
   ("contraction", r (GrowthAccountingPmf.c_contraction df));
   ("retained", r (GrowthAccountingPmf.c_retained df));
   ("churned", r (GrowthAccountingPmf.c_churned df));
   ("new_rate", r (GrowthAccountingPmf.c_new_rate df));
   ("resurrected_rate", r (GrowthAccountingPmf.c_resurrected_rate df));
   ("expansion_rate", r (GrowthAccountingPmf.c_expansion_rate df));
   ("retained_rate", r (GrowthAccountingPmf.c_retained_rate df));
   ("churned_rate", r (GrowthAccountingPmf.c_churned_rate df));
   ("growth_rate", r (GrowthAccountingPmf.c_growth_rate df));
   ("gross_retention", r (GrowthAccountingPmf.c_gross_retention df));
   ("quick_ratio", r (GrowthAccountingPmf.c_quick_ratio df));
   ("net_churn", r (GrowthAccountingPmf.c_net_churn df))]%string.


Definition is_fin (x : fval) : bool :=
  match x with Fin _ => true | _ => false end.

(* The six categories: the name of the column, the class of rows it sums
   and the column of df_revenue that is summed. *)
Definition category_classes
  : list (string * (GrowthAccountingPmf.revenue_row -> bool)
          * (GrowthAccountingPmf.revenue_row -> option Q)) :=
  [("new"%string, GrowthAccountingPmf.is_new,
    GrowthAccountingPmf.some_revenue);
   ("resurrected"%string, GrowthAccountingPmf.is_resurrected,
    GrowthAccountingPmf.some_revenue);
   ("expansion"%string, GrowthAccountingPmf.is_expansion,
    GrowthAccountingPmf.v_revchange);
   ("contraction"%string, GrowthAccountingPmf.is_contraction,
    GrowthAccountingPmf.v_revchange);
   ("retained"%string, GrowthAccountingPmf.is_retained,
    GrowthAccountingPmf.v_retained);
   ("churned"%string, GrowthAccountingPmf.is_churned,
    GrowthAccountingPmf.v_revchange)].


(* The quantity of id [id] in period [p]: the sum of the input column over
   the rows of df of that id and period. *)
Definition id_period_rows (df : list prow) (id : Z) (p : date) : list prow :=
  filter (fun r => (r_id r =? id) && date_eqb (r_period r) p) df.

Definition input_sum (rows : list prow) : Q := qsum r_input rows.

(* The rows of df of period [p]. *)
Definition events_of_period (p : date) (df : list prow) : list prow :=
  filter (fun r => date_eqb (r_period r) p) df.

(* The largest distance, in days, between a date and the representative
   of its period. *)
Definition span (t : tipo) : Z :=
  match t with
  | T7d => 6
  | T28d => 27
  | Tm => 30
  | Td => 0
  | Tq => 91
  end.

(** ** aux.py: the labels of the periods *)

(* The text of a period tag, as the constructors keep it in self.period. *)
Definition tag (t : tipo) : string :=
  match t with
  | T7d => "7d"
  | T28d => "28d"
  | Tm => "m"
  | Td => "d"
  | Tq => "q"
  end.

Module Labels.

(* str(n) of an int *)
Definition str (n : Z) : string :=
  DecimalString.NilZero.string_of_int (Z.to_int n).

Fixpoint zeros (k : nat) : string :=
  match k with
  | O => EmptyString
  | S k' => String "0" (zeros k')
  end.

(* Zero padding on the left up to a width, as '{:02d}' does, and as the
   directives %Y (width 4), %m and %d (width 2) of strftime do, for the
   numbers of a date. *)
Definition zfill (w : nat) (s : string) : string :=
  (zeros (w - String.length s) ++ s)%string.

(* '{:02d}'.format(n) *)
Definition format_02d (n : Z) : string := zfill 2 (str n).

Definition strftime_Y (d : date) : string := zfill 4 (str (year d)).
Definition strftime_m (d : date) : string := zfill 2 (str (month d)).
Definition strftime_d (d : date) : string := zfill 2 (str (day d)).

(* str(x[0])+'-w{:02d}'.format(x[1]) *)
Definition period_7d (d : date) : string :=
  let '(iy, iw, _) := isocalendar d in
  (str iy ++ "-w" ++ format_02d iw)%string.

(* str(x[0])+'-28d-'+str(x[1]//4+1) *)
Definition period_28d (d : date) : string :=
  let '(iy, iw, _) := isocalendar d in
  (str iy ++ "-28d-" ++ str (iw / 4 + 1))%string.

(* x=date.strftime("%Y-%m/%d").split('/'): x[0] is the text before the
   '/', the year and the month. *)
Definition period_w (d : date) : string :=
  let x0 := (strftime_Y d ++ "-" ++ strftime_m d)%string in
  let day := day d in
  if day <? 8 then (x0 ++ "-" ++ "w1")%string
  else if day <? 15 then (x0 ++ "-" ++ "w2")%string
  else if day <? 22 then (x0 ++ "-" ++ "w3")%string
  else if day <? 28 then (x0 ++ "-" ++ "w4")%string
  else (x0 ++ "-" ++ "w5")%string.

(* x=date.strftime("%Y/%m").split('/'): x[0] is the year. *)
Definition period_q (d : date) : string :=
  let x0 := strftime_Y d in
  let month := month d in
  if month <? 4 then (x0 ++ "-" ++ "q1")%string
  else if month <? 7 then (x0 ++ "-" ++ "q2")%string
  else if month <? 10 then (x0 ++ "-" ++ "q3")%string
  else (x0 ++ "-" ++ "q4")%string.

(* date.strftime("%Y-%m-%d") *)
Definition period_d (d : date) : string :=
  (strftime_Y d ++ "-" ++ strftime_m d ++ "-" ++ strftime_d d)%string.

(* date.strftime("%Y-%m") *)
Definition period_m (d : date) : string :=
  (strftime_Y d ++ "-" ++ strftime_m d)%string.

(* custom_period: a tag that matches no branch falls off the end of the
   function, which then returns None. *)
Definition custom_period (tipo : string) (d : date) : option string :=
  if String.eqb tipo "7d" then Some (period_7d d)
  else if String.eqb tipo "28d" then Some (period_28d d)
  else if String.eqb tipo "w" then Some (period_w d)
  else if String.eqb tipo "m" then Some (period_m d)
  else if String.eqb tipo "d" then Some (period_d d)
  else if String.eqb tipo "q" then Some (period_q d)
  else None.

End Labels.

(* Whether a text holds the character '-'. *)
Fixpoint has_dash (s : string) : bool :=
  match s with
  | EmptyString => false
  | String c s' => Ascii.eqb c "-" || has_dash s'
  end.

(* The number that a text of digits writes, leading zeros allowed. *)
Definition value (s : string) : option Z :=
  option_map Z.of_uint (DecimalString.NilEmpty.uint_of_string s).

(** ** The constructors of the two classes *)

(* str.lower(), on the letters A-Z (no other character lowers to one of
   the letters of a period tag). *)
Definition lower_char (c : ascii) : ascii :=
  let n := nat_of_ascii c in
  if ((65 <=? n) && (n <=? 90))%nat then ascii_of_nat (n + 32) else c.

Fixpoint lower (s : string) : string :=
  match s with
  | EmptyString => EmptyString
  | String c s' => String (lower_char c) (lower s')
  end.

(* _period in ['m','q','d','28d','7d'] *)
Definition tag_of (s : string) : option tipo :=
  if String.eqb s "m" then Some Tm
  else if String.eqb s "q" then Some Tq
  else if String.eqb s "d" then Some Td
  else if String.eqb s "28d" then Some T28d
  else if String.eqb s "7d" then Some T7d
  else None.

Module Constructors.

(* Cohorts(period, simple): __init__ of cohorts_pmf.py *)
Definition Cohorts (period : string) (simple : bool)
  : result CohortsPmf.Cohorts :=
  match tag_of (lower period) with
  | Some t => Ok (CohortsPmf.init t simple)
  | None =>
      Raise (ValueError "Period should be one of those: m, q, d, 28d, 7d.")
  end.

(* GrowthAccounting(period, simple): __init__ of growth_accounting_pmf.py *)
Definition GrowthAccounting (period : string) (simple : bool)
  : result GrowthAccountingPmf.GrowthAccounting :=
  match tag_of (lower period) with
  | Some t => Ok (GrowthAccountingPmf.init t simple)
  | None =>
      Raise (ValueError
               "Period paremeter should be in: {'m', 'q', 'd', '28d', '7d'}")
  end.

End Constructors.

(* The spellings of a period that the constructors accept. *)
Definition accepted_periods : list string :=
  ["m"; "M"; "q"; "Q"; "d"; "D"; "28d"; "28D"; "7d"; "7D"]%string.

(** Names for the columns that the metric methods of Cohorts build. *)

(* The column that groupby('cohort').apply(perc, ...) adds, from the two
   columns it reads. *)
Definition perc_column (keys : list CohortsPmf.cell_key) (c1 c2 : column)
  : column :=
  groupby_apply date_eqb
    (fun x : CohortsPmf.cell_key * (fval * fval) => CohortsPmf.cohort (fst x))
    (fun g => CohortsPmf.perc (map snd g)) NaN (combine keys (combine c1 c2)).

(* The column that groupby('cohort').apply(fn, ...) adds, for churn and
   accum. *)
Definition derived_column (fn : list fval -> list fval)
  (keys : list CohortsPmf.cell_key) (c : column) : column :=
  groupby_apply date_eqb
    (fun x : CohortsPmf.cell_key * fval => CohortsPmf.cohort (fst x))
    (fun g => fn (map snd g)) NaN (combine keys c).

(* The columns 'total' and 'unique_users' over the grid of df. *)
Definition total_column (df : list prow) : column :=
  align CohortsPmf.cmp2 (map CohortsPmf.key2 (CohortsPmf.grid df))
    (groupby_agg CohortsPmf.cmp2 CohortsPmf.row_key2
       (fun g => sum_skipna (map (fun r => Some (cell column_input r)) g))
       df).

Definition unique_users_column (df : list prow) : column :=
  align CohortsPmf.cmp2 (map CohortsPmf.key2 (CohortsPmf.grid df))
    (groupby_agg CohortsPmf.cmp2 CohortsPmf.row_key2
       (fun g => CohortsPmf.nunique (map (cell column_id) g)) df).

(* The columns of df_cohorts once 'total', or 'unique_users', has been
   made sure of. *)
Definition with_total (df : list prow) (cols : columns) : columns :=
  if has_col "total" cols then cols
  else set_col "perc_total"
         (perc_column (CohortsPmf.grid df) (total_column df)
            (total_column df))
         (set_col "total" (total_column df) cols).

Definition with_unique_users (df : list prow) (cols : columns) : columns :=
  if has_col "unique_users" cols then cols
  else set_col "perc_unique_users"
         (perc_column (CohortsPmf.grid df) (unique_users_column df)
            (unique_users_column df))
         (set_col "unique_users" (unique_users_column df) cols).

(* What fit and the metric methods keep true of the columns of
   df_cohorts: every column is as long as the grid, and the columns
   'total' and 'unique_users', when there, are the ones computed over
   df. *)
Definition columns_ok (df : list prow) (cs : columns) : Prop :=
  (forall name col, find_col name cs = Some col ->
                    List.length col = List.length (CohortsPmf.grid df))
  /\ (forall col, find_col "total" cs = Some col -> col = total_column df)
  /\ (forall col, find_col "unique_users" cs = Some col ->
                  col = unique_users_column df).

(* A Cohorts object after fit over the prepared table df. *)
Definition fitted (df : list prow) (self : CohortsPmf.Cohorts) : Prop :=
  CohortsPmf.df_period_cohort self = Some df
  /\ exists f,
       CohortsPmf.df_cohorts self = Some f
       /\ CohortsPmf.keys f = CohortsPmf.grid df
       /\ columns_ok df (CohortsPmf.cols f).

(* The columns of df_cohorts after the method that fit calls for one item
   of how, from the columns before it; None when the method raises. *)
Definition item_columns (df : list prow) (item : string) (cs : columns)
  : option columns :=
  let T := total_column df in
  let U := unique_users_column df in
  let g := CohortsPmf.grid df in
  if String.eqb item "total" then
    Some (set_col "perc_total" (perc_column g T T) (set_col "total" T cs))
  else if String.eqb item "churn_total" then
    Some (set_col "perc_churn_total"
            (perc_column g (derived_column CohortsPmf.churn g T) T)
            (set_col "churn_total" (derived_column CohortsPmf.churn g T)
               (with_total df cs)))
  else if String.eqb item "accum" then
    Some (set_col "perc_accum"
            (perc_column g (derived_column CohortsPmf.accum g T) T)
            (set_col "accum" (derived_column CohortsPmf.accum g T)
               (with_total df cs)))
  else if String.eqb item "unique_users" then
    Some (set_col "perc_unique_users" (perc_column g U U)
            (set_col "unique_users" U cs))
  else if String.eqb item "churn_unique_users" then
    if has_col "unique_users" cs then
      Some (set_col "perc_churn_unique"
              (perc_column g (derived_column CohortsPmf.churn g U) U)
              (set_col "churn_unique" (derived_column CohortsPmf.churn g U)
                 cs))
    else None
  else if String.eqb item "per_user" then
    Some (set_col "perc_per_user"
            (perc_column g (zip_with fdiv T U) (zip_with fdiv T U))
            (set_col "per_user" (zip_with fdiv T U)
               (with_unique_users df (with_total df cs))))
  else None.

Fixpoint how_columns (df : list prow) (how : list string) (cs : columns)
  : option columns :=
  match how with
  | [] => Some cs
  | item :: how' =>
      match item_columns df item cs with
      | Some cs' => how_columns df how' cs'
      | None => None
      end
  end.

(* The names that fit accepts in how. *)
Definition how_names : list string :=
  ["total"; "churn_total"; "accum"; "unique_users"; "churn_unique_users";
   "per_user"]%string.

(* The columns that an item of how adds to df_cohorts. *)
Definition columns_of_item (item : string) : list string :=
  if String.eqb item "churn_unique_users"
  then ["churn_unique"; "perc_churn_unique"]%string
  else [item; ("perc_" ++ item)%string].

(* Every name that a metric method gives to a column of df_cohorts. *)
Definition metric_columns : list string :=
  ["total"; "perc_total"; "churn_total"; "perc_churn_total"; "accum";
   "perc_accum"; "unique_users"; "perc_unique_users"; "churn_unique";
   "perc_churn_unique"; "per_user"; "perc_per_user"]%string.

(* The value of a column of df_cohorts in the first row of cohort [c]:
   what perc and churn read with .iloc[0]. *)
Definition head_value (keys : list CohortsPmf.cell_key) (col : column)
  (c : date) : fval :=
  hd NaN
    (map snd
       (filter (fun x : CohortsPmf.cell_key * fval =>
                  date_eqb (CohortsPmf.cohort (fst x)) c)
               (combine keys col))).

(* The sum of the finite cells of a column. *)
Fixpoint fin_sum (l : list fval) : Q :=
  match l with
  | [] => 0%Q
  | Fin q :: l' => (q + fin_sum l')%Q
  | _ :: l' => fin_sum l'
  end.

(* The rows of df of cohort [c] with a period up to [p]. *)
Definition cohort_rows_until (df : list prow) (c p : date) : list prow :=
  filter (fun r => date_eqb (r_cohort r) c && date_leb (r_period r) p) df.

(* The number of distinct ids among rows of df. *)
Definition distinct_ids (rows : list prow) : Q :=
  inject_Z (Z.of_nat (List.length (nodup Z.eq_dec (map r_id rows)))).

(* The cell of 'total' for the grid row of key [k]. *)
Definition cell_total (df : list prow) (k : CohortsPmf.cell_key) : fval :=
  match cell_rows df k with
  | [] => NaN
  | rows => Fin (input_sum rows)
  end.


(** Names for the cells of df_users and df_revenue and for the history of
    an id, used to state facts about the growth accounting. *)

(* The cell of 'revenue' that df_revenue holds for id [id] in period [p]:
   the sum of the group of df by (column_id, 'period_rep'), 0 where the
   group is missing. *)
Definition revenue_cell (df : list prow) (id : Z) (p : date) : Q :=
  match lookup GrowthAccountingPmf.id_period_compare (id, p)
          (groupby_agg GrowthAccountingPmf.id_period_compare
             (fun r => (r_id r, r_period r))
             (fun g => sum_skipna (map (fun r => Some (r_input r)) g)) df)
  with
  | Some q => q
  | None => 0%Q
  end.

(* The cell of 'uniques' that df_users holds for a key. *)
Definition uniques_cell (df : list prow) (k : (Z * date) * date) : Z :=
  let f :=
    GrowthAccountingPmf.astype_int
      match lookup cmp3 k
              (groupby_agg cmp3 (fun r => ((r_id r, r_cohort r), r_period r))
                 count_rows df)
      with
      | Some v => v
      | None => 0%Q
      end in
  if f >? 0 then 1 else 0.

(* id [id] has a row of df in period [p]. *)
Definition active (df : list prow) (id : Z) (p : date) : bool :=
  existsb (fun r => (r_id r =? id) && date_eqb (r_period r) p) df.

(* [p'] is the latest period of df before [p]. *)
Definition latest_before (df : list prow) (p' p : date) : Prop :=
  observed_period df p' /\ date_lt p' p
  /\ forall q, observed_period df q -> date_lt q p -> date_leb q p' = true.

(* The supercolumn of a row that is not the first of its id, from the
   activity of the id in the period and in the period before. *)
Definition status_of (now before : bool) : Z :=
  match now, before with
  | true, true => 1
  | true, false => 2
  | false, true => -1
  | false, false => 0
  end.

(* The events of period [p] of the ids whose cohort is [p]. *)
Definition first_events (df : list prow) (p : date) : list prow :=
  filter (fun r => date_eqb (r_period r) p && date_eqb (r_cohort r) p) df.

(* The events of period [p] of the ids of an earlier cohort that have no
   event in period [q]. *)
Definition returning_events (df : list prow) (p q : date) : list prow :=
  filter (fun r => date_eqb (r_period r) p && negb (date_eqb (r_cohort r) p)
                   && negb (active df (r_id r) q)) df.


Definition events_of_idle (df : list prow) (p q : date) : list prow :=
  filter (fun r => date_eqb (r_period r) p && negb (active df (r_id r) q)) df.

(* The column that the metric methods give to each of their names, over
   the prepared table df. *)
Definition metric_column (df : list prow) (name : string) : option column :=
  let T := total_column df in
  let U := unique_users_column df in
  let g := CohortsPmf.grid df in
  let P := zip_with fdiv T U in
  if String.eqb name "total" then Some T
  else if String.eqb name "perc_total" then Some (perc_column g T T)
  else if String.eqb name "churn_total"
  then Some (derived_column CohortsPmf.churn g T)
  else if String.eqb name "perc_churn_total"
  then Some (perc_column g (derived_column CohortsPmf.churn g T) T)
  else if String.eqb name "accum"
  then Some (derived_column CohortsPmf.accum g T)
  else if String.eqb name "perc_accum"
  then Some (perc_column g (derived_column CohortsPmf.accum g T) T)
  else if String.eqb name "unique_users" then Some U
  else if String.eqb name "perc_unique_users" then Some (perc_column g U U)
  else if String.eqb name "churn_unique"
  then Some (derived_column CohortsPmf.churn g U)
  else if String.eqb name "perc_churn_unique"
  then Some (perc_column g (derived_column CohortsPmf.churn g U) U)
  else if String.eqb name "per_user" then Some P
  else if String.eqb name "perc_per_user" then Some (perc_column g P P)
  else None.

(* Every column of df_cohorts is the one its name stands for. *)
Definition columns_canonical (df : list prow) (cs : columns) : Prop :=
  forall name col,
    find_col name cs = Some col -> metric_column df name = Some col.

(** ** cohorts_pmf.py: the cohort matrix *)

Module Transform.
Import CohortsPmf.

(* way: the two values that the docstrings give, 'period' and
   'period_num'. *)
Inductive way : Type := by_period | by_period_num.

(* A label of the columns of the matrix: a period or a period number. *)
Inductive wlabel : Type :=
| Wdate (d : date)
| Wnum (n : Z).

(* The order of the column labels; one matrix holds labels of one kind. *)
Definition wlabel_compare (a b : wlabel) : comparison :=
  match a, b with
  | Wdate x, Wdate y => date_compare x y
  | Wnum x, Wnum y => Z.compare x y
  | Wdate _, Wnum _ => Lt
  | Wnum _, Wdate _ => Gt
  end.

(* A cell of the matrix: the metric columns and 'period_num' give floats,
   the column 'period' gives dates. *)
Inductive mcell : Type :=
| Val (x : fval)
| Day (d : date).

Definition way_key (w : way) (k : cell_key) : wlabel :=
  match w with
  | by_period => Wdate (period k)
  | by_period_num => Wnum (period_num k)
  end.

Definition index_key (w : way) (k : cell_key) : date * wlabel :=
  (cohort k, way_key w k).

(* df_cohorts.set_index(['cohort',way])[[label]]: the cells of [label],
   keyed by cohort and way.  Once 'cohort' and [way] are the index, the
   columns left are the other key column and the metric columns; any other
   label raises KeyError. *)
Definition indexed_label (w : way) (label : string) (f : frame)
  : result (list ((date * wlabel) * mcell)) :=
  let metric :=
    c <- get_col label (cols f) ;;
    Ok (map (fun kc => (index_key w (fst kc), Val (snd kc)))
            (combine (keys f) c)) in
  match w with
  | by_period =>
      if String.eqb label "period_num"
      then Ok (map (fun k => (index_key w k,
                              Val (Fin (inject_Z (period_num k)))))
                   (keys f))
      else metric
  | by_period_num =>
      if String.eqb label "period"
      then Ok (map (fun k => (index_key w k, Day (period k))) (keys f))
      else metric
  end.

(* The cohort matrix: row labels, column labels and the rows of cells. *)
Record matrix : Type := mkmatrix {
  m_index : list date;
  m_columns : list wlabel;
  m_cells : list (list mcell)
}.

Definition key_compare : date * wlabel -> date * wlabel -> comparison :=
  pair_compare date_compare wlabel_compare.

Fixpoint has_duplicates (l : list (date * wlabel)) : bool :=
  match l with
  | [] => false
  | x :: l' => existsb (cmp_eqb key_compare x) l' || has_duplicates l'
  end.

(* frame.unstack(): one row per first key and one column per second key,
   both sorted; NaN where the frame has no row for the pair; an index
   with duplicate entries raises ValueError. *)
Definition unstack (s : list ((date * wlabel) * mcell)) : result matrix :=
  if has_duplicates (map fst s)
  then Raise (ValueError "Index contains duplicate entries, cannot reshape")
  else
    let rows := distinct_sorted date_compare (map (fun x => fst (fst x)) s) in
    let cols :=
      distinct_sorted wlabel_compare (map (fun x => snd (fst x)) s) in
    Ok (mkmatrix rows cols
          (map (fun r =>
                  map (fun c =>
                         match lookup key_compare (r, c) s with
                         | Some v => v
                         | None => Val NaN
                         end) cols) rows)).

(* transform_pd(self,label,way='period') *)
Definition transform_pd (self : Cohorts) (label : string) (w : way)
  : result matrix :=
  df_cohorts <- attr_df_cohorts self ;;
  s <- indexed_label w label df_cohorts ;;
  unstack s.

(* Series.unique(): the distinct values in order of appearance *)
Fixpoint unique_from {A} (eqb : A -> A -> bool) (seen l : list A)
  : list A :=
  match l with
  | [] => []
  | x :: l' =>
      if existsb (eqb x) seen then unique_from eqb seen l'
      else x :: unique_from eqb (x :: seen) l'
  end.

Definition unique {A} (eqb : A -> A -> bool) (l : list A) : list A :=
  unique_from eqb [] l.

(* transform_np(self,label,way='period'): list_periods, list_cohorts and
   numpy_cohorts *)
Definition transform_np (self : Cohorts) (label : string) (w : way)
  : result (list wlabel * list date * list (list mcell)) :=
  m <- transform_pd self label w ;;
  df_cohorts <- attr_df_cohorts self ;;
  let list_periods :=
    unique (cmp_eqb wlabel_compare) (map (way_key w) (keys df_cohorts)) in
  let list_cohorts := unique date_eqb (map cohort (keys df_cohorts)) in
  Ok (list_periods, list_cohorts, m_cells m).

End Transform.

(* The cell of row [i] and column [j] of a matrix. *)
Definition matrix_cell (m : Transform.matrix) (i j : nat)
  : option Transform.mcell :=
  match nth_error (Transform.m_cells m) i with
  | Some r => nth_error r j
  | None => None
  end.

Definition wlabel_lt (a b : Transform.wlabel) : Prop :=
  Transform.wlabel_compare a b = Lt.

(** ** The labels that the two fits keep for the plots *)

Definition option_string_eqb (a b : option string) : bool :=
  match a, b with
  | Some x, Some y => String.eqb x y
  | None, None => true
  | _, _ => false
  end.

Module CohortsLabels.

(* self.period_list=list(cohorts['period']
     .apply(lambda x: custom_period(self.period,x)).unique()) *)
Definition period_list (period : tipo) (cohorts : list CohortsPmf.cell_key)
  : list (option string) :=
  Transform.unique option_string_eqb
    (map (fun k => Labels.custom_period (tag period) (CohortsPmf.period k))
         cohorts).

(* self.cohort_list=list(cohorts['cohort']
     .apply(lambda x: custom_period(self.period,x)).unique()) *)
Definition cohort_list (period : tipo) (cohorts : list CohortsPmf.cell_key)
  : list (option string) :=
  Transform.unique option_string_eqb
    (map (fun k => Labels.custom_period (tag period) (CohortsPmf.cohort k))
         cohorts).

End CohortsLabels.

Module GrowthLabels.

(* self.period_list=np.array(pd.Series(dfgrowth.index)
     .apply(lambda x: custom_period(self.period,x))) *)
Definition period_list (period : tipo) (index : list date)
  : list (option string) :=
  map (Labels.custom_period (tag period)) index.

End GrowthLabels.
(** * Calendar facts *)

Module CalendarFacts.

Ltac zdiv := Z.to_euclidean_division_equations; lia.

Ltac bools :=
  repeat match goal with
  | |- context [Z.eqb ?a ?b] => destruct (Z.eqb_spec a b)
  | |- context [Z.ltb ?a ?b] => destruct (Z.ltb_spec a b)
  | |- context [Z.leb ?a ?b] => destruct (Z.leb_spec a b)
  | |- context [Z.gtb ?a ?b] => rewrite (Z.gtb_ltb a b)
  | |- context [Z.geb ?a ?b] => rewrite (Z.geb_leb a b)
  end.

Ltac tables :=
  cbv [tbl DAYS_IN_MONTH DAYS_BEFORE_MONTH nth Z.to_nat Pos.to_nat
       Pos.iter_op Nat.add Z.eqb Pos.eqb Z.gtb Z.compare Pos.compare
       Pos.compare_cont andb] in *.

Lemma is_leap_decomp a b c e :
  0 <= b <= 3 -> 0 <= c <= 24 -> 0 <= e <= 3 ->
  is_leap (400 * a + 100 * b + 4 * c + e + 1)
  = ((e =? 3) && (negb (c =? 24) || (b =? 3)))%bool.
Proof.
  intros Hb Hc He. unfold is_leap.
  bools; cbn; try reflexivity; exfalso; zdiv.
Qed.

Lemma days_before_year_decomp a b c e :
  0 <= b <= 3 -> 0 <= c <= 24 -> 0 <= e <= 3 ->
  days_before_year (400 * a + 100 * b + 4 * c + e + 1)
  = 146097 * a + 36524 * b + 1461 * c + 365 * e.
Proof.
  intros Hb Hc He. unfold days_before_year. zdiv.
Qed.

Lemma month_day_table L :
  forallb (month_day_ok L) (seq 0 (if L then 366 else 365)) = true.
Proof. destruct L; vm_compute; reflexivity. Qed.

Lemma month_day_spec (n : Z) (L : bool) :
  0 <= n < (if L then 366 else 365) ->
  let '(m, d) := month_day n L in
  1 <= m <= 12
  /\ 1 <= d <= (if (m =? 2) && L then 29 else tbl DAYS_IN_MONTH m)
  /\ tbl DAYS_BEFORE_MONTH m + (if (m >? 2) && L then 1 else 0) + d = n + 1.
Proof.
  intros Hn.
  pose proof (month_day_table L) as T.
  rewrite forallb_forall in T.
  specialize (T (Z.to_nat n)).
  assert (Hin : In (Z.to_nat n) (seq 0 (if L then 366 else 365))).
  { apply in_seq. destruct L; lia. }
  specialize (T Hin). unfold month_day_ok in T.
  rewrite Z2Nat.id in T by lia.
  destruct (month_day n L) as [m d].
  rewrite !andb_true_iff in T.
  destruct T as [[[[T1 T2] T3] T4] T5].
  apply Z.leb_le in T1, T2, T3, T4. apply Z.eqb_eq in T5.
  repeat split; assumption.
Qed.

Lemma ord2ymd_spec (n : Z) :
  1 <= n ->
  let '(y, m, d) := ord2ymd n in
  1 <= y /\ 1 <= m <= 12 /\ 1 <= d <= days_in_month y m
  /\ ymd2ord y m d = n.
Proof.
  intros Hn. unfold ord2ymd, DI400Y, DI100Y, DI4Y.
  set (n0 := n - 1).
  set (a := n0 / 146097). set (r1 := n0 mod 146097).
  set (b := r1 / 36524). set (r2 := r1 mod 36524).
  set (c := r2 / 1461). set (r3 := r2 mod 1461).
  set (e := r3 / 365). set (r4 := r3 mod 365).
  assert (Ha : n0 = 146097 * a + r1 /\ 0 <= r1 < 146097 /\ 0 <= a)
    by (subst a r1; zdiv).
  assert (Hb : r1 = 36524 * b + r2 /\ 0 <= r2 < 36524 /\ 0 <= b <= 4)
    by (subst b r2; zdiv).
  assert (Hc : r2 = 1461 * c + r3 /\ 0 <= r3 < 1461 /\ 0 <= c <= 24)
    by (subst c r3; zdiv).
  assert (He : r3 = 365 * e + r4 /\ 0 <= r4 < 365 /\ 0 <= e <= 4)
    by (subst e r4; zdiv).
  clearbody a r1 b r2 c r3 e r4.
  destruct ((e =? 4) || (b =? 4))%bool eqn:Hend.
  - (* last day of a leap year *)
    assert (Hend' : e = 4 \/ b = 4).
    { apply orb_true_iff in Hend.
      destruct Hend as [E|E]; apply Z.eqb_eq in E; auto. }
    clear Hend.
    assert (Hy : a * 400 + 1 + (b * 100 + c * 4 + e) - 1
                 = 400 * a + 100 * (if b =? 4 then 3 else b)
                   + 4 * (if b =? 4 then 24 else c) + 3 + 1).
    { destruct (Z.eqb_spec b 4); lia. }
    rewrite Hy. unfold ymd2ord, days_in_month, days_before_month.
    assert (Hl : is_leap (400 * a + 100 * (if b =? 4 then 3 else b)
                   + 4 * (if b =? 4 then 24 else c) + 3 + 1) = true).
    { rewrite is_leap_decomp by (destruct (Z.eqb_spec b 4); lia).
      destruct (Z.eqb_spec b 4); cbn; [reflexivity|].
      destruct (Z.eqb_spec c 24); cbn; [|reflexivity]. lia. }
    rewrite Hl.
    rewrite days_before_year_decomp by (destruct (Z.eqb_spec b 4); lia).
    change (12 =? 2) with false. change (12 >? 2) with true.
    change (tbl DAYS_IN_MONTH 12) with 31.
    change (tbl DAYS_BEFORE_MONTH 12) with 334.
    cbn [andb]. subst n0. destruct (Z.eqb_spec b 4); lia.
  - apply orb_false_iff in Hend. destruct Hend as [E1 E2].
    apply Z.eqb_neq in E1, E2.
    set (L := ((e =? 3) && (negb (c =? 24) || (b =? 3)))%bool).
    assert (Hr : 0 <= r4 < (if L then 366 else 365)) by (destruct L; lia).
    pose proof (month_day_spec r4 L Hr) as M.
    destruct (month_day r4 L) as [m d].
    replace (a * 400 + 1 + (b * 100 + c * 4 + e))
      with (400 * a + 100 * b + 4 * c + e + 1) by lia.
    unfold ymd2ord, days_in_month, days_before_month.
    rewrite is_leap_decomp by lia. fold L.
    rewrite days_before_year_decomp by lia.
    destruct M as (M1 & M2 & M3). subst n0.
    repeat split; try lia.
Qed.

(** Years *)

Lemma firstday_eq y : firstday y = days_before_year y + 1.
Proof.
  unfold firstday, ymd2ord, days_before_month.
  change (tbl DAYS_BEFORE_MONTH 1) with 0. change (1 >? 2) with false.
  cbn [andb]. lia.
Qed.

Lemma days_before_year_step y :
  days_before_year (y + 1)
  = days_before_year y + (if is_leap y then 366 else 365).
Proof.
  unfold days_before_year, is_leap.
  replace (y + 1 - 1) with y by lia.
  bools; cbn; zdiv.
Qed.

Lemma days_before_year_mono a b :
  a <= b -> days_before_year a + 365 * (b - a) <= days_before_year b.
Proof.
  intros Hab.
  assert (G : forall k, 0 <= k ->
            days_before_year a + 365 * k <= days_before_year (a + k)).
  { apply (natlike_ind (fun k =>
      days_before_year a + 365 * k <= days_before_year (a + k))).
    - replace (a + 0) with a by lia. lia.
    - intros k Hk IH. replace (a + Z.succ k) with (a + k + 1) by lia.
      rewrite days_before_year_step. destruct (is_leap (a + k)); lia. }
  specialize (G (b - a) ltac:(lia)).
  replace (a + (b - a)) with b in G by lia. exact G.
Qed.

Lemma days_in_year_bound y m d :
  1 <= m <= 12 -> 1 <= d <= days_in_month y m ->
  1 <= days_before_month y m + d <= (if is_leap y then 366 else 365).
Proof.
  intros Hm Hd. unfold days_in_month, days_before_month in *.
  assert (C : m = 1 \/ m = 2 \/ m = 3 \/ m = 4 \/ m = 5 \/ m = 6 \/ m = 7
              \/ m = 8 \/ m = 9 \/ m = 10 \/ m = 11 \/ m = 12) by lia.
  destruct (is_leap y);
    repeat (destruct C as [C|C]; [subst m; tables; lia|]);
    subst m; tables; lia.
Qed.

Lemma ymd2ord_year_range y m d :
  1 <= m <= 12 -> 1 <= d <= days_in_month y m ->
  firstday y <= ymd2ord y m d < firstday (y + 1).
Proof.
  intros Hm Hd. rewrite !firstday_eq, days_before_year_step.
  pose proof (days_in_year_bound y m d Hm Hd). unfold ymd2ord.
  destruct (is_leap y); lia.
Qed.

Lemma year_unique y y' n :
  firstday y <= n < firstday (y + 1) ->
  firstday y' <= n < firstday (y' + 1) -> y = y'.
Proof.
  rewrite !firstday_eq. intros H H'.
  destruct (Z_lt_le_dec y y') as [L|L].
  - pose proof (days_before_year_mono (y + 1) y'). lia.
  - destruct (Z_lt_le_dec y' y) as [L'|L']; [|lia].
    pose proof (days_before_year_mono (y' + 1) y). lia.
Qed.

Lemma valid_spec d :
  valid d = true <->
  1 <= year d <= 9999 /\ 1 <= month d <= 12
  /\ 1 <= day d <= days_in_month (year d) (month d).
Proof.
  unfold valid, valid_ymd, MINYEAR, MAXYEAR.
  rewrite !andb_true_iff, !Z.leb_le. tauto.
Qed.

(** [fromordinal] inverts [toordinal] on the ordinals it accepts. *)
Lemma fromordinal_spec n :
  1 <= n <= MAXORDINAL ->
  exists r, fromordinal n = Ok r /\ valid r = true /\ toordinal r = n.
Proof.
  intros Hn. unfold fromordinal.
  destruct (Z.ltb_spec n 1); [lia|].
  rewrite Z.gtb_ltb. destruct (Z.ltb_spec MAXORDINAL n); [lia|].
  pose proof (ord2ymd_spec n ltac:(lia)) as S.
  destruct (ord2ymd n) as [[y m] d]. destruct S as (Sy & Sm & Sd & So).
  eexists; split; [reflexivity|]. split; [|exact So].
  apply valid_spec; cbn. repeat split; try lia.
  pose proof (ymd2ord_year_range y m d Sm Sd) as R.
  rewrite So, firstday_eq in R.
  destruct (Z_le_gt_dec y 9999) as [L|L]; [exact L|].
  pose proof (days_before_year_mono 10000 y ltac:(lia)).
  change (days_before_year 10000) with 3652059 in *.
  unfold MAXORDINAL in *. lia.
Qed.

(** ISO weeks *)

Lemma isoweek1monday_spec y :
  (isoweek1monday y + 6) mod 7 = 0
  /\ firstday y - 3 <= isoweek1monday y <= firstday y + 3.
Proof.
  unfold isoweek1monday. fold (firstday y).
  rewrite Z.gtb_ltb.
  destruct (Z.ltb_spec 3 ((firstday y + 6) mod 7)); zdiv.
Qed.

Lemma firstday_step y :
  firstday (y + 1) = firstday y + (if is_leap y then 366 else 365).
Proof. rewrite !firstday_eq, days_before_year_step. lia. Qed.

Lemma isoweek1monday_step y :
  isoweek1monday (y + 1) = isoweek1monday y + 364
  \/ isoweek1monday (y + 1) = isoweek1monday y + 371.
Proof.
  pose proof (isoweek1monday_spec y) as [A1 A2].
  pose proof (isoweek1monday_spec (y + 1)) as [B1 B2].
  rewrite firstday_step in B2.
  destruct (is_leap y); zdiv.
Qed.

Lemma isocalendar_spec d :
  1 <= month d <= 12 -> 1 <= day d <= days_in_month (year d) (month d) ->
  let '(Y, W, u) := isocalendar d in
  isoweek1monday Y <= toordinal d < isoweek1monday (Y + 1)
  /\ toordinal d = isoweek1monday Y + 7 * (W - 1) + (u - 1)
  /\ 1 <= u <= 7 /\ 1 <= W /\ year d - 1 <= Y <= year d + 1.
Proof.
  intros Hm Hd. unfold isocalendar.
  pose proof (ymd2ord_year_range _ _ _ Hm Hd) as R.
  fold (toordinal d) in R.
  set (y := year d) in *. set (t := toordinal d) in *.
  pose proof (isoweek1monday_spec y) as [A1 A2].
  pose proof (isoweek1monday_step y) as S1.
  pose proof (isoweek1monday_spec (y + 1)) as [B1 B2].
  pose proof (firstday_step y) as F1.
  destruct (Z.ltb_spec ((t - isoweek1monday y) / 7) 0) as [C|C].
  - (* the last ISO week of the previous year *)
    pose proof (isoweek1monday_spec (y - 1)) as [P1 P2].
    pose proof (isoweek1monday_step (y - 1)) as S0.
    replace (y - 1 + 1) with y in * by lia.
    destruct (is_leap y); zdiv.
  - rewrite Z.geb_leb.
    destruct (Z.leb_spec 52 ((t - isoweek1monday y) / 7)) as [D|D];
      cbn [andb].
    + rewrite Z.geb_leb.
      destruct (Z.leb_spec (isoweek1monday (y + 1)) t) as [E|E].
      * pose proof (isoweek1monday_step (y + 1)) as S2.
        destruct (is_leap y); zdiv.
      * destruct (is_leap y); zdiv.
    + destruct (is_leap y); zdiv.
Qed.

Lemma firstday_1 : firstday 1 = 1.
Proof. reflexivity. Qed.

Lemma isoweek1monday_1 : isoweek1monday 1 = 1.
Proof. reflexivity. Qed.

Lemma isoweek1monday_10000 : isoweek1monday 10000 = 3652062.
Proof. reflexivity. Qed.

Lemma isoweek1monday_mono a b :
  a <= b -> isoweek1monday a + 364 * (b - a) <= isoweek1monday b.
Proof.
  intros Hab.
  assert (G : forall k, 0 <= k ->
            isoweek1monday a + 364 * k <= isoweek1monday (a + k)).
  { apply (natlike_ind (fun k =>
      isoweek1monday a + 364 * k <= isoweek1monday (a + k))).
    - replace (a + 0) with a by lia. lia.
    - intros k Hk IH. replace (a + Z.succ k) with (a + k + 1) by lia.
      destruct (isoweek1monday_step (a + k)); lia. }
  specialize (G (b - a) ltac:(lia)).
  replace (a + (b - a)) with b in G by lia. exact G.
Qed.

Lemma toordinal_range d :
  valid d = true -> 1 <= toordinal d <= MAXORDINAL.
Proof.
  intros V. apply valid_spec in V. destruct V as (Vy & Vm & Vd).
  pose proof (ymd2ord_year_range _ _ _ Vm Vd) as R.
  fold (toordinal d) in R. rewrite !firstday_eq in R.
  pose proof (days_before_year_mono 1 (year d) ltac:(lia)).
  pose proof (days_before_year_mono (year d + 1) 10000 ltac:(lia)).
  change (days_before_year 1) with 0 in *.
  change (days_before_year 10000) with 3652059 in *.
  unfold MAXORDINAL. lia.
Qed.

(** The ISO year of a valid date is a year that [date] can hold. *)
Lemma isocalendar_year_range d :
  valid d = true ->
  let '(Y, _, _) := isocalendar d in 1 <= Y <= 9999.
Proof.
  intros V. pose proof (toordinal_range d V) as T.
  apply valid_spec in V. destruct V as (Vy & Vm & Vd).
  pose proof (isocalendar_spec d Vm Vd) as S.
  destruct (isocalendar d) as [[Y W] u].
  destruct S as (S1 & S2 & S3 & S4 & S5).
  split.
  - destruct (Z_le_gt_dec 1 Y) as [L|L]; [exact L|].
    pose proof (isoweek1monday_mono (Y + 1) 1 ltac:(lia)).
    rewrite isoweek1monday_1 in *. lia.
  - destruct (Z_le_gt_dec Y 9999) as [L|L]; [exact L|].
    pose proof (isoweek1monday_mono 10000 Y ltac:(lia)).
    rewrite isoweek1monday_10000 in *. unfold MAXORDINAL in *. lia.
Qed.

Lemma date_new_january y d :
  1 <= y <= 9999 -> 1 <= d <= 31 ->
  date_new y 1 d = Ok (mkdate y 1 d)
  /\ toordinal (mkdate y 1 d) = firstday y + d - 1.
Proof.
  intros Hy Hd. split.
  - unfold date_new, valid_ymd, days_in_month, MINYEAR, MAXYEAR.
    change (1 =? 2) with false. cbn [andb].
    change (tbl DAYS_IN_MONTH 1) with 31.
    repeat match goal with
    | |- context [?a <=? ?b] =>
        destruct (Z.leb_spec a b); [cbn [andb]|lia]
    end. reflexivity.
  - rewrite firstday_eq. unfold toordinal, ymd2ord, days_before_month.
    cbn [year month day].
    change (tbl DAYS_BEFORE_MONTH 1) with 0. change (1 >? 2) with false.
    cbn [andb]. lia.
Qed.

(** [strptime] with ['%G %V %u'] returns day [u] of ISO week [W] of ISO
    year [Y], counted from the Monday that starts week 1. *)
Lemma strptime_GVu_spec Y W u :
  1 <= Y <= 9999 -> 1 <= W <= 53 -> 1 <= u <= 7 ->
  1 <= isoweek1monday Y + 7 * (W - 1) + (u - 1) ->
  strptime_GVu Y W u
  = fromordinal (isoweek1monday Y + 7 * (W - 1) + (u - 1)).
Proof.
  intros HY HW Hu HM. unfold strptime_GVu.
  repeat match goal with
  | |- context [?a <=? ?b] =>
      destruct (Z.leb_spec a b); [cbn [andb]|lia]
  end.
  unfold calc_julian_from_V.
  destruct (date_new_january Y 4 HY ltac:(lia)) as [E4 O4].
  destruct (date_new_january Y 1 HY ltac:(lia)) as [E1 O1].
  rewrite E4. cbn [bind]. unfold isoweekday. rewrite O4.
  pose proof (isoweek1monday_spec Y) as [A1 A2].
  assert (Hc : (if (firstday Y + 4 - 1) mod 7 =? 0 then 7
                else (firstday Y + 4 - 1) mod 7) + 3
               = firstday Y - isoweek1monday Y + 7).
  { destruct (Z.eqb_spec ((firstday Y + 4 - 1) mod 7) 0); zdiv. }
  rewrite Hc.
  destruct (Z.ltb_spec (W * 7 + u - (firstday Y - isoweek1monday Y + 7)) 1)
    as [C|C].
  - rewrite E1. cbn [bind]. rewrite O1.
    assert (HY' : 1 <= Y - 1 <= 9999).
    { destruct (Z.eq_dec Y 1) as [->|]; [|lia].
      rewrite firstday_1, isoweek1monday_1 in *. lia. }
    destruct (date_new_january (Y - 1) 1 HY' ltac:(lia)) as [E0 O0].
    rewrite E0. cbn [bind]. rewrite O0.
    rewrite E0. cbn [bind]. rewrite O0. f_equal. lia.
  - cbn [bind]. rewrite E1. cbn [bind]. rewrite O1. f_equal. lia.
Qed.

(** The Monday of an ISO week, read back by [isocalendar]. *)
Lemma isocalendar_of_week_start Y W r :
  1 <= W -> isoweek1monday Y + 7 * (W - 1) < isoweek1monday (Y + 1) ->
  1 <= month r <= 12 -> 1 <= day r <= days_in_month (year r) (month r) ->
  toordinal r = isoweek1monday Y + 7 * (W - 1) ->
  isocalendar r = (Y, W, 1).
Proof.
  intros HW HM Vm Vd Ho.
  pose proof (isocalendar_spec r Vm Vd) as S.
  destruct (isocalendar r) as [[Y' W'] u'].
  destruct S as (S1 & S2 & S3 & S4 & S5).
  assert (Y' = Y).
  { destruct (Z_lt_le_dec Y' Y) as [L|L].
    - pose proof (isoweek1monday_mono (Y' + 1) Y ltac:(lia)). lia.
    - destruct (Z_lt_le_dec Y Y') as [L'|L']; [|lia].
      pose proof (isoweek1monday_mono (Y + 1) Y' ltac:(lia)). lia. }
  subst Y'. assert (W' = W /\ u' = 1) as [-> ->] by lia. reflexivity.
Qed.

(** The Monday of week [W'] of the ISO year of [d], for a week [W'] not
    after the week of [d] itself: [strptime] finds it, it is a date, and
    its own ISO calendar is [(Y, W', 1)]. *)
Lemma week_start_ok d Y W u W' :
  valid d = true -> isocalendar d = (Y, W, u) -> 1 <= W' <= W ->
  exists r, strptime_GVu Y W' 1 = Ok r /\ valid r = true
            /\ isocalendar r = (Y, W', 1)
            /\ toordinal r = isoweek1monday Y + 7 * (W' - 1).
Proof.
  intros V I HW'.
  pose proof (isocalendar_year_range d V) as YR.
  pose proof (toordinal_range d V) as TR.
  pose proof V as V'. apply valid_spec in V'. destruct V' as (Vy & Vm & Vd).
  pose proof (isocalendar_spec d Vm Vd) as S.
  rewrite I in YR, S. destruct S as (S1 & S2 & S3 & S4 & S5).
  pose proof (isoweek1monday_step Y) as St.
  assert (H1 : 1 <= isoweek1monday Y).
  { pose proof (isoweek1monday_mono 1 Y ltac:(lia)).
    rewrite isoweek1monday_1 in *. lia. }
  rewrite strptime_GVu_spec by lia.
  replace (isoweek1monday Y + 7 * (W' - 1) + (1 - 1))
    with (isoweek1monday Y + 7 * (W' - 1)) by lia.
  destruct (fromordinal_spec (isoweek1monday Y + 7 * (W' - 1)) ltac:(lia))
    as (r & Er & Vr & Or).
  exists r. repeat split; try assumption.
  apply valid_spec in Vr. destruct Vr as (Ry & Rm & Rd).
  apply isocalendar_of_week_start; try assumption; lia.
Qed.

Lemma days_in_month_pos y m : 1 <= m <= 12 -> 28 <= days_in_month y m.
Proof.
  intros Hm. unfold days_in_month.
  assert (C : m = 1 \/ m = 2 \/ m = 3 \/ m = 4 \/ m = 5 \/ m = 6 \/ m = 7
              \/ m = 8 \/ m = 9 \/ m = 10 \/ m = 11 \/ m = 12) by lia.
  destruct (is_leap y);
    repeat (destruct C as [C|C]; [subst m; tables; lia|]);
    subst m; tables; lia.
Qed.

Lemma date_new_first y m :
  1 <= y <= 9999 -> 1 <= m <= 12 ->
  date_new y m 1 = Ok (mkdate y m 1) /\ valid (mkdate y m 1) = true.
Proof.
  intros Hy Hm.
  assert (V : valid (mkdate y m 1) = true).
  { apply valid_spec; cbn. pose proof (days_in_month_pos y m Hm). lia. }
  split; [|exact V]. unfold date_new. unfold valid in V. cbn in V.
  rewrite V. reflexivity.
Qed.

End CalendarFacts.

(** * Facts about aux.py *)

Module AuxFacts.
Import CalendarFacts.

Lemma quad_week_range w : 1 <= w -> 1 <= quad_week w <= w.
Proof.
  intros H. unfold quad_week.
  destruct (Z.eqb_spec (w / 4) 0); cbn [negb]; zdiv.
Qed.

Lemma quad_week_idem w : 1 <= w -> quad_week (quad_week w) = quad_week w.
Proof.
  intros H. unfold quad_week.
  destruct (Z.eqb_spec (w / 4) 0) as [E|E]; cbn [negb].
  - reflexivity.
  - replace (w / 4 * 4 / 4) with (w / 4) by zdiv.
    destruct (Z.eqb_spec (w / 4) 0); [contradiction|reflexivity].
Qed.

Lemma quarter_month_range m : 1 <= m <= 12 -> 1 <= quarter_month m <= 12.
Proof.
  intros H. unfold quarter_month.
  destruct (Z.eqb_spec (m / 3) 0); cbn [negb]; zdiv.
Qed.

Lemma quarter_month_idem m :
  1 <= m <= 12 -> quarter_month (quarter_month m) = quarter_month m.
Proof.
  intros H. unfold quarter_month.
  destruct (Z.eqb_spec (m / 3) 0) as [E|E]; cbn [negb].
  - reflexivity.
  - replace (m / 3 * 3 / 3) with (m / 3) by zdiv.
    destruct (Z.eqb_spec (m / 3) 0); [contradiction|reflexivity].
Qed.

Lemma representative_7d d Y W u :
  valid d = true -> isocalendar d = (Y, W, u) ->
  exists r, custom_representative T7d d = Ok r /\ valid r = true
            /\ isocalendar r = (Y, W, 1).
Proof.
  intros V I.
  pose proof V as V'. apply valid_spec in V'. destruct V' as (Vy & Vm & Vd).
  pose proof (isocalendar_spec d Vm Vd) as S. rewrite I in S.
  destruct (week_start_ok d Y W u W V I ltac:(lia)) as (r & E & Vr & Ir & _).
  exists r. unfold custom_representative. rewrite I. auto.
Qed.

Lemma representative_28d d Y W u :
  valid d = true -> isocalendar d = (Y, W, u) ->
  exists r, custom_representative T28d d = Ok r /\ valid r = true
            /\ isocalendar r = (Y, quad_week W, 1).
Proof.
  intros V I.
  pose proof V as V'. apply valid_spec in V'. destruct V' as (Vy & Vm & Vd).
  pose proof (isocalendar_spec d Vm Vd) as S. rewrite I in S.
  pose proof (quad_week_range W ltac:(lia)) as Q.
  destruct (week_start_ok d Y W u (quad_week W) V I Q)
    as (r & E & Vr & Ir & _).
  exists r. unfold custom_representative. rewrite I. auto.
Qed.

Lemma representative_q d :
  valid d = true ->
  custom_representative Tq d
  = Ok (mkdate (year d) (quarter_month (month d)) 1)
  /\ valid (mkdate (year d) (quarter_month (month d)) 1) = true.
Proof.
  intros V. apply valid_spec in V. destruct V as (Vy & Vm & Vd).
  pose proof (quarter_month_range _ Vm) as Q.
  destruct (date_new_first (year d) (quarter_month (month d)) Vy Q) as [E V'].
  split; [exact E|exact V'].
Qed.

Lemma representative_m d :
  valid d = true ->
  custom_representative Tm d = Ok (mkdate (year d) (month d) 1)
  /\ valid (mkdate (year d) (month d) 1) = true.
Proof.
  intros V. apply valid_spec in V. destruct V as (Vy & Vm & Vd).
  destruct (date_new_first (year d) (month d) Vy Vm) as [E V'].
  split; [exact E|exact V'].
Qed.

(** On a date, [custom_representative] raises nothing and returns a date. *)
Lemma custom_representative_ok t d :
  valid d = true ->
  exists r, custom_representative t d = Ok r /\ valid r = true.
Proof.
  intros V. destruct t.
  - destruct (isocalendar d) as [[Y W] u] eqn:I.
    destruct (representative_7d d Y W u V I) as (r & E & Vr & _). eauto.
  - destruct (isocalendar d) as [[Y W] u] eqn:I.
    destruct (representative_28d d Y W u V I) as (r & E & Vr & _). eauto.
  - destruct (representative_m d V). eauto.
  - exists d. split; [reflexivity|exact V].
  - destruct (representative_q d V). eauto.
Qed.

Lemma custom_representative_idem t d r :
  valid d = true -> custom_representative t d = Ok r ->
  custom_representative t r = Ok r.
Proof.
  intros V E. destruct t.
  - destruct (isocalendar d) as [[Y W] u] eqn:I.
    destruct (representative_7d d Y W u V I) as (r' & E' & Vr & Ir).
    rewrite E in E'. injection E' as <-.
    unfold custom_representative in *. rewrite I in E. rewrite Ir. exact E.
  - destruct (isocalendar d) as [[Y W] u] eqn:I.
    destruct (representative_28d d Y W u V I) as (r' & E' & Vr & Ir).
    rewrite E in E'. injection E' as <-.
    pose proof V as V'. apply valid_spec in V'. destruct V' as (Vy & Vm & Vd).
    pose proof (isocalendar_spec d Vm Vd) as S. rewrite I in S.
    unfold custom_representative in *. rewrite I in E. rewrite Ir.
    fold (quad_week W) in E. fold (quad_week (quad_week W)).
    rewrite quad_week_idem by lia. exact E.
  - destruct (representative_m d V) as [E' V']. rewrite E in E'.
    injection E' as ->. exact (proj1 (representative_m _ V')).
  - cbn in *. injection E as <-. reflexivity.
  - destruct (representative_q d V) as [E' V']. rewrite E in E'.
    injection E' as ->.
    destruct (representative_q _ V') as [E'' _]. rewrite E''. cbn [year month].
    apply valid_spec in V. destruct V as (Vy & Vm & Vd).
    rewrite quarter_month_idem by exact Vm. reflexivity.
Qed.

End AuxFacts.


(** * Sorted keys, grouping and alignment *)

Section KeyFacts.
Context {K : Type} (cmp : K -> K -> comparison).
Hypothesis cmp_eq : forall a b, cmp a b = Eq <-> a = b.
Hypothesis cmp_antisym : forall a b, cmp b a = CompOpp (cmp a b).
Hypothesis cmp_trans :
  forall a b c, cmp a b = Lt -> cmp b c = Lt -> cmp a c = Lt.

Lemma cmp_eqb_true a b : cmp_eqb cmp a b = true <-> a = b.
Proof.
  unfold cmp_eqb. rewrite <- cmp_eq. destruct (cmp a b); split; congruence.
Qed.

Lemma cmp_eqb_refl a : cmp_eqb cmp a a = true.
Proof. apply cmp_eqb_true. reflexivity. Qed.

Lemma cmp_lt_neq a b : cmp a b = Lt -> a <> b.
Proof.
  intros H E. apply cmp_eq in E. congruence.
Qed.

Lemma insert_key_In k x l : In x (insert_key cmp k l) <-> x = k \/ In x l.
Proof.
  induction l as [|y l IH]; cbn.
  - intuition congruence.
  - destruct (cmp k y) eqn:E; cbn.
    + apply cmp_eq in E. subst. intuition congruence.
    + intuition congruence.
    + rewrite IH. intuition congruence.
Qed.

Lemma distinct_sorted_In x l : In x (distinct_sorted cmp l) <-> In x l.
Proof.
  induction l as [|y l IH]; cbn; [tauto|].
  rewrite insert_key_In, IH. intuition congruence.
Qed.

Lemma insert_key_sorted k l :
  StronglySorted (fun a b => cmp a b = Lt) l ->
  StronglySorted (fun a b => cmp a b = Lt) (insert_key cmp k l).
Proof.
  induction 1 as [|y l Hs IH Hall]; cbn.
  - constructor; constructor.
  - destruct (cmp k y) eqn:E.
    + constructor; assumption.
    + constructor; [constructor; assumption|].
      constructor; [exact E|].
      rewrite Forall_forall in *. intros z Hz.
      eapply cmp_trans; [exact E|auto].
    + constructor; [exact IH|].
      rewrite Forall_forall in *. intros z Hz.
      apply insert_key_In in Hz. destruct Hz as [->|Hz]; [|auto].
      rewrite cmp_antisym, E. reflexivity.
Qed.

Lemma distinct_sorted_sorted l :
  StronglySorted (fun a b => cmp a b = Lt) (distinct_sorted cmp l).
Proof.
  induction l; cbn; [constructor|]. apply insert_key_sorted. assumption.
Qed.

Lemma sorted_NoDup l :
  StronglySorted (fun a b => cmp a b = Lt) l -> NoDup l.
Proof.
  induction 1 as [|y l Hs IH Hall]; constructor; [|exact IH].
  intros Hin. rewrite Forall_forall in Hall.
  apply (cmp_lt_neq y y); auto.
Qed.

Lemma distinct_sorted_NoDup l : NoDup (distinct_sorted cmp l).
Proof. apply sorted_NoDup, distinct_sorted_sorted. Qed.

Lemma lookup_map {V} (f : K -> V) k l :
  lookup cmp k (map (fun x => (x, f x)) l)
  = if existsb (cmp_eqb cmp k) l then Some (f k) else None.
Proof.
  induction l as [|y l IH]; cbn; [reflexivity|].
  destruct (cmp_eqb cmp y k) eqn:E.
  - apply cmp_eqb_true in E. subst. rewrite cmp_eqb_refl. reflexivity.
  - assert (E' : cmp_eqb cmp k y = false).
    { destruct (cmp_eqb cmp k y) eqn:E'; [|reflexivity].
      apply cmp_eqb_true in E'. subst. rewrite cmp_eqb_refl in E.
      discriminate. }
    rewrite E'. exact IH.
Qed.

Lemma existsb_cmp_eqb k l : existsb (cmp_eqb cmp k) l = true <-> In k l.
Proof.
  rewrite existsb_exists. split.
  - intros (x & Hx & E). apply cmp_eqb_true in E. subst. exact Hx.
  - intros H. exists k. split; [exact H|apply cmp_eqb_refl].
Qed.

(** What a label finds in the result of a group-by. *)
Lemma lookup_groupby_agg {A V} (key : A -> K) (agg : list A -> V) rows k :
  lookup cmp k (groupby_agg cmp key agg rows)
  = if existsb (fun r => cmp_eqb cmp (key r) k) rows
    then Some (agg (filter (fun r => cmp_eqb cmp (key r) k) rows))
    else None.
Proof.
  unfold groupby_agg.
  rewrite (lookup_map
             (fun k => agg (filter (fun r => cmp_eqb cmp (key r) k) rows))).
  destruct (existsb (cmp_eqb cmp k) (distinct_sorted cmp (map key rows)))
    eqn:E.
  - apply (proj1 (existsb_cmp_eqb _ _)) in E.
    apply (proj1 (distinct_sorted_In _ _)) in E.
    apply in_map_iff in E. destruct E as (r & Er & Hr).
    assert (X : existsb (fun r => cmp_eqb cmp (key r) k) rows = true).
    { apply existsb_exists. exists r. split; [exact Hr|].
      apply cmp_eqb_true. exact Er. }
    rewrite X. reflexivity.
  - destruct (existsb (fun r => cmp_eqb cmp (key r) k) rows) eqn:X;
      [|reflexivity].
    apply existsb_exists in X. destruct X as (r & Hr & Er).
    apply cmp_eqb_true in Er.
    assert (In k (distinct_sorted cmp (map key rows))).
    { apply distinct_sorted_In. apply in_map_iff. eauto. }
    apply (proj2 (existsb_cmp_eqb _ _)) in H. congruence.
Qed.

Lemma groupby_agg_keys {A V} (key : A -> K) (agg : list A -> V) rows :
  map fst (groupby_agg cmp key agg rows)
  = distinct_sorted cmp (map key rows).
Proof.
  unfold groupby_agg. rewrite map_map. cbn. apply map_id.
Qed.
End KeyFacts.

Module OrderFacts.

Lemma date_compare_eq a b : date_compare a b = Eq <-> a = b.
Proof.
  destruct a as [y m d], b as [y' m' d']. unfold date_compare. cbn.
  split.
  - destruct (Z.compare_spec y y'); try discriminate.
    destruct (Z.compare_spec m m'); try discriminate.
    destruct (Z.compare_spec d d'); try discriminate.
    intros _. congruence.
  - intros E. injection E as -> -> ->. rewrite !Z.compare_refl. reflexivity.
Qed.

Lemma date_eq_dec (a b : date) : {a = b} + {a <> b}.
Proof. decide equality; apply Z.eq_dec. Qed.

Lemma date_compare_antisym a b :
  date_compare b a = CompOpp (date_compare a b).
Proof.
  destruct a as [y m d], b as [y' m' d']. unfold date_compare. cbn.
  rewrite (Z.compare_antisym y y'), (Z.compare_antisym m m'),
    (Z.compare_antisym d d').
  destruct (y ?= y'), (m ?= m'), (d ?= d'); reflexivity.
Qed.

Lemma date_compare_lt a b :
  date_compare a b = Lt <->
  year a < year b
  \/ (year a = year b
      /\ (month a < month b \/ (month a = month b /\ day a < day b))).
Proof.
  destruct a as [y m d], b as [y' m' d']. unfold date_compare. cbn.
  destruct (Z.compare_spec y y'); destruct (Z.compare_spec m m');
    destruct (Z.compare_spec d d'); split; intros; try discriminate;
    try reflexivity; lia.
Qed.

Lemma date_compare_trans a b c :
  date_compare a b = Lt -> date_compare b c = Lt -> date_compare a c = Lt.
Proof. rewrite !date_compare_lt. lia. Qed.

Lemma date_eqb_eq a b : date_eqb a b = true <-> a = b.
Proof. apply (cmp_eqb_true date_compare date_compare_eq). Qed.

Lemma date_leb_spec a b :
  date_leb a b = true <-> (a = b \/ date_compare a b = Lt).
Proof.
  unfold date_leb. rewrite <- date_compare_eq.
  destruct (date_compare a b); intuition congruence.
Qed.

Lemma date_leb_refl a : date_leb a a = true.
Proof. apply date_leb_spec. auto. Qed.

Lemma date_leb_trans a b c :
  date_leb a b = true -> date_leb b c = true -> date_leb a c = true.
Proof.
  rewrite !date_leb_spec. intros [->|H1] [->|H2]; auto.
  right. eapply date_compare_trans; eauto.
Qed.

Lemma date_leb_total a b : date_leb a b = true \/ date_leb b a = true.
Proof.
  unfold date_leb. rewrite (date_compare_antisym a b).
  destruct (date_compare a b); cbn; auto.
Qed.

Lemma date_leb_antisym a b :
  date_leb a b = true -> date_leb b a = true -> a = b.
Proof.
  unfold date_leb. rewrite (date_compare_antisym a b).
  destruct (date_compare a b) eqn:E; cbn; try discriminate.
  intros _ _. apply date_compare_eq. exact E.
Qed.

Lemma date_lt_irrefl a : ~ date_lt a a.
Proof.
  unfold date_lt. intros H.
  assert (date_compare a a = Eq) by (apply date_compare_eq; reflexivity).
  congruence.
Qed.

Lemma date_lt_not_leb a b : date_lt a b -> date_leb b a = true -> False.
Proof.
  intros L H. apply date_leb_spec in H. destruct H as [->|H].
  - exact (date_lt_irrefl _ L).
  - apply (date_lt_irrefl a). unfold date_lt in *.
    eapply date_compare_trans; eauto.
Qed.

Lemma Z_compare_antisym a b : (b ?= a) = CompOpp (a ?= b).
Proof. apply Z.compare_antisym. Qed.

Lemma Z_compare_trans a b c : (a ?= b) = Lt -> (b ?= c) = Lt -> (a ?= c) = Lt.
Proof. rewrite !Z.compare_lt_iff. lia. Qed.

Section Pairs.
Context {A B : Type} (ca : A -> A -> comparison)
        (cb : B -> B -> comparison).
Hypothesis ca_eq : forall a b, ca a b = Eq <-> a = b.
Hypothesis cb_eq : forall a b, cb a b = Eq <-> a = b.
Hypothesis ca_antisym : forall a b, ca b a = CompOpp (ca a b).
Hypothesis cb_antisym : forall a b, cb b a = CompOpp (cb a b).
Hypothesis ca_trans :
  forall a b c, ca a b = Lt -> ca b c = Lt -> ca a c = Lt.
Hypothesis cb_trans :
  forall a b c, cb a b = Lt -> cb b c = Lt -> cb a c = Lt.

Lemma pair_compare_eq x y : pair_compare ca cb x y = Eq <-> x = y.
Proof.
  destruct x as [a b], y as [a' b']. unfold pair_compare. cbn.
  destruct (ca a a') eqn:E.
  - apply ca_eq in E. subst. rewrite cb_eq. split; congruence.
  - split; [discriminate|]. intros X. injection X as -> ->.
    assert (ca a' a' = Eq) by (apply ca_eq; reflexivity). congruence.
  - split; [discriminate|]. intros X. injection X as -> ->.
    assert (ca a' a' = Eq) by (apply ca_eq; reflexivity). congruence.
Qed.

Lemma pair_compare_antisym x y :
  pair_compare ca cb y x = CompOpp (pair_compare ca cb x y).
Proof.
  destruct x as [a b], y as [a' b']. unfold pair_compare. cbn.
  rewrite (ca_antisym a a'), (cb_antisym b b').
  destruct (ca a a'); reflexivity.
Qed.

Lemma pair_compare_trans x y z :
  pair_compare ca cb x y = Lt -> pair_compare ca cb y z = Lt ->
  pair_compare ca cb x z = Lt.
Proof.
  destruct x as [a b], y as [a' b'], z as [a'' b''].
  unfold pair_compare. cbn.
  destruct (ca a a') eqn:E1; try discriminate;
    destruct (ca a' a'') eqn:E2; try discriminate; intros H1 H2.
  - apply ca_eq in E1, E2. subst.
    assert (X : ca a'' a'' = Eq) by (apply ca_eq; reflexivity).
    rewrite X. eapply cb_trans; eauto.
  - apply ca_eq in E1. subst. rewrite E2. reflexivity.
  - apply ca_eq in E2. subst. rewrite E1. reflexivity.
  - rewrite (ca_trans _ _ _ E1 E2). reflexivity.
Qed.
End Pairs.

End OrderFacts.

(** * The period calendar: claims C4, C5 and C6 *)

Module PeriodCalendar.
Import CalendarFacts AuxFacts.

(** C4 (quarterly representative).  The claim is that every date of July,
    August or September maps to July 1st, the quarters starting in months
    1, 4, 7 and 10.  The code evaluated at 2024-07-15 returns 2024-06-01:
    the month it builds is [month//3*3], so that the buckets start in
    months 1, 3, 6, 9 and 12.  The label function [period_q] of the same
    file does use the quarters January-March, April-June, ...: it puts the
    date in q3 and the representative that the code returns for it in q2.
    For no year and day does a date of July, August or September map to
    July 1st. *)
Theorem quarterly_representative_of_july :
  custom_representative Tq (mkdate 2024 7 15) = Ok (mkdate 2024 6 1)
  /\ custom_representative Tq (mkdate 2024 7 15) <> Ok (mkdate 2024 7 1)
  /\ period_q (mkdate 2024 7 15) = (2024, "q3"%string)
  /\ period_q (mkdate 2024 6 1) = (2024, "q2"%string)
  /\ map quarter_month [1; 2; 3; 4; 5; 6; 7; 8; 9; 10; 11; 12]
     = [1; 1; 3; 3; 3; 6; 6; 6; 9; 9; 9; 12]
  /\ forall y d m,
       In m [7; 8; 9] ->
       custom_representative Tq (mkdate y m d) <> Ok (mkdate y 7 1).
Proof.
  repeat split; try reflexivity.
  - vm_compute. discriminate.
  - intros y d m Hm. cbn in Hm.
    destruct Hm as [<-|[<-|[<-|[]]]]; unfold custom_representative;
      cbn [year month]; unfold date_new;
      match goal with
      | |- (if ?b then _ else _) <> _ => destruct b
      end; discriminate.
Qed.

(** C5, as stated, fails: a date of ISO week 2 (2024-01-10) is anchored by
    the code to the Monday of ISO week 1 (2024-01-01), while the rule
    "quad = w//4 if w//4 != 0 else 1, Monday of week quad*4" gives the
    Monday of ISO week 4 (2024-01-22). *)
Lemma representative_28d_week2_counterexample :
  isocalendar (mkdate 2024 1 10) = (2024, 2, 3)
  /\ custom_representative T28d (mkdate 2024 1 10) = Ok (mkdate 2024 1 1)
  /\ spec_representative_28d (mkdate 2024 1 10) = Ok (mkdate 2024 1 22)
  /\ custom_representative T28d (mkdate 2024 1 10)
     <> spec_representative_28d (mkdate 2024 1 10).
Proof.
  repeat split; try reflexivity.
  vm_compute. discriminate.
Qed.

(** C5, amended.  For every date [d] of ISO year [Y] and ISO week [w], the
    28-day representative is the Monday (ISO weekday 1) of ISO week
    [w//4*4] of [Y] when [w//4 != 0], and the Monday of ISO week 1 of [Y]
    otherwise; so the dates of ISO weeks 1-3 are anchored to the Monday of
    ISO week 1. *)
Theorem representative_28d_anchor (d : date) (Y w u : Z) :
  valid d = true -> isocalendar d = (Y, w, u) ->
  exists r,
    custom_representative T28d d = Ok r /\ valid r = true
    /\ isocalendar r = (Y, (if negb (w / 4 =? 0) then w / 4 * 4 else 1), 1)
    /\ (1 <= w <= 3 -> isocalendar r = (Y, 1, 1)).
Proof.
  intros V I.
  destruct (representative_28d d Y w u V I) as (r & E & Vr & Ir).
  exists r. repeat split; try assumption.
  intros Hw. rewrite Ir. unfold quad_week.
  replace (w / 4) with 0 by zdiv. reflexivity.
Qed.

Lemma representative_28d_anchor_witness :
  valid (mkdate 2024 1 10) = true
  /\ isocalendar (mkdate 2024 1 10) = (2024, 2, 3)
  /\ exists r,
       custom_representative T28d (mkdate 2024 1 10) = Ok r
       /\ valid r = true
       /\ isocalendar r
          = (2024, (if negb (2 / 4 =? 0) then 2 / 4 * 4 else 1), 1)
       /\ (1 <= 2 <= 3 -> isocalendar r = (2024, 1, 1)).
Proof.
  split; [reflexivity|]. split; [reflexivity|].
  apply (representative_28d_anchor (mkdate 2024 1 10) 2024 2 3);
    reflexivity.
Defined.

(** C6.  For every period tag and every date [d], [custom_representative]
    returns a date [r], and applied to [r] it returns [r] again. *)
Theorem representative_idempotent (t : tipo) (d : date) :
  valid d = true ->
  exists r, custom_representative t d = Ok r
            /\ custom_representative t r = Ok r.
Proof.
  intros V. destruct (custom_representative_ok t d V) as (r & E & Vr).
  exists r. split; [exact E|].
  exact (custom_representative_idem t d r V E).
Qed.

Lemma representative_idempotent_witness :
  valid (mkdate 2021 1 2) = true
  /\ exists r, custom_representative T28d (mkdate 2021 1 2) = Ok r
               /\ custom_representative T28d r = Ok r.
Proof.
  split; [reflexivity|].
  apply (representative_idempotent T28d (mkdate 2021 1 2)). reflexivity.
Defined.

End PeriodCalendar.

(** * Lists: group-by-apply, zip and filter *)

Module ListFacts.

Lemma length_groupby_apply_from {K A B} (eqb : K -> K -> bool)
  (key : A -> K) (g : list A -> list B) dflt all seen rest :
  List.length (groupby_apply_from eqb key g dflt all seen rest)
  = List.length rest.
Proof.
  revert seen. induction rest as [|r rest IH]; intros seen; cbn;
    [reflexivity|]. rewrite IH. reflexivity.
Qed.

Lemma length_groupby_apply {K A B} (eqb : K -> K -> bool)
  (key : A -> K) (g : list A -> list B) dflt rows :
  List.length (groupby_apply eqb key g dflt rows) = List.length rows.
Proof. apply length_groupby_apply_from. Qed.

Lemma filter_ext_eq {A} (f g : A -> bool) l :
  (forall x, f x = g x) -> filter f l = filter g l.
Proof. intros H. apply filter_ext. exact H. Qed.

Lemma skipn_nth_cons {A} (l : list A) n d :
  (n < List.length l)%nat -> nth n l d :: skipn (S n) l = skipn n l.
Proof.
  revert n. induction l as [|x l IH]; intros n H; cbn in H; [lia|].
  destruct n; cbn; [reflexivity|]. apply IH. lia.
Qed.

Section Gather.
Context {K A B : Type} (eqb : K -> K -> bool) (key : A -> K)
        (g : list A -> list B) (dflt : B).
Hypothesis eqb_eq : forall a b, eqb a b = true <-> a = b.
Hypothesis g_length : forall l, List.length (g l) = List.length l.

Lemma same_key_filter (r : A) (k : K) (l : list A) :
  key r = k ->
  filter (fun x => eqb (key x) (key r)) l = filter (fun x => eqb (key x) k) l.
Proof. intros ->. reflexivity. Qed.

Lemma gather_from all k rest :
  forall seen, rev seen ++ rest = all ->
  map snd (filter (fun x => eqb (key (fst x)) k)
             (combine rest (groupby_apply_from eqb key g dflt all seen rest)))
  = skipn (List.length (filter (fun x => eqb (key x) k) seen))
          (g (filter (fun x => eqb (key x) k) all)).
Proof.
  induction rest as [|r rest IH]; intros seen Hall.
  - cbn. rewrite app_nil_r in Hall. subst all.
    symmetry. apply skipn_all2.
    rewrite g_length, filter_rev, length_rev. lia.
  - cbn [groupby_apply_from combine filter fst].
    assert (Hall' : rev (r :: seen) ++ rest = all).
    { cbn. rewrite <- app_assoc. exact Hall. }
    specialize (IH (r :: seen) Hall').
    destruct (eqb (key r) k) eqn:E.
    + cbn [map snd]. rewrite IH. cbn [filter]. rewrite E. cbn [List.length].
      apply eqb_eq in E.
      rewrite (same_key_filter r k seen E), (same_key_filter r k all E).
      apply skipn_nth_cons.
      rewrite g_length. subst all. rewrite filter_app, length_app.
      rewrite filter_rev, length_rev. cbn [filter].
      apply eqb_eq in E. rewrite E. cbn. lia.
    + rewrite IH. cbn [filter]. rewrite E. reflexivity.
Qed.

(** The values that group-by-apply gives to the rows of one group are,
    in order, what [g] returned for that group. *)
Lemma gather rows k :
  map snd (filter (fun x => eqb (key (fst x)) k)
             (combine rows (groupby_apply eqb key g dflt rows)))
  = g (filter (fun x => eqb (key x) k) rows).
Proof.
  unfold groupby_apply. rewrite (gather_from rows k rows []); reflexivity.
Qed.

(** Row by row: the value of row [i] is the one at its rank in its group. *)
Lemma groupby_apply_from_nth all rest :
  forall seen i r, nth_error rest i = Some r ->
  nth_error (groupby_apply_from eqb key g dflt all seen rest) i
  = Some (nth (List.length
                 (filter (fun x => eqb (key x) (key r))
                         (rev (firstn i rest) ++ seen)))
              (g (filter (fun x => eqb (key x) (key r)) all)) dflt).
Proof.
  induction rest as [|r0 rest IH]; intros seen i r Hi.
  - destruct i; discriminate.
  - destruct i as [|i]; cbn in Hi.
    + injection Hi as <-. reflexivity.
    + cbn [groupby_apply_from nth_error]. rewrite (IH (r0 :: seen) i r Hi).
      cbn [firstn rev]. rewrite <- app_assoc. reflexivity.
Qed.
End Gather.

Lemma filter_map_comm {A B} (f : A -> B) (P : B -> bool) l :
  filter P (map f l) = map f (filter (fun x => P (f x)) l).
Proof.
  induction l as [|x l IH]; cbn; [reflexivity|].
  destruct (P (f x)); cbn; rewrite IH; reflexivity.
Qed.

Lemma filter_combine_fst {A B} (P : A -> bool) (a : list A) (b : list B) :
  List.length a = List.length b ->
  map fst (filter (fun x => P (fst x)) (combine a b)) = filter P a.
Proof.
  revert b. induction a as [|x a IH]; intros [|y b] H; cbn in *;
    try reflexivity; try discriminate.
  destruct (P x); cbn; rewrite IH by lia; reflexivity.
Qed.

Lemma map_fst_combine {A B} (a : list A) (b : list B) :
  List.length a = List.length b -> map fst (combine a b) = a.
Proof.
  revert b. induction a as [|x a IH]; intros [|y b] H; cbn in *;
    try reflexivity; try discriminate.
  rewrite IH by lia. reflexivity.
Qed.

Lemma map_snd_combine {A B} (a : list A) (b : list B) :
  List.length a = List.length b -> map snd (combine a b) = b.
Proof.
  revert b. induction a as [|x a IH]; intros [|y b] H; cbn in *;
    try reflexivity; try discriminate.
  rewrite IH by lia. reflexivity.
Qed.

Lemma length_zip_with {A B C} (f : A -> B -> C) a b :
  List.length a = List.length b ->
  List.length (zip_with f a b) = List.length a.
Proof.
  intros H. unfold zip_with. rewrite length_map, length_combine. lia.
Qed.

Lemma nth_error_zip_with {A B C} (f : A -> B -> C) a b i x y :
  nth_error a i = Some x -> nth_error b i = Some y ->
  nth_error (zip_with f a b) i = Some (f x y).
Proof.
  revert b i. induction a as [|x0 a IH]; intros [|y0 b] [|i] Ha Hb;
    cbn in *; try discriminate.
  - congruence.
  - apply IH; assumption.
Qed.

Lemma nth_error_zip_with_inv {A B C} (f : A -> B -> C) a b i z :
  nth_error (zip_with f a b) i = Some z ->
  exists x y, nth_error a i = Some x /\ nth_error b i = Some y /\ z = f x y.
Proof.
  revert b i. induction a as [|x0 a IH]; intros [|y0 b] [|i] H;
    cbn in *; try discriminate.
  - injection H as <-. eauto.
  - apply IH. exact H.
Qed.

Lemma filter_flat_map {A B} (P : B -> bool) (f : A -> list B) l :
  filter P (flat_map f l) = flat_map (fun x => filter P (f x)) l.
Proof.
  induction l as [|x l IH]; cbn; [reflexivity|].
  rewrite filter_app, IH. reflexivity.
Qed.

Lemma map_flat_map {A B C} (h : B -> C) (f : A -> list B) l :
  map h (flat_map f l) = flat_map (fun x => map h (f x)) l.
Proof.
  induction l as [|x l IH]; cbn; [reflexivity|].
  rewrite map_app, IH. reflexivity.
Qed.

Lemma flat_map_ext_in {A B} (f g : A -> list B) l :
  (forall x, In x l -> f x = g x) -> flat_map f l = flat_map g l.
Proof.
  induction l as [|x l IH]; intros H; cbn; [reflexivity|].
  rewrite H by (left; reflexivity). rewrite IH; [reflexivity|].
  intros y Hy. apply H. right. exact Hy.
Qed.

Lemma filter_false {A} (P : A -> bool) l :
  (forall x, In x l -> P x = false) -> filter P l = [].
Proof.
  induction l as [|x l IH]; intros H; cbn; [reflexivity|].
  rewrite H by (left; reflexivity). apply IH. intros y Hy. apply H.
  right. exact Hy.
Qed.

Lemma filter_true {A} (P : A -> bool) l :
  (forall x, In x l -> P x = true) -> filter P l = l.
Proof.
  induction l as [|x l IH]; intros H; cbn; [reflexivity|].
  rewrite H by (left; reflexivity). rewrite IH; [reflexivity|].
  intros y Hy. apply H. right. exact Hy.
Qed.

Lemma sorted_filter {A} (R : A -> A -> Prop) (P : A -> bool) l :
  StronglySorted R l -> StronglySorted R (filter P l).
Proof.
  induction 1 as [|x l Hs IH Hall]; cbn; [constructor|].
  destruct (P x); [|exact IH]. constructor; [exact IH|].
  rewrite Forall_forall in *. intros y Hy. apply filter_In in Hy.
  apply Hall. tauto.
Qed.

Lemma length_filter_map {A B} (f : A -> B) (P : B -> bool) l :
  List.length (filter (fun x => P (f x)) l)
  = List.length (filter P (map f l)).
Proof. rewrite filter_map_comm, length_map. reflexivity. Qed.

Lemma nth_error_filter_rank {A} (P : A -> bool) l :
  forall i r, nth_error l i = Some r -> P r = true ->
  nth_error (filter P l) (List.length (filter P (firstn i l))) = Some r.
Proof.
  induction l as [|x l IH]; intros [|i] r H Hp; cbn in *; try discriminate.
  - injection H as ->. rewrite Hp. reflexivity.
  - destruct (P x); cbn; apply IH; assumption.
Qed.

Lemma length_diff_from {A} (sub : A -> A -> A) prev l :
  List.length (diff_from sub prev l) = List.length l.
Proof.
  revert prev. induction l as [|x l IH]; intros prev; cbn; [reflexivity|].
  rewrite IH. reflexivity.
Qed.

Lemma length_diff {A} (sub : A -> A -> A) l :
  List.length (diff sub l) = List.length l.
Proof. destruct l; cbn; [reflexivity|]. rewrite length_diff_from. reflexivity. Qed.

Lemma nth_error_diff_from {A} (sub : A -> A -> A) l :
  forall prev n b d,
  nth_error l n = Some b ->
  nth_error (diff_from sub prev l) n
  = Some (Some (sub b (nth n (prev :: l) d))).
Proof.
  induction l as [|x l IH]; intros prev [|n] b d H; cbn in *;
    try discriminate.
  - injection H as ->. reflexivity.
  - rewrite (IH x n b d H). reflexivity.
Qed.

(** [diff]: nothing for the first cell, the difference with the previous
    cell for the others. *)
Lemma nth_error_diff {A} (sub : A -> A -> A) l n b :
  nth_error l n = Some b ->
  nth_error (diff sub l) n
  = Some (match n with
          | O => None
          | S m => Some (sub b (nth m l b))
          end).
Proof.
  destruct l as [|x l]; [destruct n; discriminate|].
  destruct n as [|n]; cbn; intros H; [reflexivity|].
  rewrite (nth_error_diff_from sub l x n b b H). reflexivity.
Qed.

Section Rank.
Context {K A : Type} (eqb : K -> K -> bool) (key : A -> K).
Hypothesis eqb_eq : forall a b, eqb a b = true <-> a = b.

Lemma nth_error_groupby_apply {B} (g : list A -> list B) dflt rows i r :
  nth_error rows i = Some r ->
  nth_error (groupby_apply eqb key g dflt rows) i
  = Some (nth (rank_of eqb (map key rows) i (key r))
              (g (filter (fun x => eqb (key x) (key r)) rows)) dflt).
Proof.
  intros H. unfold groupby_apply.
  rewrite (groupby_apply_from_nth eqb key g dflt rows rows [] i r H).
  rewrite app_nil_r, filter_rev, length_rev. unfold rank_of.
  rewrite firstn_map.
  rewrite <- (length_filter_map key (fun x => eqb x (key r))).
  reflexivity.
Qed.

(** Group-by-apply of [diff] over a value column: the first row of a group
    gets nothing; a later row gets the difference between its value and
    the value of a row of its own group. *)
Lemma groupby_diff_nth {B} (val : A -> B) (sub : B -> B -> B) rows i r :
  nth_error rows i = Some r ->
  (rank_of eqb (map key rows) i (key r) = O
   /\ nth_error
        (groupby_apply eqb key (fun g => diff sub (map val g)) None rows) i
      = Some None)
  \/ (rank_of eqb (map key rows) i (key r) <> O
      /\ exists r', In r' rows /\ key r' = key r
         /\ nth_error
              (groupby_apply eqb key (fun g => diff sub (map val g)) None
                 rows) i
            = Some (Some (sub (val r) (val r')))).
Proof.
  intros H. rewrite (nth_error_groupby_apply _ None rows i r H).
  set (G := filter (fun x => eqb (key x) (key r)) rows).
  set (n := rank_of eqb (map key rows) i (key r)).
  assert (Hn : nth_error G n = Some r).
  { unfold n, rank_of, G. rewrite firstn_map.
    rewrite <- (length_filter_map key (fun x => eqb x (key r))).
    apply (nth_error_filter_rank (fun x => eqb (key x) (key r))).
    - exact H.
    - apply eqb_eq. reflexivity. }
  assert (Hv : nth_error (map val G) n = Some (val r)).
  { rewrite nth_error_map, Hn. reflexivity. }
  pose proof (nth_error_diff sub (map val G) n (val r) Hv) as D.
  rewrite (nth_error_nth _ _ None D).
  destruct n as [|m] eqn:En.
  - left. split; reflexivity.
  - right. split; [discriminate|].
    assert (Hm : (m < List.length G)%nat).
    { assert (nth_error G (S m) <> None) by congruence.
      apply nth_error_Some in H0. lia. }
    destruct (nth_error G m) as [r'|] eqn:Em;
      [|apply nth_error_None in Em; lia].
    exists r'. assert (Hin : In r' G) by (eapply nth_error_In; eauto).
    unfold G in Hin. apply filter_In in Hin. destruct Hin as [Hin Hk].
    apply eqb_eq in Hk. split; [exact Hin|]. split; [exact Hk|].
    do 3 f_equal.
    assert (X : nth_error (map val G) m = Some (val r')).
    { rewrite nth_error_map, Em. reflexivity. }
    exact (nth_error_nth _ _ _ X).
Qed.
End Rank.

Lemma sorted_before {A} (R : A -> A -> Prop) l :
  StronglySorted R l ->
  forall i a b, nth_error l i = Some b -> In a (firstn i l) -> R a b.
Proof.
  induction 1 as [|x l S IH Hall]; intros [|i] a b Hb Ha; cbn in *;
    try discriminate; try contradiction.
  destruct Ha as [<-|Ha].
  - rewrite Forall_forall in Hall. apply Hall.
    eapply nth_error_In; eauto.
  - eapply IH; eauto.
Qed.

Lemma In_firstn {A} (l : list A) :
  forall n x, In x (firstn n l) -> In x l.
Proof.
  induction l as [|y l IH]; intros [|n] x H; cbn in *; try contradiction.
  destruct H as [H|H]; [left; exact H|right; eapply IH; exact H].
Qed.


Lemma existsb_filter_nonempty {A} (P : A -> bool) l :
  existsb P l = match filter P l with [] => false | _ => true end.
Proof.
  induction l as [|x l IH]; cbn; [reflexivity|].
  destruct (P x); cbn; [reflexivity|exact IH].
Qed.

End ListFacts.

(** * The preparation of df *)

Module PrepareFacts.
Import OrderFacts.

Lemma bind_ok {A B} (c : result A) (k : A -> result B) b :
  bind c k = Ok b -> exists a, c = Ok a /\ k a = Ok b.
Proof. destruct c; cbn; [eauto|discriminate]. Qed.

Lemma mapM_ok {A B} (f : A -> result B) l l' :
  mapM f l = Ok l' -> Forall2 (fun a b => f a = Ok b) l l'.
Proof.
  revert l'. induction l as [|a l IH]; cbn; intros l' H.
  - injection H as <-. constructor.
  - apply bind_ok in H. destruct H as (b & Hb & H).
    apply bind_ok in H. destruct H as (bs & Hbs & H).
    injection H as <-. constructor; auto.
Qed.

Lemma date_min_cases a b :
  (date_min a b = a \/ date_min a b = b)
  /\ date_leb (date_min a b) a = true /\ date_leb (date_min a b) b = true.
Proof.
  unfold date_min. destruct (date_compare a b) eqn:E.
  - repeat split; auto using date_leb_refl.
    apply date_leb_spec. left. apply date_compare_eq. exact E.
  - repeat split; auto using date_leb_refl.
    apply date_leb_spec. right. exact E.
  - repeat split; auto using date_leb_refl.
    unfold date_leb. rewrite (date_compare_antisym a b), E. reflexivity.
Qed.

Lemma fold_min_spec p l :
  (fold_right date_min p l = p \/ In (fold_right date_min p l) l)
  /\ date_leb (fold_right date_min p l) p = true
  /\ forall x, In x l -> date_leb (fold_right date_min p l) x = true.
Proof.
  induction l as [|a l (IH1 & IH2 & IH3)]; cbn.
  - repeat split; auto using date_leb_refl; intros x [].
  - destruct (date_min_cases a (fold_right date_min p l))
      as (C & La & Lm).
    repeat split.
    + destruct C as [C|C]; rewrite C; [auto|]. destruct IH1; auto.
    + eapply date_leb_trans; eauto.
    + intros x [<-|Hx]; [exact La|].
      eapply date_leb_trans; [exact Lm|auto].
Qed.

Lemma fold_min_independent p q l :
  In p l -> In q l -> fold_right date_min p l = fold_right date_min q l.
Proof.
  intros Hp Hq.
  destruct (fold_min_spec p l) as (P1 & P2 & P3).
  destruct (fold_min_spec q l) as (Q1 & Q2 & Q3).
  assert (Pin : In (fold_right date_min p l) l)
    by (destruct P1 as [->|]; assumption).
  assert (Qin : In (fold_right date_min q l) l)
    by (destruct Q1 as [->|]; assumption).
  apply date_leb_antisym; auto.
Qed.

(** [prepare], when it raises nothing, returns a table whose cohort column
    is the earliest period of each id. *)
Lemma prepare_well_prepared period simple data df :
  prepare period simple data = Ok df -> well_prepared df.
Proof.
  unfold prepare. intros H. apply bind_ok in H.
  destruct H as (rows & _ & H). injection H as <-.
  set (per := fun id : Z =>
         map snd (filter (fun x : Z * event * date =>
                            ev_id (snd (fst x)) =? id) rows)).
  assert (Hper : forall i e p, In (i, e, p) rows -> In p (per (ev_id e))).
  { intros i e p Hin. unfold per. apply in_map_iff.
    exists (i, e, p). split; [reflexivity|]. apply filter_In.
    split; [exact Hin|]. cbn. apply Z.eqb_refl. }
  assert (Hrow : forall r,
            In r (map (fun x : Z * event * date =>
                         let '(i, e, p) := x in
                         mkprow (ev_id e) i
                           (if simple then 1%Q else ev_quantity e) p
                           (fold_right date_min p (per (ev_id e)))) rows) ->
            exists i e p, In (i, e, p) rows /\ r_id r = ev_id e
                          /\ r_period r = p
                          /\ r_cohort r
                             = fold_right date_min p (per (ev_id e))).
  { intros r Hr. apply in_map_iff in Hr.
    destruct Hr as ([[i e] p] & <- & Hin). exists i, e, p. cbn. auto. }
  split.
  - intros r r' Hr Hr' Hid.
    destruct (Hrow r Hr) as (i & e & p & Hin & Ei & Ep & Ec).
    destruct (Hrow r' Hr') as (i' & e' & p' & Hin' & Ei' & Ep' & Ec').
    rewrite Ec, Ec'.
    assert (ev_id e = ev_id e') as Eid by congruence.
    rewrite <- Eid. apply fold_min_independent.
    + eapply Hper; eauto.
    + rewrite Eid. eapply Hper; eauto.
  - intros r r' Hr Hr' Hid.
    destruct (Hrow r Hr) as (i & e & p & Hin & Ei & Ep & Ec).
    destruct (Hrow r' Hr') as (i' & e' & p' & Hin' & Ei' & Ep' & Ec').
    rewrite Ec, Ep'.
    assert (ev_id e = ev_id e') as Eid by congruence.
    apply (fold_min_spec p (per (ev_id e))).
    rewrite Eid. eapply Hper; eauto.
  - intros r Hr.
    destruct (Hrow r Hr) as (i & e & p & Hin & Ei & Ep & Ec).
    destruct (fold_min_spec p (per (ev_id e))) as (M1 & _ & _).
    assert (Min : In (r_cohort r) (per (ev_id e))).
    { rewrite Ec. destruct M1 as [->|M1]; [|exact M1].
      eapply Hper; eauto. }
    unfold per in Min. apply in_map_iff in Min.
    destruct Min as ([[i' e'] p'] & Ep' & Hf). cbn in Ep'.
    apply filter_In in Hf. destruct Hf as [Hin' Hid']. cbn in Hid'.
    apply Z.eqb_eq in Hid'.
    exists (mkprow (ev_id e') i' (if simple then 1%Q else ev_quantity e') p'
              (fold_right date_min p' (per (ev_id e')))).
    split; [|cbn; split; congruence].
    apply in_map_iff. exists (i', e', p'). split; [reflexivity|exact Hin'].
Qed.

End PrepareFacts.

(** * The cohort grid *)

Module GridFacts.
Import OrderFacts ListFacts PrepareFacts CohortsPmf.

Lemma cmp2_eq a b : cmp2 a b = Eq <-> a = b.
Proof.
  apply pair_compare_eq; apply date_compare_eq.
Qed.

Lemma cmp2_antisym a b : cmp2 b a = CompOpp (cmp2 a b).
Proof.
  apply pair_compare_antisym; apply date_compare_antisym.
Qed.

Lemma cmp2_trans a b c : cmp2 a b = Lt -> cmp2 b c = Lt -> cmp2 a c = Lt.
Proof.
  apply pair_compare_trans.
  - exact date_compare_eq.
  - exact date_compare_trans.
  - exact date_compare_trans.
Qed.

Lemma dates_In x l : In x (distinct_sorted date_compare l) <-> In x l.
Proof. apply distinct_sorted_In. exact date_compare_eq. Qed.

Lemma dates_sorted l :
  StronglySorted date_lt (distinct_sorted date_compare l).
Proof.
  apply distinct_sorted_sorted;
    first [exact date_compare_eq | exact date_compare_antisym
          | exact date_compare_trans].
Qed.

Lemma sorted_dates_NoDup l : StronglySorted date_lt l -> NoDup l.
Proof. apply sorted_NoDup. exact date_compare_eq. Qed.

(** The row and column labels of the unstacked table. *)
Lemma stacked_cohorts df c :
  In c (distinct_sorted date_compare
          (map (fun x : date * date * Q => fst (fst x))
               (groupby_agg cmp2 row_key2 count_rows df)))
  <-> observed_cohort df c.
Proof.
  rewrite dates_In, <- (map_map fst fst), groupby_agg_keys, in_map_iff.
  unfold observed_cohort. split.
  - intros ([c' p] & E & H). cbn in E. subst c'.
    apply (proj1 (distinct_sorted_In cmp2 cmp2_eq _ _)) in H.
    apply in_map_iff in H. destruct H as (r & E & Hr).
    exists r. split; [exact Hr|]. unfold row_key2 in E. congruence.
  - intros (r & Hr & E). exists (row_key2 r). split; [exact E|].
    apply (distinct_sorted_In cmp2 cmp2_eq). apply in_map. exact Hr.
Qed.

Lemma stacked_periods df p :
  In p (distinct_sorted date_compare
          (map (fun x : date * date * Q => snd (fst x))
               (groupby_agg cmp2 row_key2 count_rows df)))
  <-> observed_period df p.
Proof.
  rewrite dates_In, <- (map_map fst snd), groupby_agg_keys, in_map_iff.
  unfold observed_period. split.
  - intros ([c p'] & E & H). cbn in E. subst p'.
    apply (proj1 (distinct_sorted_In cmp2 cmp2_eq _ _)) in H.
    apply in_map_iff in H. destruct H as (r & E & Hr).
    exists r. split; [exact Hr|]. unfold row_key2 in E. congruence.
  - intros (r & Hr & E). exists (row_key2 r). split; [exact E|].
    apply (distinct_sorted_In cmp2 cmp2_eq). apply in_map. exact Hr.
Qed.

(** The keys of the filtered cross product. *)
Lemma stacked_pairs (s : list (date * date * Q)) :
  map fst
    (filter (fun x : date * date * Q => date_leb (fst (fst x)) (snd (fst x)))
       (unstack_fill_stack date_compare date_compare s))
  = grid_pairs
      (distinct_sorted date_compare (map (fun x => fst (fst x)) s))
      (distinct_sorted date_compare (map (fun x => snd (fst x)) s)).
Proof.
  unfold unstack_fill_stack, grid_pairs.
  rewrite filter_flat_map, map_flat_map.
  apply flat_map_ext_in. intros c _.
  rewrite filter_map_comm, map_map. cbn. reflexivity.
Qed.

Lemma grid_pairs_In cs ps c p :
  In (c, p) (grid_pairs cs ps) <-> In c cs /\ In p ps /\ date_leb c p = true.
Proof.
  unfold grid_pairs. rewrite in_flat_map. split.
  - intros (c' & Hc & H). apply in_map_iff in H.
    destruct H as (p' & E & Hp). injection E as -> ->.
    apply filter_In in Hp. tauto.
  - intros (Hc & Hp & L). exists c. split; [exact Hc|].
    apply in_map. apply filter_In. tauto.
Qed.

Lemma NoDup_map_pair {A B} (a : A) (l : list B) :
  NoDup l -> NoDup (map (pair a) l).
Proof.
  induction 1 as [|x l Hx Hl IH]; cbn; constructor; [|exact IH].
  intros H. apply in_map_iff in H. destruct H as (y & E & Hy).
  injection E as ->. contradiction.
Qed.

Lemma grid_pairs_NoDup cs ps :
  NoDup cs -> NoDup ps -> NoDup (grid_pairs cs ps).
Proof.
  intros Hcs Hps. unfold grid_pairs.
  induction Hcs as [|c cs Hnot Hcs IH]; cbn; [constructor|].
  apply NoDup_app.
  - apply NoDup_map_pair. apply NoDup_filter. exact Hps.
  - exact IH.
  - intros [c' p'] H1 H2. apply in_map_iff in H1.
    destruct H1 as (q & E & _). injection E as -> ->.
    apply in_flat_map in H2. destruct H2 as (c'' & Hc'' & H2).
    apply in_map_iff in H2. destruct H2 as (q' & E & _).
    injection E as -> ->. contradiction.
Qed.

Lemma filter_block (c c0 : date) (l : list date) :
  filter (fun x : date * date => date_eqb (fst x) c) (map (pair c0) l)
  = if date_eqb c0 c then map (pair c0) l else [].
Proof.
  induction l as [|p l IH]; cbn.
  - destruct (date_eqb c0 c); reflexivity.
  - rewrite IH. destruct (date_eqb c0 c); reflexivity.
Qed.

Lemma grid_pairs_not_cohort cs ps c :
  ~ In c cs -> filter (fun x => date_eqb (fst x) c) (grid_pairs cs ps) = [].
Proof.
  intros Hc. apply filter_false. intros [c' p'] H.
  apply grid_pairs_In in H. cbn.
  destruct (date_eqb c' c) eqn:E; [|reflexivity].
  apply date_eqb_eq in E. subst. tauto.
Qed.

Lemma grid_pairs_of_cohort cs ps c :
  NoDup cs -> In c cs ->
  filter (fun x => date_eqb (fst x) c) (grid_pairs cs ps)
  = map (pair c) (filter (date_leb c) ps).
Proof.
  intros Hcs Hc.
  induction Hcs as [|c0 cs Hnot Hcs IH]; [destruct Hc|].
  unfold grid_pairs. cbn [flat_map]. rewrite filter_app, filter_block.
  fold (grid_pairs cs ps).
  destruct (date_eqb c0 c) eqn:E.
  - apply date_eqb_eq in E. subst c0.
    rewrite grid_pairs_not_cohort by exact Hnot. apply app_nil_r.
  - destruct Hc as [->|Hc].
    + assert (date_eqb c c = true) by (apply date_eqb_eq; reflexivity).
      congruence.
    + cbn. apply IH. exact Hc.
Qed.

Lemma nums_length {A} (l : list A) : List.length (nums l) = List.length l.
Proof. unfold nums. rewrite length_map, length_seq. reflexivity. Qed.

(** The grid that [fit] builds, as a list of rows: its keys are the cells
    of [grid_pairs]; the rows of one cohort hold the periods from that
    cohort on, in ascending order, numbered from 0. *)
Lemma grid_spec df :
  exists cs ps,
    (forall c, In c cs <-> observed_cohort df c)
    /\ (forall p, In p ps <-> observed_period df p)
    /\ StronglySorted date_lt cs /\ StronglySorted date_lt ps
    /\ map key2 (grid df) = grid_pairs cs ps
    /\ (forall c, In c cs ->
          map period (rows_of_cohort c (grid df)) = filter (date_leb c) ps)
    /\ (forall c, map period_num (rows_of_cohort c (grid df))
                  = nums (rows_of_cohort c (grid df))).
Proof.
  unfold grid. cbv zeta.
  set (s := groupby_agg cmp2 row_key2 count_rows df).
  set (rows := filter (fun x : date * date * Q =>
                         date_leb (fst (fst x)) (snd (fst x)))
                 (unstack_fill_stack date_compare date_compare s)).
  set (num := groupby_apply date_eqb
                (fun x : date * date * Q => fst (fst x)) nums 0 rows).
  set (cs := distinct_sorted date_compare (map (fun x => fst (fst x)) s)).
  set (ps := distinct_sorted date_compare (map (fun x => snd (fst x)) s)).
  assert (Hlen : List.length rows = List.length num).
  { unfold num. rewrite length_groupby_apply. reflexivity. }
  assert (Hpairs : map fst rows = grid_pairs cs ps)
    by apply stacked_pairs.
  set (F := fun p : date * date * Q * Z =>
              mkkey (fst (fst (fst p))) (snd (fst (fst p))) (snd p)).
  assert (Hrows : forall c,
            rows_of_cohort c (zip_with
              (fun (x : date * date * Q) (n : Z) =>
                 mkkey (fst (fst x)) (snd (fst x)) n) rows num)
            = map F (filter (fun x => date_eqb (fst (fst (fst x))) c)
                            (combine rows num))).
  { intros c. unfold rows_of_cohort, zip_with.
    rewrite filter_map_comm. reflexivity. }
  assert (Hfst : forall c,
            map fst (filter (fun x : date * date * Q * Z =>
                               date_eqb (fst (fst (fst x))) c)
                            (combine rows num))
            = filter (fun x => date_eqb (fst (fst x)) c) rows).
  { intros c.
    apply (filter_combine_fst
             (fun x : date * date * Q => date_eqb (fst (fst x)) c)).
    exact Hlen. }
  exists cs, ps. split; [apply stacked_cohorts|].
  split; [apply stacked_periods|].
  split; [apply dates_sorted|]. split; [apply dates_sorted|].
  split; [|split].
  - unfold zip_with. rewrite map_map. cbn. rewrite <- Hpairs.
    transitivity (map fst (map fst (combine rows num))).
    + rewrite map_map. apply map_ext. intros [[[c p] q] n]. reflexivity.
    + rewrite (map_fst_combine rows num Hlen). reflexivity.
  - intros c Hc. rewrite Hrows, map_map. cbn.
    rewrite <- (map_map fst (fun x : date * date * Q => snd (fst x))).
    rewrite Hfst.
    rewrite <- (map_map fst snd).
    rewrite <- (filter_map_comm fst (fun y : date * date => date_eqb (fst y) c)).
    rewrite Hpairs, grid_pairs_of_cohort.
    + rewrite map_map. cbn. apply map_id.
    + apply sorted_dates_NoDup, dates_sorted.
    + exact Hc.
  - intros c. rewrite Hrows, map_map.
    rewrite (map_ext (fun x => period_num (F x)) snd)
      by (intros; reflexivity).
    pose proof (gather date_eqb (fun x : date * date * Q => fst (fst x))
                  nums 0 date_eqb_eq (@nums_length _) rows c) as G.
    fold num in G. rewrite G.
    unfold nums. rewrite !length_map.
    rewrite <- (length_map fst (filter _ (combine rows num))), Hfst.
    reflexivity.
Qed.

End GridFacts.

(** * The metric methods of Cohorts *)

Module CohortsFacts.
Import OrderFacts ListFacts PrepareFacts GridFacts CohortsPmf.

Ltac inv_bind H :=
  let a := fresh "a" in
  let E := fresh "E" in
  apply bind_ok in H; destruct H as (a & E & H).

Lemma find_col_set_col name name' v cols :
  find_col name (set_col name' v cols)
  = if String.eqb name' name then Some v else find_col name cols.
Proof.
  induction cols as [|[n c] cols IH]; cbn.
  - destruct (String.eqb name' name); reflexivity.
  - destruct (String.eqb n name') eqn:E; cbn.
    + apply String.eqb_eq in E. subst n.
      destruct (String.eqb name' name); reflexivity.
    + rewrite IH. destruct (String.eqb n name) eqn:E'; [|reflexivity].
      apply String.eqb_eq in E'. subst n. rewrite String.eqb_sym, E.
      reflexivity.
Qed.

Lemma attr_df_cohorts_ok self f :
  attr_df_cohorts self = Ok f <-> df_cohorts self = Some f.
Proof.
  unfold attr_df_cohorts. destruct (df_cohorts self); split; congruence.
Qed.

Lemma attr_df_period_cohort_ok self df :
  attr_df_period_cohort self = Ok df <-> df_period_cohort self = Some df.
Proof.
  unfold attr_df_period_cohort.
  destruct (df_period_cohort self); split; congruence.
Qed.

Lemma groupby_cohort_perc_ok name column column2 f f' :
  groupby_cohort_perc name column column2 f = Ok f' ->
  keys f' = keys f /\ exists v, cols f' = set_col name v (cols f).
Proof.
  unfold groupby_cohort_perc. intros H.
  inv_bind H. inv_bind H. injection H as <-. cbn. eauto.
Qed.

Lemma groupby_cohort_col_ok fn name column f f' :
  groupby_cohort_col fn name column f = Ok f' ->
  keys f' = keys f /\ exists v, cols f' = set_col name v (cols f).
Proof.
  unfold groupby_cohort_col. intros H.
  inv_bind H. injection H as <-. cbn. eauto.
Qed.

Lemma same_grid_refl self : same_grid self self.
Proof. split; reflexivity. Qed.

Lemma same_grid_trans a b c : same_grid a b -> same_grid b c -> same_grid a c.
Proof. intros [A1 A2] [B1 B2]. split; congruence. Qed.

Lemma same_grid_set self f f' :
  df_cohorts self = Some f -> keys f' = keys f ->
  same_grid self (set_df_cohorts self f').
Proof.
  intros E K. split; cbn; [reflexivity|]. rewrite E. cbn. congruence.
Qed.

Lemma same_grid_frame self self' f :
  same_grid self self' -> df_cohorts self = Some f ->
  exists f', df_cohorts self' = Some f' /\ keys f' = keys f.
Proof.
  intros [_ K] E. rewrite E in K. cbn in K.
  destruct (df_cohorts self') as [f'|]; cbn in K; [|discriminate].
  exists f'. split; [reflexivity|congruence].
Qed.

Lemma apply_total_same_grid self c self' :
  apply_total self c = Ok self' -> same_grid self self'.
Proof.
  unfold apply_total. intros H.
  inv_bind H. inv_bind H. inv_bind H. injection H as <-.
  apply attr_df_cohorts_ok in E0.
  apply groupby_cohort_perc_ok in E1. destruct E1 as [K _].
  eapply same_grid_set; eauto.
Qed.

Lemma apply_unique_users_same_grid self c self' :
  apply_unique_users self c = Ok self' -> same_grid self self'.
Proof.
  unfold apply_unique_users. intros H.
  inv_bind H. inv_bind H. inv_bind H. injection H as <-.
  apply attr_df_cohorts_ok in E0.
  apply groupby_cohort_perc_ok in E1. destruct E1 as [K _].
  eapply same_grid_set; eauto.
Qed.

(** A method that first makes sure a column is there and then adds a
    column and its percentage keeps the grid. *)
Lemma derived_same_grid (pre : result Cohorts) self self'
  (fn : list fval -> list fval) n1 c1 n2 c2 c3 :
  (forall s, pre = Ok s -> same_grid self s) ->
  (s <- pre ;;
   df_cohorts <- attr_df_cohorts s ;;
   df_cohorts <- groupby_cohort_col fn n1 c1 df_cohorts ;;
   df_cohorts <- groupby_cohort_perc n2 c2 c3 df_cohorts ;;
   Ok (set_df_cohorts s df_cohorts)) = Ok self' ->
  same_grid self self'.
Proof.
  intros Hpre H. inv_bind H. inv_bind H. inv_bind H. inv_bind H.
  injection H as <-.
  apply attr_df_cohorts_ok in E0.
  apply groupby_cohort_col_ok in E1. destruct E1 as [K1 _].
  apply groupby_cohort_perc_ok in E2. destruct E2 as [K2 _].
  eapply same_grid_trans; [apply Hpre; exact E|].
  eapply same_grid_set; eauto. congruence.
Qed.

Lemma apply_churn_total_same_grid self c self' :
  apply_churn_total self c = Ok self' -> same_grid self self'.
Proof.
  unfold apply_churn_total. intros H. inv_bind H.
  eapply derived_same_grid; [|exact H].
  intros s Hs. destruct (negb (has_col "total" (cols a))).
  - eapply apply_total_same_grid; eauto.
  - injection Hs as <-. apply same_grid_refl.
Qed.

Lemma apply_accum_same_grid self c self' :
  apply_accum self c = Ok self' -> same_grid self self'.
Proof.
  unfold apply_accum. intros H. inv_bind H.
  eapply derived_same_grid; [|exact H].
  intros s Hs. destruct (negb (has_col "total" (cols a))).
  - eapply apply_total_same_grid; eauto.
  - injection Hs as <-. apply same_grid_refl.
Qed.

Lemma getattr1_apply_unique :
  getattr1 methods1 "apply_unique" = Raise (AttributeError "apply_unique").
Proof. reflexivity. Qed.

Lemma apply_churn_unique_users_same_grid self c self' :
  apply_churn_unique_users self c = Ok self' -> same_grid self self'.
Proof.
  unfold apply_churn_unique_users. intros H. inv_bind H.
  eapply derived_same_grid; [|exact H].
  intros s Hs. destruct (negb (has_col "unique_users" (cols a))).
  - rewrite getattr1_apply_unique in Hs. discriminate.
  - injection Hs as <-. apply same_grid_refl.
Qed.

Lemma apply_per_user_same_grid self c c' self' :
  apply_per_user self c c' = Ok self' -> same_grid self self'.
Proof.
  unfold apply_per_user. intros H.
  inv_bind H. inv_bind H. inv_bind H. inv_bind H. inv_bind H. inv_bind H.
  inv_bind H. inv_bind H. injection H as <-.
  assert (S1 : same_grid self a0).
  { destruct (negb (has_col "total" (cols a))).
    - eapply apply_total_same_grid; eauto.
    - injection E0 as <-. apply same_grid_refl. }
  assert (S2 : same_grid a0 a2).
  { destruct (negb (has_col "unique_users" (cols a1))).
    - eapply apply_unique_users_same_grid; eauto.
    - injection E2 as <-. apply same_grid_refl. }
  apply attr_df_cohorts_ok in E3.
  apply groupby_cohort_perc_ok in E6. destruct E6 as [K _]. cbn in K.
  eapply same_grid_trans; [exact S1|].
  eapply same_grid_trans; [exact S2|].
  eapply same_grid_set; eauto.
Qed.

Lemma fit_how_same_grid how :
  forall self self', fit_how self how = Ok self' -> same_grid self self'.
Proof.
  induction how as [|item how IH]; intros self self' H; cbn in H.
  - injection H as <-. apply same_grid_refl.
  - inv_bind H. eapply same_grid_trans; [|apply IH; exact H].
    clear H IH.
    repeat match type of E with
    | (if ?b then _ else _) = Ok _ => destruct b
    end;
    eauto using apply_total_same_grid, apply_churn_total_same_grid,
      apply_accum_same_grid, apply_unique_users_same_grid,
      apply_churn_unique_users_same_grid, apply_per_user_same_grid.
    discriminate.
Qed.

(** After a successful [fit], df_period_cohort is the prepared table and
    the key columns of df_cohorts are the grid over it. *)
Lemma fit_grid self data column_input how self' :
  fit self data column_input how = Ok self' ->
  exists df f,
    prepare (self_period self) (self_simple self) data = Ok df
    /\ df_period_cohort self' = Some df
    /\ df_cohorts self' = Some f
    /\ keys f = grid df.
Proof.
  unfold fit. intros H.
  destruct (negb (self_simple self) && not_given column_input);
    [discriminate|].
  inv_bind H. inv_bind H. injection H as <-. cbn.
  apply fit_how_same_grid in E0.
  destruct (same_grid_frame _ _ (mkframe (grid a) []) E0 eq_refl)
    as (f' & Ef' & K).
  destruct E0 as [D _]. cbn in D.
  exists a, f'. auto.
Qed.

End CohortsFacts.

(** * The cohort grid: claim C3 *)

Module CohortGrid.
Import OrderFacts ListFacts PrepareFacts GridFacts CohortsFacts CohortsPmf.

Lemma sorted_least_is_head c l :
  StronglySorted date_lt l -> In c l ->
  (forall x, In x l -> date_leb c x = true) ->
  exists l', l = c :: l'.
Proof.
  intros S Hin Hle. destruct S as [|x l S Hall]; [destruct Hin|].
  destruct Hin as [->|Hin]; [eauto|].
  rewrite Forall_forall in Hall. exfalso.
  apply (date_lt_not_leb x c); [apply Hall; exact Hin|].
  apply Hle. left. reflexivity.
Qed.

Lemma rows_of_cohort_head c g l :
  map period (rows_of_cohort c g) = c :: l ->
  map period_num (rows_of_cohort c g) = nums (rows_of_cohort c g) ->
  exists g', rows_of_cohort c g = mkkey c c 0 :: g'.
Proof.
  intros Hp Hn.
  assert (Hc : forall k, In k (rows_of_cohort c g) -> cohort k = c).
  { intros k Hk. apply filter_In in Hk. apply date_eqb_eq. tauto. }
  destruct (rows_of_cohort c g) as [|[kc kp kn] g']; [discriminate|].
  cbn in Hp, Hn. injection Hp as -> _. injection Hn as -> _.
  specialize (Hc _ (or_introl eq_refl)). cbn in Hc. subst kc. eauto.
Qed.

(** C3.  After [fit], the grid holds exactly one row for every pair of an
    observed cohort [c] and an observed period [p] with [c <= p]; the rows
    of a cohort, which come in ascending period order, are numbered
    0, 1, 2, ...; so the periods of a cohort have no gap between two of
    them, start at the cohort's own period, and a cohort observed in the
    last period of the dataset has the single row of number 0. *)
Theorem cohorts_fit_grid (self : Cohorts) (data : list event)
  (column_input : option string) (how : list string) (self' : Cohorts) :
  fit self data column_input how = Ok self' ->
  exists df f,
    prepare (self_period self) (self_simple self) data = Ok df
    /\ df_period_cohort self' = Some df
    /\ df_cohorts self' = Some f
    /\ (forall c p,
          In (c, p) (map key2 (keys f)) <->
          observed_cohort df c /\ observed_period df p
          /\ date_leb c p = true)
    /\ NoDup (map key2 (keys f))
    /\ (forall c,
          StronglySorted date_lt (map period (rows_of_cohort c (keys f)))
          /\ map period_num (rows_of_cohort c (keys f))
             = map Z.of_nat
                 (seq 0 (List.length (rows_of_cohort c (keys f)))))
    /\ (forall c p q p',
          In (c, p) (map key2 (keys f)) -> In (c, p') (map key2 (keys f)) ->
          observed_period df q ->
          date_leb p q = true -> date_leb q p' = true ->
          In (c, q) (map key2 (keys f)))
    /\ (forall c, observed_cohort df c -> In (mkkey c c 0) (keys f))
    /\ (forall c,
          observed_cohort df c ->
          (forall p, observed_period df p -> date_leb p c = true) ->
          rows_of_cohort c (keys f) = [mkkey c c 0]).
Proof.
  intros H. destruct (fit_grid _ _ _ _ _ H) as (df & f & P & D & F & K).
  exists df, f. split; [exact P|]. split; [exact D|]. split; [exact F|].
  rewrite K.
  destruct (grid_spec df) as (cs & ps & Hcs & Hps & Scs & Sps & Hk & Hper & Hnum).
  pose proof (prepare_well_prepared _ _ _ _ P) as W.
  assert (Hin : forall c p,
            In (c, p) (map key2 (grid df)) <->
            observed_cohort df c /\ observed_period df p
            /\ date_leb c p = true).
  { intros c p. rewrite Hk, grid_pairs_In, Hcs, Hps. tauto. }
  assert (Hown : forall c, observed_cohort df c ->
            exists l, filter (date_leb c) ps = c :: l).
  { intros c Hc. apply sorted_least_is_head.
    - apply sorted_filter. exact Sps.
    - apply filter_In. split; [|apply date_leb_refl].
      apply Hps. destruct Hc as (r & Hr & <-).
      destruct (cohort_attained df W r Hr) as (r' & Hr' & _ & E).
      exists r'. auto.
    - intros x Hx. apply filter_In in Hx. tauto. }
  split; [exact Hin|]. split; [|split; [|split; [|split]]].
  - rewrite Hk. apply grid_pairs_NoDup; apply sorted_dates_NoDup; assumption.
  - intros c. split; [|apply Hnum].
    destruct (in_dec date_eq_dec c cs) as [Hc|Hc].
    + rewrite Hper by exact Hc. apply sorted_filter. exact Sps.
    + assert (E : rows_of_cohort c (grid df) = []).
      { apply filter_false. intros k Hk'.
        destruct (date_eqb (cohort k) c) eqn:E; [|reflexivity].
        apply date_eqb_eq in E. exfalso. apply Hc. apply Hcs.
        assert (In (key2 k) (map key2 (grid df))) by (apply in_map; exact Hk').
        unfold key2 in H0. rewrite E in H0. apply Hin in H0. tauto. }
      rewrite E. constructor.
  - intros c p q p' H1 H2 Hq L1 L2.
    apply Hin in H1. apply Hin. destruct H1 as (Hc & _ & L0).
    repeat split; try assumption. eapply date_leb_trans; eauto.
  - intros c Hc. destruct (Hown c Hc) as (l & El).
    destruct (rows_of_cohort_head c (grid df) l) as (g' & Eg).
    + rewrite Hper by (apply Hcs; exact Hc). exact El.
    + apply Hnum.
    + assert (X : In (mkkey c c 0) (rows_of_cohort c (grid df)))
        by (rewrite Eg; left; reflexivity).
      apply filter_In in X. tauto.
  - intros c Hc Hlast. destruct (Hown c Hc) as (l & El).
    assert (l = []).
    { destruct l as [|y l]; [reflexivity|]. exfalso.
      assert (S : StronglySorted date_lt (c :: y :: l)).
      { rewrite <- El. apply sorted_filter. exact Sps. }
      inversion S as [|? ? _ Hall]. subst.
      rewrite Forall_forall in Hall.
      apply (date_lt_not_leb c y); [apply Hall; left; reflexivity|].
      apply Hlast. apply Hps.
      assert (X : In y (filter (date_leb c) ps))
        by (rewrite El; right; left; reflexivity).
      apply filter_In in X. tauto. }
    subst l.
    destruct (rows_of_cohort_head c (grid df) []) as (g' & Eg).
    + rewrite Hper by (apply Hcs; exact Hc). exact El.
    + apply Hnum.
    + assert (Lg : List.length (rows_of_cohort c (grid df)) = 1%nat).
      { rewrite <- (length_map period), Hper, El by (apply Hcs; exact Hc).
        reflexivity. }
      rewrite Eg in *. destruct g'; [reflexivity|discriminate].
Qed.

Lemma cohorts_fit_grid_witness :
  exists self',
    fit (init Tm true) sample_events None []
    = Ok self'
    /\ exists df f,
         prepare Tm true sample_events = Ok df
         /\ df_period_cohort self' = Some df
         /\ df_cohorts self' = Some f
         /\ (forall c p,
               In (c, p) (map key2 (keys f)) <->
               observed_cohort df c /\ observed_period df p
               /\ date_leb c p = true)
         /\ NoDup (map key2 (keys f))
         /\ (forall c,
               StronglySorted date_lt
                 (map period
                      (rows_of_cohort c (keys f)))
               /\ map period_num
                      (rows_of_cohort c (keys f))
                  = map Z.of_nat
                      (seq 0 (List.length
                                (rows_of_cohort c (keys f)))))
         /\ (forall c p q p',
               In (c, p) (map key2 (keys f)) ->
               In (c, p') (map key2 (keys f)) ->
               observed_period df q ->
               date_leb p q = true -> date_leb q p' = true ->
               In (c, q) (map key2 (keys f)))
         /\ (forall c, observed_cohort df c ->
                       In (mkkey c c 0) (keys f))
         /\ (forall c,
               observed_cohort df c ->
               (forall p, observed_period df p -> date_leb p c = true) ->
               rows_of_cohort c (keys f)
               = [mkkey c c 0]).
Proof.
  remember (fit (init Tm true) sample_events None [])
    as r eqn:Er.
  destruct r as [self'|e]; [|vm_compute in Er; discriminate].
  exists self'. split; [reflexivity|].
  apply (cohorts_fit_grid (init Tm true) sample_events
           None []).
  symmetry. exact Er.
Defined.

End CohortGrid.



(** * The metric columns: claims C10 and C7 *)

Module CohortMetrics.
Import OrderFacts ListFacts PrepareFacts GridFacts CohortsFacts CohortsPmf.

Lemma cell_rows_In df k r :
  In r (cell_rows df k) <->
  In r df /\ r_cohort r = cohort k /\ r_period r = period k.
Proof.
  unfold cell_rows. rewrite filter_In.
  rewrite (cmp_eqb_true cmp2 cmp2_eq). unfold row_key2, key2.
  split; intros [H1 H2]; split; try assumption.
  - injection H2 as -> ->. auto.
  - destruct H2 as [-> ->]. reflexivity.
Qed.

(** C10, as stated, fails: in the sample dataset the cell (January cohort,
    February) has no event, and after the total metric its total is NaN,
    not 0. *)
Lemma total_of_empty_cell_counterexample :
  exists self' df f total,
    fit (init Tm true) sample_events None ["total"%string] = Ok self'
    /\ df_period_cohort self' = Some df
    /\ df_cohorts self' = Some f
    /\ find_col "total" (cols f) = Some total
    /\ nth_error (keys f) 1 = Some (mkkey jan feb 1)
    /\ cell_rows df (mkkey jan feb 1) = []
    /\ nth_error total 1 = Some NaN
    /\ nth_error total 1 <> Some (Fin 0).
Proof.
  remember (fit (init Tm true) sample_events None ["total"%string]) as r
    eqn:Er.
  vm_compute in Er. subst r.
  do 4 eexists.
  split; [reflexivity|].
  split; [reflexivity|]. split; [reflexivity|]. split; [reflexivity|].
  split; [reflexivity|]. split; [reflexivity|]. split; [reflexivity|].
  cbn. discriminate.
Qed.

(** C10, amended.  After the total metric on a fitted model, the grid keeps
    its rows, and the cell of every row holds the sum of the quantity over
    the rows of df that fall in it when there is one, and NaN (no
    zero-filling) when there is none. *)
Theorem apply_total_cells (self self' : Cohorts) (column_input : colname)
  (df : list prow) (f : frame) :
  df_period_cohort self = Some df -> df_cohorts self = Some f ->
  apply_total self column_input = Ok self' ->
  exists f' total,
    df_cohorts self' = Some f' /\ keys f' = keys f
    /\ find_col "total" (cols f') = Some total
    /\ List.length total = List.length (keys f)
    /\ forall i k,
         nth_error (keys f) i = Some k ->
         nth_error total i
         = Some (match cell_rows df k with
                 | [] => NaN
                 | rows =>
                     Fin (sum_skipna
                            (map (fun r => Some (cell column_input r)) rows))
                 end).
Proof.
  intros D F H. unfold apply_total in H.
  inv_bind H. inv_bind H. inv_bind H. injection H as <-.
  apply attr_df_period_cohort_ok in E. apply attr_df_cohorts_ok in E0.
  assert (a = df) by congruence. assert (a0 = f) by congruence. subst a a0.
  destruct (groupby_cohort_perc_ok _ _ _ _ _ E1) as (K & v & C).
  cbn in K, C.
  eexists a1, _. split; [reflexivity|]. split; [exact K|].
  split; [|split].
  - rewrite C, !find_col_set_col. cbn. reflexivity.
  - unfold align. rewrite !length_map. reflexivity.
  - intros i k Hk. unfold align.
    rewrite nth_error_map, nth_error_map, Hk. cbn [option_map].
    rewrite (lookup_groupby_agg cmp2 cmp2_eq), existsb_filter_nonempty.
    fold (cell_rows df k). destruct (cell_rows df k); reflexivity.
Qed.

Lemma apply_total_cells_witness :
  exists self df f self',
    df_period_cohort self = Some df /\ df_cohorts self = Some f
    /\ apply_total self column_input = Ok self'
    /\ exists f' total,
         df_cohorts self' = Some f' /\ keys f' = keys f
         /\ find_col "total" (cols f') = Some total
         /\ List.length total = List.length (keys f)
         /\ forall i k,
              nth_error (keys f) i = Some k ->
              nth_error total i
              = Some (match cell_rows df k with
                      | [] => NaN
                      | rows =>
                          Fin (sum_skipna
                                 (map (fun r => Some (cell column_input r))
                                      rows))
                      end).
Proof.
  remember (fit (init Tm true) sample_events None []) as r eqn:Er.
  destruct r as [self|e]; [|vm_compute in Er; discriminate].
  destruct (fit_grid _ _ _ _ _ (eq_sym Er)) as (df & f & _ & D & F & _).
  remember (apply_total self column_input) as r2 eqn:Er2.
  destruct r2 as [self'|e].
  2: { exfalso. vm_compute in Er. injection Er as ->.
       vm_compute in Er2. discriminate. }
  exists self, df, f, self'.
  split; [exact D|]. split; [exact F|]. split; [symmetry; exact Er2|].
  exact (apply_total_cells self self' column_input df f D F (eq_sym Er2)).
Defined.

(** Whenever the column 'unique_users' is absent, [apply_churn_unique_users]
    raises AttributeError: the name it calls, apply_unique, is not a method
    of the class. *)
Lemma apply_churn_unique_users_raises self f column :
  df_cohorts self = Some f -> has_col "unique_users" (cols f) = false ->
  apply_churn_unique_users self column
  = Raise (AttributeError "apply_unique").
Proof.
  intros F Hc. unfold apply_churn_unique_users.
  apply attr_df_cohorts_ok in F. rewrite F. cbn [bind].
  rewrite Hc. reflexivity.
Qed.

(** C7 (prerequisites).  The claim is that a metric invoked without its
    prerequisite column computes the prerequisite first and then itself.
    On the sample dataset, fitted with no metric, [apply_churn_total] does
    so (the columns total, perc_total, churn_total and perc_churn_total
    appear, in this order), but [apply_churn_unique_users] raises
    AttributeError and adds nothing; so does [fit] when asked for
    'churn_unique_users'. *)
Theorem churn_unique_users_without_prerequisite :
  exists self f,
    fit (init Tm true) sample_events None [] = Ok self
    /\ df_cohorts self = Some f
    /\ has_col "unique_users" (cols f) = false
    /\ has_col "total" (cols f) = false
    /\ apply_churn_unique_users self column_id
       = Raise (AttributeError "apply_unique")
    /\ fit (init Tm true) sample_events None ["churn_unique_users"%string]
       = Raise (AttributeError "apply_unique")
    /\ (exists self' f',
          apply_churn_total self column_input = Ok self'
          /\ df_cohorts self' = Some f'
          /\ column_names (cols f')
             = ["total"; "perc_total"; "churn_total";
                "perc_churn_total"]%string)
    /\ (exists self' f',
          apply_unique_users self column_id = Ok self'
          /\ df_cohorts self' = Some f'
          /\ column_names (cols f')
             = ["unique_users"; "perc_unique_users"]%string).
Proof.
  remember (fit (init Tm true) sample_events None []) as r eqn:Er.
  vm_compute in Er. subst r.
  do 2 eexists.
  split; [reflexivity|].
  split; [reflexivity|]. split; [reflexivity|]. split; [reflexivity|].
  split; [reflexivity|]. split; [vm_compute; reflexivity|].
  split.
  - match goal with
    | |- exists s f, ?c = Ok s /\ _ =>
        remember c as r eqn:Er; vm_compute in Er; subst r
    end.
    do 2 eexists. split; [reflexivity|]. split; reflexivity.
  - match goal with
    | |- exists s f, ?c = Ok s /\ _ =>
        remember c as r eqn:Er; vm_compute in Er; subst r
    end.
    do 2 eexists. split; [reflexivity|]. split; reflexivity.
Qed.

End CohortMetrics.

(** * The rows of df_users and df_revenue *)

Module GrowthRows.
Import OrderFacts ListFacts PrepareFacts GridFacts GrowthAccountingPmf.

Lemma unstack_keys {K1 K2} (c1 : K1 -> K1 -> comparison)
  (c2 : K2 -> K2 -> comparison) (P : K1 -> K2 -> bool)
  (s : list (K1 * K2 * Q)) :
  map fst
    (filter (fun x : K1 * K2 * Q => P (fst (fst x)) (snd (fst x)))
       (unstack_fill_stack c1 c2 s))
  = cross_pairs P
      (distinct_sorted c1 (map (fun x => fst (fst x)) s))
      (distinct_sorted c2 (map (fun x => snd (fst x)) s)).
Proof.
  unfold unstack_fill_stack, cross_pairs.
  rewrite filter_flat_map, map_flat_map.
  apply flat_map_ext_in. intros c _.
  rewrite filter_map_comm, map_map. cbn. reflexivity.
Qed.

Lemma cross_pairs_In {K1 K2} (P : K1 -> K2 -> bool) rows cols a b :
  In (a, b) (cross_pairs P rows cols)
  <-> In a rows /\ In b cols /\ P a b = true.
Proof.
  unfold cross_pairs. rewrite in_flat_map. split.
  - intros (a' & Ha & H). apply in_map_iff in H.
    destruct H as (b' & E & Hb). injection E as -> ->.
    apply filter_In in Hb. tauto.
  - intros (Ha & Hb & Hp). exists a. split; [exact Ha|].
    apply in_map. apply filter_In. tauto.
Qed.


Lemma sorted_map {A B} (R : A -> A -> Prop) (R' : B -> B -> Prop)
  (f : A -> B) l :
  (forall x y, R x y -> R' (f x) (f y)) ->
  StronglySorted R l -> StronglySorted R' (map f l).
Proof.
  intros Hf. induction 1 as [|x l S IH Hall]; cbn; constructor; [exact IH|].
  rewrite Forall_forall in *. intros y Hy. apply in_map_iff in Hy.
  destruct Hy as (z & <- & Hz). apply Hf, Hall, Hz.
Qed.

Section CrossSorted.
Context {K1 K2 : Type} (c1 : K1 -> K1 -> comparison)
        (c2 : K2 -> K2 -> comparison).
Hypothesis c1_eq : forall a b, c1 a b = Eq <-> a = b.

End CrossSorted.

Lemma id_cohort_compare_eq a b : id_cohort_compare a b = Eq <-> a = b.
Proof.
  apply pair_compare_eq; [apply Z.compare_eq_iff|apply date_compare_eq].
Qed.

Lemma id_cohort_compare_antisym a b :
  id_cohort_compare b a = CompOpp (id_cohort_compare a b).
Proof.
  apply pair_compare_antisym; [apply Z.compare_antisym
                              |apply date_compare_antisym].
Qed.

Lemma id_cohort_compare_trans a b c :
  id_cohort_compare a b = Lt -> id_cohort_compare b c = Lt ->
  id_cohort_compare a c = Lt.
Proof.
  apply pair_compare_trans.
  - apply Z.compare_eq_iff.
  - apply Z_compare_trans.
  - apply date_compare_trans.
Qed.

Lemma cmp3_eq a b : cmp3 a b = Eq <-> a = b.
Proof.
  apply pair_compare_eq; [apply id_cohort_compare_eq|apply date_compare_eq].
Qed.

Lemma id_eqb_eq a b : id_eqb a b = true <-> a = b.
Proof.
  destruct a as [i c], b as [i' c']. unfold id_eqb. cbn.
  rewrite andb_true_iff, Z.eqb_eq, date_eqb_eq. split.
  - intros [-> ->]. reflexivity.
  - intros E. injection E as -> ->. auto.
Qed.

Lemma astype_int_count {A} (g : list A) :
  astype_int (count_rows g) = Z.of_nat (List.length g).
Proof. unfold astype_int, count_rows. cbn. apply Z.quot_1_r. Qed.

Lemma in_unstack {K1 K2} (c1 : K1 -> K1 -> comparison)
  (c2 : K2 -> K2 -> comparison) (s : list (K1 * K2 * Q)) a b v :
  In (a, b, v) (unstack_fill_stack c1 c2 s) ->
  v = match lookup (pair_compare c1 c2) (a, b) s with
      | Some v => v
      | None => 0%Q
      end.
Proof.
  unfold unstack_fill_stack. intros H. apply in_flat_map in H.
  destruct H as (a' & _ & H). apply in_map_iff in H.
  destruct H as (b' & E & _). injection E as -> -> <-. reflexivity.
Qed.

(** The rows of df_users before the column 'change': one row for every id
    (with its cohort) and every observed period from the cohort on, sorted
    by id and period; uniques is 0 or 1, and 0 only where the id has no
    row of df in the period. *)
Lemma users_base_spec df :
  well_prepared df ->
  exists ks ps,
    (forall a, In a ks <-> exists r, In r df /\ (r_id r, r_cohort r) = a)
    /\ (forall p, In p ps <-> observed_period df p)
    /\ StronglySorted (fun a b => id_cohort_compare a b = Lt) ks
    /\ StronglySorted date_lt ps
    /\ map (fun x : Z * date * date * Z * Z => fst (fst x)) (users_base df)
       = cross_pairs (fun a b => date_leb (snd a) b) ks ps
    /\ (forall x, In x (users_base df) ->
          (snd x = 0 \/ snd x = 1)
          /\ (snd x = 0 ->
              forall r, In r df -> r_id r = fst (fst (fst (fst x))) ->
                        r_period r <> snd (fst (fst x)))).
Proof.
  intros W. unfold users_base.
  set (key3 := fun r : prow => (r_id r, r_cohort r, r_period r)).
  set (freq := groupby_agg (pair_compare id_cohort_compare date_compare)
                 key3 count_rows df).
  set (ks := distinct_sorted id_cohort_compare
               (map (fun x : Z * date * date * Q => fst (fst x)) freq)).
  set (ps := distinct_sorted date_compare
               (map (fun x : Z * date * date * Q => snd (fst x)) freq)).
  assert (Hks : forall a, In a ks <->
                          exists r, In r df /\ (r_id r, r_cohort r) = a).
  { intros a. unfold ks.
    rewrite (distinct_sorted_In id_cohort_compare id_cohort_compare_eq).
    rewrite <- (map_map fst fst). unfold freq.
    rewrite groupby_agg_keys, in_map_iff. split.
    - intros ([a' p] & E & H). cbn in E. subst a'.
      apply (proj1 (distinct_sorted_In cmp3 cmp3_eq _ _)) in H.
      apply in_map_iff in H. destruct H as (r & E & Hr).
      exists r. split; [exact Hr|]. unfold key3 in E. congruence.
    - intros (r & Hr & E). exists (key3 r). split; [exact E|].
      apply (distinct_sorted_In cmp3 cmp3_eq). apply in_map. exact Hr. }
  assert (Hps : forall p, In p ps <-> observed_period df p).
  { intros p. unfold ps. rewrite dates_In.
    rewrite <- (map_map fst snd). unfold freq.
    rewrite groupby_agg_keys, in_map_iff. unfold observed_period. split.
    - intros ([a p'] & E & H). cbn in E. subst p'.
      apply (proj1 (distinct_sorted_In cmp3 cmp3_eq _ _)) in H.
      apply in_map_iff in H. destruct H as (r & E & Hr).
      exists r. split; [exact Hr|]. unfold key3 in E. congruence.
    - intros (r & Hr & E). exists (key3 r). split; [exact E|].
      apply (distinct_sorted_In cmp3 cmp3_eq). apply in_map. exact Hr. }
  exists ks, ps. split; [exact Hks|]. split; [exact Hps|].
  split.
  { apply distinct_sorted_sorted;
      first [exact id_cohort_compare_eq | exact id_cohort_compare_antisym
            | exact id_cohort_compare_trans]. }
  split; [apply dates_sorted|].
  split.
  - rewrite map_map. cbn. unfold ks, ps.
    rewrite <- (unstack_keys id_cohort_compare date_compare
                  (fun a b => date_leb (snd a) b) freq).
    reflexivity.
  - intros x Hx. apply in_map_iff in Hx.
    destruct Hx as ([[a b] v] & <- & Hy). cbn.
    apply filter_In in Hy. destruct Hy as [Hy _].
    pose proof Hy as Hv. apply in_unstack in Hv.
    assert (Ha : In a ks).
    { assert (X : In (a, b) (map fst (unstack_fill_stack id_cohort_compare
                                        date_compare freq)))
        by (apply in_map_iff; exists (a, b, v); auto).
      unfold unstack_fill_stack in X. rewrite map_flat_map in X.
      apply in_flat_map in X. destruct X as (a' & Ha' & X).
      rewrite map_map in X. apply in_map_iff in X.
      destruct X as (b' & E & _). cbn in E. injection E as -> ->.
      exact Ha'. }
    split; [destruct (astype_int v >? 0); auto|].
    intros Hu r Hr Hid Hp.
    apply Hks in Ha. destruct Ha as (r0 & Hr0 & Ea).
    assert (Ek : key3 r = (a, b)).
    { unfold key3. rewrite <- Ea, Hp. cbn in Hid. rewrite <- Ea in Hid.
      cbn in Hid. rewrite (cohort_of_id df W r r0 Hr Hr0 Hid), Hid.
      reflexivity. }
    unfold freq in Hv. fold cmp3 in Hv.
    rewrite (lookup_groupby_agg cmp3 cmp3_eq) in Hv.
    assert (X : existsb (fun r => cmp_eqb cmp3 (key3 r) (a, b)) df = true).
    { apply existsb_exists. exists r. split; [exact Hr|].
      apply (cmp_eqb_true cmp3 cmp3_eq). exact Ek. }
    rewrite X in Hv. subst v. rewrite astype_int_count in Hu.
    assert (Hl : In r (filter (fun r => cmp_eqb cmp3 (key3 r) (a, b)) df)).
    { apply filter_In. split; [exact Hr|].
      apply (cmp_eqb_true cmp3 cmp3_eq). exact Ek. }
    destruct (filter (fun r => cmp_eqb cmp3 (key3 r) (a, b)) df);
      [destruct Hl|].
    cbn [List.length] in Hu.
    destruct (Z.gtb_spec (Z.of_nat (S (List.length l))) 0); [discriminate|lia].
Qed.

Lemma length_users_change df :
  List.length (users_change df) = List.length (users_base df).
Proof. unfold users_change. apply length_groupby_apply. Qed.

Lemma length_df_users df :
  List.length (df_users df) = List.length (users_base df).
Proof.
  unfold df_users. rewrite length_zip_with; [reflexivity|].
  symmetry. apply length_users_change.
Qed.

Lemma length_revenue_base df :
  List.length (revenue_base df) = List.length (users_base df).
Proof. unfold revenue_base. rewrite length_map. apply length_df_users. Qed.

Lemma length_revenue_change df :
  List.length (revenue_change df) = List.length (users_base df).
Proof.
  unfold revenue_change. rewrite length_groupby_apply.
  apply length_revenue_base.
Qed.

Lemma length_df_revenue df :
  List.length (df_revenue df) = List.length (users_base df).
Proof.
  unfold df_revenue. rewrite length_zip_with.
  - apply length_revenue_base.
  - rewrite length_revenue_base, length_revenue_change. reflexivity.
Qed.

(* The group keys of revenue_base are those of users_base, row by row. *)
Lemma revenue_base_keys df :
  map (fun x : user_row * Q => (u_id (fst x), u_cohort_rep (fst x)))
      (revenue_base df)
  = map (fun x : Z * date * date * Z * Z => fst (fst (fst x)))
        (users_base df).
Proof.
  unfold revenue_base. rewrite map_map. cbn [fst].
  unfold df_users, zip_with. rewrite map_map.
  rewrite <- (map_fst_combine (users_base df) (users_change df))
    at 2 by (symmetry; apply length_users_change).
  rewrite map_map. apply map_ext.
  intros [[[[[id c] p] f] u] ch]. reflexivity.
Qed.

Lemma id_period_eqb id p (r : prow) :
  cmp_eqb id_period_compare (r_id r, r_period r) (id, p)
  = ((r_id r =? id) && date_eqb (r_period r) p)%bool.
Proof.
  unfold cmp_eqb, id_period_compare, pair_compare, date_eqb. cbn.
  rewrite Z.eqb_compare. destruct (r_id r ?= id); reflexivity.
Qed.

Lemma sum_skipna_some {A} (f : A -> Q) l :
  sum_skipna (map (fun r => Some (f r)) l) = qsum f l.
Proof.
  induction l as [|x l IH]; cbn; [reflexivity|]. rewrite IH. reflexivity.
Qed.

(** Row [i] of df_revenue, from row [i] of df_users. *)
Lemma revenue_row_at df i (x : Z * date * date * Z * Z) :
  well_prepared df ->
  nth_error (users_base df) i = Some x ->
  exists ch rc rev,
    nth_error (df_revenue df) i
    = Some (mkrevenue (fst (fst (fst (fst x)))) (snd (fst (fst (fst x))))
              (snd (fst (fst x)))
              (match ch with Some c => c | None => 2 end + snd x)
              rev rc (revstatus_of rc) (retained_of rev rc))
    /\ (rev == input_sum (id_period_rows df (fst (fst (fst (fst x))))
                                          (snd (fst (fst x)))))%Q
    /\ (snd x = 0 -> rev = 0%Q)
    /\ ((rank_of id_eqb
           (map (fun x : Z * date * date * Z * Z => fst (fst (fst x)))
                (users_base df)) i (fst (fst (fst x))) = O
         /\ ch = None /\ rc = None)
        \/ (rank_of id_eqb
              (map (fun x : Z * date * date * Z * Z => fst (fst (fst x)))
                   (users_base df)) i (fst (fst (fst x))) <> O
            /\ (exists u', (u' = 0 \/ u' = 1) /\ ch = Some (snd x - u'))
            /\ exists q, rc = Some q)).
Proof.
  intros W Hx.
  destruct (users_base_spec df W) as (ks & ps & _ & _ & _ & _ & _ & Hu).
  (* the user row *)
  destruct (nth_error (users_change df) i) as [ch|] eqn:Ech.
  2: { apply nth_error_None in Ech. rewrite length_users_change in Ech.
       assert (nth_error (users_base df) i <> None) by congruence.
       apply nth_error_Some in H. lia. }
  assert (Eu : nth_error (df_users df) i
               = Some (mkuser (fst (fst (fst (fst x))))
                         (snd (fst (fst (fst x)))) (snd (fst (fst x)))
                         (snd (fst x)) (snd x)
                         (match ch with Some c => c | None => 2 end)
                         (match ch with Some c => c | None => 2 end
                          + snd x))).
  { unfold df_users. rewrite (nth_error_zip_with _ _ _ _ _ _ Hx Ech).
    destruct x as [[[[id c] p] f] u]. reflexivity. }
  set (urow := mkuser (fst (fst (fst (fst x)))) (snd (fst (fst (fst x))))
                 (snd (fst (fst x))) (snd (fst x)) (snd x)
                 (match ch with Some c => c | None => 2 end)
                 (match ch with Some c => c | None => 2 end + snd x)) in *.
  set (s := groupby_agg id_period_compare
              (fun r : prow => (r_id r, r_period r))
              (fun g => sum_skipna (map (fun r => Some (r_input r)) g)) df).
  set (rev := match lookup id_period_compare
                      (u_id urow, u_period_rep urow) s with
              | Some q => q
              | None => 0%Q
              end).
  assert (Eb : nth_error (revenue_base df) i = Some (urow, rev)).
  { unfold revenue_base. rewrite nth_error_map, Eu. reflexivity. }
  destruct (nth_error (revenue_change df) i) as [rc|] eqn:Erc.
  2: { apply nth_error_None in Erc. rewrite length_revenue_change in Erc.
       assert (nth_error (users_base df) i <> None) by congruence.
       apply nth_error_Some in H. lia. }
  exists ch, rc, rev. split; [|split; [|split]].
  - unfold df_revenue. rewrite (nth_error_zip_with _ _ _ _ _ _ Eb Erc).
    reflexivity.
  - unfold rev, s. rewrite (lookup_groupby_agg id_period_compare).
    2: { intros a b. apply pair_compare_eq;
           [apply Z.compare_eq_iff|apply date_compare_eq]. }
    rewrite existsb_filter_nonempty. cbn [u_id u_period_rep urow].
    unfold input_sum, id_period_rows.
    rewrite (filter_ext _ _ (id_period_eqb _ _)).
    destruct (filter _ df) eqn:Ef; [reflexivity|].
    rewrite sum_skipna_some. reflexivity.
  - intros Hz. unfold rev, s.
    rewrite (lookup_groupby_agg id_period_compare).
    2: { intros a b. apply pair_compare_eq;
           [apply Z.compare_eq_iff|apply date_compare_eq]. }
    destruct (existsb _ df) eqn:X; [|reflexivity].
    exfalso. apply existsb_exists in X. destruct X as (r & Hr & Er).
    apply (cmp_eqb_true id_period_compare) in Er.
    2: { intros a b. apply pair_compare_eq;
           [apply Z.compare_eq_iff|apply date_compare_eq]. }
    cbn in Er. injection Er as Ei Ep.
    apply (nth_error_In _ _) in Hx.
    destruct (Hu x Hx) as [_ Hno]. exact (Hno Hz r Hr Ei Ep).
  - pose proof (groupby_diff_nth id_eqb
                  (fun x : Z * date * date * Z * Z => fst (fst (fst x)))
                  id_eqb_eq snd Z.sub (users_base df) i x Hx) as D1.
    fold (users_change df) in D1. rewrite Ech in D1.
    pose proof (groupby_diff_nth id_eqb
                  (fun x : user_row * Q =>
                     (u_id (fst x), u_cohort_rep (fst x)))
                  id_eqb_eq snd Qminus (revenue_base df) i (urow, rev) Eb)
      as D2.
    fold (revenue_change df) in D2. rewrite Erc, revenue_base_keys in D2.
    cbn [fst u_id u_cohort_rep urow] in D2.
    replace (fst (fst (fst (fst x))), snd (fst (fst (fst x))))
      with (fst (fst (fst x))) in D2
      by (destruct x as [[[[id c] p] f] u]; reflexivity).
    destruct D1 as [(R1 & E1)|(R1 & x' & Hx' & _ & E1)];
      destruct D2 as [(R2 & E2)|(R2 & y' & _ & _ & E2)];
      try contradiction.
    + left. split; [exact R1|]. split; congruence.
    + right. split; [exact R1|]. split.
      * exists (snd x'). split; [exact (proj1 (Hu x' Hx'))|congruence].
      * eexists. injection E2 as <-. reflexivity.
Qed.

Lemma in_df_revenue_index df v :
  In v (df_revenue df) ->
  exists i x, nth_error (df_revenue df) i = Some v
              /\ nth_error (users_base df) i = Some x.
Proof.
  intros H. apply In_nth_error in H. destruct H as (i & Hi).
  exists i. destruct (nth_error (users_base df) i) as [x|] eqn:E.
  - exists x. auto.
  - apply nth_error_None in E. rewrite <- length_df_revenue in E.
    assert (nth_error (df_revenue df) i <> None) by congruence.
    apply nth_error_Some in H. lia.
Qed.


(** Every observed cohort is the period of some row of df_revenue. *)
Lemma revenue_row_of_cohort df c :
  well_prepared df -> observed_cohort df c ->
  exists v, In v (df_revenue df) /\ v_period_rep v = c.
Proof.
  intros W (r & Hr & Ec).
  destruct (users_base_spec df W)
    as (ks & ps & Hks & Hps & _ & _ & Hkeys & _).
  destruct (cohort_attained df W r Hr) as (r' & Hr' & Eid & Ep).
  assert (Hk : In ((r_id r, c), c)
                 (cross_pairs (fun a b => date_leb (snd a) b) ks ps)).
  { apply cross_pairs_In. split; [|split].
    - apply Hks. exists r. split; [exact Hr|]. congruence.
    - apply Hps. exists r'. split; [exact Hr'|]. congruence.
    - apply date_leb_refl. }
  rewrite <- Hkeys in Hk. apply in_map_iff in Hk.
  destruct Hk as (x & Ex & Hx). apply In_nth_error in Hx.
  destruct Hx as (i & Hi).
  destruct (revenue_row_at df i x W Hi) as (ch & rc & rev & E & _).
  eexists. split; [eapply nth_error_In; exact E|]. cbn.
  rewrite Ex. reflexivity.
Qed.

End GrowthRows.

(** * The columns of dfgrowth *)

Module GrowthColumns.
Import OrderFacts ListFacts PrepareFacts GridFacts GrowthRows
       GrowthAccountingPmf.

Lemma fit_table self data column_input self' :
  fit self data column_input = Ok self' ->
  exists df,
    prepare (self_period self) (self_simple self) data = Ok df
    /\ GrowthAccountingPmf.df self'
       = Some (mkframe (growth_index df) (df_table df))
    /\ period_rep_list self' = growth_index df
    /\ find_col "contraction_rate" (arrays self')
       = Some (replace_inf (c_contraction_rate df)).
Proof.
  unfold fit. intros H.
  destruct (negb (self_simple self) && not_given column_input);
    [discriminate|].
  apply bind_ok in H. destruct H as (df & P & H).
  exists df. split; [exact P|].
  change (select_cols df_column_list (cols (dfgrowth df)))
    with (Ok (df_table df)) in H.
  cbn [bind] in H. apply bind_ok in H. destruct H as (arr & A & H).
  injection H as <-. cbn.
  split; [reflexivity|]. split; [reflexivity|].
  injection A as <-. reflexivity.
Qed.

Lemma growth_index_In df p :
  In p (growth_index df) <-> observed_cohort df p.
Proof.
  unfold growth_index, new_ids_series. rewrite groupby_agg_keys, dates_In.
  rewrite in_map_iff. unfold observed_cohort. split.
  - intros (r & E & H). eauto.
  - intros (r & H & E). eauto.
Qed.

Lemma growth_index_sorted df : StronglySorted date_lt (growth_index df).
Proof.
  unfold growth_index, new_ids_series. rewrite groupby_agg_keys.
  apply dates_sorted.
Qed.

(** Cells *)

Lemma filter_comm {A} (P Q : A -> bool) l :
  filter P (filter Q l) = filter Q (filter P l).
Proof.
  induction l as [|x l IH]; cbn; [reflexivity|].
  destruct (P x) eqn:EP, (Q x) eqn:EQ; cbn; rewrite ?EP, ?EQ, IH;
    reflexivity.
Qed.

Lemma category_nth idx cond col rev i p :
  nth_error idx i = Some p ->
  nth_error (category idx cond col rev) i
  = Some (match filter cond (rows_of_period p rev) with
          | [] => NaN
          | _ => Fin (class_sum cond col p rev)
          end).
Proof.
  intros H. unfold category, align.
  rewrite nth_error_map, H. cbn [option_map].
  rewrite (lookup_groupby_agg date_compare date_compare_eq).
  rewrite existsb_filter_nonempty.
  unfold class_sum, rows_of_period. rewrite (filter_comm cond).
  change (fun r : revenue_row => cmp_eqb date_compare (v_period_rep r) p)
    with (fun r : revenue_row => date_eqb (v_period_rep r) p).
  destruct (filter _ (filter cond rev)); reflexivity.
Qed.

Lemma filled_category_nth idx cond col rev i p :
  nth_error idx i = Some p ->
  nth_error (fillna 0 (category idx cond col rev)) i
  = Some (Fin (class_sum cond col p rev)).
Proof.
  intros H. unfold fillna.
  rewrite nth_error_map, (category_nth idx cond col rev i p H).
  cbn [option_map]. unfold class_sum.
  destruct (filter cond (rows_of_period p rev)); reflexivity.
Qed.









End GrowthColumns.

(** * The growth-accounting table: claims C1 and C8 *)

Module GrowthTable.
Import OrderFacts ListFacts PrepareFacts GridFacts GrowthRows GrowthColumns
       GrowthAccountingPmf.

(** The rows of the table of a fitted model are the observed cohorts, in
    ascending order. *)
Lemma growth_table_index self data column_input self' :
  fit self data column_input = Ok self' ->
  exists df t,
    prepare (self_period self) (self_simple self) data = Ok df
    /\ GrowthAccountingPmf.df self' = Some t
    /\ (forall p, In p (index t) <-> observed_cohort df p)
    /\ StronglySorted date_lt (index t)
    /\ column_names (cols t) = df_column_list.
Proof.
  intros H. destruct (fit_table _ _ _ _ H) as (df & P & T & _).
  exists df, (mkframe (growth_index df) (df_table df)).
  split; [exact P|]. split; [exact T|]. cbn [index cols].
  split; [apply growth_index_In|]. split; [apply growth_index_sorted|].
  reflexivity.
Qed.

(** C1 (one row per period).  The claim is that the table has a row for
    every period observed in the dataset, not only for the periods that
    are some id's cohort.  In the sample dataset id 1 is active in March
    2024, which is no id's first period: the fitted table has the rows of
    January and February only, and no row for March. *)
Theorem growth_table_misses_period :
  exists self' df t,
    fit (init Tm true) sample_events None = Ok self'
    /\ prepare Tm true sample_events = Ok df
    /\ GrowthAccountingPmf.df self' = Some t
    /\ index t = [jan; feb]
    /\ period_rep_list self' = [jan; feb]
    /\ observed_period df mar
    /\ ~ observed_cohort df mar
    /\ ~ In mar (index t).
Proof.
  remember (fit (init Tm true) sample_events None) as r eqn:Er.
  vm_compute in Er. subst r.
  remember (prepare Tm true sample_events) as r eqn:Er.
  vm_compute in Er. subst r.
  do 3 eexists.
  split; [reflexivity|]. split; [reflexivity|]. split; [reflexivity|].
  split; [reflexivity|]. split; [reflexivity|].
  split; [|split].
  - eexists. split; [right; left; reflexivity|reflexivity].
  - intros (r & Hr & E). cbn in Hr.
    repeat (destruct Hr as [<-|Hr]; [discriminate E|]). exact Hr.
  - cbn. intros [E|[E|[]]]; discriminate E.
Qed.

(** C8 (rate columns).  The claim is that the table holds a rate column for
    each of the six categories, contraction_rate among them.  The column
    list that [fit] selects for self.df has no 'contraction_rate': the
    column is computed in dfgrowth and copied to the attribute
    self.contraction_rate, but it is not a column of the table, for any
    input. *)
Theorem contraction_rate_not_in_table :
  ~ In "contraction_rate"%string df_column_list
  /\ In "contraction_rate"%string attribute_list
  /\ List.length df_column_list = 16%nat
  /\ (forall df,
        find_col "contraction_rate" (df_table df) = None
        /\ find_col "contraction_rate" (cols (dfgrowth df))
           = Some (replace_inf (c_contraction_rate df))
        /\ select_cols df_column_list (cols (dfgrowth df))
           = Ok (df_table df))
  /\ exists self' t,
       fit (init Tm true) sample_events None = Ok self'
       /\ GrowthAccountingPmf.df self' = Some t
       /\ column_names (cols t) = df_column_list
       /\ find_col "contraction_rate" (cols t) = None
       /\ find_col "contraction_rate" (arrays self') = Some [NaN; NaN]
       /\ find_col "new_rate" (cols t) = Some [NaN; Fin 1].
Proof.
  split.
  { cbn. intros H.
    repeat (destruct H as [H|H]; [discriminate H|]). exact H. }
  split; [cbn; tauto|]. split; [reflexivity|].
  split; [intros df; repeat split|].
  remember (fit (init Tm true) sample_events None) as r eqn:Er.
  vm_compute in Er. subst r.
  do 2 eexists.
  split; [reflexivity|]. split; [reflexivity|].
  repeat split.
Qed.

End GrowthTable.

(** * Rates and ratios: claim C9 *)

Module GrowthRates.
Import OrderFacts ListFacts PrepareFacts GridFacts GrowthRows GrowthColumns
       GrowthAccountingPmf.






Lemma replace_inf_fin c :
  (forall x, In x c -> x = NaN \/ is_fin x = true) -> replace_inf c = c.
Proof.
  intros H. unfold replace_inf. rewrite <- (map_id c) at 2.
  apply map_ext_in. intros x Hx.
  destruct (H x Hx) as [-> |E]; [reflexivity|].
  destruct x; try discriminate; reflexivity.
Qed.

Lemma category_cells idx cond col rev x :
  In x (category idx cond col rev) -> x = NaN \/ is_fin x = true.
Proof.
  unfold category, align. intros H. apply in_map_iff in H.
  destruct H as (k & <- & _). destruct (lookup _ _ _); auto.
Qed.

Lemma filled_cells idx cond col rev x :
  In x (fillna 0 (category idx cond col rev)) -> is_fin x = true.
Proof.
  unfold fillna. intros H. apply in_map_iff in H.
  destruct H as (y & <- & Hy). apply category_cells in Hy.
  destruct Hy as [-> |E]; [reflexivity|].
  destruct y; try discriminate; reflexivity.
Qed.





Lemma nth_error_zip_with_some {A B C} (f : A -> B -> C) a b i z :
  nth_error (zip_with f a b) i = Some z ->
  exists x y, nth_error a i = Some x /\ nth_error b i = Some y /\ z = f x y.
Proof. apply nth_error_zip_with_inv. Qed.






Lemma category_column df name cond col :
  In (name, cond, col) category_classes ->
  exists c,
    find_col name (df_table df) = Some c
    /\ forall i p,
         nth_error (growth_index df) i = Some p ->
         nth_error c i = Some (Fin (class_sum cond col p (df_revenue df)))
         /\ (filter cond (rows_of_period p (df_revenue df)) = [] ->
             nth_error c i = Some (Fin 0)).
Proof.
  intros H. unfold category_classes in H. cbn [In] in H.
  repeat (destruct H as [H|H];
          [injection H as <- <- <-;
           eexists; split; [reflexivity|];
           intros i p Hp;
           rewrite replace_inf_fin
             by (intros x Hx; right; exact (filled_cells _ _ _ _ _ Hx));
           match goal with
           | |- nth_error ?c _ = _ /\ _ =>
               unfold c_new, c_resurrected, c_expansion, c_contraction,
                 c_retained, c_churned
           end;
           rewrite (filled_category_nth _ _ _ _ i p Hp);
           split; [reflexivity|];
           intros E; unfold class_sum; rewrite E; reflexivity|]).
  destruct H.
Qed.

Lemma total_cells df :
  replace_inf (c_total df) = c_total df.
Proof.
  apply replace_inf_fin. intros x Hx. exact (category_cells _ _ _ _ _ Hx).
Qed.










(** On a dataset of dates, and with the quantity column given when the
    model is not simple, [fit] raises nothing. *)
Lemma mapM_total {A B} (f : A -> result B) l :
  (forall a, In a l -> exists b, f a = Ok b) -> exists l', mapM f l = Ok l'.
Proof.
  induction l as [|a l IH]; intros H; cbn; [eauto|].
  destruct (H a (or_introl eq_refl)) as (b & ->). cbn.
  destruct IH as (l' & ->); [intros x Hx; apply H; right; exact Hx|].
  cbn. eauto.
Qed.

Lemma in_enumerate_from {A} (l : list A) :
  forall i x, In x (enumerate_from i l) -> In (snd x) l.
Proof.
  induction l as [|a l IH]; intros i x H; cbn in *; [exact H|].
  destruct H as [<-|H]; [left; reflexivity|right; eapply IH; exact H].
Qed.

Lemma prepare_returns period simple data :
  forallb (fun e => valid (ev_date e)) data = true ->
  exists df, prepare period simple data = Ok df.
Proof.
  intros V. rewrite forallb_forall in V. unfold prepare.
  destruct (mapM_total
              (fun ie : Z * event =>
                 p <- custom_representative period (ev_date (snd ie)) ;;
                 Ok (fst ie, snd ie, p))
              (enumerate_from 0 data)) as (rows & ->).
  - intros x Hx. apply in_enumerate_from in Hx.
    destruct (AuxFacts.custom_representative_ok period _ (V _ Hx))
      as (r & -> & _).
    cbn. eauto.
  - cbn. eauto.
Qed.




End GrowthRates.

(** * Reconciliation of the categories with the total: claim C2 *)

Module GrowthReconciliation.
Import OrderFacts ListFacts PrepareFacts GridFacts GrowthRows GrowthColumns
       GrowthRates GrowthAccountingPmf.

Lemma qsum_ext {A} (f g : A -> Q) l :
  (forall v, In v l -> (f v == g v)%Q) -> (qsum f l == qsum g l)%Q.
Proof.
  induction l as [|x l IH]; intros H; cbn; [reflexivity|].
  rewrite (H x (or_introl eq_refl)), IH; [reflexivity|].
  intros v Hv. apply H. right. exact Hv.
Qed.

Lemma qsum_plus {A} (f g : A -> Q) l :
  (qsum (fun v => f v + g v) l == qsum f l + qsum g l)%Q.
Proof.
  induction l as [|x l IH]; cbn; [reflexivity|]. rewrite IH. ring.
Qed.

Lemma qsum_map {A B} (h : A -> B) (f : B -> Q) l :
  qsum f (map h l) = qsum (fun v => f (h v)) l.
Proof.
  induction l as [|x l IH]; cbn; [reflexivity|]. rewrite IH. reflexivity.
Qed.

Lemma qsum_zero {A} (f : A -> Q) l :
  (forall v, In v l -> (f v == 0)%Q) -> (qsum f l == 0)%Q.
Proof.
  induction l as [|x l IH]; intros H; cbn; [reflexivity|].
  rewrite (H x (or_introl eq_refl)), IH; [ring|].
  intros v Hv. apply H. right. exact Hv.
Qed.

Lemma qsum_filter_zero {A} (P : A -> bool) (f : A -> Q) l :
  (forall v, In v l -> P v = false -> (f v == 0)%Q) ->
  (qsum f (filter P l) == qsum f l)%Q.
Proof.
  induction l as [|x l IH]; intros H; cbn; [reflexivity|].
  assert (IH' : (qsum f (filter P l) == qsum f l)%Q).
  { apply IH. intros v Hv. apply H. right. exact Hv. }
  destruct (P x) eqn:E; cbn; rewrite IH'; [reflexivity|].
  rewrite (H x (or_introl eq_refl) E). ring.
Qed.

Lemma sum_skipna_contrib {A} (cond : A -> bool) (col : A -> option Q) l :
  (sum_skipna (map col (filter cond l)) == qsum (contrib cond col) l)%Q.
Proof.
  induction l as [|x l IH]; cbn; [reflexivity|]. unfold contrib at 1.
  destruct (cond x); cbn.
  - destruct (col x); rewrite IH; ring.
  - rewrite IH. ring.
Qed.

Lemma class_sum_qsum cond col p rev :
  (class_sum cond col p rev
   == qsum (contrib cond col) (rows_of_period p rev))%Q.
Proof. unfold class_sum. apply sum_skipna_contrib. Qed.



(** The total of a period and the rows of df *)

Lemma filter_and {A} (P Q : A -> bool) l :
  filter P (filter Q l) = filter (fun x => Q x && P x) l.
Proof.
  induction l as [|x l IH]; cbn; [reflexivity|].
  destruct (Q x); cbn; [destruct (P x)|]; rewrite IH; reflexivity.
Qed.

Lemma filter_single (b : date) cols :
  NoDup cols -> In b cols -> filter (fun x => date_eqb x b) cols = [b].
Proof.
  induction 1 as [|x cols Hx Hn IH]; intros Hin; [destruct Hin|]. cbn.
  destruct (date_eqb x b) eqn:E.
  - apply date_eqb_eq in E. subst x. f_equal. apply filter_false.
    intros y Hy. destruct (date_eqb y b) eqn:E; [|reflexivity].
    apply date_eqb_eq in E. subst y. contradiction.
  - destruct Hin as [-> |Hin]; [|apply IH; exact Hin].
    assert (date_eqb b b = true) by (apply date_eqb_eq; reflexivity).
    congruence.
Qed.

Lemma cross_pairs_of_column {K1} (P : K1 -> date -> bool) rows cols b :
  NoDup cols -> In b cols ->
  filter (fun x : K1 * date => date_eqb (snd x) b) (cross_pairs P rows cols)
  = map (fun a => (a, b)) (filter (fun a => P a b) rows).
Proof.
  intros Hn Hb. unfold cross_pairs.
  induction rows as [|a rows IH]; cbn; [reflexivity|].
  rewrite filter_app, IH, filter_map_comm. cbn [snd].
  rewrite filter_and.
  destruct (P a b) eqn:E.
  - rewrite (filter_ext_in _ (fun x => date_eqb x b)).
    + rewrite (filter_single b cols Hn Hb). reflexivity.
    + intros y Hy. destruct (date_eqb y b) eqn:Ey.
      * apply date_eqb_eq in Ey. subst y. rewrite E. reflexivity.
      * apply andb_false_r.
  - rewrite filter_false; [reflexivity|].
    intros y Hy. destruct (date_eqb y b) eqn:Ey.
    + apply date_eqb_eq in Ey. subst y. rewrite E. reflexivity.
    + apply andb_false_r.
Qed.

Lemma qsum_indicator {K} (eqb : K -> K -> bool) (k : K) (q : Q) ks :
  (forall a b, eqb a b = true <-> a = b) -> NoDup ks -> In k ks ->
  (qsum (fun a => if eqb k a then q else 0) ks == q)%Q.
Proof.
  intros Heq. induction 1 as [|x ks Hx Hn IH]; intros Hin; [destruct Hin|].
  cbn. destruct (eqb k x) eqn:E.
  - apply Heq in E. subst x. rewrite qsum_zero; [ring|].
    intros v Hv. destruct (eqb k v) eqn:E; [|reflexivity].
    apply Heq in E. subst v. contradiction.
  - destruct Hin as [-> |Hin].
    + assert (eqb k k = true) by (apply Heq; reflexivity). congruence.
    + rewrite (IH Hin). ring.
Qed.

(** Summing group by group gives the sum over all rows. *)
Lemma qsum_partition {A K} (eqb : K -> K -> bool) (keyf : A -> K)
  (f : A -> Q) ks l :
  (forall a b, eqb a b = true <-> a = b) -> NoDup ks ->
  (forall r, In r l -> In (keyf r) ks) ->
  (qsum (fun a => qsum f (filter (fun r => eqb (keyf r) a) l)) ks
   == qsum f l)%Q.
Proof.
  intros Heq Hn. induction l as [|r l IH]; intros Hin.
  - cbn. apply qsum_zero. intros. reflexivity.
  - cbn [qsum filter].
    rewrite <- IH by (intros r' Hr'; apply Hin; right; exact Hr').
    rewrite <- (qsum_indicator eqb (keyf r) (f r) ks Heq Hn)
      by (apply Hin; left; reflexivity).
    rewrite <- qsum_plus. apply qsum_ext. intros a _.
    destruct (eqb (keyf r) a); cbn; ring.
Qed.

Lemma revenue_keys df :
  well_prepared df ->
  map (fun v => ((v_id v, v_cohort_rep v), v_period_rep v)) (df_revenue df)
  = map (fun x : Z * date * date * Z * Z => fst (fst x)) (users_base df).
Proof.
  intros W. apply nth_error_ext. intros i.
  rewrite !nth_error_map.
  destruct (nth_error (users_base df) i) as [x|] eqn:Ex.
  - destruct (revenue_row_at df i x W Ex) as (ch & rc & rev & E & _).
    rewrite E. cbn. destruct x as [[[[id c] p] f] u]. reflexivity.
  - apply nth_error_None in Ex. rewrite <- length_df_revenue in Ex.
    apply nth_error_None in Ex. rewrite Ex. reflexivity.
Qed.

Lemma revenue_value df v :
  well_prepared df -> In v (df_revenue df) ->
  (v_revenue v
   == input_sum (id_period_rows df (v_id v) (v_period_rep v)))%Q.
Proof.
  intros W Hv. destruct (in_df_revenue_index df v Hv) as (i & x & Ev & Ex).
  destruct (revenue_row_at df i x W Ex) as (ch & rc & rev & E & Hrev & _).
  rewrite Ev in E. injection E as ->. cbn. exact Hrev.
Qed.

(** The total of an observed period is the sum of the input column over
    the rows of df of that period. *)
Lemma period_total df p :
  well_prepared df -> observed_period df p ->
  (class_sum (fun _ => true) some_revenue p (df_revenue df)
   == input_sum (events_of_period p df))%Q.
Proof.
  intros W Hp.
  destruct (users_base_spec df W)
    as (ks & ps & Hks & Hps & Sks & Sps & Hkeys & _).
  set (T := fun a : Z * date => input_sum (id_period_rows df (fst a) p)).
  (* the total as a sum over the rows of the period *)
  rewrite class_sum_qsum.
  rewrite (qsum_ext _ (fun v => T (v_id v, v_cohort_rep v))).
  2: { intros v Hv. unfold rows_of_period in Hv. apply filter_In in Hv.
       destruct Hv as [Hv Ep]. apply date_eqb_eq in Ep.
       unfold contrib, some_revenue, T. cbn [fst].
       rewrite <- Ep. apply revenue_value; assumption. }
  (* these rows are the ids whose cohort is not after the period *)
  rewrite <- (qsum_map (fun v => (v_id v, v_cohort_rep v)) T).
  assert (Ek : map (fun v => (v_id v, v_cohort_rep v))
                   (rows_of_period p (df_revenue df))
               = filter (fun a => date_leb (snd a) p) ks).
  { transitivity
      (map fst (filter (fun x : Z * date * date => date_eqb (snd x) p)
                  (map (fun v => ((v_id v, v_cohort_rep v), v_period_rep v))
                       (df_revenue df)))).
    - rewrite filter_map_comm, map_map. reflexivity.
    - rewrite (revenue_keys df W), Hkeys.
      rewrite cross_pairs_of_column.
      + rewrite map_map. apply map_id.
      + apply sorted_dates_NoDup. exact Sps.
      + apply Hps. exact Hp. }
  rewrite Ek.
  assert (Hcoh : forall a r, In a ks -> In r df -> r_id r = fst a ->
                             r_cohort r = snd a).
  { intros a r Ha Hr Hid. apply Hks in Ha. destruct Ha as (r0 & Hr0 & <-).
    cbn in *. apply (cohort_of_id df W); assumption. }
  (* the other ids have no row in the period *)
  rewrite qsum_filter_zero.
  2: { intros a Ha Hle. unfold T, input_sum, id_period_rows.
       rewrite filter_false; [reflexivity|].
       intros r Hr. destruct (r_id r =? fst a) eqn:Ei; [|reflexivity].
       destruct (date_eqb (r_period r) p) eqn:Ep; [|reflexivity].
       exfalso. apply Z.eqb_eq in Ei. apply date_eqb_eq in Ep.
       pose proof (cohort_least df W r r Hr Hr eq_refl) as L.
       rewrite (Hcoh a r Ha Hr Ei), Ep in L. congruence. }
  (* and the rows of the period are split among the ids *)
  unfold input_sum.
  rewrite <- (qsum_partition id_eqb (fun r => (r_id r, r_cohort r)) r_input
                ks (events_of_period p df) id_eqb_eq).
  - apply qsum_ext. intros a Ha. unfold T, input_sum, id_period_rows,
      events_of_period.
    rewrite filter_and.
    rewrite (filter_ext_in
               (fun r => (r_id r =? fst a) && date_eqb (r_period r) p)
               (fun r => date_eqb (r_period r) p
                         && id_eqb (r_id r, r_cohort r) a)%bool);
      [reflexivity|].
    intros r Hr. rewrite andb_comm. f_equal.
    destruct (r_id r =? fst a) eqn:Ei.
    + symmetry. apply id_eqb_eq. apply Z.eqb_eq in Ei.
      rewrite (Hcoh a r Ha Hr Ei), Ei. destruct a; reflexivity.
    + symmetry. destruct (id_eqb (r_id r, r_cohort r) a) eqn:E;
        [|reflexivity].
      apply id_eqb_eq in E. subst a. cbn in Ei.
      rewrite Z.eqb_refl in Ei. discriminate.
  - apply (sorted_NoDup id_cohort_compare id_cohort_compare_eq). exact Sks.
  - intros r Hr. unfold events_of_period in Hr. apply filter_In in Hr.
    apply Hks. exists r. split; [tauto|reflexivity].
Qed.




End GrowthReconciliation.

(** * Order of the representatives *)

Module CalendarOrder.
Import CalendarFacts AuxFacts OrderFacts.

Lemma days_before_month_step y m :
  1 <= m <= 11 ->
  days_before_month y (m + 1) = days_before_month y m + days_in_month y m.
Proof.
  intros Hm. unfold days_in_month, days_before_month.
  assert (C : m = 1 \/ m = 2 \/ m = 3 \/ m = 4 \/ m = 5 \/ m = 6 \/ m = 7
              \/ m = 8 \/ m = 9 \/ m = 10 \/ m = 11) by lia.
  destruct (is_leap y);
    repeat (destruct C as [C|C]; [subst m; reflexivity|]);
    subst m; reflexivity.
Qed.

Lemma days_before_month_mono y m m' :
  1 <= m -> m < m' -> m' <= 12 ->
  days_before_month y m + days_in_month y m <= days_before_month y m'.
Proof.
  intros H1 H2 H3.
  assert (G : forall k, 0 <= k -> m + 1 + k <= 12 ->
            days_before_month y m + days_in_month y m
            <= days_before_month y (m + 1 + k)).
  { apply (natlike_ind (fun k => m + 1 + k <= 12 ->
      days_before_month y m + days_in_month y m
      <= days_before_month y (m + 1 + k))).
    - intros _. replace (m + 1 + 0) with (m + 1) by lia.
      rewrite days_before_month_step by lia. lia.
    - intros k Hk IH Hle.
      replace (m + 1 + Z.succ k) with (m + 1 + k + 1) by lia.
      rewrite days_before_month_step by lia.
      pose proof (days_in_month_pos y (m + 1 + k) ltac:(lia)). lia. }
  specialize (G (m' - m - 1) ltac:(lia) ltac:(lia)).
  replace (m + 1 + (m' - m - 1)) with m' in G by lia. exact G.
Qed.

Lemma toordinal_lt a b :
  valid a = true -> valid b = true -> date_compare a b = Lt ->
  toordinal a < toordinal b.
Proof.
  intros Va Vb L. apply valid_spec in Va, Vb.
  destruct Va as (Ay & Am & Ad), Vb as (By & Bm & Bd).
  apply date_compare_lt in L. unfold toordinal.
  destruct L as [L|[Ey [L|[Em L]]]].
  - pose proof (ymd2ord_year_range _ _ _ Am Ad) as Ra.
    pose proof (ymd2ord_year_range _ _ _ Bm Bd) as Rb.
    rewrite !firstday_eq in *.
    pose proof (days_before_year_mono (year a + 1) (year b) ltac:(lia)). lia.
  - unfold ymd2ord. rewrite <- Ey.
    rewrite <- Ey in Bd.
    pose proof (days_before_month_mono (year a) (month a) (month b)
                  ltac:(lia) L ltac:(lia)). lia.
  - unfold ymd2ord. rewrite Ey, Em. lia.
Qed.

(** On dates, the order of the calendar is the order of the ordinals. *)
Lemma toordinal_compare a b :
  valid a = true -> valid b = true ->
  date_compare a b = (toordinal a ?= toordinal b).
Proof.
  intros Va Vb. destruct (date_compare a b) eqn:E.
  - apply date_compare_eq in E. subst. symmetry. apply Z.compare_refl.
  - symmetry. apply Z.compare_lt_iff. apply toordinal_lt; assumption.
  - symmetry. apply Z.compare_gt_iff. apply toordinal_lt; try assumption.
    rewrite date_compare_antisym, E. reflexivity.
Qed.

Lemma toordinal_leb a b :
  valid a = true -> valid b = true ->
  date_leb a b = true <-> toordinal a <= toordinal b.
Proof.
  intros Va Vb. unfold date_leb. rewrite (toordinal_compare a b Va Vb).
  destruct (Z.compare_spec (toordinal a) (toordinal b)); split; intros;
    try reflexivity; try lia; discriminate.
Qed.

Lemma quad_week_mono w w' :
  1 <= w -> w <= w' -> quad_week w <= quad_week w'.
Proof.
  intros H1 H2. unfold quad_week.
  destruct (Z.eqb_spec (w / 4) 0), (Z.eqb_spec (w' / 4) 0); cbn [negb]; zdiv.
Qed.

Lemma quad_week_near w : 1 <= w -> w - quad_week w <= 3.
Proof.
  intros H. unfold quad_week.
  destruct (Z.eqb_spec (w / 4) 0); cbn [negb]; zdiv.
Qed.

Lemma quarter_month_mono m m' :
  1 <= m -> m <= m' -> quarter_month m <= quarter_month m'.
Proof.
  intros H1 H2. unfold quarter_month.
  destruct (Z.eqb_spec (m / 3) 0), (Z.eqb_spec (m' / 3) 0); cbn [negb]; zdiv.
Qed.

Lemma quarter_month_le m : 1 <= m -> quarter_month m <= m.
Proof.
  intros H. unfold quarter_month.
  destruct (Z.eqb_spec (m / 3) 0); cbn [negb]; zdiv.
Qed.

(** The ordinal of the representative of a date, tag by tag. *)
Lemma representative_ordinal_7d d Y W u r :
  valid d = true -> isocalendar d = (Y, W, u) ->
  custom_representative T7d d = Ok r ->
  valid r = true /\ toordinal r = isoweek1monday Y + 7 * (W - 1).
Proof.
  intros V I E.
  pose proof V as V'. apply valid_spec in V'. destruct V' as (Vy & Vm & Vd).
  pose proof (isocalendar_spec d Vm Vd) as S. rewrite I in S.
  destruct (week_start_ok d Y W u W V I ltac:(lia)) as (r' & E' & Vr & _ & Or).
  unfold custom_representative in E. rewrite I in E.
  rewrite E in E'. injection E' as <-. auto.
Qed.

Lemma representative_ordinal_28d d Y W u r :
  valid d = true -> isocalendar d = (Y, W, u) ->
  custom_representative T28d d = Ok r ->
  valid r = true /\ toordinal r = isoweek1monday Y + 7 * (quad_week W - 1).
Proof.
  intros V I E.
  pose proof V as V'. apply valid_spec in V'. destruct V' as (Vy & Vm & Vd).
  pose proof (isocalendar_spec d Vm Vd) as S. rewrite I in S.
  pose proof (quad_week_range W ltac:(lia)) as Q.
  destruct (week_start_ok d Y W u (quad_week W) V I Q)
    as (r' & E' & Vr & _ & Or).
  unfold custom_representative in E. rewrite I in E.
  fold (quad_week W) in E.
  rewrite E in E'. injection E' as <-. auto.
Qed.

Ltac qm :=
  match goal with
  | |- context [quarter_month ?k] =>
      let v := eval vm_compute in (quarter_month k) in
      change (quarter_month k) with v
  end.

Lemma quarter_distance y m d :
  1 <= m <= 12 -> 1 <= d <= days_in_month y m ->
  0 <= ymd2ord y m d - ymd2ord y (quarter_month m) 1 <= 91.
Proof.
  intros Hm Hd. unfold ymd2ord, days_in_month, days_before_month in *.
  assert (C : m = 1 \/ m = 2 \/ m = 3 \/ m = 4 \/ m = 5 \/ m = 6 \/ m = 7
              \/ m = 8 \/ m = 9 \/ m = 10 \/ m = 11 \/ m = 12) by lia.
  destruct (is_leap y);
    repeat (destruct C as [C|C]; [subst m; qm; tables; lia|]);
    subst m; qm; tables; lia.
Qed.

End CalendarOrder.

(** * The representative of a period and the order of the dates *)

Module RepresentativeOrder.
Import CalendarFacts AuxFacts OrderFacts CalendarOrder.

Lemma days_in_month_le y m : 1 <= m <= 12 -> days_in_month y m <= 31.
Proof.
  intros Hm. unfold days_in_month.
  assert (C : m = 1 \/ m = 2 \/ m = 3 \/ m = 4 \/ m = 5 \/ m = 6 \/ m = 7
              \/ m = 8 \/ m = 9 \/ m = 10 \/ m = 11 \/ m = 12) by lia.
  destruct (is_leap y);
    repeat (destruct C as [C|C]; [subst m; tables; lia|]);
    subst m; tables; lia.
Qed.

Lemma date_leb_lex a b :
  date_leb a b = true <->
  year a < year b
  \/ (year a = year b
      /\ (month a < month b \/ (month a = month b /\ day a <= day b))).
Proof.
  rewrite date_leb_spec, date_compare_lt. split.
  - intros [->|H]; lia.
  - intros H.
    destruct (Z.eq_dec (day a) (day b)) as [E|E]; [|right; lia].
    destruct (Z.eq_dec (month a) (month b)) as [E'|E']; [|right; lia].
    destruct (Z.eq_dec (year a) (year b)) as [E''|E'']; [|right; lia].
    left. destruct a, b; cbn in *; congruence.
Qed.

(** The representative of a period is a date of the calendar that is not
    after the date it stands for, and at most [span t] days before it:
    6 days for '7d', 27 for '28d', 30 for 'm', 0 for 'd' and 91 for 'q'. *)
Theorem representative_not_after (t : tipo) (d : date) :
  valid d = true ->
  exists r, custom_representative t d = Ok r /\ valid r = true
            /\ date_leb r d = true
            /\ 0 <= toordinal d - toordinal r <= span t.
Proof.
  intros V.
  destruct (custom_representative_ok t d V) as (r & E & Vr).
  exists r. split; [exact E|]. split; [exact Vr|].
  rewrite (toordinal_leb r d Vr V).
  pose proof V as V'. apply valid_spec in V'. destruct V' as (Vy & Vm & Vd).
  assert (G : 0 <= toordinal d - toordinal r <= span t); [|lia].
  destruct t; cbn [span].
  - destruct (isocalendar d) as [[Y W] u] eqn:I.
    destruct (representative_ordinal_7d d Y W u r V I E) as [_ Or].
    pose proof (isocalendar_spec d Vm Vd) as S. rewrite I in S. lia.
  - destruct (isocalendar d) as [[Y W] u] eqn:I.
    destruct (representative_ordinal_28d d Y W u r V I E) as [_ Or].
    pose proof (isocalendar_spec d Vm Vd) as S. rewrite I in S.
    pose proof (quad_week_range W ltac:(lia)).
    pose proof (quad_week_near W ltac:(lia)). lia.
  - destruct (representative_m d V) as [E' _]. rewrite E in E'.
    injection E' as ->. unfold toordinal, ymd2ord. cbn [year month day].
    pose proof (days_in_month_le (year d) (month d) Vm). lia.
  - cbn in E. injection E as <-. lia.
  - destruct (representative_q d V) as [E' _]. rewrite E in E'.
    injection E' as ->. unfold toordinal. cbn [year month day].
    apply quarter_distance; assumption.
Qed.

Lemma representative_not_after_witness :
  valid (mkdate 2024 5 31) = true
  /\ exists r, custom_representative Tq (mkdate 2024 5 31) = Ok r
               /\ valid r = true
               /\ date_leb r (mkdate 2024 5 31) = true
               /\ 0 <= toordinal (mkdate 2024 5 31) - toordinal r <= span Tq.
Proof.
  split; [reflexivity|].
  apply (representative_not_after Tq (mkdate 2024 5 31)). reflexivity.
Defined.

Lemma representative_monotone_ordinals t d1 d2 r1 r2 :
  valid d1 = true -> valid d2 = true -> date_leb d1 d2 = true ->
  custom_representative t d1 = Ok r1 -> custom_representative t d2 = Ok r2 ->
  valid r1 = true /\ valid r2 = true /\ date_leb r1 r2 = true.
Proof.
  intros V1 V2 L E1 E2.
  destruct (custom_representative_ok t d1 V1) as (r1' & E1' & Vr1).
  destruct (custom_representative_ok t d2 V2) as (r2' & E2' & Vr2).
  rewrite E1 in E1'. injection E1' as <-.
  rewrite E2 in E2'. injection E2' as <-.
  split; [exact Vr1|]. split; [exact Vr2|].
  pose proof V1 as V1'. apply valid_spec in V1'.
  destruct V1' as (Vy1 & Vm1 & Vd1).
  pose proof V2 as V2'. apply valid_spec in V2'.
  destruct V2' as (Vy2 & Vm2 & Vd2).
  destruct t.
  - apply (toordinal_leb r1 r2 Vr1 Vr2).
    apply (toordinal_leb d1 d2 V1 V2) in L.
    destruct (isocalendar d1) as [[Y1 W1] u1] eqn:I1.
    destruct (isocalendar d2) as [[Y2 W2] u2] eqn:I2.
    destruct (representative_ordinal_7d d1 Y1 W1 u1 r1 V1 I1 E1) as [_ O1].
    destruct (representative_ordinal_7d d2 Y2 W2 u2 r2 V2 I2 E2) as [_ O2].
    pose proof (isocalendar_spec d1 Vm1 Vd1) as S1. rewrite I1 in S1.
    pose proof (isocalendar_spec d2 Vm2 Vd2) as S2. rewrite I2 in S2.
    pose proof (isoweek1monday_spec Y1) as [M1 _].
    pose proof (isoweek1monday_spec Y2) as [M2 _].
    generalize dependent (isoweek1monday Y1).
    generalize dependent (isoweek1monday Y2).
    intros. zdiv.
  - apply (toordinal_leb r1 r2 Vr1 Vr2).
    apply (toordinal_leb d1 d2 V1 V2) in L.
    destruct (isocalendar d1) as [[Y1 W1] u1] eqn:I1.
    destruct (isocalendar d2) as [[Y2 W2] u2] eqn:I2.
    destruct (representative_ordinal_28d d1 Y1 W1 u1 r1 V1 I1 E1) as [_ O1].
    destruct (representative_ordinal_28d d2 Y2 W2 u2 r2 V2 I2 E2) as [_ O2].
    pose proof (isocalendar_spec d1 Vm1 Vd1) as S1. rewrite I1 in S1.
    pose proof (isocalendar_spec d2 Vm2 Vd2) as S2. rewrite I2 in S2.
    pose proof (quad_week_range W1 ltac:(lia)) as Q1.
    pose proof (quad_week_range W2 ltac:(lia)) as Q2.
    destruct (Z_lt_le_dec Y1 Y2) as [Ly|Ly].
    + pose proof (isoweek1monday_mono (Y1 + 1) Y2 ltac:(lia)). lia.
    + destruct (Z_lt_le_dec Y2 Y1) as [Ly'|Ly'].
      * pose proof (isoweek1monday_mono (Y2 + 1) Y1 ltac:(lia)). lia.
      * assert (Y1 = Y2) by lia. subst Y2.
        assert (W1 <= W2) by lia.
        pose proof (quad_week_mono W1 W2 ltac:(lia) ltac:(lia)). lia.
  - destruct (representative_m d1 V1) as [E1' _]. rewrite E1 in E1'.
    injection E1' as ->.
    destruct (representative_m d2 V2) as [E2' _]. rewrite E2 in E2'.
    injection E2' as ->.
    apply date_leb_lex in L. apply date_leb_lex. cbn [year month day]. lia.
  - cbn in E1, E2. injection E1 as <-. injection E2 as <-. exact L.
  - destruct (representative_q d1 V1) as [E1' _]. rewrite E1 in E1'.
    injection E1' as ->.
    destruct (representative_q d2 V2) as [E2' _]. rewrite E2 in E2'.
    injection E2' as ->.
    apply date_leb_lex in L. apply date_leb_lex. cbn [year month day].
    destruct L as [L|[Ey [L|[Em L]]]]; [lia| |].
    + pose proof (quarter_month_mono (month d1) (month d2)
                    ltac:(lia) ltac:(lia)). lia.
    + rewrite Em. lia.
Qed.

(** [custom_representative] is monotone: of two dates, the later one never
    gets the earlier representative. *)
Theorem representative_monotone (t : tipo) (d1 d2 r1 r2 : date) :
  valid d1 = true -> valid d2 = true -> date_leb d1 d2 = true ->
  custom_representative t d1 = Ok r1 -> custom_representative t d2 = Ok r2 ->
  date_leb r1 r2 = true.
Proof.
  intros V1 V2 L E1 E2.
  apply (representative_monotone_ordinals t d1 d2 r1 r2); assumption.
Qed.

Lemma representative_monotone_witness :
  valid (mkdate 2020 12 31) = true /\ valid (mkdate 2021 1 3) = true
  /\ date_leb (mkdate 2020 12 31) (mkdate 2021 1 3) = true
  /\ custom_representative T28d (mkdate 2020 12 31) = Ok (mkdate 2020 12 21)
  /\ custom_representative T28d (mkdate 2021 1 3) = Ok (mkdate 2020 12 21)
  /\ date_leb (mkdate 2020 12 21) (mkdate 2020 12 21) = true.
Proof.
  split; [reflexivity|]. split; [reflexivity|]. split; [reflexivity|].
  split; [reflexivity|]. split; [reflexivity|].
  apply (representative_monotone T28d (mkdate 2020 12 31) (mkdate 2021 1 3));
    reflexivity.
Defined.

End RepresentativeOrder.

(** * The cohort of an id and its first event *)

Module PrepareOrder.
Import CalendarFacts AuxFacts OrderFacts PrepareFacts RepresentativeOrder.

Lemma Forall2_map_r {A B C} (R : A -> C -> Prop) (f : B -> C) l l' :
  Forall2 (fun a b => R a (f b)) l l' -> Forall2 R l (map f l').
Proof. induction 1; cbn; constructor; assumption. Qed.

Lemma Forall2_impl {A B} (R R' : A -> B -> Prop) l l' :
  (forall a b, R a b -> R' a b) -> Forall2 R l l' -> Forall2 R' l l'.
Proof. intros H. induction 1; constructor; auto. Qed.

Lemma Forall2_In_l {A B} (R : A -> B -> Prop) l l' a :
  Forall2 R l l' -> In a l -> exists b, In b l' /\ R a b.
Proof.
  induction 1 as [|x y l l' Hxy _ IH]; intros Hin; [destruct Hin|].
  destruct Hin as [<-|Hin].
  - exists y. split; [left; reflexivity|exact Hxy].
  - destruct (IH Hin) as (b & Hb & Rb). exists b. split; [right|]; assumption.
Qed.

Lemma Forall2_In_r {A B} (R : A -> B -> Prop) l l' b :
  Forall2 R l l' -> In b l' -> exists a, In a l /\ R a b.
Proof.
  induction 1 as [|x y l l' Hxy _ IH]; intros Hin; [destruct Hin|].
  destruct Hin as [<-|Hin].
  - exists x. split; [left; reflexivity|exact Hxy].
  - destruct (IH Hin) as (a & Ha & Ra). exists a. split; [right|]; assumption.
Qed.

(** [prepare] keeps one row per event, in the order of the events: the row
    holds the id of the event, its position as unique_id, its quantity (1
    for a simple model) and the representative of its date. *)
Lemma prepare_rows period simple data df :
  prepare period simple data = Ok df ->
  Forall2
    (fun (ie : Z * event) (r : prow) =>
       r_id r = ev_id (snd ie) /\ r_unique_id r = fst ie
       /\ r_input r = (if simple then 1%Q else ev_quantity (snd ie))
       /\ custom_representative period (ev_date (snd ie)) = Ok (r_period r))
    (enumerate_from 0 data) df.
Proof.
  unfold prepare. intros H. apply bind_ok in H.
  destruct H as (rows & Hrows & H). injection H as <-.
  apply mapM_ok in Hrows. apply Forall2_map_r.
  eapply Forall2_impl; [|exact Hrows].
  intros [i e] [[i' e'] p] Hb. cbn in Hb.
  apply bind_ok in Hb. destruct Hb as (p' & Ep & Hb).
  injection Hb as <- <- <-. cbn. auto.
Qed.

Lemma in_enumerate {A} (l : list A) :
  forall i x, In x l -> exists j, In (j, x) (enumerate_from i l).
Proof.
  induction l as [|a l IH]; intros i x H; [destruct H|].
  destruct H as [<-|H].
  - exists i. left. reflexivity.
  - destruct (IH (i + 1) x H) as (j & Hj). exists j. right. exact Hj.
Qed.

Lemma enumerate_In {A} (l : list A) :
  forall i j x, In (j, x) (enumerate_from i l) -> In x l.
Proof.
  induction l as [|a l IH]; intros i j x H; [destruct H|].
  destruct H as [H|H].
  - injection H as _ <-. left. reflexivity.
  - right. eapply IH. exact H.
Qed.

Lemma prepare_row_event period simple data df r :
  prepare period simple data = Ok df -> In r df ->
  exists e, In e data /\ ev_id e = r_id r
            /\ custom_representative period (ev_date e) = Ok (r_period r).
Proof.
  intros P Hr.
  destruct (Forall2_In_r _ _ _ r (prepare_rows _ _ _ _ P) Hr)
    as ([i e] & Hin & Ei & _ & _ & Ep).
  exists e. cbn in *. split; [eapply enumerate_In; exact Hin|]. auto.
Qed.

Lemma prepare_event_row period simple data df e :
  prepare period simple data = Ok df -> In e data ->
  exists r, In r df /\ r_id r = ev_id e
            /\ custom_representative period (ev_date e) = Ok (r_period r).
Proof.
  intros P He. destruct (in_enumerate data 0 e He) as (j & Hj).
  destruct (Forall2_In_l _ _ _ (j, e) (prepare_rows _ _ _ _ P) Hj)
    as (r & Hr & Ei & _ & _ & Ep).
  exists r. cbn in *. auto.
Qed.

(** Among the events of an id there is an earliest one. *)
Lemma earliest_event (data : list event) (id : Z) :
  (exists e, In e data /\ ev_id e = id) ->
  exists e, In e data /\ ev_id e = id
            /\ forall e', In e' data -> ev_id e' = id ->
                          date_leb (ev_date e) (ev_date e') = true.
Proof.
  induction data as [|a data IH]; intros (e & He & Ei); [destruct He|].
  destruct (Z.eq_dec (ev_id a) id) as [Ea|Ea].
  - destruct (existsb (fun x => ev_id x =? id) data) eqn:X.
    + apply existsb_exists in X. destruct X as (x & Hx & Ex).
      apply Z.eqb_eq in Ex.
      destruct (IH (ex_intro _ x (conj Hx Ex))) as (m & Hm & Em & Least).
      destruct (date_leb_total (ev_date a) (ev_date m)) as [L|L].
      * exists a. split; [left; reflexivity|]. split; [exact Ea|].
        intros e' [<-|He'] Ee'; [apply date_leb_refl|].
        eapply date_leb_trans; [exact L|]. apply Least; assumption.
      * exists m. split; [right; exact Hm|]. split; [exact Em|].
        intros e' [<-|He'] Ee'; [exact L|]. apply Least; assumption.
    + exists a. split; [left; reflexivity|]. split; [exact Ea|].
      intros e' [<-|He'] Ee'; [apply date_leb_refl|].
      exfalso.
      assert (Y : existsb (fun x => ev_id x =? id) data = true).
      { apply existsb_exists. exists e'. split; [exact He'|].
        apply Z.eqb_eq. exact Ee'. }
      congruence.
  - destruct He as [<-|He]; [contradiction|].
    destruct (IH (ex_intro _ e (conj He Ei))) as (m & Hm & Em & Least).
    exists m. split; [right; exact Hm|]. split; [exact Em|].
    intros e' [<-|He'] Ee'; [contradiction|]. apply Least; assumption.
Qed.

(** The cohort that [prepare] gives to a row is the period of the earliest
    event of its id: the representative of the first date on which the id
    appears in the data. *)
Theorem cohort_is_period_of_first_event (period : tipo) (simple : bool)
  (data : list event) (df : list prow) (r : prow) :
  forallb (fun e => valid (ev_date e)) data = true ->
  prepare period simple data = Ok df -> In r df ->
  exists e,
    In e data /\ ev_id e = r_id r
    /\ (forall e', In e' data -> ev_id e' = r_id r ->
                   date_leb (ev_date e) (ev_date e') = true)
    /\ custom_representative period (ev_date e) = Ok (r_cohort r).
Proof.
  intros V P Hr. rewrite forallb_forall in V.
  pose proof (prepare_well_prepared _ _ _ _ P) as W.
  destruct (prepare_row_event _ _ _ _ r P Hr) as (e0 & He0 & Ei0 & _).
  destruct (earliest_event data (r_id r) (ex_intro _ e0 (conj He0 Ei0)))
    as (e & He & Ei & Least).
  exists e. split; [exact He|]. split; [exact Ei|]. split; [exact Least|].
  destruct (prepare_event_row _ _ _ _ e P He) as (re & Hre & Eid & Ep).
  rewrite Ep. f_equal.
  destruct (cohort_attained df W r Hr) as (r' & Hr' & Ei' & Ec').
  destruct (prepare_row_event _ _ _ _ r' P Hr') as (e' & He' & Eie' & Ep').
  apply date_leb_antisym.
  - rewrite <- Ec'.
    apply (representative_monotone_ordinals period (ev_date e) (ev_date e'));
      auto.
    apply Least; [exact He'|congruence].
  - apply (cohort_least df W r re); [exact Hr|exact Hre|congruence].
Qed.

Lemma cohort_is_period_of_first_event_witness :
  forallb (fun e => valid (ev_date e)) sample_events = true
  /\ prepare Tm true sample_events
     = Ok [mkprow 1 0 1 jan jan; mkprow 1 1 1 mar jan; mkprow 2 2 1 feb feb]
  /\ In (mkprow 1 1 1 mar jan)
        [mkprow 1 0 1 jan jan; mkprow 1 1 1 mar jan; mkprow 2 2 1 feb feb]
  /\ exists e,
       In e sample_events /\ ev_id e = r_id (mkprow 1 1 1 mar jan)
       /\ (forall e', In e' sample_events ->
                      ev_id e' = r_id (mkprow 1 1 1 mar jan) ->
                      date_leb (ev_date e) (ev_date e') = true)
       /\ custom_representative Tm (ev_date e)
          = Ok (r_cohort (mkprow 1 1 1 mar jan)).
Proof.
  split; [reflexivity|]. split; [reflexivity|].
  split; [right; left; reflexivity|].
  apply (cohort_is_period_of_first_event Tm true sample_events
           [mkprow 1 0 1 jan jan; mkprow 1 1 1 mar jan; mkprow 2 2 1 feb feb]
           (mkprow 1 1 1 mar jan)).
  - reflexivity.
  - reflexivity.
  - right; left; reflexivity.
Defined.

End PrepareOrder.

(** * The labels of the periods *)

Module LabelFacts.
Import CalendarFacts AuxFacts OrderFacts CalendarOrder.

Lemma append_cancel_l (s a b : string) :
  (s ++ a = s ++ b)%string -> a = b.
Proof.
  induction s as [|c s IH]; cbn; intros H; [exact H|].
  injection H as H. exact (IH H).
Qed.

Lemma has_dash_app a b :
  has_dash (a ++ b) = has_dash a || has_dash b.
Proof.
  induction a as [|c a IH]; cbn; [reflexivity|].
  rewrite IH, orb_assoc. reflexivity.
Qed.

(** Two texts without '-' followed by '-' and more: the parts are read
    back from the whole. *)
Lemma split_dash a a' b b' :
  has_dash a = false -> has_dash a' = false ->
  (a ++ String "-" b = a' ++ String "-" b')%string -> a = a' /\ b = b'.
Proof.
  revert a'. induction a as [|c a IH]; intros [|c' a'] Ha Ha' H; cbn in *.
  - injection H as ->. auto.
  - injection H as <- _. cbn in Ha'. discriminate.
  - injection H as -> _. cbn in Ha. discriminate.
  - injection H as -> H.
    apply orb_false_iff in Ha, Ha'.
    destruct (IH a' (proj2 Ha) (proj2 Ha') H) as [-> ->]. auto.
Qed.

Lemma digits_no_dash (u : Decimal.uint) :
  has_dash (DecimalString.NilEmpty.string_of_uint u) = false.
Proof. induction u; cbn; try reflexivity; exact IHu. Qed.

Lemma zeros_no_dash k : has_dash (Labels.zeros k) = false.
Proof. induction k; cbn; [reflexivity|exact IHk]. Qed.

(** The text of a number that is not negative: digits, which write that
    number. *)
Lemma str_digits n :
  0 <= n ->
  exists u, Labels.str n = DecimalString.NilEmpty.string_of_uint u
            /\ Z.of_uint u = n.
Proof.
  intros Hn. unfold Labels.str. destruct n as [|p|p]; [| |lia].
  - exists (Decimal.D0 Decimal.Nil). split; reflexivity.
  - exists (Pos.to_uint p). split.
    + cbn. unfold DecimalString.NilZero.string_of_uint.
      pose proof (DecimalPos.Unsigned.to_uint_nonnil p).
      destruct (Pos.to_uint p); try reflexivity. congruence.
    + unfold Z.of_uint. rewrite DecimalPos.Unsigned.of_to. reflexivity.
Qed.

Lemma str_no_dash n : 0 <= n -> has_dash (Labels.str n) = false.
Proof.
  intros Hn. destruct (str_digits n Hn) as (u & -> & _).
  apply digits_no_dash.
Qed.

Lemma zfill_no_dash w n : 0 <= n -> has_dash (Labels.zfill w (Labels.str n)) = false.
Proof.
  intros Hn. unfold Labels.zfill.
  rewrite has_dash_app, zeros_no_dash, str_no_dash by exact Hn. reflexivity.
Qed.

Lemma value_zeros k s : value (Labels.zeros k ++ s) = value s.
Proof.
  induction k as [|k IH]; cbn; [reflexivity|].
  unfold value in *. cbn.
  destruct (DecimalString.NilEmpty.uint_of_string (Labels.zeros k ++ s)) as [u|];
    destruct (DecimalString.NilEmpty.uint_of_string s) as [u'|];
    cbn in *; try discriminate; try reflexivity.
  exact IH.
Qed.

Lemma value_str n : 0 <= n -> value (Labels.str n) = Some n.
Proof.
  intros Hn. destruct (str_digits n Hn) as (u & -> & E).
  unfold value. rewrite DecimalString.NilEmpty.usu. cbn. rewrite E.
  reflexivity.
Qed.

Lemma value_zfill w n : 0 <= n -> value (Labels.zfill w (Labels.str n)) = Some n.
Proof.
  intros Hn. unfold Labels.zfill. rewrite value_zeros. apply value_str. exact Hn.
Qed.

Lemma str_inj a b : 0 <= a -> 0 <= b -> Labels.str a = Labels.str b -> a = b.
Proof.
  intros Ha Hb E. pose proof (value_str a Ha) as Va.
  rewrite E, (value_str b Hb) in Va. congruence.
Qed.

Lemma zfill_inj w a b :
  0 <= a -> 0 <= b -> Labels.zfill w (Labels.str a) = Labels.zfill w (Labels.str b) -> a = b.
Proof.
  intros Ha Hb E. pose proof (value_zfill w a Ha) as Va.
  rewrite E, (value_zfill w b Hb) in Va. congruence.
Qed.

Lemma custom_period_tag t d :
  Labels.custom_period (tag t) d
  = Some (match t with
          | T7d => Labels.period_7d d
          | T28d => Labels.period_28d d
          | Tm => Labels.period_m d
          | Td => Labels.period_d d
          | Tq => Labels.period_q d
          end).
Proof. destruct t; reflexivity. Qed.

(** The label of a quarter is the year of [period_q] followed by its
    suffix. *)
Lemma period_q_text d :
  Labels.period_q d
  = (Labels.strftime_Y d ++ "-" ++ snd (period_q d))%string
  /\ fst (period_q d) = year d.
Proof.
  unfold Labels.period_q, period_q.
  destruct (month d <? 4); [split; reflexivity|].
  destruct (month d <? 7); [split; reflexivity|].
  destruct (month d <? 10); split; reflexivity.
Qed.

End LabelFacts.

(** * Labels and representatives *)

Module PeriodLabels.
Import CalendarFacts AuxFacts OrderFacts CalendarOrder LabelFacts.

Lemma quad_week_quotient w : 1 <= w -> quad_week w / 4 = w / 4.
Proof.
  intros H. unfold quad_week.
  destruct (Z.eqb_spec (w / 4) 0); cbn [negb]; zdiv.
Qed.

Lemma quarter_suffix_differs y (a b : string) :
  a <> b ->
  (Labels.zfill 4 (Labels.str y) ++ "-" ++ a)%string
  <> (Labels.zfill 4 (Labels.str y) ++ "-" ++ b)%string.
Proof.
  intros N E. apply append_cancel_l in E. cbn in E. congruence.
Qed.

(** For the tags '7d', '28d', 'm' and 'd', the label of a date is the label
    of the representative of its period: [custom_period] is constant on a
    period.  For 'q' it is so exactly for the dates of January, February,
    March, June, September and December; for a date of another month the
    representative carries the label of the quarter before. *)
Theorem label_of_representative (t : tipo) (d r : date) :
  valid d = true -> custom_representative t d = Ok r ->
  (t <> Tq ->
   Labels.custom_period (tag t) r = Labels.custom_period (tag t) d)
  /\ (t = Tq ->
      (Labels.custom_period (tag t) r = Labels.custom_period (tag t) d
       <-> In (month d) [1; 2; 3; 6; 9; 12])).
Proof.
  intros V E.
  pose proof V as V'. apply valid_spec in V'. destruct V' as (Vy & Vm & Vd).
  rewrite !custom_period_tag. destruct t.
  - split; [intros _|discriminate].
    destruct (isocalendar d) as [[Y W] u] eqn:I.
    destruct (representative_7d d Y W u V I) as (r' & E' & _ & Ir).
    rewrite E in E'. injection E' as <-.
    unfold Labels.period_7d. rewrite I, Ir. reflexivity.
  - split; [intros _|discriminate].
    destruct (isocalendar d) as [[Y W] u] eqn:I.
    destruct (representative_28d d Y W u V I) as (r' & E' & _ & Ir).
    rewrite E in E'. injection E' as <-.
    pose proof (isocalendar_spec d Vm Vd) as S. rewrite I in S.
    unfold Labels.period_28d. rewrite I, Ir.
    rewrite quad_week_quotient by lia. reflexivity.
  - split; [intros _|discriminate].
    destruct (representative_m d V) as [E' _]. rewrite E in E'.
    injection E' as ->. reflexivity.
  - split; [intros _|discriminate].
    cbn in E. injection E as <-. reflexivity.
  - split; [congruence|intros _].
    destruct (representative_q d V) as [E' _]. rewrite E in E'.
    injection E' as ->.
    unfold Labels.period_q, Labels.strftime_Y. cbn [year month In].
    assert (C : month d = 1 \/ month d = 2 \/ month d = 3 \/ month d = 4
                \/ month d = 5 \/ month d = 6 \/ month d = 7 \/ month d = 8
                \/ month d = 9 \/ month d = 10 \/ month d = 11
                \/ month d = 12) by lia.
    repeat (destruct C as [C|C];
            [rewrite C; qm; cbn [Z.ltb Z.compare Pos.compare
                                   Pos.compare_cont];
             split;
             [ intros H;
               first [ lia
                     | exfalso; injection H as H; revert H;
                       apply quarter_suffix_differs; discriminate ]
             | intros H; first [reflexivity | exfalso; lia] ]
            | ]).
    rewrite C; qm; cbn [Z.ltb Z.compare Pos.compare Pos.compare_cont].
    split; [lia|reflexivity].
Qed.

Lemma label_of_representative_witness :
  valid (mkdate 2024 7 15) = true
  /\ custom_representative Tq (mkdate 2024 7 15) = Ok (mkdate 2024 6 1)
  /\ (Tq <> Tq ->
      Labels.custom_period (tag Tq) (mkdate 2024 6 1)
      = Labels.custom_period (tag Tq) (mkdate 2024 7 15))
  /\ (Tq = Tq ->
      (Labels.custom_period (tag Tq) (mkdate 2024 6 1)
       = Labels.custom_period (tag Tq) (mkdate 2024 7 15)
       <-> In (month (mkdate 2024 7 15)) [1; 2; 3; 6; 9; 12])).
Proof.
  split; [reflexivity|]. split; [reflexivity|].
  apply (label_of_representative Tq (mkdate 2024 7 15) (mkdate 2024 6 1));
    reflexivity.
Defined.

Lemma toordinal_inj a b :
  valid a = true -> valid b = true -> toordinal a = toordinal b -> a = b.
Proof.
  intros Va Vb E. apply date_compare_eq.
  rewrite (toordinal_compare a b Va Vb), E. apply Z.compare_refl.
Qed.

(* The text of the label decides the representative, save under 'q'. *)
Lemma same_label_same_period (t : tipo) (d1 d2 r1 r2 : date) :
  t <> Tq -> valid d1 = true -> valid d2 = true ->
  custom_representative t d1 = Ok r1 -> custom_representative t d2 = Ok r2 ->
  Labels.custom_period (tag t) r1 = Labels.custom_period (tag t) r2 ->
  r1 = r2.
Proof.
  intros Nq V1 V2 E1 E2 L.
  pose proof V1 as V1'. apply valid_spec in V1'.
  destruct V1' as (Vy1 & Vm1 & Vd1).
  pose proof V2 as V2'. apply valid_spec in V2'.
  destruct V2' as (Vy2 & Vm2 & Vd2).
  rewrite !custom_period_tag in L. injection L as L.
  destruct t; [| | | |congruence].
  - destruct (isocalendar d1) as [[Y1 W1] u1] eqn:I1.
    destruct (isocalendar d2) as [[Y2 W2] u2] eqn:I2.
    destruct (representative_7d d1 Y1 W1 u1 V1 I1) as (r & E & _ & Ir1).
    rewrite E1 in E. injection E as <-.
    destruct (representative_7d d2 Y2 W2 u2 V2 I2) as (r & E & _ & Ir2).
    rewrite E2 in E. injection E as <-.
    destruct (representative_ordinal_7d d1 Y1 W1 u1 r1 V1 I1 E1) as [Vr1 O1].
    destruct (representative_ordinal_7d d2 Y2 W2 u2 r2 V2 I2 E2) as [Vr2 O2].
    pose proof (isocalendar_year_range d1 V1) as R1. rewrite I1 in R1.
    pose proof (isocalendar_year_range d2 V2) as R2. rewrite I2 in R2.
    pose proof (isocalendar_spec d1 Vm1 Vd1) as S1. rewrite I1 in S1.
    pose proof (isocalendar_spec d2 Vm2 Vd2) as S2. rewrite I2 in S2.
    unfold Labels.period_7d in L. rewrite Ir1, Ir2 in L.
    apply split_dash in L; try (apply str_no_dash; lia).
    destruct L as [LY LW]. injection LW as LW.
    apply str_inj in LY; try lia.
    apply zfill_inj in LW; try lia.
    apply toordinal_inj; try assumption. congruence.
  - destruct (isocalendar d1) as [[Y1 W1] u1] eqn:I1.
    destruct (isocalendar d2) as [[Y2 W2] u2] eqn:I2.
    destruct (representative_28d d1 Y1 W1 u1 V1 I1) as (r & E & _ & Ir1).
    rewrite E1 in E. injection E as <-.
    destruct (representative_28d d2 Y2 W2 u2 V2 I2) as (r & E & _ & Ir2).
    rewrite E2 in E. injection E as <-.
    destruct (representative_ordinal_28d d1 Y1 W1 u1 r1 V1 I1 E1)
      as [Vr1 O1].
    destruct (representative_ordinal_28d d2 Y2 W2 u2 r2 V2 I2 E2)
      as [Vr2 O2].
    pose proof (isocalendar_year_range d1 V1) as R1. rewrite I1 in R1.
    pose proof (isocalendar_year_range d2 V2) as R2. rewrite I2 in R2.
    pose proof (isocalendar_spec d1 Vm1 Vd1) as S1. rewrite I1 in S1.
    pose proof (isocalendar_spec d2 Vm2 Vd2) as S2. rewrite I2 in S2.
    unfold Labels.period_28d in L. rewrite Ir1, Ir2 in L.
    apply split_dash in L; try (apply str_no_dash; lia).
    destruct L as [LY LK]. apply append_cancel_l with (s := "28d-"%string) in LK.
    apply str_inj in LY; try lia.
    pose proof (quad_week_range W1 ltac:(lia)).
    pose proof (quad_week_range W2 ltac:(lia)).
    apply str_inj in LK; try zdiv.
    rewrite !quad_week_quotient in LK by lia.
    assert (Q : quad_week W1 = quad_week W2).
    { unfold quad_week. replace (W2 / 4) with (W1 / 4) by lia. reflexivity. }
    apply toordinal_inj; try assumption. congruence.
  - destruct (representative_m d1 V1) as [E _]. rewrite E1 in E.
    injection E as ->.
    destruct (representative_m d2 V2) as [E _]. rewrite E2 in E.
    injection E as ->.
    unfold Labels.period_m, Labels.strftime_Y, Labels.strftime_m in L.
    cbn [year month] in L.
    apply split_dash in L; try (apply zfill_no_dash; lia).
    destruct L as [LY LM].
    apply zfill_inj in LY; try lia. apply zfill_inj in LM; try lia.
    congruence.
  - cbn in E1, E2. injection E1 as <-. injection E2 as <-.
    unfold Labels.period_d, Labels.strftime_Y, Labels.strftime_m,
      Labels.strftime_d in L.
    apply split_dash in L; try (apply zfill_no_dash; lia).
    destruct L as [LY L].
    apply split_dash in L; try (apply zfill_no_dash; lia).
    destruct L as [LM LD].
    apply zfill_inj in LY; try lia. apply zfill_inj in LM; try lia.
    apply zfill_inj in LD; try lia.
    destruct d1, d2; cbn in *; congruence.
Qed.

(** For the tags '7d', '28d', 'm' and 'd', two periods with the same label
    are the same period: the representatives of two dates that get one
    label are equal. *)
Theorem labels_separate_periods (t : tipo) (d1 d2 r1 r2 : date) :
  t <> Tq -> valid d1 = true -> valid d2 = true ->
  custom_representative t d1 = Ok r1 -> custom_representative t d2 = Ok r2 ->
  Labels.custom_period (tag t) r1 = Labels.custom_period (tag t) r2 ->
  r1 = r2.
Proof. exact (same_label_same_period t d1 d2 r1 r2). Qed.

Lemma labels_separate_periods_witness :
  T7d <> Tq /\ valid (mkdate 2024 1 3) = true
  /\ valid (mkdate 2024 1 5) = true
  /\ custom_representative T7d (mkdate 2024 1 3) = Ok (mkdate 2024 1 1)
  /\ custom_representative T7d (mkdate 2024 1 5) = Ok (mkdate 2024 1 1)
  /\ Labels.custom_period (tag T7d) (mkdate 2024 1 1)
     = Labels.custom_period (tag T7d) (mkdate 2024 1 1)
  /\ mkdate 2024 1 1 = mkdate 2024 1 1.
Proof.
  split; [discriminate|]. split; [reflexivity|]. split; [reflexivity|].
  split; [reflexivity|]. split; [reflexivity|]. split; [reflexivity|].
  apply (labels_separate_periods T7d (mkdate 2024 1 3) (mkdate 2024 1 5));
    try reflexivity. discriminate.
Defined.



End PeriodLabels.

(** * The constructors *)

Module ConstructorFacts.

Lemma lower_char_inv (c : ascii) :
  In (lower_char c) ["m"; "q"; "d"; "2"; "8"; "7"]%char ->
  (lower_char c = "m"%char -> c = "m"%char \/ c = "M"%char)
  /\ (lower_char c = "q"%char -> c = "q"%char \/ c = "Q"%char)
  /\ (lower_char c = "d"%char -> c = "d"%char \/ c = "D"%char)
  /\ (lower_char c = "2"%char -> c = "2"%char)
  /\ (lower_char c = "8"%char -> c = "8"%char)
  /\ (lower_char c = "7"%char -> c = "7"%char).
Proof.
  destruct c as [[] [] [] [] [] [] [] []]; vm_compute; intros H;
    repeat split; intros E; try discriminate; auto;
    exfalso; repeat (destruct H as [H|H]; [discriminate|]); exact H.
Qed.

Lemma lower_nil s : lower s = EmptyString -> s = EmptyString.
Proof. destruct s; cbn; [reflexivity|discriminate]. Qed.

Lemma tag_of_lower s t :
  tag_of (lower s) = Some t -> In s accepted_periods /\ tag t = lower s.
Proof.
  unfold tag_of. intros H.
  repeat match type of H with
  | (if String.eqb ?a ?b then _ else _) = _ =>
      destruct (String.eqb_spec a b) as [E|_]
  end; try discriminate; injection H as <-; rewrite E; (split; [|reflexivity]);
    repeat match type of E with
    | lower ?s = String _ _ =>
        destruct s as [|?c s]; [discriminate|];
        cbn [lower] in E; injection E as ?Ec E
    | lower ?s = EmptyString => apply lower_nil in E; subst s
    end;
    repeat match goal with
    | Ec : lower_char ?c = _ |- _ =>
        let I := fresh in
        assert (I : In (lower_char c) ["m"; "q"; "d"; "2"; "8"; "7"]%char)
          by (rewrite Ec; cbn; tauto);
        destruct (lower_char_inv c I) as (I1 & I2 & I3 & I4 & I5 & I6);
        first [ destruct (I1 Ec) | destruct (I2 Ec) | destruct (I3 Ec)
              | pose proof (I4 Ec) | pose proof (I5 Ec) | pose proof (I6 Ec) ];
        subst c; clear I I1 I2 I3 I4 I5 I6; try clear Ec
    end;
    unfold accepted_periods; cbn; tauto.
Qed.

(** Both constructors accept exactly ten spellings of the period: m, q, d,
    28d and 7d, with the letter in either case.  Any other text, among
    them the tag 'w' that [custom_period] knows, raises ValueError.  An
    accepted period is kept in lower case, and the new object has no
    fitted table yet. *)
Theorem constructors_accept (period : string) (simple : bool) :
  ((exists self, Constructors.Cohorts period simple = Ok self)
   <-> In period accepted_periods)
  /\ ((exists self, Constructors.GrowthAccounting period simple = Ok self)
      <-> In period accepted_periods)
  /\ (~ In period accepted_periods ->
      (exists msg, Constructors.Cohorts period simple
                   = Raise (ValueError msg))
      /\ exists msg, Constructors.GrowthAccounting period simple
                     = Raise (ValueError msg))
  /\ (forall self,
        Constructors.Cohorts period simple = Ok self ->
        tag (CohortsPmf.self_period self) = lower period
        /\ CohortsPmf.self_simple self = simple
        /\ CohortsPmf.arguments self = []
        /\ CohortsPmf.df_period_cohort self = None
        /\ CohortsPmf.df_cohorts self = None)
  /\ (forall self,
        Constructors.GrowthAccounting period simple = Ok self ->
        tag (GrowthAccountingPmf.self_period self) = lower period
        /\ GrowthAccountingPmf.self_simple self = simple
        /\ GrowthAccountingPmf.df self = None).
Proof.
  assert (A : In period accepted_periods ->
              exists t, tag_of (lower period) = Some t).
  { unfold accepted_periods. cbn.
    intros H.
    repeat (destruct H as [<-|H]; [eexists; reflexivity|]). destruct H. }
  unfold Constructors.Cohorts, Constructors.GrowthAccounting.
  split; [|split; [|split; [|split]]].
  - split.
    + intros (self & H).
      destruct (tag_of (lower period)) as [t|] eqn:E; [|discriminate].
      exact (proj1 (tag_of_lower _ _ E)).
    + intros H. destruct (A H) as (t & ->). eauto.
  - split.
    + intros (self & H).
      destruct (tag_of (lower period)) as [t|] eqn:E; [|discriminate].
      exact (proj1 (tag_of_lower _ _ E)).
    + intros H. destruct (A H) as (t & ->). eauto.
  - intros N. destruct (tag_of (lower period)) as [t|] eqn:E.
    + exfalso. apply N. exact (proj1 (tag_of_lower _ _ E)).
    + split; eexists; reflexivity.
  - intros self H.
    destruct (tag_of (lower period)) as [t|] eqn:E; [|discriminate].
    injection H as <-. cbn. pose proof (proj2 (tag_of_lower _ _ E)). auto.
  - intros self H.
    destruct (tag_of (lower period)) as [t|] eqn:E; [|discriminate].
    injection H as <-. cbn. pose proof (proj2 (tag_of_lower _ _ E)). auto.
Qed.

End ConstructorFacts.

(** * The columns of df_cohorts *)

Module CohortColumns.
Import OrderFacts ListFacts PrepareFacts GridFacts CohortsFacts CohortsPmf.

Lemma get_col_some name cols c :
  find_col name cols = Some c -> get_col name cols = Ok c.
Proof. unfold get_col. intros ->. reflexivity. Qed.

Lemma groupby_cohort_perc_eq name column column2 f c1 c2 :
  find_col column (cols f) = Some c1 ->
  find_col column2 (cols f) = Some c2 ->
  groupby_cohort_perc name column column2 f
  = Ok (mkframe (keys f)
          (set_col name (perc_column (keys f) c1 c2) (cols f))).
Proof.
  intros H1 H2. unfold groupby_cohort_perc.
  rewrite (get_col_some _ _ _ H1), (get_col_some _ _ _ H2). reflexivity.
Qed.

Lemma groupby_cohort_col_eq fn name column f c :
  find_col column (cols f) = Some c ->
  groupby_cohort_col fn name column f
  = Ok (mkframe (keys f)
          (set_col name (derived_column fn (keys f) c) (cols f))).
Proof.
  intros H. unfold groupby_cohort_col.
  rewrite (get_col_some _ _ _ H). reflexivity.
Qed.

Lemma find_col_same name v cols : find_col name (set_col name v cols) = Some v.
Proof. rewrite find_col_set_col, String.eqb_refl. reflexivity. Qed.

Lemma find_col_other name name' v cols :
  name' <> name -> find_col name (set_col name' v cols) = find_col name cols.
Proof.
  intros N. rewrite find_col_set_col.
  destruct (String.eqb_spec name' name); [contradiction|reflexivity].
Qed.

Lemma has_col_set_col name name' v cols :
  has_col name (set_col name' v cols)
  = (String.eqb name' name || has_col name cols)%bool.
Proof.
  unfold has_col. rewrite find_col_set_col.
  destruct (String.eqb name' name); reflexivity.
Qed.

Lemma length_perc_column ks c1 c2 :
  List.length c1 = List.length ks -> List.length c2 = List.length ks ->
  List.length (perc_column ks c1 c2) = List.length ks.
Proof.
  intros H1 H2. unfold perc_column.
  rewrite length_groupby_apply, !length_combine. lia.
Qed.

Lemma length_derived_column fn ks c :
  List.length c = List.length ks ->
  List.length (derived_column fn ks c) = List.length ks.
Proof.
  intros H. unfold derived_column.
  rewrite length_groupby_apply, length_combine. lia.
Qed.

Lemma length_total_column df :
  List.length (total_column df) = List.length (grid df).
Proof. unfold total_column, align. rewrite !length_map. reflexivity. Qed.

Lemma length_unique_users_column df :
  List.length (unique_users_column df) = List.length (grid df).
Proof. unfold unique_users_column, align. rewrite !length_map. reflexivity. Qed.

(** What each method does to a fitted object. *)

Lemma apply_total_eq self df f :
  df_period_cohort self = Some df -> df_cohorts self = Some f ->
  keys f = grid df ->
  apply_total self column_input
  = Ok (set_df_cohorts self
          (mkframe (grid df)
             (set_col "perc_total"
                (perc_column (grid df) (total_column df) (total_column df))
                (set_col "total" (total_column df) (cols f))))).
Proof.
  intros D F K. unfold apply_total.
  apply attr_df_period_cohort_ok in D. apply attr_df_cohorts_ok in F.
  rewrite D, F. cbn [bind]. rewrite K. fold (total_column df).
  rewrite (groupby_cohort_perc_eq _ _ _ _ (total_column df) (total_column df))
    by (cbn [cols]; apply find_col_same).
  reflexivity.
Qed.

Lemma apply_unique_users_eq self df f :
  df_period_cohort self = Some df -> df_cohorts self = Some f ->
  keys f = grid df ->
  apply_unique_users self column_id
  = Ok (set_df_cohorts self
          (mkframe (grid df)
             (set_col "perc_unique_users"
                (perc_column (grid df) (unique_users_column df)
                   (unique_users_column df))
                (set_col "unique_users" (unique_users_column df) (cols f))))).
Proof.
  intros D F K. unfold apply_unique_users.
  apply attr_df_period_cohort_ok in D. apply attr_df_cohorts_ok in F.
  rewrite D, F. cbn [bind]. rewrite K. fold (unique_users_column df).
  rewrite (groupby_cohort_perc_eq _ _ _ _ (unique_users_column df)
             (unique_users_column df))
    by (cbn [cols]; apply find_col_same).
  reflexivity.
Qed.

(** The step that makes sure of 'total'. *)
Lemma ensure_total self df f :
  df_period_cohort self = Some df -> df_cohorts self = Some f ->
  keys f = grid df ->
  (if negb (has_col "total" (cols f))
   then apply_total self column_input else Ok self)
  = Ok (set_df_cohorts self (mkframe (grid df) (with_total df (cols f)))).
Proof.
  intros D F K. unfold with_total.
  destruct (has_col "total" (cols f)); cbn [negb].
  - f_equal. unfold set_df_cohorts. rewrite <- K.
    destruct self, f; cbn in *. congruence.
  - apply apply_total_eq; assumption.
Qed.

Lemma ensure_unique_users self df f :
  df_period_cohort self = Some df -> df_cohorts self = Some f ->
  keys f = grid df ->
  (if negb (has_col "unique_users" (cols f))
   then apply_unique_users self column_id else Ok self)
  = Ok (set_df_cohorts self
          (mkframe (grid df) (with_unique_users df (cols f)))).
Proof.
  intros D F K. unfold with_unique_users.
  destruct (has_col "unique_users" (cols f)); cbn [negb].
  - f_equal. unfold set_df_cohorts. rewrite <- K.
    destruct self, f; cbn in *. congruence.
  - apply apply_unique_users_eq; assumption.
Qed.

Lemma find_total_with_total df cs :
  (forall col, find_col "total" cs = Some col -> col = total_column df) ->
  find_col "total" (with_total df cs) = Some (total_column df).
Proof.
  intros H. unfold with_total, has_col.
  destruct (find_col "total" cs) as [c|] eqn:E.
  - rewrite E. f_equal. apply H. reflexivity.
  - rewrite find_col_other by discriminate. apply find_col_same.
Qed.

Lemma find_unique_with_unique df cs :
  (forall col, find_col "unique_users" cs = Some col ->
               col = unique_users_column df) ->
  find_col "unique_users" (with_unique_users df cs)
  = Some (unique_users_column df).
Proof.
  intros H. unfold with_unique_users, has_col.
  destruct (find_col "unique_users" cs) as [c|] eqn:E.
  - rewrite E. f_equal. apply H. reflexivity.
  - rewrite find_col_other by discriminate. apply find_col_same.
Qed.

Lemma apply_churn_total_eq self df f :
  df_period_cohort self = Some df -> df_cohorts self = Some f ->
  keys f = grid df ->
  (forall col, find_col "total" (cols f) = Some col ->
               col = total_column df) ->
  apply_churn_total self column_input
  = Ok (set_df_cohorts self
          (mkframe (grid df)
             (set_col "perc_churn_total"
                (perc_column (grid df)
                   (derived_column churn (grid df) (total_column df))
                   (total_column df))
                (set_col "churn_total"
                   (derived_column churn (grid df) (total_column df))
                   (with_total df (cols f)))))).
Proof.
  intros D F K T. unfold apply_churn_total.
  rewrite (proj2 (attr_df_cohorts_ok _ _) F). cbn [bind].
  rewrite (ensure_total self df f D F K). cbn [bind].
  unfold attr_df_cohorts. cbn [df_cohorts set_df_cohorts bind].
  pose proof (find_total_with_total df (cols f) T) as FT.
  rewrite (groupby_cohort_col_eq churn _ _ _ (total_column df))
    by (cbn [cols]; exact FT).
  cbn [bind keys cols].
  rewrite (groupby_cohort_perc_eq _ _ _ _
             (derived_column churn (grid df) (total_column df))
             (total_column df)).
  - reflexivity.
  - cbn [cols]. apply find_col_same.
  - cbn [cols]. rewrite find_col_other by discriminate. exact FT.
Qed.

Lemma apply_accum_eq self df f :
  df_period_cohort self = Some df -> df_cohorts self = Some f ->
  keys f = grid df ->
  (forall col, find_col "total" (cols f) = Some col ->
               col = total_column df) ->
  apply_accum self column_input
  = Ok (set_df_cohorts self
          (mkframe (grid df)
             (set_col "perc_accum"
                (perc_column (grid df)
                   (derived_column accum (grid df) (total_column df))
                   (total_column df))
                (set_col "accum"
                   (derived_column accum (grid df) (total_column df))
                   (with_total df (cols f)))))).
Proof.
  intros D F K T. unfold apply_accum.
  rewrite (proj2 (attr_df_cohorts_ok _ _) F). cbn [bind].
  rewrite (ensure_total self df f D F K). cbn [bind].
  unfold attr_df_cohorts. cbn [df_cohorts set_df_cohorts bind].
  pose proof (find_total_with_total df (cols f) T) as FT.
  rewrite (groupby_cohort_col_eq accum _ _ _ (total_column df))
    by (cbn [cols]; exact FT).
  cbn [bind keys cols].
  rewrite (groupby_cohort_perc_eq _ _ _ _
             (derived_column accum (grid df) (total_column df))
             (total_column df)).
  - reflexivity.
  - cbn [cols]. apply find_col_same.
  - cbn [cols]. rewrite find_col_other by discriminate. exact FT.
Qed.

Lemma apply_churn_unique_users_eq self df f :
  df_period_cohort self = Some df -> df_cohorts self = Some f ->
  keys f = grid df ->
  find_col "unique_users" (cols f) = Some (unique_users_column df) ->
  apply_churn_unique_users self column_id
  = Ok (set_df_cohorts self
          (mkframe (grid df)
             (set_col "perc_churn_unique"
                (perc_column (grid df)
                   (derived_column churn (grid df) (unique_users_column df))
                   (unique_users_column df))
                (set_col "churn_unique"
                   (derived_column churn (grid df) (unique_users_column df))
                   (cols f))))).
Proof.
  intros D F K U. unfold apply_churn_unique_users.
  rewrite (proj2 (attr_df_cohorts_ok _ _) F). cbn [bind].
  unfold has_col. rewrite U. cbn [negb bind].
  rewrite (proj2 (attr_df_cohorts_ok _ _) F). cbn [bind].
  rewrite (groupby_cohort_col_eq churn _ _ _ (unique_users_column df))
    by exact U.
  cbn [bind keys cols]. rewrite K.
  rewrite (groupby_cohort_perc_eq _ _ _ _
             (derived_column churn (grid df) (unique_users_column df))
             (unique_users_column df)).
  - reflexivity.
  - cbn [cols]. apply find_col_same.
  - cbn [cols]. rewrite find_col_other by discriminate. exact U.
Qed.

Lemma find_total_with_unique df cs :
  find_col "total" (with_unique_users df cs) = find_col "total" cs.
Proof.
  unfold with_unique_users. destruct (has_col "unique_users" cs);
    [reflexivity|].
  rewrite !find_col_other by discriminate. reflexivity.
Qed.

Lemma find_unique_with_total df cs :
  find_col "unique_users" (with_total df cs) = find_col "unique_users" cs.
Proof.
  unfold with_total. destruct (has_col "total" cs); [reflexivity|].
  rewrite !find_col_other by discriminate. reflexivity.
Qed.

Lemma apply_per_user_eq self df f :
  df_period_cohort self = Some df -> df_cohorts self = Some f ->
  keys f = grid df ->
  (forall col, find_col "total" (cols f) = Some col ->
               col = total_column df) ->
  (forall col, find_col "unique_users" (cols f) = Some col ->
               col = unique_users_column df) ->
  apply_per_user self column_input column_id
  = Ok (set_df_cohorts self
          (mkframe (grid df)
             (set_col "perc_per_user"
                (perc_column (grid df)
                   (zip_with fdiv (total_column df) (unique_users_column df))
                   (zip_with fdiv (total_column df) (unique_users_column df)))
                (set_col "per_user"
                   (zip_with fdiv (total_column df) (unique_users_column df))
                   (with_unique_users df (with_total df (cols f))))))).
Proof.
  intros D F K T U. unfold apply_per_user.
  rewrite (proj2 (attr_df_cohorts_ok _ _) F). cbn [bind].
  rewrite (ensure_total self df f D F K). cbn [bind].
  unfold attr_df_cohorts at 1. cbn [df_cohorts set_df_cohorts bind].
  rewrite (ensure_unique_users
             (set_df_cohorts self
                (mkframe (grid df) (with_total df (cols f))))
             df (mkframe (grid df) (with_total df (cols f)))
             D eq_refl eq_refl).
  cbn [bind]. unfold attr_df_cohorts. cbn [df_cohorts set_df_cohorts bind cols].
  assert (FT : find_col "total"
                 (with_unique_users df (with_total df (cols f)))
               = Some (total_column df)).
  { rewrite find_total_with_unique. apply find_total_with_total. exact T. }
  assert (FU : find_col "unique_users"
                 (with_unique_users df (with_total df (cols f)))
               = Some (unique_users_column df)).
  { apply find_unique_with_unique. intros col.
    rewrite find_unique_with_total. apply U. }
  rewrite (get_col_some _ _ _ FT), (get_col_some _ _ _ FU). cbn [bind keys].
  rewrite (groupby_cohort_perc_eq _ _ _ _
             (zip_with fdiv (total_column df) (unique_users_column df))
             (zip_with fdiv (total_column df) (unique_users_column df)))
    by (cbn [cols]; apply find_col_same).
  reflexivity.
Qed.

End CohortColumns.

(** * fit and the items of how *)

Module FitHow.
Import OrderFacts ListFacts PrepareFacts GridFacts CohortsFacts CohortsPmf.
Import CohortColumns.

Lemma columns_ok_set df name v cs :
  columns_ok df cs -> List.length v = List.length (grid df) ->
  (name = "total"%string -> v = total_column df) ->
  (name = "unique_users"%string -> v = unique_users_column df) ->
  columns_ok df (set_col name v cs).
Proof.
  intros (L & T & U) Hv Ht Hu. split; [|split].
  - intros n col. rewrite find_col_set_col.
    destruct (String.eqb_spec name n); [congruence|apply L].
  - intros col. rewrite find_col_set_col.
    destruct (String.eqb_spec name "total"); [|apply T].
    intros E. injection E as <-. auto.
  - intros col. rewrite find_col_set_col.
    destruct (String.eqb_spec name "unique_users"); [|apply U].
    intros E. injection E as <-. auto.
Qed.

Ltac lengths :=
  repeat first
    [ apply length_perc_column | apply length_derived_column
    | apply length_total_column | apply length_unique_users_column ].

Ltac set_ok :=
  apply columns_ok_set;
  [ | lengths | try discriminate; try reflexivity
    | try discriminate; try reflexivity ].

Lemma columns_ok_with_total df cs :
  columns_ok df cs -> columns_ok df (with_total df cs).
Proof.
  intros H. unfold with_total. destruct (has_col "total" cs); [exact H|].
  set_ok. set_ok. exact H.
Qed.

Lemma columns_ok_with_unique df cs :
  columns_ok df cs -> columns_ok df (with_unique_users df cs).
Proof.
  intros H. unfold with_unique_users.
  destruct (has_col "unique_users" cs); [exact H|].
  set_ok. set_ok. exact H.
Qed.

Lemma length_per_user df :
  List.length (zip_with fdiv (total_column df) (unique_users_column df))
  = List.length (grid df).
Proof.
  rewrite length_zip_with; [apply length_total_column|].
  rewrite length_total_column, length_unique_users_column. reflexivity.
Qed.

Lemma item_columns_ok df item cs cs' :
  columns_ok df cs -> item_columns df item cs = Some cs' ->
  columns_ok df cs'.
Proof.
  intros H E. unfold item_columns in E.
  repeat match type of E with
  | (if String.eqb ?a ?b then _ else _) = _ =>
      destruct (String.eqb a b)
  | (if has_col ?a ?b then _ else _) = _ => destruct (has_col a b)
  end; try discriminate; injection E as <-.
  - set_ok. set_ok. exact H.
  - set_ok. set_ok. apply columns_ok_with_total. exact H.
  - set_ok. set_ok. apply columns_ok_with_total. exact H.
  - set_ok. set_ok. exact H.
  - set_ok. set_ok. exact H.
  - apply columns_ok_set; [|lengths; apply length_per_user
                           |discriminate|discriminate].
    apply columns_ok_set; [|apply length_per_user|discriminate|discriminate].
    apply columns_ok_with_unique, columns_ok_with_total. exact H.
Qed.

Lemma missing_unique_users_raises self f column :
  df_cohorts self = Some f -> has_col "unique_users" (cols f) = false ->
  apply_churn_unique_users self column
  = Raise (AttributeError "apply_unique").
Proof.
  intros F Hc. unfold apply_churn_unique_users.
  apply attr_df_cohorts_ok in F. rewrite F. cbn [bind].
  rewrite Hc. reflexivity.
Qed.

Lemma set_df_cohorts_twice self f f' :
  set_df_cohorts (set_df_cohorts self f) f' = set_df_cohorts self f'.
Proof. reflexivity. Qed.

Lemma set_df_cohorts_same self f :
  df_cohorts self = Some f -> set_df_cohorts self f = self.
Proof. destruct self; cbn. intros ->. reflexivity. Qed.

(** One item of [how], on a fitted object. *)
Lemma fit_item self df f item how :
  df_period_cohort self = Some df -> df_cohorts self = Some f ->
  keys f = grid df -> columns_ok df (cols f) ->
  fit_how self (item :: how)
  = match item_columns df item (cols f) with
    | Some cs' =>
        fit_how (set_df_cohorts self (mkframe (grid df) cs')) how
    | None =>
        Raise (if String.eqb item "churn_unique_users"
               then AttributeError "apply_unique"
               else ValueError "How values should be inside some of these")
    end.
Proof.
  intros D F K (L & T & U). cbn [fit_how]. unfold item_columns.
  destruct (String.eqb_spec item "total") as [->|N1].
  { cbn [existsb String.eqb Ascii.eqb Bool.eqb orb].
    rewrite (apply_total_eq self df f D F K). reflexivity. }
  destruct (String.eqb_spec item "churn_total") as [->|N2].
  { cbn [existsb String.eqb Ascii.eqb Bool.eqb orb].
    rewrite (apply_churn_total_eq self df f D F K T). reflexivity. }
  destruct (String.eqb_spec item "accum") as [->|N3].
  { cbn [existsb String.eqb Ascii.eqb Bool.eqb orb].
    rewrite (apply_accum_eq self df f D F K T). reflexivity. }
  assert (X1 : existsb (String.eqb item) ["total"; "churn_total"; "accum"]%string
               = false).
  { cbn. destruct (String.eqb_spec item "total"); [contradiction|].
    destruct (String.eqb_spec item "churn_total"); [contradiction|].
    destruct (String.eqb_spec item "accum"); [contradiction|]. reflexivity. }
  rewrite X1.
  destruct (String.eqb_spec item "unique_users") as [->|N4].
  { cbn [existsb String.eqb Ascii.eqb Bool.eqb orb].
    rewrite (apply_unique_users_eq self df f D F K). reflexivity. }
  destruct (String.eqb_spec item "churn_unique_users") as [->|N5].
  { cbn [existsb String.eqb Ascii.eqb Bool.eqb orb].
    destruct (has_col "unique_users" (cols f)) eqn:H.
    - unfold has_col in H.
      destruct (find_col "unique_users" (cols f)) as [u|] eqn:Eu;
        [|discriminate].
      rewrite (U u eq_refl) in Eu.
      rewrite (apply_churn_unique_users_eq self df f D F K Eu). reflexivity.
    - rewrite (missing_unique_users_raises self f column_id F H).
      reflexivity. }
  assert (X2 : existsb (String.eqb item)
                 ["unique_users"; "churn_unique_users"]%string = false).
  { cbn. destruct (String.eqb_spec item "unique_users"); [contradiction|].
    destruct (String.eqb_spec item "churn_unique_users"); [contradiction|].
    reflexivity. }
  rewrite X2.
  destruct (String.eqb_spec item "per_user") as [->|N6].
  { rewrite (apply_per_user_eq self df f D F K T U). reflexivity. }
  reflexivity.
Qed.


(** [fit_how] on a fitted object, as the fold of [item_columns]. *)
Lemma fit_how_columns df how :
  forall self f,
    df_period_cohort self = Some df -> df_cohorts self = Some f ->
    keys f = grid df -> columns_ok df (cols f) ->
    match how_columns df how (cols f) with
    | Some cs' =>
        fit_how self how = Ok (set_df_cohorts self (mkframe (grid df) cs'))
        /\ columns_ok df cs'
    | None => exists e, fit_how self how = Raise e
    end.
Proof.
  induction how as [|item how IH]; intros self f D F K OK.
  - cbn [how_columns fit_how]. split; [|exact OK]. f_equal.
    symmetry. rewrite <- K.
    replace (mkframe (keys f) (cols f)) with f by (destruct f; reflexivity).
    apply set_df_cohorts_same. exact F.
  - rewrite (fit_item self df f item how D F K OK). cbn [how_columns].
    destruct (item_columns df item (cols f)) as [cs'|] eqn:E; [|eauto].
    pose proof (item_columns_ok df item _ _ OK E) as OK'.
    specialize (IH (set_df_cohorts self (mkframe (grid df) cs'))
                   (mkframe (grid df) cs') D eq_refl eq_refl OK').
    cbn [cols] in IH.
    destruct (how_columns df how cs') as [cs''|]; exact IH.
Qed.

Lemma columns_ok_nil df : columns_ok df [].
Proof. repeat split; intros; discriminate. Qed.

(** [fit], once the data are prepared, as the fold of [item_columns] from
    a table without metric columns. *)
Lemma fit_columns self data column_input how df :
  negb (self_simple self) && not_given column_input = false ->
  prepare (self_period self) (self_simple self) data = Ok df ->
  match how_columns df how [] with
  | Some cs =>
      fit self data column_input how
      = Ok (mkCohorts (self_period self) (self_simple self)
              (list_set (how ++ arguments self)) (Some df)
              (Some (mkframe (grid df) cs)))
      /\ columns_ok df cs
  | None => exists e, fit self data column_input how = Raise e
  end.
Proof.
  intros G P. unfold fit. rewrite G, P. cbn [bind].
  pose proof (fit_how_columns df how
                (mkCohorts (self_period self) (self_simple self)
                   (arguments self) (Some df) (Some (mkframe (grid df) [])))
                (mkframe (grid df) []) eq_refl eq_refl eq_refl
                (columns_ok_nil df)) as H.
  cbn [cols] in H.
  destruct (how_columns df how []) as [cs|].
  - destruct H as [-> OK]. cbn [bind]. split; [reflexivity|exact OK].
  - destruct H as (e & ->). cbn [bind]. eauto.
Qed.

Lemma fit_fitted self data column_input how self' :
  fit self data column_input how = Ok self' ->
  exists df,
    prepare (self_period self) (self_simple self) data = Ok df
    /\ well_prepared df /\ fitted df self'.
Proof.
  intros H.
  assert (G : negb (self_simple self) && not_given column_input = false).
  { unfold fit in H.
    destruct (negb (self_simple self) && not_given column_input);
      [discriminate|reflexivity]. }
  destruct (prepare (self_period self) (self_simple self) data) as [df|e]
    eqn:P.
  2: { unfold fit in H. rewrite G, P in H. discriminate. }
  exists df. split; [reflexivity|].
  split; [eapply prepare_well_prepared; exact P|].
  pose proof (fit_columns self data column_input how df G P) as C.
  destruct (how_columns df how []) as [cs|].
  - destruct C as [E OK]. rewrite E in H. injection H as <-.
    split; [reflexivity|]. eexists. split; [reflexivity|].
    split; [reflexivity|exact OK].
  - destruct C as (e & E). congruence.
Qed.

(** has_col through the steps *)

Lemma has_col_with_total df n cs :
  has_col n (with_total df cs)
  = if has_col "total" cs then has_col n cs
    else (String.eqb "perc_total" n || (String.eqb "total" n || has_col n cs))%bool.
Proof.
  unfold with_total. destruct (has_col "total" cs); [reflexivity|].
  rewrite !has_col_set_col. reflexivity.
Qed.

Lemma has_col_with_unique df n cs :
  has_col n (with_unique_users df cs)
  = if has_col "unique_users" cs then has_col n cs
    else (String.eqb "perc_unique_users" n
          || (String.eqb "unique_users" n || has_col n cs))%bool.
Proof.
  unfold with_unique_users. destruct (has_col "unique_users" cs);
    [reflexivity|].
  rewrite !has_col_set_col. reflexivity.
Qed.

Ltac has_cols :=
  repeat first
    [ rewrite has_col_set_col | rewrite has_col_with_unique
    | rewrite has_col_with_total ].

Ltac eqbs :=
  repeat match goal with
  | |- context [String.eqb ?a ?b] =>
      let v := eval vm_compute in (String.eqb a b) in
      change (String.eqb a b) with v
  end; cbn [orb andb].

Ltac split_items E :=
  unfold item_columns in E;
  repeat match type of E with
  | (if String.eqb ?a ?b then _ else _) = _ =>
      destruct (String.eqb_spec a b); [subst|]
  | (if has_col ?a ?b then _ else _) = _ =>
      let H := fresh "H" in destruct (has_col a b) eqn:H
  end; try discriminate; try (injection E as <-).

Lemma item_columns_some df item cs cs' :
  item_columns df item cs = Some cs' ->
  In item how_names
  /\ (item = "churn_unique_users"%string ->
      has_col "unique_users" cs = true)
  /\ has_col "unique_users" cs'
     = (has_col "unique_users" cs
        || (String.eqb item "unique_users" || String.eqb item "per_user"))%bool.
Proof.
  intros E. split_items E.
  all: split; [unfold how_names; cbn; tauto|].
  all: split;
    [first [discriminate | intros _; assumption | intros _; reflexivity]|].
  all: has_cols; eqbs.
  all: repeat match goal with
       | H : has_col ?a ?b = _ |- _ => rewrite H
       end.
  all: repeat match goal with
       | |- context [has_col ?a ?b] => destruct (has_col a b)
       end; reflexivity.
Qed.

Lemma item_columns_none df item cs :
  item_columns df item cs = None ->
  ~ In item how_names
  \/ (item = "churn_unique_users"%string
      /\ has_col "unique_users" cs = false).
Proof.
  intros E. split_items E.
  - right. auto.
  - left. unfold how_names. cbn. intuition congruence.
Qed.

Lemma how_columns_success df how :
  forall cs,
    (exists cs', how_columns df how cs = Some cs')
    <-> ((forall item, In item how -> In item how_names)
         /\ forall pre post,
              how = pre ++ "churn_unique_users"%string :: post ->
              has_col "unique_users" cs = true
              \/ In "unique_users"%string pre \/ In "per_user"%string pre).
Proof.
  induction how as [|item how IH]; intros cs; cbn [how_columns].
  - split; [|eauto]. intros _. split; [intros ? []|].
    intros [|] ? H; discriminate.
  - destruct (item_columns df item cs) as [cs1|] eqn:E.
    + destruct (item_columns_some df item cs cs1 E) as (Hin & Hcu & Huu).
      rewrite IH. rewrite Huu. split.
      * intros [A B]. split.
        { intros x [<-|Hx]; [exact Hin|apply A; exact Hx]. }
        intros [|p pre] post Hh; cbn in Hh; injection Hh as Ei Eh.
        { left. apply Hcu. exact Ei. }
        subst p. destruct (B pre post Eh) as [B1|[B1|B1]].
        -- apply orb_true_iff in B1. destruct B1 as [B1|B1]; [auto|].
           apply orb_true_iff in B1.
           destruct B1 as [B1|B1]; apply String.eqb_eq in B1; subst item;
             right; [left|right]; left; reflexivity.
        -- right. left. right. exact B1.
        -- right. right. right. exact B1.
      * intros [A B]. split.
        { intros x Hx. apply A. right. exact Hx. }
        intros pre post Eh.
        destruct (B (item :: pre) post) as [B1|[B1|B1]].
        -- cbn. rewrite Eh. reflexivity.
        -- left. rewrite B1. reflexivity.
        -- destruct B1 as [B1|B1]; [|auto].
           left. subst item. cbn. apply orb_true_r.
        -- destruct B1 as [B1|B1]; [|auto].
           left. subst item. cbn. apply orb_true_iff. right. reflexivity.
    + split; [intros (cs' & H); discriminate|].
      intros [A B]. exfalso.
      destruct (item_columns_none df item cs E) as [N|[-> Hf]].
      * apply N, A. left. reflexivity.
      * destruct (B [] how eq_refl) as [B1|[[]|[]]]. congruence.
Qed.

End FitHow.

(** * What fit accepts in how, and the columns it adds *)

Module FitColumns.
Import OrderFacts ListFacts PrepareFacts GridFacts CohortsFacts CohortsPmf.
Import CohortColumns FitHow.

(** [fit] returns a fitted object exactly when every item of [how] is one
    of the six names and every 'churn_unique_users' comes after a
    'unique_users' or a 'per_user' (the two items that leave the column
    'unique_users' behind).  The data are dated events, at least one, and
    a model that is not simple is given its quantity column. *)
Theorem fit_succeeds_iff (self : Cohorts) (data : list event)
  (column_input : option string) (how : list string) :
  forallb (fun e => valid (ev_date e)) data = true -> data <> [] ->
  negb (self_simple self) && not_given column_input = false ->
  ((exists self', fit self data column_input how = Ok self')
   <-> ((forall item, In item how -> In item how_names)
        /\ forall pre post,
             how = pre ++ "churn_unique_users"%string :: post ->
             In "unique_users"%string pre \/ In "per_user"%string pre)).
Proof.
  intros V _ G.
  destruct (GrowthRates.prepare_returns (self_period self) (self_simple self)
              data V) as (df & P).
  pose proof (fit_columns self data column_input how df G P) as C.
  pose proof (how_columns_success df how []) as S.
  assert (X : forall pre : list string,
            (has_col "unique_users" [] = true
             \/ In "unique_users"%string pre \/ In "per_user"%string pre)
            <-> (In "unique_users"%string pre \/ In "per_user"%string pre)).
  { intros pre. cbn. intuition discriminate. }
  split.
  - intros (self' & H).
    destruct (how_columns df how []) as [cs|].
    + destruct (proj1 S (ex_intro _ cs eq_refl)) as [A B].
      split; [exact A|]. intros pre post E. apply X. eapply B. exact E.
    + destruct C as (e & E). congruence.
  - intros [A B].
    destruct (proj2 S) as (cs & E).
    { split; [exact A|]. intros pre post Eh. apply X. eapply B. exact Eh. }
    rewrite E in C. destruct C as [C _]. eauto.
Qed.

Lemma fit_succeeds_iff_witness :
  forallb (fun e => valid (ev_date e)) sample_events = true
  /\ sample_events <> []
  /\ negb (self_simple (init Tm true)) && not_given None = false
  /\ ((exists self',
         fit (init Tm true) sample_events None
           ["per_user"; "churn_unique_users"]%string = Ok self')
      <-> ((forall item,
              In item ["per_user"; "churn_unique_users"]%string ->
              In item how_names)
           /\ forall pre post,
                ["per_user"; "churn_unique_users"]%string
                = pre ++ "churn_unique_users"%string :: post ->
                In "unique_users"%string pre \/ In "per_user"%string pre)).
Proof.
  split; [reflexivity|]. split; [discriminate|]. split; [reflexivity|].
  apply (fit_succeeds_iff (init Tm true) sample_events None
           ["per_user"; "churn_unique_users"]%string).
  - reflexivity.
  - discriminate.
  - reflexivity.
Defined.

Lemma item_columns_names df item cs cs' :
  item_columns df item cs = Some cs' ->
  (forall n, has_col n cs = true -> has_col n cs' = true)
  /\ (forall c, In c (columns_of_item item) -> has_col c cs' = true)
  /\ (forall n, has_col n cs' = true ->
                has_col n cs = true \/ In n metric_columns).
Proof.
  intros E. split_items E.
  all: split; [intros nm Hnm; has_cols; rewrite ?Hnm;
               repeat match goal with
               | |- context [if ?b then _ else _] => destruct b
               end; rewrite ?Hnm, ?orb_true_r; reflexivity|].
  all: split;
    [ unfold columns_of_item; eqbs; cbn [String.append];
      intros c Hc; cbn in Hc;
      repeat (destruct Hc as [<-|Hc];
              [has_cols; eqbs;
               repeat match goal with
               | |- context [if ?b then _ else _] => destruct b
               end; rewrite ?orb_true_r; reflexivity|]);
      destruct Hc
    | ].
  all: intros nm; has_cols;
    repeat match goal with
    | |- context [if ?b then _ else _] => destruct b
    end;
    rewrite ?orb_true_iff; unfold metric_columns; cbn [In];
    intros Hnm;
    repeat match type of Hnm with
    | _ \/ _ => destruct Hnm as [Hnm|Hnm]
    end;
    try (apply String.eqb_eq in Hnm; subst nm); tauto.
Qed.

Lemma how_columns_names df how :
  forall cs cs',
    how_columns df how cs = Some cs' ->
    (forall n, has_col n cs = true -> has_col n cs' = true)
    /\ (forall item c, In item how -> In c (columns_of_item item) ->
                       has_col c cs' = true)
    /\ (forall n, has_col n cs' = true ->
                  has_col n cs = true \/ In n metric_columns).
Proof.
  induction how as [|item how IH]; intros cs cs' H; cbn [how_columns] in H.
  - injection H as <-. repeat split; auto.
  - destruct (item_columns df item cs) as [cs1|] eqn:E; [|discriminate].
    destruct (item_columns_names df item cs cs1 E) as (M1 & C1 & N1).
    destruct (IH cs1 cs' H) as (M2 & C2 & N2).
    split; [|split].
    + auto.
    + intros it c [<-|Hit] Hc; [apply M2, C1; exact Hc|eapply C2; eauto].
    + intros n Hn. destruct (N2 n Hn) as [Hn'|Hn']; [|auto]. apply N1, Hn'.
Qed.

(** After [fit], df_cohorts holds, for every item of [how], the column of
    that name and its percentage column 'perc_' + name; except for
    'churn_unique_users', whose two columns are named 'churn_unique' and
    'perc_churn_unique'.  Every column has one of twelve names, none of
    which is 'churn_unique_users', although [arguments] holds every item
    of [how] under the name it was given, beside the items it held
    before. *)
Theorem fit_adds_columns (self : Cohorts) (data : list event)
  (column_input : option string) (how : list string) (self' : Cohorts) :
  fit self data column_input how = Ok self' ->
  exists f,
    df_cohorts self' = Some f
    /\ (forall item c, In item how -> In c (columns_of_item item) ->
                       has_col c (cols f) = true)
    /\ (forall name, has_col name (cols f) = true -> In name metric_columns)
    /\ has_col "churn_unique_users" (cols f) = false
    /\ (forall item, In item (arguments self')
                     <-> In item how \/ In item (arguments self)).
Proof.
  intros H.
  assert (G : negb (self_simple self) && not_given column_input = false).
  { unfold fit in H.
    destruct (negb (self_simple self) && not_given column_input);
      [discriminate|reflexivity]. }
  destruct (prepare (self_period self) (self_simple self) data) as [df|e]
    eqn:P.
  2: { unfold fit in H. rewrite G, P in H. discriminate. }
  pose proof (fit_columns self data column_input how df G P) as C.
  destruct (how_columns df how []) as [cs|] eqn:E.
  2: { destruct C as (e & E'). congruence. }
  destruct C as [E' _]. rewrite E' in H. injection H as <-.
  destruct (how_columns_names df how [] cs E) as (_ & C2 & N2).
  assert (N : forall name, has_col name cs = true -> In name metric_columns).
  { intros n Hn. destruct (N2 n Hn) as [X|X]; [discriminate|exact X]. }
  exists (mkframe (grid df) cs). cbn [df_cohorts cols arguments].
  split; [reflexivity|]. split; [exact C2|]. split; [exact N|].
  split.
  2: { intros item. unfold list_set. rewrite nodup_In, in_app_iff.
       reflexivity. }
  destruct (has_col "churn_unique_users" cs) eqn:X; [|reflexivity].
  apply N in X. unfold metric_columns in X. cbn in X.
  repeat (destruct X as [X|X]; [discriminate|]). destruct X.
Qed.

Lemma fit_adds_columns_witness :
  exists self',
    fit (init Tm true) sample_events None
      ["unique_users"; "churn_unique_users"]%string = Ok self'
    /\ exists f,
         df_cohorts self' = Some f
         /\ (forall item c,
               In item ["unique_users"; "churn_unique_users"]%string ->
               In c (columns_of_item item) -> has_col c (cols f) = true)
         /\ (forall name, has_col name (cols f) = true ->
                          In name metric_columns)
         /\ has_col "churn_unique_users" (cols f) = false
         /\ (forall item,
               In item (arguments self')
               <-> In item ["unique_users"; "churn_unique_users"]%string
                   \/ In item (arguments (init Tm true))).
Proof.
  remember (fit (init Tm true) sample_events None
              ["unique_users"; "churn_unique_users"]%string) as r eqn:Er.
  destruct r as [self'|e]; [|vm_compute in Er; discriminate].
  exists self'. split; [reflexivity|].
  apply (fit_adds_columns (init Tm true) sample_events None
           ["unique_users"; "churn_unique_users"]%string).
  symmetry. exact Er.
Defined.

End FitColumns.

(** * The cells of the metric columns *)

Module CohortCells.
Import OrderFacts ListFacts PrepareFacts GridFacts CohortsFacts CohortsPmf.
Import CohortColumns FitHow.

Lemma nth_error_combine {A B} (a : list A) (b : list B) i x y :
  nth_error a i = Some x -> nth_error b i = Some y ->
  nth_error (combine a b) i = Some (x, y).
Proof.
  revert b i. induction a as [|x0 a IH]; intros [|y0 b] [|i] Ha Hb;
    cbn in *; try discriminate.
  - congruence.
  - apply IH; assumption.
Qed.

Lemma In_combine_nth {A B} (a : list A) (b : list B) x y :
  In (x, y) (combine a b) ->
  exists i, nth_error a i = Some x /\ nth_error b i = Some y.
Proof.
  revert b. induction a as [|x0 a IH]; intros [|y0 b] H; cbn in H;
    try contradiction.
  destruct H as [H|H].
  - injection H as -> ->. exists O. split; reflexivity.
  - destruct (IH b H) as (i & Ha & Hb). exists (S i). split; assumption.
Qed.

Lemma NoDup_nth_error_inj {A} (l : list A) i j x :
  NoDup l -> nth_error l i = Some x -> nth_error l j = Some x -> i = j.
Proof.
  intros N Hi Hj. apply (proj1 (NoDup_nth_error l) N).
  - apply nth_error_Some. congruence.
  - congruence.
Qed.

Lemma nth_map_some {A B} (f : A -> B) l n a d :
  nth_error l n = Some a -> nth n (map f l) d = f a.
Proof.
  intros H. apply nth_error_nth. rewrite nth_error_map, H. reflexivity.
Qed.

Lemma firstn_filter_length {A} (P : A -> bool) (l : list A) :
  forall i,
    firstn (List.length (filter P (firstn i l))) (filter P l)
    = filter P (firstn i l).
Proof.
  induction l as [|x l IH]; intros [|i]; cbn; try reflexivity.
  destruct (P x); cbn; rewrite IH; reflexivity.
Qed.

Section Groups.
Context {V : Type} (keys : list cell_key) (vals : list V).

Let key := fun x : cell_key * V => cohort (fst x).
Let group := fun c => filter (fun x => date_eqb (key x) c) (combine keys vals).

(** Row [i] of the table, within the rows of its cohort. *)
Lemma cohort_apply_nth (g : list (cell_key * V) -> list fval) i k v :
  nth_error keys i = Some k -> nth_error vals i = Some v ->
  exists n,
    nth_error (group (cohort k)) n = Some (k, v)
    /\ nth_error (groupby_apply date_eqb key g NaN (combine keys vals)) i
       = Some (nth n (g (group (cohort k))) NaN)
    /\ firstn n (group (cohort k))
       = filter (fun x => date_eqb (key x) (cohort k))
                (firstn i (combine keys vals)).
Proof.
  intros Hk Hv.
  pose proof (nth_error_combine keys vals i k v Hk Hv) as Hr.
  exists (rank_of date_eqb (map key (combine keys vals)) i (cohort k)).
  assert (Hn : rank_of date_eqb (map key (combine keys vals)) i (cohort k)
               = List.length
                   (filter (fun x => date_eqb (key x) (cohort k))
                           (firstn i (combine keys vals)))).
  { unfold rank_of. rewrite firstn_map.
    rewrite <- (length_filter_map key (fun x => date_eqb x (cohort k))).
    reflexivity. }
  split; [|split].
  - rewrite Hn. unfold group.
    apply (nth_error_filter_rank (fun x => date_eqb (key x) (cohort k))).
    + exact Hr.
    + apply date_eqb_eq. reflexivity.
  - apply (nth_error_groupby_apply date_eqb key g NaN
             (combine keys vals) i (k, v) Hr).
  - rewrite Hn. unfold group. apply firstn_filter_length.
Qed.
End Groups.

Lemma group_snd (keys : list cell_key) (c1 c2 : column) c :
  List.length c1 = List.length keys -> List.length c2 = List.length keys ->
  map (fun x : cell_key * (fval * fval) => snd (snd x))
      (filter (fun x => date_eqb (cohort (fst x)) c)
              (combine keys (combine c1 c2)))
  = map snd (filter (fun x : cell_key * fval => date_eqb (cohort (fst x)) c)
                    (combine keys c2)).
Proof.
  revert c1 c2. induction keys as [|k keys IH]; intros [|x c1] [|y c2] H1 H2;
    cbn in *; try reflexivity; try discriminate.
  destruct (date_eqb (cohort k) c); cbn; rewrite IH by lia; reflexivity.
Qed.

(** The percentage column, cell by cell: the cell of the first column over
    the cell that the second column has in the first row of the cohort. *)
Lemma perc_column_nth keys c1 c2 i k x :
  List.length c1 = List.length keys -> List.length c2 = List.length keys ->
  nth_error keys i = Some k -> nth_error c1 i = Some x ->
  nth_error (perc_column keys c1 c2) i
  = Some (fdiv x (head_value keys c2 (cohort k))).
Proof.
  intros L1 L2 Hk Hx.
  destruct (nth_error c2 i) as [y|] eqn:Hy.
  2: { apply nth_error_None in Hy.
       assert (i < List.length keys)%nat
         by (apply nth_error_Some; congruence). lia. }
  destruct (cohort_apply_nth keys (combine c1 c2)
              (fun g => perc (map snd g)) i k (x, y) Hk
              (nth_error_combine _ _ _ _ _ Hx Hy)) as (n & Hn & Ha & _).
  unfold perc_column. rewrite Ha. f_equal.
  set (G := filter _ (combine keys (combine c1 c2))) in *.
  unfold perc.
  assert (Hm : nth_error (map snd G) n = Some (x, y)).
  { rewrite nth_error_map, Hn. reflexivity. }
  rewrite (nth_map_some _ _ _ _ NaN Hm).
  cbn [fst]. f_equal. unfold head_value.
  rewrite <- (group_snd keys c1 c2 (cohort k) L1 L2). fold G.
  destruct G as [|[k0 [x0 y0]] G']; reflexivity.
Qed.

Lemma churn_column_nth keys c i k x :
  List.length c = List.length keys ->
  nth_error keys i = Some k -> nth_error c i = Some x ->
  nth_error (derived_column churn keys c) i
  = Some (fsub (head_value keys c (cohort k)) x).
Proof.
  intros L Hk Hx.
  destruct (cohort_apply_nth keys c (fun g => churn (map snd g)) i k x
              Hk Hx) as (n & Hn & Ha & _).
  unfold derived_column. rewrite Ha. f_equal.
  set (G := filter _ (combine keys c)) in *.
  unfold churn.
  assert (Hm : nth_error (map snd G) n = Some x).
  { rewrite nth_error_map, Hn. reflexivity. }
  rewrite (nth_map_some _ _ _ _ NaN Hm). reflexivity.
Qed.


(** The grid of a prepared table *)

Lemma grid_keys df k :
  In k (grid df) ->
  observed_cohort df (cohort k) /\ observed_period df (period k)
  /\ date_leb (cohort k) (period k) = true.
Proof.
  intros Hk.
  destruct (grid_spec df) as (cs & ps & Hcs & Hps & _ & _ & Hg & _).
  assert (H : In (key2 k) (map key2 (grid df))) by (apply in_map; exact Hk).
  rewrite Hg in H. unfold key2 in H. apply grid_pairs_In in H.
  rewrite Hcs, Hps in H. exact H.
Qed.

Lemma grid_NoDup df : NoDup (grid df).
Proof.
  destruct (grid_spec df) as (cs & ps & _ & _ & Scs & Sps & Hg & _).
  apply (NoDup_map_inv key2). rewrite Hg.
  apply grid_pairs_NoDup; apply sorted_dates_NoDup; assumption.
Qed.

(** The first row of a cohort is the row of its own period, numbered 0. *)
Lemma grid_first_row df c :
  well_prepared df -> observed_cohort df c ->
  exists j0 g',
    nth_error (grid df) j0 = Some (mkkey c c 0)
    /\ rows_of_cohort c (grid df) = mkkey c c 0 :: g'.
Proof.
  intros W Hc.
  destruct (grid_spec df) as (cs & ps & Hcs & Hps & Scs & Sps & Hg & Hper & Hnum).
  assert (Hown : exists l, filter (date_leb c) ps = c :: l).
  { apply CohortGrid.sorted_least_is_head.
    - apply sorted_filter. exact Sps.
    - apply filter_In. split; [|apply date_leb_refl].
      apply Hps. destruct Hc as (r & Hr & <-).
      destruct (cohort_attained df W r Hr) as (r' & Hr' & _ & E).
      exists r'. auto.
    - intros x Hx. apply filter_In in Hx. tauto. }
  destruct Hown as (l & El).
  destruct (CohortGrid.rows_of_cohort_head c (grid df) l) as (g' & Eg).
  - rewrite Hper by (apply Hcs; exact Hc). exact El.
  - apply Hnum.
  - assert (X : In (mkkey c c 0) (grid df)).
    { assert (Y : In (mkkey c c 0) (rows_of_cohort c (grid df)))
        by (rewrite Eg; left; reflexivity).
      apply filter_In in Y. tauto. }
    apply In_nth_error in X. destruct X as (j0 & Hj0). eauto.
Qed.

Lemma head_value_grid df col c j0 :
  well_prepared df -> observed_cohort df c ->
  List.length col = List.length (grid df) ->
  nth_error (grid df) j0 = Some (mkkey c c 0) ->
  exists v0, nth_error col j0 = Some v0 /\ head_value (grid df) col c = v0.
Proof.
  intros W Hc L Hj0.
  destruct (grid_first_row df c W Hc) as (j1 & g' & _ & Eg).
  unfold head_value.
  set (G := filter (fun x : cell_key * fval => date_eqb (cohort (fst x)) c)
              (combine (grid df) col)).
  assert (HG : map fst G = rows_of_cohort c (grid df)).
  { unfold G, rows_of_cohort.
    apply (filter_combine_fst (fun k => date_eqb (cohort k) c)). lia. }
  rewrite Eg in HG.
  destruct G as [|[k0 v0] G'] eqn:EG; [discriminate|].
  cbn in HG. injection HG as -> _.
  assert (Hin : In (mkkey c c 0, v0) (combine (grid df) col)).
  { assert (X : In (mkkey c c 0, v0) G) by (rewrite EG; left; reflexivity).
    unfold G in X. apply filter_In in X. tauto. }
  destruct (In_combine_nth _ _ _ _ Hin) as (j & Hj & Hv).
  assert (j = j0) by (eapply NoDup_nth_error_inj; eauto using grid_NoDup).
  subst j. exists v0. split; [exact Hv|reflexivity].
Qed.

(** The cells of 'total' and 'unique_users' *)

Lemma cell_rows_spec df k r :
  In r (cell_rows df k) <->
  In r df /\ r_cohort r = cohort k /\ r_period r = period k.
Proof.
  unfold cell_rows. rewrite filter_In.
  rewrite (cmp_eqb_true cmp2 cmp2_eq). unfold row_key2, key2.
  split; intros [H1 H2]; split; try assumption.
  - injection H2 as -> ->. auto.
  - destruct H2 as [-> ->]. reflexivity.
Qed.

Lemma diagonal_cell_nonempty df c :
  well_prepared df -> observed_cohort df c ->
  cell_rows df (mkkey c c 0) <> [].
Proof.
  intros W (r & Hr & <-).
  destruct (cohort_attained df W r Hr) as (r' & Hr' & Ei & Ep).
  assert (X : In r' (cell_rows df (mkkey (r_cohort r) (r_cohort r) 0))).
  { apply cell_rows_spec. cbn. split; [exact Hr'|]. split; [|exact Ep].
    apply (cohort_of_id df W); auto. }
  intros E. rewrite E in X. destruct X.
Qed.

Lemma total_column_nth df i k :
  nth_error (grid df) i = Some k ->
  nth_error (total_column df) i
  = Some (match cell_rows df k with
          | [] => NaN
          | rows => Fin (input_sum rows)
          end).
Proof.
  intros Hk. unfold total_column, align.
  rewrite nth_error_map, nth_error_map, Hk. cbn [option_map].
  rewrite (lookup_groupby_agg cmp2 cmp2_eq), existsb_filter_nonempty.
  fold (cell_rows df k).
  destruct (cell_rows df k) as [|r rows]; [reflexivity|].
  unfold input_sum. cbn [cell].
  rewrite (GrowthRows.sum_skipna_some r_input). reflexivity.
Qed.

Lemma Qcompare_inject_Z a b :
  Qcompare (inject_Z a) (inject_Z b) = Z.compare a b.
Proof. unfold Qcompare. cbn. rewrite !Z.mul_1_r. reflexivity. Qed.

Lemma insert_key_inject_Z a l :
  insert_key Qcompare (inject_Z a) (map inject_Z l)
  = map inject_Z (insert_key Z.compare a l).
Proof.
  induction l as [|x l IH]; cbn; [reflexivity|].
  rewrite Qcompare_inject_Z. destruct (a ?= x); cbn; [reflexivity..|].
  rewrite IH. reflexivity.
Qed.

Lemma distinct_sorted_inject_Z l :
  distinct_sorted Qcompare (map inject_Z l)
  = map inject_Z (distinct_sorted Z.compare l).
Proof.
  induction l as [|x l IH]; cbn; [reflexivity|].
  unfold distinct_sorted in *. rewrite IH. apply insert_key_inject_Z.
Qed.

Lemma Z_compare_eq a b : (a ?= b) = Eq <-> a = b.
Proof. apply Z.compare_eq_iff. Qed.

Lemma length_distinct_ids (l : list Z) :
  List.length (distinct_sorted Z.compare l)
  = List.length (nodup Z.eq_dec l).
Proof.
  assert (N1 : NoDup (distinct_sorted Z.compare l)).
  { apply distinct_sorted_NoDup.
    - exact Z_compare_eq.
    - exact Z_compare_antisym.
    - exact Z_compare_trans. }
  pose proof (NoDup_nodup Z.eq_dec l) as N2.
  apply Nat.le_antisymm; apply NoDup_incl_length; try assumption.
  - intros x Hx. apply nodup_In.
    apply (proj1 (distinct_sorted_In Z.compare Z_compare_eq _ _)) in Hx.
    exact Hx.
  - intros x Hx. apply nodup_In in Hx.
    apply (proj2 (distinct_sorted_In Z.compare Z_compare_eq _ _)). exact Hx.
Qed.

Lemma nunique_ids_eq rows :
  nunique (map (cell column_id) rows) = distinct_ids rows.
Proof.
  unfold nunique, distinct_ids, count_rows. cbn [cell].
  rewrite <- (map_map r_id inject_Z), distinct_sorted_inject_Z, length_map.
  rewrite length_distinct_ids. reflexivity.
Qed.

Lemma unique_users_column_nth df i k :
  nth_error (grid df) i = Some k ->
  nth_error (unique_users_column df) i
  = Some (match cell_rows df k with
          | [] => NaN
          | rows => Fin (distinct_ids rows)
          end).
Proof.
  intros Hk. unfold unique_users_column, align.
  rewrite nth_error_map, nth_error_map, Hk. cbn [option_map].
  rewrite (lookup_groupby_agg cmp2 cmp2_eq), existsb_filter_nonempty.
  fold (cell_rows df k).
  destruct (cell_rows df k) as [|r rows]; [reflexivity|].
  rewrite nunique_ids_eq. reflexivity.
Qed.

Lemma distinct_ids_pos rows : rows <> [] -> (1 <= distinct_ids rows)%Q.
Proof.
  intros N. unfold distinct_ids.
  destruct rows as [|r rows]; [congruence|].
  assert (In (r_id r) (nodup Z.eq_dec (map r_id (r :: rows)))).
  { apply nodup_In. left. reflexivity. }
  destruct (nodup Z.eq_dec (map r_id (r :: rows))); [destruct H|].
  unfold Qle. cbn. lia.
Qed.

Lemma distinct_ids_incl rows rows' :
  (forall r, In r rows -> exists r', In r' rows' /\ r_id r' = r_id r) ->
  (distinct_ids rows <= distinct_ids rows')%Q.
Proof.
  intros H. unfold distinct_ids.
  assert (L : (List.length (nodup Z.eq_dec (map r_id rows))
               <= List.length (nodup Z.eq_dec (map r_id rows')))%nat).
  { apply NoDup_incl_length; [apply NoDup_nodup|].
    intros x Hx. apply nodup_In in Hx. apply nodup_In.
    apply in_map_iff in Hx. destruct Hx as (r & <- & Hr).
    destruct (H r Hr) as (r' & Hr' & E). apply in_map_iff. eauto. }
  unfold Qle. cbn. lia.
Qed.

End CohortCells.

(** * Unique users and retention *)

Module CohortRetention.
Import OrderFacts ListFacts PrepareFacts GridFacts CohortsFacts CohortsPmf.
Import CohortColumns FitHow CohortCells.

Lemma fdiv_fin a b :
  ~ (b == 0)%Q -> fdiv (Fin a) (Fin b) = Fin (a / b).
Proof.
  intros N. unfold fdiv, Qzero_b.
  destruct (Qeq_bool b 0) eqn:E; [|reflexivity].
  apply Qeq_bool_iff in E. contradiction.
Qed.

Lemma nth_error_In_grid df i k :
  nth_error (grid df) i = Some k -> In k (grid df).
Proof. apply nth_error_In. Qed.

(** The row of a cohort that is numbered 0 is the row of its own period. *)
Lemma first_period_row df k :
  well_prepared df -> In k (grid df) -> period_num k = 0 ->
  k = mkkey (cohort k) (cohort k) 0.
Proof.
  intros W Hk Hn.
  destruct (grid_keys df k Hk) as (Hc & _ & _).
  destruct (grid_first_row df (cohort k) W Hc) as (j0 & g' & _ & Eg).
  destruct (grid_spec df) as (_ & _ & _ & _ & _ & _ & _ & _ & Hnum).
  specialize (Hnum (cohort k)).
  assert (Hin : In k (rows_of_cohort (cohort k) (grid df))).
  { apply filter_In. split; [exact Hk|]. apply date_eqb_eq. reflexivity. }
  apply In_nth_error in Hin. destruct Hin as (j & Hj).
  assert (Hz : nth_error (map period_num (rows_of_cohort (cohort k) (grid df))) j
               = Some (period_num k)).
  { rewrite nth_error_map, Hj. reflexivity. }
  rewrite Hnum in Hz. unfold nums in Hz.
  rewrite nth_error_map in Hz.
  destruct (nth_error (seq 0 (List.length (rows_of_cohort (cohort k) (grid df)))) j)
    as [m|] eqn:Em; [|discriminate].
  cbn in Hz. injection Hz as Hz.
  assert (j < List.length (rows_of_cohort (cohort k) (grid df)))%nat
    by (apply nth_error_Some; congruence).
  pose proof (nth_error_nth _ _ O Em) as Es.
  rewrite seq_nth in Es by assumption. cbn in Es.
  assert (Ej : j = O) by lia.
  rewrite Eg, Ej in Hj. cbn in Hj. congruence.
Qed.

Lemma fitted_frame df self :
  fitted df self ->
  df_period_cohort self = Some df
  /\ exists f, df_cohorts self = Some f /\ keys f = grid df
               /\ columns_ok df (cols f).
Proof. intros H. exact H. Qed.

Lemma unique_users_cell df i k :
  nth_error (grid df) i = Some k -> cell_rows df k <> [] ->
  nth_error (unique_users_column df) i
  = Some (Fin (distinct_ids (cell_rows df k))).
Proof.
  intros Hk N. rewrite (unique_users_column_nth df i k Hk).
  destruct (cell_rows df k); [congruence|reflexivity].
Qed.

Lemma unique_users_empty_cell df i k :
  nth_error (grid df) i = Some k -> cell_rows df k = [] ->
  nth_error (unique_users_column df) i = Some NaN.
Proof.
  intros Hk N. rewrite (unique_users_column_nth df i k Hk), N. reflexivity.
Qed.

(** The unique users of a cell, against those of the first period of its
    cohort. *)
Lemma cell_ids_within_cohort df k :
  well_prepared df ->
  (distinct_ids (cell_rows df k)
   <= distinct_ids (cell_rows df (mkkey (cohort k) (cohort k) 0)))%Q.
Proof.
  intros W. apply distinct_ids_incl. intros r Hr.
  apply cell_rows_spec in Hr. destruct Hr as (Hr & Ec & Ep).
  destruct (cohort_attained df W r Hr) as (r' & Hr' & Ei & Ep').
  exists r'. split; [|exact Ei].
  apply cell_rows_spec. cbn. split; [exact Hr'|].
  split; [|congruence].
  rewrite <- Ec. apply (cohort_of_id df W); auto.
Qed.

(** After [apply_unique_users] on a fitted object, the cell of
    'unique_users' counts the distinct ids among the events of the cell:
    at least 1 when the cell has events, never more than in the first
    period of the cohort, and NaN (not 0) when the cell has none.  The
    method raises nothing. *)
Theorem unique_users_cells (self0 : Cohorts) (data : list event)
  (column_input : option string) (how : list string) (self : Cohorts) :
  fit self0 data column_input how = Ok self ->
  exists df self' f uu,
    prepare (self_period self0) (self_simple self0) data = Ok df
    /\ apply_unique_users self column_id = Ok self'
    /\ df_period_cohort self' = Some df
    /\ df_cohorts self' = Some f /\ keys f = grid df
    /\ find_col "unique_users" (cols f) = Some uu
    /\ forall i k,
         nth_error (keys f) i = Some k ->
         (cell_rows df k = [] -> nth_error uu i = Some NaN)
         /\ (cell_rows df k <> [] ->
             nth_error uu i = Some (Fin (distinct_ids (cell_rows df k)))
             /\ (1 <= distinct_ids (cell_rows df k))%Q
             /\ (distinct_ids (cell_rows df k)
                 <= distinct_ids
                      (cell_rows df (mkkey (cohort k) (cohort k) 0)))%Q).
Proof.
  intros H. destruct (fit_fitted _ _ _ _ _ H) as (df & P & W & Fd).
  destruct (fitted_frame df self Fd) as (D & f & F & K & OK).
  exists df. eexists. eexists. exists (unique_users_column df).
  split; [exact P|].
  split; [apply (apply_unique_users_eq self df f D F K)|].
  cbn [df_period_cohort df_cohorts set_df_cohorts keys cols].
  split; [exact D|]. split; [reflexivity|]. split; [reflexivity|].
  cbn [keys cols].
  split.
  { rewrite find_col_other by discriminate. apply find_col_same. }
  intros i k Hk. rewrite (unique_users_column_nth df i k Hk).
  split.
  - intros ->. reflexivity.
  - intros N. split; [|split].
    + destruct (cell_rows df k); [congruence|reflexivity].
    + apply distinct_ids_pos. exact N.
    + apply cell_ids_within_cohort. exact W.
Qed.

Lemma unique_users_cells_witness :
  exists self,
    fit (init Tm true) sample_events None [] = Ok self
    /\ exists df self' f uu,
         prepare (self_period (init Tm true)) (self_simple (init Tm true))
           sample_events = Ok df
         /\ apply_unique_users self column_id = Ok self'
         /\ df_period_cohort self' = Some df
         /\ df_cohorts self' = Some f /\ keys f = grid df
         /\ find_col "unique_users" (cols f) = Some uu
         /\ forall i k,
              nth_error (keys f) i = Some k ->
              (cell_rows df k = [] -> nth_error uu i = Some NaN)
              /\ (cell_rows df k <> [] ->
                  nth_error uu i = Some (Fin (distinct_ids (cell_rows df k)))
                  /\ (1 <= distinct_ids (cell_rows df k))%Q
                  /\ (distinct_ids (cell_rows df k)
                      <= distinct_ids
                           (cell_rows df
                              (mkkey (cohort k) (cohort k) 0)))%Q).
Proof.
  remember (fit (init Tm true) sample_events None []) as r eqn:Er.
  destruct r as [self|e]; [|vm_compute in Er; discriminate].
  exists self. split; [reflexivity|].
  apply (unique_users_cells (init Tm true) sample_events None []).
  symmetry. exact Er.
Defined.

(** The share of a cohort that is still active: after
    [apply_unique_users], the cell of 'perc_unique_users' is the unique
    users of the cell over those of the first period of the cohort.  It is
    a number above 0 and at most 1 when the cell has events, it is 1 in
    the first period of a cohort, and NaN when the cell has no event. *)
Theorem retention_at_most_one (self0 : Cohorts) (data : list event)
  (column_input : option string) (how : list string) (self : Cohorts) :
  fit self0 data column_input how = Ok self ->
  exists df self' f pu,
    prepare (self_period self0) (self_simple self0) data = Ok df
    /\ apply_unique_users self column_id = Ok self'
    /\ df_cohorts self' = Some f /\ keys f = grid df
    /\ find_col "perc_unique_users" (cols f) = Some pu
    /\ forall i k,
         nth_error (keys f) i = Some k ->
         (cell_rows df k = [] -> nth_error pu i = Some NaN)
         /\ (cell_rows df k <> [] ->
             exists q,
               nth_error pu i = Some (Fin q)
               /\ (0 < q)%Q /\ (q <= 1)%Q
               /\ (q == distinct_ids (cell_rows df k)
                        / distinct_ids
                            (cell_rows df
                               (mkkey (cohort k) (cohort k) 0)))%Q)
         /\ (period_num k = 0 ->
             exists q, nth_error pu i = Some (Fin q) /\ (q == 1)%Q).
Proof.
  intros H. destruct (fit_fitted _ _ _ _ _ H) as (df & P & W & Fd).
  destruct (fitted_frame df self Fd) as (D & f & F & K & OK).
  exists df. eexists. eexists.
  exists (perc_column (grid df) (unique_users_column df)
            (unique_users_column df)).
  split; [exact P|].
  split; [apply (apply_unique_users_eq self df f D F K)|].
  cbn [df_period_cohort df_cohorts set_df_cohorts keys cols].
  split; [reflexivity|]. split; [reflexivity|].
  cbn [keys cols].
  split; [apply find_col_same|].
  intros i k Hk.
  pose proof (nth_error_In _ _ Hk) as Hin.
  destruct (grid_keys df k Hin) as (Hc & _ & _).
  destruct (grid_first_row df (cohort k) W Hc) as (j0 & _ & Hj0 & _).
  destruct (head_value_grid df (unique_users_column df) (cohort k) j0 W Hc
              (length_unique_users_column df) Hj0) as (v0 & Hv0 & Eh).
  pose proof (diagonal_cell_nonempty df (cohort k) W Hc) as N0.
  pose proof (distinct_ids_pos _ N0) as P0.
  rewrite (unique_users_cell df j0 _ Hj0 N0) in Hv0. injection Hv0 as <-.
  set (n0 := distinct_ids (cell_rows df (mkkey (cohort k) (cohort k) 0)))
    in *.
  assert (Nz : ~ (n0 == 0)%Q).
  { intros E. rewrite E in P0. apply (Qle_not_lt _ _ P0). reflexivity. }
  assert (Hp : forall x,
            nth_error (unique_users_column df) i = Some x ->
            nth_error (perc_column (grid df) (unique_users_column df)
                         (unique_users_column df)) i
            = Some (fdiv x (Fin n0))).
  { intros x Hx.
    rewrite (perc_column_nth (grid df) _ _ i k x
               (length_unique_users_column df)
               (length_unique_users_column df) Hk Hx).
    rewrite Eh. reflexivity. }
  assert (G : cell_rows df k <> [] ->
              exists q,
                nth_error (perc_column (grid df) (unique_users_column df)
                             (unique_users_column df)) i = Some (Fin q)
                /\ (0 < q)%Q /\ (q <= 1)%Q
                /\ (q == distinct_ids (cell_rows df k) / n0)%Q).
  { intros N. rewrite (Hp _ (unique_users_cell df i k Hk N)).
    rewrite (fdiv_fin _ _ Nz). eexists. split; [reflexivity|].
    pose proof (distinct_ids_pos _ N) as P1.
    pose proof (cell_ids_within_cohort df k W) as L. fold n0 in L.
    assert (0 < n0)%Q by (eapply Qlt_le_trans; [|exact P0]; reflexivity).
    split; [|split; [|reflexivity]].
    - apply Qlt_shift_div_l; [assumption|].
      rewrite Qmult_0_l. eapply Qlt_le_trans; [|exact P1]. reflexivity.
    - apply Qle_shift_div_r; [assumption|]. rewrite Qmult_1_l. exact L. }
  split; [|split].
  - intros N. rewrite (Hp _ (unique_users_empty_cell df i k Hk N)).
    reflexivity.
  - exact G.
  - intros Hz.
    assert (Ek : k = mkkey (cohort k) (cohort k) 0)
      by (apply (first_period_row df k W Hin Hz)).
    assert (N : cell_rows df k <> []) by (rewrite Ek; exact N0).
    destruct (G N) as (q & Hq & _ & _ & Eq). exists q. split; [exact Hq|].
    rewrite Eq. rewrite Ek at 1. fold n0. field. exact Nz.
Qed.

Lemma retention_at_most_one_witness :
  exists self,
    fit (init Tm true) sample_events None [] = Ok self
    /\ exists df self' f pu,
         prepare (self_period (init Tm true)) (self_simple (init Tm true))
           sample_events = Ok df
         /\ apply_unique_users self column_id = Ok self'
         /\ df_cohorts self' = Some f /\ keys f = grid df
         /\ find_col "perc_unique_users" (cols f) = Some pu
         /\ forall i k,
              nth_error (keys f) i = Some k ->
              (cell_rows df k = [] -> nth_error pu i = Some NaN)
              /\ (cell_rows df k <> [] ->
                  exists q,
                    nth_error pu i = Some (Fin q)
                    /\ (0 < q)%Q /\ (q <= 1)%Q
                    /\ (q == distinct_ids (cell_rows df k)
                             / distinct_ids
                                 (cell_rows df
                                    (mkkey (cohort k) (cohort k) 0)))%Q)
              /\ (period_num k = 0 ->
                  exists q, nth_error pu i = Some (Fin q) /\ (q == 1)%Q).
Proof.
  remember (fit (init Tm true) sample_events None []) as r eqn:Er.
  destruct r as [self|e]; [|vm_compute in Er; discriminate].
  exists self. split; [reflexivity|].
  apply (retention_at_most_one (init Tm true) sample_events None []).
  symmetry. exact Er.
Defined.

End CohortRetention.

(** * Churn, quantity per user and accumulated quantity *)

Module CohortTotals.
Import OrderFacts ListFacts PrepareFacts GridFacts CohortsFacts CohortsPmf.
Import CohortColumns FitHow CohortCells CohortRetention.

Lemma total_cell df i k :
  nth_error (grid df) i = Some k -> cell_rows df k <> [] ->
  nth_error (total_column df) i = Some (Fin (input_sum (cell_rows df k))).
Proof.
  intros Hk N. rewrite (total_column_nth df i k Hk).
  destruct (cell_rows df k); [congruence|reflexivity].
Qed.

Lemma total_empty_cell df i k :
  nth_error (grid df) i = Some k -> cell_rows df k = [] ->
  nth_error (total_column df) i = Some NaN.
Proof.
  intros Hk N. rewrite (total_column_nth df i k Hk), N. reflexivity.
Qed.

(** The total of the first period of the cohort of a row: the cell that
    the percentage columns divide by. *)
Lemma head_total df k :
  well_prepared df -> In k (grid df) ->
  head_value (grid df) (total_column df) (cohort k)
  = Fin (input_sum (cell_rows df (mkkey (cohort k) (cohort k) 0))).
Proof.
  intros W Hin.
  destruct (grid_keys df k Hin) as (Hc & _ & _).
  destruct (grid_first_row df (cohort k) W Hc) as (j0 & _ & Hj0 & _).
  destruct (head_value_grid df (total_column df) (cohort k) j0 W Hc
              (length_total_column df) Hj0) as (v0 & Hv0 & ->).
  rewrite (total_cell df j0 _ Hj0 (diagonal_cell_nonempty df _ W Hc)) in Hv0.
  congruence.
Qed.

Lemma find_col_2 name1 v1 name2 v2 cs :
  name1 <> name2 ->
  find_col name2 (set_col name1 v1 (set_col name2 v2 cs)) = Some v2.
Proof.
  intros N. rewrite find_col_other by exact N. apply find_col_same.
Qed.

(** After [apply_churn_total] on a fitted object, the cell of
    'churn_total' is the total of the first period of the cohort minus the
    total of the cell, and 'perc_churn_total' is that difference over the
    total of the first period.  In the first period of a cohort the churn
    is 0; in a cell without events both columns hold NaN.  The method
    raises nothing, whether or not 'total' was computed before. *)
Theorem churn_total_cells (self0 : Cohorts) (data : list event)
  (input : option string) (how : list string) (self : Cohorts) :
  fit self0 data input how = Ok self ->
  exists df self' f ch pc,
    prepare (self_period self0) (self_simple self0) data = Ok df
    /\ apply_churn_total self column_input = Ok self'
    /\ df_cohorts self' = Some f /\ keys f = grid df
    /\ find_col "churn_total" (cols f) = Some ch
    /\ find_col "perc_churn_total" (cols f) = Some pc
    /\ forall i k,
         nth_error (keys f) i = Some k ->
         (cell_rows df k = [] ->
          nth_error ch i = Some NaN /\ nth_error pc i = Some NaN)
         /\ (cell_rows df k <> [] ->
             nth_error ch i
             = Some (Fin (input_sum
                            (cell_rows df (mkkey (cohort k) (cohort k) 0))
                          - input_sum (cell_rows df k)))
             /\ nth_error pc i
                = Some (fdiv
                          (Fin (input_sum
                                  (cell_rows df
                                     (mkkey (cohort k) (cohort k) 0))
                                - input_sum (cell_rows df k)))
                          (Fin (input_sum
                                  (cell_rows df
                                     (mkkey (cohort k) (cohort k) 0))))))
         /\ (period_num k = 0 ->
             exists q, nth_error ch i = Some (Fin q) /\ (q == 0)%Q).
Proof.
  intros H. destruct (fit_fitted _ _ _ _ _ H) as (df & P & W & Fd).
  destruct (fitted_frame df self Fd) as (D & f & F & K & OK).
  set (T := total_column df).
  set (CH := derived_column churn (grid df) T).
  exists df. eexists. eexists. exists CH, (perc_column (grid df) CH T).
  split; [exact P|].
  split; [apply (apply_churn_total_eq self df f D F K (proj1 (proj2 OK)))|].
  cbn [df_period_cohort df_cohorts set_df_cohorts].
  split; [reflexivity|]. cbn [keys cols]. split; [reflexivity|].
  split; [apply find_col_2; discriminate|].
  split; [apply find_col_same|].
  intros i k Hk.
  pose proof (nth_error_In _ _ Hk) as Hin.
  destruct (grid_keys df k Hin) as (Hc & _ & _).
  pose proof (diagonal_cell_nonempty df (cohort k) W Hc) as N0.
  assert (Hch : forall x, nth_error T i = Some x ->
            nth_error CH i
            = Some (fsub (Fin (input_sum
                                 (cell_rows df
                                    (mkkey (cohort k) (cohort k) 0)))) x)).
  { intros x Hx. unfold CH.
    rewrite (churn_column_nth (grid df) T i k x (length_total_column df)
               Hk Hx).
    unfold T. rewrite (head_total df k W Hin). reflexivity. }
  assert (Hpc : forall x, nth_error CH i = Some x ->
            nth_error (perc_column (grid df) CH T) i
            = Some (fdiv x (Fin (input_sum
                                   (cell_rows df
                                      (mkkey (cohort k) (cohort k) 0)))))).
  { intros x Hx.
    rewrite (perc_column_nth (grid df) CH T i k x); try assumption.
    - unfold T. rewrite (head_total df k W Hin). reflexivity.
    - apply length_derived_column, length_total_column.
    - apply length_total_column. }
  split; [|split].
  - intros N.
    pose proof (Hch _ (total_empty_cell df i k Hk N)) as E1.
    split; [exact E1|]. rewrite (Hpc _ E1). reflexivity.
  - intros N.
    pose proof (Hch _ (total_cell df i k Hk N)) as E1.
    split; [exact E1|]. rewrite (Hpc _ E1). reflexivity.
  - intros Hz.
    assert (Ek : k = mkkey (cohort k) (cohort k) 0)
      by (apply (first_period_row df k W Hin Hz)).
    assert (N : cell_rows df k <> []) by (rewrite Ek; exact N0).
    pose proof (Hch _ (total_cell df i k Hk N)) as E1.
    assert (E2 : cell_rows df k
                 = cell_rows df (mkkey (cohort k) (cohort k) 0))
      by (f_equal; exact Ek).
    eexists. split; [exact E1|].
    rewrite <- E2. ring.
Qed.

Lemma churn_total_cells_witness :
  exists self,
    fit (init Tm true) sample_events None [] = Ok self
    /\ exists df self' f ch pc,
         prepare (self_period (init Tm true)) (self_simple (init Tm true))
           sample_events = Ok df
         /\ apply_churn_total self column_input = Ok self'
         /\ df_cohorts self' = Some f /\ keys f = grid df
         /\ find_col "churn_total" (cols f) = Some ch
         /\ find_col "perc_churn_total" (cols f) = Some pc
         /\ forall i k,
              nth_error (keys f) i = Some k ->
              (cell_rows df k = [] ->
               nth_error ch i = Some NaN /\ nth_error pc i = Some NaN)
              /\ (cell_rows df k <> [] ->
                  nth_error ch i
                  = Some (Fin (input_sum
                                 (cell_rows df
                                    (mkkey (cohort k) (cohort k) 0))
                               - input_sum (cell_rows df k)))
                  /\ nth_error pc i
                     = Some (fdiv
                               (Fin (input_sum
                                       (cell_rows df
                                          (mkkey (cohort k) (cohort k) 0))
                                     - input_sum (cell_rows df k)))
                               (Fin (input_sum
                                       (cell_rows df
                                          (mkkey (cohort k) (cohort k)
                                             0))))))
              /\ (period_num k = 0 ->
                  exists q, nth_error ch i = Some (Fin q) /\ (q == 0)%Q).
Proof.
  remember (fit (init Tm true) sample_events None []) as r eqn:Er.
  destruct r as [self|e]; [|vm_compute in Er; discriminate].
  exists self. split; [reflexivity|].
  apply (churn_total_cells (init Tm true) sample_events None []).
  symmetry. exact Er.
Defined.


Lemma distinct_ids_nonzero rows : rows <> [] -> ~ (distinct_ids rows == 0)%Q.
Proof.
  intros N E. pose proof (distinct_ids_pos rows N) as P.
  rewrite E in P. apply (Qle_not_lt _ _ P). reflexivity.
Qed.

Lemma per_user_nth df i k :
  nth_error (grid df) i = Some k ->
  nth_error (zip_with fdiv (total_column df) (unique_users_column df)) i
  = Some (match cell_rows df k with
          | [] => NaN
          | rows => Fin (input_sum rows / distinct_ids rows)
          end).
Proof.
  intros Hk.
  rewrite (nth_error_zip_with fdiv _ _ i _ _ (total_column_nth df i k Hk)
             (unique_users_column_nth df i k Hk)).
  destruct (cell_rows df k) as [|r rows] eqn:E; [reflexivity|].
  rewrite fdiv_fin; [reflexivity|].
  apply distinct_ids_nonzero. discriminate.
Qed.

(** After [apply_per_user] on a fitted object, the cell of 'per_user' is
    the total of the cell over its number of distinct ids, a finite number
    whenever the cell has events (the divisor is at least 1) and NaN when
    it has none; 'perc_per_user' is that value over the one of the first
    period of the cohort.  The method raises nothing, whether or not
    'total' and 'unique_users' were computed before. *)
Theorem per_user_cells (self0 : Cohorts) (data : list event)
  (input : option string) (how : list string) (self : Cohorts) :
  fit self0 data input how = Ok self ->
  exists df self' f pu ppu,
    prepare (self_period self0) (self_simple self0) data = Ok df
    /\ apply_per_user self column_input column_id = Ok self'
    /\ df_cohorts self' = Some f /\ keys f = grid df
    /\ find_col "per_user" (cols f) = Some pu
    /\ find_col "perc_per_user" (cols f) = Some ppu
    /\ forall i k,
         nth_error (keys f) i = Some k ->
         (cell_rows df k = [] ->
          nth_error pu i = Some NaN /\ nth_error ppu i = Some NaN)
         /\ (cell_rows df k <> [] ->
             nth_error pu i
             = Some (Fin (input_sum (cell_rows df k)
                          / distinct_ids (cell_rows df k)))
             /\ nth_error ppu i
                = Some (fdiv
                          (Fin (input_sum (cell_rows df k)
                                / distinct_ids (cell_rows df k)))
                          (Fin (input_sum
                                  (cell_rows df
                                     (mkkey (cohort k) (cohort k) 0))
                                / distinct_ids
                                    (cell_rows df
                                       (mkkey (cohort k) (cohort k) 0)))))).
Proof.
  intros H. destruct (fit_fitted _ _ _ _ _ H) as (df & P & W & Fd).
  destruct (fitted_frame df self Fd) as (D & f & F & K & OK).
  set (PU := zip_with fdiv (total_column df) (unique_users_column df)).
  exists df. eexists. eexists. exists PU, (perc_column (grid df) PU PU).
  split; [exact P|].
  split; [apply (apply_per_user_eq self df f D F K (proj1 (proj2 OK))
                   (proj2 (proj2 OK)))|].
  cbn [df_period_cohort df_cohorts set_df_cohorts].
  split; [reflexivity|]. cbn [keys cols]. split; [reflexivity|].
  split; [apply find_col_2; discriminate|].
  split; [apply find_col_same|].
  intros i k Hk.
  pose proof (nth_error_In _ _ Hk) as Hin.
  destruct (grid_keys df k Hin) as (Hc & _ & _).
  pose proof (diagonal_cell_nonempty df (cohort k) W Hc) as N0.
  destruct (grid_first_row df (cohort k) W Hc) as (j0 & _ & Hj0 & _).
  assert (LPU : List.length PU = List.length (grid df))
    by apply length_per_user.
  destruct (head_value_grid df PU (cohort k) j0 W Hc LPU Hj0)
    as (v0 & Hv0 & Eh).
  unfold PU in Hv0. rewrite (per_user_nth df j0 _ Hj0) in Hv0.
  assert (Ev0 : v0 = Fin (input_sum
                            (cell_rows df (mkkey (cohort k) (cohort k) 0))
                          / distinct_ids
                              (cell_rows df
                                 (mkkey (cohort k) (cohort k) 0)))).
  { destruct (cell_rows df (mkkey (cohort k) (cohort k) 0));
      [congruence|]. congruence. }
  assert (Hp : forall x, nth_error PU i = Some x ->
            nth_error (perc_column (grid df) PU PU) i = Some (fdiv x v0)).
  { intros x Hx.
    rewrite (perc_column_nth (grid df) PU PU i k x LPU LPU Hk Hx).
    rewrite Eh. reflexivity. }
  pose proof (per_user_nth df i k Hk) as Hv. fold PU in Hv.
  split.
  - intros N. rewrite N in Hv. split; [exact Hv|].
    rewrite (Hp _ Hv). reflexivity.
  - intros N.
    assert (Hv' : nth_error PU i
                  = Some (Fin (input_sum (cell_rows df k)
                               / distinct_ids (cell_rows df k)))).
    { rewrite Hv. destruct (cell_rows df k); [congruence|reflexivity]. }
    split; [exact Hv'|]. rewrite (Hp _ Hv'), Ev0. reflexivity.
Qed.

Lemma per_user_cells_witness :
  exists self,
    fit (init Tm true) sample_events None [] = Ok self
    /\ exists df self' f pu ppu,
         prepare (self_period (init Tm true)) (self_simple (init Tm true))
           sample_events = Ok df
         /\ apply_per_user self column_input column_id = Ok self'
         /\ df_cohorts self' = Some f /\ keys f = grid df
         /\ find_col "per_user" (cols f) = Some pu
         /\ find_col "perc_per_user" (cols f) = Some ppu
         /\ forall i k,
              nth_error (keys f) i = Some k ->
              (cell_rows df k = [] ->
               nth_error pu i = Some NaN /\ nth_error ppu i = Some NaN)
              /\ (cell_rows df k <> [] ->
                  nth_error pu i
                  = Some (Fin (input_sum (cell_rows df k)
                               / distinct_ids (cell_rows df k)))
                  /\ nth_error ppu i
                     = Some (fdiv
                               (Fin (input_sum (cell_rows df k)
                                     / distinct_ids (cell_rows df k)))
                               (Fin (input_sum
                                       (cell_rows df
                                          (mkkey (cohort k) (cohort k) 0))
                                     / distinct_ids
                                         (cell_rows df
                                            (mkkey (cohort k) (cohort k)
                                               0)))))).
Proof.
  remember (fit (init Tm true) sample_events None []) as r eqn:Er.
  destruct r as [self|e]; [|vm_compute in Er; discriminate].
  exists self. split; [reflexivity|].
  apply (per_user_cells (init Tm true) sample_events None []).
  symmetry. exact Er.
Defined.

End CohortTotals.

(** * The accumulated quantity of a cohort *)

Module CohortAccum.
Import OrderFacts ListFacts PrepareFacts GridFacts CohortsFacts CohortsPmf.
Import CohortColumns FitHow CohortCells CohortRetention CohortTotals.

(** The running sum of a column of numbers and missing cells. *)
Lemma cumsum_from_nth l :
  forall acc n x,
    (forall y, In y l -> y = NaN \/ is_fin y = true) ->
    nth_error l n = Some x ->
    (x = NaN -> nth_error (cumsum_from (Fin acc) l) n = Some NaN)
    /\ (is_fin x = true ->
        exists s,
          nth_error (cumsum_from (Fin acc) l) n = Some (Fin s)
          /\ (s == acc + fin_sum (firstn (S n) l))%Q).
Proof.
  induction l as [|y l IH]; intros acc n x Hl Hn;
    [destruct n; discriminate|].
  assert (Hl' : forall z, In z l -> z = NaN \/ is_fin z = true)
    by (intros z Hz; apply Hl; right; exact Hz).
  destruct (Hl y (or_introl eq_refl)) as [->|Hy].
  - cbn [cumsum_from]. destruct n as [|n]; cbn in Hn.
    + injection Hn as <-. split; [reflexivity|discriminate].
    + destruct (IH acc n x Hl' Hn) as [I1 I2]. split; [exact I1|].
      intros Hx. destruct (I2 Hx) as (s & Hs & Es).
      exists s. split; [exact Hs|]. rewrite Es. reflexivity.
  - destruct y as [q| | |]; try discriminate.
    cbn [cumsum_from fadd]. destruct n as [|n]; cbn in Hn.
    + injection Hn as <-. split; [discriminate|]. intros _.
      exists (acc + q)%Q. split; [reflexivity|]. cbn. ring.
    + destruct (IH (acc + q)%Q n x Hl' Hn) as [I1 I2]. split; [exact I1|].
      intros Hx. destruct (I2 Hx) as (s & Hs & Es).
      exists s. split; [exact Hs|]. rewrite Es.
      change (firstn (S (S n)) (Fin q :: l)) with (Fin q :: firstn (S n) l).
      cbn [fin_sum]. ring.
Qed.

Lemma nth_error_ext {A} (l l' : list A) :
  (forall i, nth_error l i = nth_error l' i) -> l = l'.
Proof.
  revert l'. induction l as [|x l IH]; intros [|y l'] H.
  - reflexivity.
  - specialize (H O). discriminate.
  - specialize (H O). discriminate.
  - pose proof (H O) as H0. cbn in H0. injection H0 as ->. f_equal.
    apply IH. intros i. exact (H (S i)).
Qed.

Lemma total_column_map df :
  total_column df = map (cell_total df) (grid df).
Proof.
  apply nth_error_ext. intros i. rewrite nth_error_map.
  destruct (nth_error (grid df) i) as [k|] eqn:Hk.
  - rewrite (total_column_nth df i k Hk). reflexivity.
  - apply nth_error_None. rewrite length_total_column.
    apply nth_error_None. exact Hk.
Qed.

Lemma combine_map {A B} (h : A -> B) (l : list A) :
  combine l (map h l) = map (fun a => (a, h a)) l.
Proof. induction l as [|a l IH]; cbn; [reflexivity|]. rewrite IH. reflexivity. Qed.

(** The cells of 'total' of one cohort, in the order of its rows. *)
Lemma cohort_totals df c :
  map snd (filter (fun x : cell_key * fval => date_eqb (cohort (fst x)) c)
             (combine (grid df) (total_column df)))
  = map (cell_total df) (rows_of_cohort c (grid df)).
Proof.
  rewrite total_column_map, combine_map.
  rewrite (filter_map_comm (fun a => (a, cell_total df a))
             (fun x => date_eqb (cohort (fst x)) c)).
  rewrite map_map. reflexivity.
Qed.

Lemma cell_total_cases df k :
  cell_total df k = NaN \/ is_fin (cell_total df k) = true.
Proof. unfold cell_total. destruct (cell_rows df k); auto. Qed.

Lemma fin_sum_totals df ks :
  (fin_sum (map (cell_total df) ks)
   == qsum (fun k => input_sum (cell_rows df k)) ks)%Q.
Proof.
  induction ks as [|k ks IH]; cbn; [reflexivity|].
  unfold cell_total at 1.
  destruct (cell_rows df k) as [|r rows]; cbn [fin_sum].
  - rewrite IH. unfold input_sum. cbn. ring.
  - rewrite IH. reflexivity.
Qed.

Lemma sorted_after {A} (R : A -> A -> Prop) l :
  StronglySorted R l ->
  forall i a b, nth_error l i = Some b -> In a (skipn (S i) l) -> R b a.
Proof.
  induction 1 as [|x l Hs IH Hall]; intros [|i] a b Hb Ha; cbn in *;
    try discriminate; try contradiction.
  - injection Hb as <-. rewrite Forall_forall in Hall. apply Hall. exact Ha.
  - eapply IH; eauto.
Qed.

(** In a list of dates in ascending order, the dates up to the one at
    position [n] are those of the first [n + 1] positions. *)
Lemma sorted_prefix l n p x :
  StronglySorted date_lt l -> nth_error l n = Some p -> In x l ->
  date_leb x p = true -> In x (firstn (S n) l).
Proof.
  intros Hs Hn Hx L.
  rewrite <- (firstn_skipn (S n) l) in Hx. apply in_app_or in Hx.
  destruct Hx as [Hx|Hx]; [exact Hx|].
  exfalso. apply (date_lt_not_leb p x); [|exact L].
  exact (sorted_after date_lt l Hs n x p Hn Hx).
Qed.

Lemma prefix_before l n p x :
  StronglySorted date_lt l -> nth_error l n = Some p ->
  In x (firstn (S n) l) -> date_leb x p = true.
Proof.
  intros Hs Hn Hx.
  assert (E : firstn (S n) l = firstn n l ++ [p]).
  { clear Hs Hx. revert n Hn. induction l as [|y l IH]; intros [|n] Hn;
      cbn in *; try discriminate.
    - injection Hn as ->. reflexivity.
    - rewrite (IH n Hn). reflexivity. }
  rewrite E in Hx. apply in_app_or in Hx. destruct Hx as [Hx|[<-|[]]].
  - apply date_leb_spec. right.
    exact (sorted_before date_lt l Hs n x p Hn Hx).
  - apply date_leb_refl.
Qed.

Lemma NoDup_firstn {A} (l : list A) n : NoDup l -> NoDup (firstn n l).
Proof.
  intros N. rewrite <- (firstn_skipn n l) in N.
  eapply NoDup_app_remove_r. exact N.
Qed.

(** The rows of df in the cells of a cohort up to a period. *)
Lemma cells_until df c p ks :
  well_prepared df -> NoDup ks ->
  (forall a, In a ks -> date_leb a p = true) ->
  (forall r, In r (cohort_rows_until df c p) -> In (r_period r) ks) ->
  (qsum (fun a => input_sum (cell_rows df (mkkey c a 0))) ks
   == input_sum (cohort_rows_until df c p))%Q.
Proof.
  intros W N Hle Hin. unfold input_sum.
  rewrite <- (GrowthReconciliation.qsum_partition date_eqb r_period r_input
                ks (cohort_rows_until df c p) date_eqb_eq N Hin).
  apply GrowthReconciliation.qsum_ext. intros a Ha.
  assert (E : filter (fun r => date_eqb (r_period r) a)
                (cohort_rows_until df c p)
              = cell_rows df (mkkey c a 0)).
  { unfold cohort_rows_until, cell_rows.
    rewrite GrowthReconciliation.filter_and. apply filter_ext. intros r.
    unfold row_key2, key2. cbn [cohort period].
    destruct (date_eqb (r_cohort r) c) eqn:E1; cbn [andb].
    - apply date_eqb_eq in E1. rewrite E1.
      destruct (date_eqb (r_period r) a) eqn:E2.
      + apply date_eqb_eq in E2. rewrite E2, (Hle a Ha). cbn.
        symmetry. apply (cmp_eqb_true cmp2 cmp2_eq). reflexivity.
      + rewrite andb_false_r. symmetry.
        destruct (cmp_eqb cmp2 (c, r_period r) (c, a)) eqn:E3;
          [|reflexivity].
        apply (cmp_eqb_true cmp2 cmp2_eq) in E3. injection E3 as E3.
        rewrite E3 in E2.
        assert (date_eqb a a = true) by (apply date_eqb_eq; reflexivity).
        congruence.
    - symmetry.
      destruct (cmp_eqb cmp2 (r_cohort r, r_period r) (c, a)) eqn:E3;
        [|reflexivity].
      apply (cmp_eqb_true cmp2 cmp2_eq) in E3. injection E3 as E3 _.
      rewrite E3 in E1.
      assert (date_eqb c c = true) by (apply date_eqb_eq; reflexivity).
      congruence. }
  rewrite E. reflexivity.
Qed.


Lemma cell_rows_key df k k' :
  key2 k = key2 k' -> cell_rows df k = cell_rows df k'.
Proof. unfold cell_rows. intros ->. reflexivity. Qed.

(** The cell of 'accum': the running sum of the totals of the cohort up
    to the row. *)
Lemma accum_cell df i k :
  well_prepared df -> nth_error (grid df) i = Some k ->
  (cell_rows df k = [] ->
   nth_error (derived_column accum (grid df) (total_column df)) i
   = Some NaN)
  /\ (cell_rows df k <> [] ->
      exists s,
        nth_error (derived_column accum (grid df) (total_column df)) i
        = Some (Fin s)
        /\ (s == input_sum
                   (cohort_rows_until df (cohort k) (period k)))%Q).
Proof.
  intros W Hk.
  pose proof (nth_error_In _ _ Hk) as Hin.
  destruct (grid_keys df k Hin) as (Hc & Hp & Hcp).
  set (c := cohort k) in *. set (p := period k) in *.
  set (R := rows_of_cohort c (grid df)).
  assert (Hx : nth_error (total_column df) i = Some (cell_total df k))
    by (apply total_column_nth; exact Hk).
  destruct (cohort_apply_nth (grid df) (total_column df)
              (fun g => accum (map snd g)) i k (cell_total df k) Hk Hx)
    as (n & Hn & Ha & _).
  fold c in Hn, Ha.
  unfold derived_column. rewrite Ha. clear Ha.
  assert (HR : nth_error R n = Some k).
  { unfold R, rows_of_cohort.
    rewrite <- (filter_combine_fst (fun k => date_eqb (cohort k) c)
                  (grid df) (total_column df))
      by (rewrite length_total_column; reflexivity).
    rewrite nth_error_map. cbv beta in Hn. rewrite Hn. reflexivity. }
  cbv beta. rewrite (cohort_totals df c). fold R.
  assert (Hv : nth_error (map (cell_total df) R) n = Some (cell_total df k)).
  { rewrite nth_error_map, HR. reflexivity. }
  destruct (cumsum_from_nth (map (cell_total df) R) 0 n (cell_total df k))
    as [C1 C2].
  { intros y Hy. apply in_map_iff in Hy. destruct Hy as (k' & <- & _).
    apply cell_total_cases. }
  { exact Hv. }
  unfold accum. split.
  - intros N. f_equal. apply nth_error_nth. apply C1.
    unfold cell_total. rewrite N. reflexivity.
  - intros N.
    destruct C2 as (s & Hs & Es).
    { unfold cell_total. destruct (cell_rows df k); [congruence|reflexivity]. }
    exists s. split; [f_equal; apply nth_error_nth; exact Hs|].
    rewrite Es, Qplus_0_l. rewrite firstn_map, fin_sum_totals.
    destruct (grid_spec df)
      as (cs & ps & Hcs & Hps & Scs & Sps & Hg & Hper & Hnum).
    assert (Hcs' : In c cs) by (apply Hcs; exact Hc).
    specialize (Hper c Hcs'). fold R in Hper.
    set (L := filter (date_leb c) ps) in *.
    assert (SL : StronglySorted date_lt L)
      by (apply sorted_filter; exact Sps).
    assert (HL : nth_error L n = Some p).
    { rewrite <- Hper, nth_error_map, HR. reflexivity. }
    assert (Hcoh : forall k', In k' (firstn (S n) R) -> cohort k' = c).
    { intros k' Hk'. apply In_firstn in Hk'. unfold R in Hk'.
      apply filter_In in Hk'. apply date_eqb_eq. tauto. }
    rewrite (GrowthReconciliation.qsum_ext
               (fun k' => input_sum (cell_rows df k'))
               (fun k' => input_sum (cell_rows df (mkkey c (period k') 0)))).
    2: { intros k' Hk'. rewrite (cell_rows_key df k' (mkkey c (period k') 0)).
         - reflexivity.
         - unfold key2. cbn. rewrite (Hcoh k' Hk'). reflexivity. }
    rewrite <- (GrowthReconciliation.qsum_map period
                  (fun a => input_sum (cell_rows df (mkkey c a 0)))).
    rewrite <- firstn_map. rewrite Hper.
    apply cells_until.
    + exact W.
    + apply NoDup_firstn. apply sorted_dates_NoDup. exact SL.
    + intros a Ha. eapply prefix_before; eauto.
    + intros r Hr. unfold cohort_rows_until in Hr.
      apply filter_In in Hr. destruct Hr as (Hr & Hb).
      apply andb_true_iff in Hb. destruct Hb as (Eb & Lb).
      apply date_eqb_eq in Eb.
      apply (sorted_prefix L n p); try assumption.
      apply filter_In. split.
      * apply Hps. exists r. auto.
      * rewrite <- Eb. apply (cohort_least df W r r); auto.
Qed.

(** After [apply_accum] on a fitted object, the cell of 'accum' of a cell
    with events is the quantity of the whole cohort from its first period
    up to the period of the cell (the running sum skips the cells without
    events), and the cell of a cell without events is NaN, not the sum so
    far; 'perc_accum' is that sum over the total of the first period.  The
    method raises nothing, whether or not 'total' was computed before. *)
Theorem accum_cells (self0 : Cohorts) (data : list event)
  (input : option string) (how : list string) (self : Cohorts) :
  fit self0 data input how = Ok self ->
  exists df self' f ac pa,
    prepare (self_period self0) (self_simple self0) data = Ok df
    /\ apply_accum self column_input = Ok self'
    /\ df_cohorts self' = Some f /\ keys f = grid df
    /\ find_col "accum" (cols f) = Some ac
    /\ find_col "perc_accum" (cols f) = Some pa
    /\ forall i k,
         nth_error (keys f) i = Some k ->
         (cell_rows df k = [] ->
          nth_error ac i = Some NaN /\ nth_error pa i = Some NaN)
         /\ (cell_rows df k <> [] ->
             exists s,
               nth_error ac i = Some (Fin s)
               /\ (s == input_sum
                          (cohort_rows_until df (cohort k) (period k)))%Q
               /\ nth_error pa i
                  = Some (fdiv (Fin s)
                            (Fin (input_sum
                                    (cell_rows df
                                       (mkkey (cohort k) (cohort k) 0)))))).
Proof.
  intros H. destruct (fit_fitted _ _ _ _ _ H) as (df & P & W & Fd).
  destruct (fitted_frame df self Fd) as (D & f & F & K & OK).
  set (T := total_column df).
  set (AC := derived_column accum (grid df) T).
  exists df. eexists. eexists. exists AC, (perc_column (grid df) AC T).
  split; [exact P|].
  split; [apply (apply_accum_eq self df f D F K (proj1 (proj2 OK)))|].
  cbn [df_period_cohort df_cohorts set_df_cohorts].
  split; [reflexivity|]. cbn [keys cols]. split; [reflexivity|].
  split; [apply find_col_2; discriminate|].
  split; [apply find_col_same|].
  intros i k Hk.
  pose proof (nth_error_In _ _ Hk) as Hin.
  destruct (accum_cell df i k W Hk) as [A1 A2]. fold T in A1, A2.
  fold AC in A1, A2.
  assert (Hpc : forall x, nth_error AC i = Some x ->
            nth_error (perc_column (grid df) AC T) i
            = Some (fdiv x (Fin (input_sum
                                   (cell_rows df
                                      (mkkey (cohort k) (cohort k) 0)))))).
  { intros x Hx.
    rewrite (perc_column_nth (grid df) AC T i k x); try assumption.
    - unfold T. rewrite (head_total df k W Hin). reflexivity.
    - apply length_derived_column, length_total_column.
    - apply length_total_column. }
  split.
  - intros N. split; [exact (A1 N)|]. rewrite (Hpc _ (A1 N)). reflexivity.
  - intros N. destruct (A2 N) as (s & Hs & Es). exists s.
    split; [exact Hs|]. split; [exact Es|]. apply Hpc. exact Hs.
Qed.

Lemma accum_cells_witness :
  exists self,
    fit (init Tm true) sample_events None [] = Ok self
    /\ exists df self' f ac pa,
         prepare (self_period (init Tm true)) (self_simple (init Tm true))
           sample_events = Ok df
         /\ apply_accum self column_input = Ok self'
         /\ df_cohorts self' = Some f /\ keys f = grid df
         /\ find_col "accum" (cols f) = Some ac
         /\ find_col "perc_accum" (cols f) = Some pa
         /\ forall i k,
              nth_error (keys f) i = Some k ->
              (cell_rows df k = [] ->
               nth_error ac i = Some NaN /\ nth_error pa i = Some NaN)
              /\ (cell_rows df k <> [] ->
                  exists s,
                    nth_error ac i = Some (Fin s)
                    /\ (s == input_sum
                               (cohort_rows_until df (cohort k)
                                  (period k)))%Q
                    /\ nth_error pa i
                       = Some (fdiv (Fin s)
                                 (Fin (input_sum
                                         (cell_rows df
                                            (mkkey (cohort k) (cohort k)
                                               0)))))).
Proof.
  remember (fit (init Tm true) sample_events None []) as r eqn:Er.
  destruct r as [self|e]; [|vm_compute in Er; discriminate].
  exists self. split; [reflexivity|].
  apply (accum_cells (init Tm true) sample_events None []).
  symmetry. exact Er.
Defined.

End CohortAccum.

(** * The churn of unique users *)

Module CohortChurnUnique.
Import OrderFacts ListFacts PrepareFacts GridFacts CohortsFacts CohortsPmf.
Import CohortColumns FitHow CohortCells CohortRetention CohortTotals.

Lemma head_unique_users df k :
  well_prepared df -> In k (grid df) ->
  head_value (grid df) (unique_users_column df) (cohort k)
  = Fin (distinct_ids (cell_rows df (mkkey (cohort k) (cohort k) 0))).
Proof.
  intros W Hin.
  destruct (grid_keys df k Hin) as (Hc & _ & _).
  destruct (grid_first_row df (cohort k) W Hc) as (j0 & _ & Hj0 & _).
  destruct (head_value_grid df (unique_users_column df) (cohort k) j0 W Hc
              (length_unique_users_column df) Hj0) as (v0 & Hv0 & ->).
  rewrite (unique_users_cell df j0 _ Hj0
             (diagonal_cell_nonempty df _ W Hc)) in Hv0.
  congruence.
Qed.

(** Once 'unique_users' is a column of a fitted object,
    [apply_churn_unique_users] raises nothing.  The cell of 'churn_unique'
    is the unique users of the first period of the cohort minus those of
    the cell, which is never negative; 'perc_churn_unique' is that loss
    over the unique users of the first period, a number from 0 up to, but
    not reaching, 1.  In a cell without events both hold NaN. *)
Theorem churn_unique_users_cells (self0 : Cohorts) (data : list event)
  (input : option string) (how : list string) (self : Cohorts)
  (f0 : frame) :
  fit self0 data input how = Ok self ->
  df_cohorts self = Some f0 -> has_col "unique_users" (cols f0) = true ->
  exists df self' f cu pcu,
    prepare (self_period self0) (self_simple self0) data = Ok df
    /\ apply_churn_unique_users self column_id = Ok self'
    /\ df_cohorts self' = Some f /\ keys f = grid df
    /\ find_col "churn_unique" (cols f) = Some cu
    /\ find_col "perc_churn_unique" (cols f) = Some pcu
    /\ forall i k,
         nth_error (keys f) i = Some k ->
         (cell_rows df k = [] ->
          nth_error cu i = Some NaN /\ nth_error pcu i = Some NaN)
         /\ (cell_rows df k <> [] ->
             exists q r,
               nth_error cu i = Some (Fin q)
               /\ (q == distinct_ids
                          (cell_rows df (mkkey (cohort k) (cohort k) 0))
                        - distinct_ids (cell_rows df k))%Q
               /\ (0 <= q)%Q
               /\ nth_error pcu i = Some (Fin r)
               /\ (r == q / distinct_ids
                             (cell_rows df
                                (mkkey (cohort k) (cohort k) 0)))%Q
               /\ (0 <= r)%Q /\ (r < 1)%Q).
Proof.
  intros H F0 HU. destruct (fit_fitted _ _ _ _ _ H) as (df & P & W & Fd).
  destruct (fitted_frame df self Fd) as (D & f & F & K & OK).
  assert (f0 = f) by congruence. subst f0.
  assert (FU : find_col "unique_users" (cols f)
               = Some (unique_users_column df)).
  { unfold has_col in HU.
    destruct (find_col "unique_users" (cols f)) as [u|] eqn:E;
      [|discriminate].
    f_equal. apply (proj2 (proj2 OK)). exact E. }
  set (U := unique_users_column df) in *.
  set (CU := derived_column churn (grid df) U).
  exists df. eexists. eexists. exists CU, (perc_column (grid df) CU U).
  split; [exact P|].
  split; [apply (apply_churn_unique_users_eq self df f D F K FU)|].
  cbn [df_period_cohort df_cohorts set_df_cohorts].
  split; [reflexivity|]. cbn [keys cols]. split; [reflexivity|].
  split; [apply find_col_2; discriminate|].
  split; [apply find_col_same|].
  intros i k Hk.
  pose proof (nth_error_In _ _ Hk) as Hin.
  destruct (grid_keys df k Hin) as (Hc & _ & _).
  pose proof (diagonal_cell_nonempty df (cohort k) W Hc) as N0.
  set (n0 := distinct_ids (cell_rows df (mkkey (cohort k) (cohort k) 0))).
  assert (Hcu : forall x, nth_error U i = Some x ->
                nth_error CU i = Some (fsub (Fin n0) x)).
  { intros x Hx. unfold CU.
    rewrite (churn_column_nth (grid df) U i k x
               (length_unique_users_column df) Hk Hx).
    unfold U. rewrite (head_unique_users df k W Hin). reflexivity. }
  assert (Hpc : forall x, nth_error CU i = Some x ->
                nth_error (perc_column (grid df) CU U) i
                = Some (fdiv x (Fin n0))).
  { intros x Hx.
    rewrite (perc_column_nth (grid df) CU U i k x); try assumption.
    - unfold U. rewrite (head_unique_users df k W Hin). reflexivity.
    - apply length_derived_column, length_unique_users_column.
    - apply length_unique_users_column. }
  split.
  - intros N.
    pose proof (Hcu _ (unique_users_empty_cell df i k Hk N)) as E1.
    split; [exact E1|]. rewrite (Hpc _ E1). reflexivity.
  - intros N.
    pose proof (Hcu _ (unique_users_cell df i k Hk N)) as E1.
    pose proof (distinct_ids_pos _ N) as P1.
    pose proof (distinct_ids_pos _ N0) as P0. fold n0 in P0.
    pose proof (cell_ids_within_cohort df k W) as L. fold n0 in L.
    pose proof (distinct_ids_nonzero _ N0) as Nz. fold n0 in Nz.
    assert (Hpos : (0 < n0)%Q)
      by (eapply Qlt_le_trans; [|exact P0]; reflexivity).
    set (n := distinct_ids (cell_rows df k)) in *.
    exists (n0 - n)%Q, ((n0 - n) / n0)%Q.
    split; [exact E1|]. split; [reflexivity|].
    assert (L0 : (0 <= n0 - n)%Q)
      by (unfold Qminus; rewrite <- Qle_minus_iff; exact L).
    split; [exact L0|].
    split.
    { rewrite (Hpc _ E1). cbn [fsub fneg fadd].
      rewrite (fdiv_fin _ _ Nz). reflexivity. }
    split; [reflexivity|]. split.
    + apply Qle_shift_div_l; [exact Hpos|]. rewrite Qmult_0_l.
      exact L0.
    + apply Qlt_shift_div_r; [exact Hpos|]. rewrite Qmult_1_l.
      apply Qplus_lt_l with (z := n). ring_simplify.
      apply Qplus_lt_r with (z := (- n0)%Q). ring_simplify.
      eapply Qlt_le_trans; [|exact P1]. reflexivity.
Qed.

Lemma churn_unique_users_cells_witness :
  exists self f0,
    fit (init Tm true) sample_events None ["unique_users"%string] = Ok self
    /\ df_cohorts self = Some f0
    /\ has_col "unique_users" (cols f0) = true
    /\ exists df self' f cu pcu,
         prepare (self_period (init Tm true)) (self_simple (init Tm true))
           sample_events = Ok df
         /\ apply_churn_unique_users self column_id = Ok self'
         /\ df_cohorts self' = Some f /\ keys f = grid df
         /\ find_col "churn_unique" (cols f) = Some cu
         /\ find_col "perc_churn_unique" (cols f) = Some pcu
         /\ forall i k,
              nth_error (keys f) i = Some k ->
              (cell_rows df k = [] ->
               nth_error cu i = Some NaN /\ nth_error pcu i = Some NaN)
              /\ (cell_rows df k <> [] ->
                  exists q r,
                    nth_error cu i = Some (Fin q)
                    /\ (q == distinct_ids
                               (cell_rows df
                                  (mkkey (cohort k) (cohort k) 0))
                             - distinct_ids (cell_rows df k))%Q
                    /\ (0 <= q)%Q
                    /\ nth_error pcu i = Some (Fin r)
                    /\ (r == q / distinct_ids
                                  (cell_rows df
                                     (mkkey (cohort k) (cohort k) 0)))%Q
                    /\ (0 <= r)%Q /\ (r < 1)%Q).
Proof.
  remember (fit (init Tm true) sample_events None ["unique_users"%string])
    as r eqn:Er.
  destruct r as [self|e]; [|vm_compute in Er; discriminate].
  remember (df_cohorts self) as o eqn:Eo.
  destruct o as [f0|].
  2: { exfalso. vm_compute in Er. injection Er as ->. discriminate. }
  exists self, f0. split; [reflexivity|]. split; [symmetry; exact Eo|].
  assert (HU : has_col "unique_users" (cols f0) = true).
  { vm_compute in Er. injection Er as ->. cbn in Eo. injection Eo as ->.
    reflexivity. }
  split; [exact HU|].
  exact (churn_unique_users_cells (init Tm true) sample_events None
           ["unique_users"%string] self f0 (eq_sym Er) (eq_sym Eo) HU).
Defined.

End CohortChurnUnique.

(** * The history of an id in df_revenue *)

Module GrowthHistory.
Import OrderFacts ListFacts PrepareFacts GridFacts GrowthRows GrowthColumns
       GrowthRates GrowthReconciliation GrowthAccountingPmf.

Section Previous.
Context {K A : Type} (eqb : K -> K -> bool) (key : A -> K).
Hypothesis eqb_eq : forall a b, eqb a b = true <-> a = b.

(** Group-by-apply of [diff]: a row that is not the first of its group gets
    the difference with the row just before it in the group. *)
Lemma groupby_diff_previous {B} (val : A -> B) (sub : B -> B -> B) rows i r :
  nth_error rows i = Some r ->
  nth_error (filter (fun x => eqb (key x) (key r)) rows)
            (rank_of eqb (map key rows) i (key r)) = Some r
  /\ nth_error
       (groupby_apply eqb key (fun g => diff sub (map val g)) None rows) i
     = Some (match rank_of eqb (map key rows) i (key r) with
             | O => None
             | S m =>
                 option_map (fun r' => sub (val r) (val r'))
                   (nth_error (filter (fun x => eqb (key x) (key r)) rows) m)
             end)
  /\ forall m, rank_of eqb (map key rows) i (key r) = S m ->
               exists r',
                 nth_error (filter (fun x => eqb (key x) (key r)) rows) m
                 = Some r'.
Proof.
  intros H. rewrite (nth_error_groupby_apply eqb key _ None rows i r H).
  set (G := filter (fun x => eqb (key x) (key r)) rows).
  set (n := rank_of eqb (map key rows) i (key r)).
  assert (Hn : nth_error G n = Some r).
  { unfold n, rank_of, G. rewrite firstn_map.
    rewrite <- (length_filter_map key (fun x => eqb x (key r))).
    apply (nth_error_filter_rank (fun x => eqb (key x) (key r))).
    - exact H.
    - apply eqb_eq. reflexivity. }
  split; [exact Hn|].
  assert (Hv : nth_error (map val G) n = Some (val r)).
  { rewrite nth_error_map, Hn. reflexivity. }
  pose proof (nth_error_diff sub (map val G) n (val r) Hv) as D.
  rewrite (nth_error_nth _ _ None D).
  assert (Hprev : forall m, n = S m -> exists r', nth_error G m = Some r').
  { intros m En.
    assert (Hm : (m < List.length G)%nat).
    { assert (X : nth_error G n <> None) by congruence.
      apply nth_error_Some in X. lia. }
    destruct (nth_error G m) as [r'|] eqn:Em;
      [eauto|apply nth_error_None in Em; lia]. }
  split; [|exact Hprev].
  destruct n as [|m] eqn:En; [reflexivity|].
  destruct (Hprev m eq_refl) as (r' & Em). rewrite Em. cbn [option_map].
  do 3 f_equal.
  assert (X : nth_error (map val G) m = Some (val r')).
  { rewrite nth_error_map, Em. reflexivity. }
  exact (nth_error_nth _ _ _ X).
Qed.
End Previous.

(** The rows of one row label in an unstacked and filtered table. *)
Lemma cross_pairs_of_row {K1 K2} (eqb : K1 -> K1 -> bool)
  (P : K1 -> K2 -> bool) rows cols a :
  (forall x y, eqb x y = true <-> x = y) -> NoDup rows -> In a rows ->
  filter (fun x : K1 * K2 => eqb (fst x) a) (cross_pairs P rows cols)
  = map (pair a) (filter (P a) cols).
Proof.
  intros Heq Hn Hin. unfold cross_pairs.
  assert (Hout : forall l, ~ In a l ->
            filter (fun x : K1 * K2 => eqb (fst x) a)
              (flat_map (fun a0 => map (pair a0) (filter (P a0) cols)) l)
            = []).
  { intros l Hl. apply filter_false. intros [a0 b] Hx. cbn.
    apply in_flat_map in Hx. destruct Hx as (a1 & Ha1 & Hx).
    apply in_map_iff in Hx. destruct Hx as (b' & E & _).
    injection E as <- <-.
    destruct (eqb a1 a) eqn:E; [|reflexivity].
    apply Heq in E. subst a1. contradiction. }
  induction Hn as [|a0 rows Ha0 Hn IH]; [destruct Hin|].
  cbn [flat_map]. rewrite filter_app.
  destruct Hin as [-> |Hin].
  - rewrite (Hout rows Ha0), app_nil_r. apply filter_true.
    intros [a1 b] Hx. apply in_map_iff in Hx. destruct Hx as (b' & E & _).
    injection E as <- <-. cbn. apply Heq. reflexivity.
  - rewrite (IH Hin).
    rewrite filter_false; [reflexivity|].
    intros [a1 b] Hx. apply in_map_iff in Hx. destruct Hx as (b' & E & _).
    injection E as <- <-. cbn.
    destruct (eqb a0 a) eqn:E; [|reflexivity].
    apply Heq in E. subst a0. contradiction.
Qed.

(** Neighbours in a filter of a sorted list of dates by a lower bound. *)
Lemma sorted_index_lt l :
  StronglySorted date_lt l ->
  forall i j a b, (i < j)%nat -> nth_error l i = Some a ->
                  nth_error l j = Some b -> date_lt a b.
Proof.
  intros Hs i j a b Hij Ha Hb.
  apply (sorted_before date_lt l Hs j a b Hb).
  apply nth_error_In with (n := i).
  rewrite nth_error_firstn.
  destruct (Nat.ltb_spec i j); [exact Ha|lia].
Qed.

Lemma sorted_index_le l :
  StronglySorted date_lt l ->
  forall i j a b, (i <= j)%nat -> nth_error l i = Some a ->
                  nth_error l j = Some b -> date_leb a b = true.
Proof.
  intros Hs i j a b Hij Ha Hb. apply date_leb_spec.
  destruct (Nat.eq_dec i j) as [->|N]; [left; congruence|].
  right. apply (sorted_index_lt l Hs i j); [lia|assumption|assumption].
Qed.

Lemma date_lt_leb a b : date_lt a b \/ date_leb b a = true.
Proof.
  unfold date_lt, date_leb. rewrite (date_compare_antisym a b).
  destruct (date_compare a b); cbn; auto.
Qed.

Lemma later_periods_next ps c p p' m :
  StronglySorted date_lt ps ->
  nth_error (filter (date_leb c) ps) m = Some p' ->
  nth_error (filter (date_leb c) ps) (S m) = Some p ->
  In p' ps /\ date_leb c p' = true /\ date_lt p' p
  /\ forall q, In q ps -> date_lt q p -> date_leb q p' = true.
Proof.
  intros Hs Hm HSm.
  pose proof (sorted_filter date_lt (date_leb c) ps Hs) as Sf.
  pose proof (nth_error_In _ _ Hm) as Hin. apply filter_In in Hin.
  destruct Hin as [Hin Hc].
  split; [exact Hin|]. split; [exact Hc|].
  split; [apply (sorted_index_lt _ Sf m (S m)); auto|].
  intros q Hq Hlt.
  destruct (date_leb c q) eqn:Ecq.
  - assert (Hqf : In q (filter (date_leb c) ps))
      by (apply filter_In; auto).
    apply In_nth_error in Hqf. destruct Hqf as (j & Hj).
    destruct (Nat.le_gt_cases j m) as [Hjm|Hjm].
    + apply (sorted_index_le _ Sf j m); assumption.
    + exfalso.
      pose proof (sorted_index_le _ Sf (S m) j p q ltac:(lia) HSm Hj) as X.
      exact (date_lt_not_leb q p Hlt X).
  - destruct (date_leb_total c q) as [X|X]; [congruence|].
    eapply date_leb_trans; eauto.
Qed.

(** The cells of df_users and df_revenue *)

Lemma active_spec df id p :
  active df id p = true
  <-> exists r, In r df /\ r_id r = id /\ r_period r = p.
Proof.
  unfold active. rewrite existsb_exists. split.
  - intros (r & Hr & E). apply andb_true_iff in E. destruct E as [E1 E2].
    apply Z.eqb_eq in E1. apply date_eqb_eq in E2. eauto.
  - intros (r & Hr & E1 & E2). exists r. split; [exact Hr|].
    apply andb_true_iff.
    split; [apply Z.eqb_eq|apply date_eqb_eq]; assumption.
Qed.

Lemma active_rows df id p :
  active df id p = match id_period_rows df id p with
                   | [] => false
                   | _ => true
                   end.
Proof. unfold active, id_period_rows. apply existsb_filter_nonempty. Qed.

Lemma id_period_compare_eq a b : id_period_compare a b = Eq <-> a = b.
Proof.
  apply pair_compare_eq; [apply Z.compare_eq_iff|apply date_compare_eq].
Qed.

Lemma revenue_cell_rows df id p :
  revenue_cell df id p
  = match id_period_rows df id p with
    | [] => 0%Q
    | g => sum_skipna (map (fun r => Some (r_input r)) g)
    end.
Proof.
  unfold revenue_cell.
  rewrite (lookup_groupby_agg id_period_compare id_period_compare_eq).
  rewrite existsb_filter_nonempty. unfold id_period_rows.
  rewrite (filter_ext _ _ (id_period_eqb id p)).
  destruct (filter _ df); reflexivity.
Qed.

Lemma revenue_cell_value df id p :
  (revenue_cell df id p == input_sum (id_period_rows df id p))%Q.
Proof.
  rewrite revenue_cell_rows. unfold input_sum.
  destruct (id_period_rows df id p) eqn:E; [reflexivity|].
  rewrite sum_skipna_some. reflexivity.
Qed.

Lemma revenue_cell_idle df id p :
  active df id p = false -> revenue_cell df id p = 0%Q.
Proof.
  rewrite active_rows, revenue_cell_rows.
  destruct (id_period_rows df id p); [reflexivity|discriminate].
Qed.

Lemma uniques_cell_active df id c p :
  well_prepared df ->
  (exists r, In r df /\ r_id r = id /\ r_cohort r = c) ->
  uniques_cell df (id, c, p) = if active df id p then 1 else 0.
Proof.
  intros W (r0 & Hr0 & Ei0 & Ec0). unfold uniques_cell.
  rewrite (lookup_groupby_agg cmp3 cmp3_eq).
  rewrite existsb_filter_nonempty.
  remember (filter (fun r => cmp_eqb cmp3 (r_id r, r_cohort r, r_period r)
                               (id, c, p)) df) as F eqn:EF.
  destruct (active df id p) eqn:Ea.
  - apply active_spec in Ea. destruct Ea as (r & Hr & Ei & Ep).
    assert (Hin : In r F).
    { rewrite EF. apply filter_In. split; [exact Hr|].
      apply (cmp_eqb_true cmp3 cmp3_eq). rewrite Ei, Ep.
      do 2 f_equal. rewrite <- Ec0.
      apply (cohort_of_id df W); [exact Hr|exact Hr0|congruence]. }
    destruct F as [|r1 F']; [destruct Hin|].
    rewrite astype_int_count. cbn [List.length].
    destruct (Z.gtb_spec (Z.of_nat (S (List.length F'))) 0);
      [reflexivity|lia].
  - destruct F as [|r1 F']; [reflexivity|]. exfalso.
    assert (Hin : In r1 (r1 :: F')) by (left; reflexivity).
    rewrite EF in Hin. apply filter_In in Hin. destruct Hin as [Hr1 E].
    apply (cmp_eqb_true cmp3 cmp3_eq) in E. injection E as Ei _ Ep.
    assert (X : active df id p = true)
      by (apply active_spec; exists r1; auto).
    congruence.
Qed.

Lemma users_base_cells df x :
  In x (users_base df) -> snd x = uniques_cell df (fst (fst x)).
Proof.
  unfold users_base. intros H. apply in_map_iff in H.
  destruct H as ([[a b] v] & <- & Hy). cbn.
  apply filter_In in Hy. destruct Hy as [Hy _].
  apply in_unstack in Hy. subst v. reflexivity.
Qed.

Lemma revenue_base_cells df y :
  In y (revenue_base df) ->
  snd y = revenue_cell df (u_id (fst y)) (u_period_rep (fst y)).
Proof.
  unfold revenue_base. intros H. apply in_map_iff in H.
  destruct H as (u & <- & _). reflexivity.
Qed.

Lemma revenue_base_keys3 df :
  map (fun y : user_row * Q =>
         (u_id (fst y), u_cohort_rep (fst y), u_period_rep (fst y)))
      (revenue_base df)
  = map (fun x : Z * date * date * Z * Z => fst (fst x)) (users_base df).
Proof.
  unfold revenue_base. rewrite map_map. cbn [fst].
  unfold df_users, zip_with. rewrite map_map.
  rewrite <- (map_fst_combine (users_base df) (users_change df))
    at 2 by (symmetry; apply length_users_change).
  rewrite map_map. apply map_ext.
  intros [[[[[id c] p] f] u] ch]. reflexivity.
Qed.

Lemma nth_error_map_pair {A B} (a : A) (l : list B) m b :
  nth_error (map (pair a) l) m = Some (a, b) -> nth_error l m = Some b.
Proof.
  rewrite nth_error_map. destruct (nth_error l m); cbn; [|discriminate].
  intros E. injection E as ->. reflexivity.
Qed.

(** Row [i] of df_revenue, from the history of its id: the row of the
    cohort's own period is "new"; any other row compares the id with the
    latest period of df before the row's period. *)
Lemma revenue_row_history df i x :
  well_prepared df -> nth_error (users_base df) i = Some x ->
  exists v,
    nth_error (df_revenue df) i = Some v
    /\ (v_id v, v_cohort_rep v, v_period_rep v) = fst (fst x)
    /\ (exists r, In r df /\ r_id r = v_id v
                  /\ r_cohort r = v_cohort_rep v)
    /\ date_leb (v_cohort_rep v) (v_period_rep v) = true
    /\ v_revenue v = revenue_cell df (v_id v) (v_period_rep v)
    /\ v_revstatus v = revstatus_of (v_revchange v)
    /\ v_retained v = retained_of (v_revenue v) (v_revchange v)
    /\ ((v_period_rep v = v_cohort_rep v /\ v_revchange v = None
         /\ v_supercolumn v = 3)
        \/ exists p',
             latest_before df p' (v_period_rep v)
             /\ date_leb (v_cohort_rep v) p' = true
             /\ v_revchange v
                = Some (revenue_cell df (v_id v) (v_period_rep v)
                        - revenue_cell df (v_id v) p')%Q
             /\ v_supercolumn v
                = status_of (active df (v_id v) (v_period_rep v))
                            (active df (v_id v) p')).
Proof.
  intros W Hx.
  destruct (users_base_spec df W)
    as (ks & ps & Hks & Hps & Sks & Sps & Hkeys & _).
  destruct x as [[[[id c] p] f] u].
  set (keyU := fun x : Z * date * date * Z * Z => fst (fst (fst x))).
  set (keyR := fun y : user_row * Q =>
                 (u_id (fst y), u_cohort_rep (fst y))).
  set (key3R := fun y : user_row * Q =>
                  (u_id (fst y), u_cohort_rep (fst y),
                   u_period_rep (fst y))).
  pose proof (nth_error_In _ _ Hx) as Hxin.
  assert (Hk : In (id, c, p)
                 (cross_pairs (fun a b => date_leb (snd a) b) ks ps)).
  { rewrite <- Hkeys. apply in_map_iff. exists (id, c, p, f, u). auto. }
  apply cross_pairs_In in Hk. destruct Hk as (Hkin & Hpin & Hle).
  cbn in Hle.
  destruct (proj1 (Hks _) Hkin) as (r0 & Hr0 & Er0).
  injection Er0 as Ei0 Ec0.
  assert (Hid : exists r, In r df /\ r_id r = id /\ r_cohort r = c)
    by eauto.
  assert (Eu : u = if active df id p then 1 else 0).
  { rewrite <- (uniques_cell_active df id c p W Hid).
    exact (users_base_cells df (id, c, p, f, u) Hxin). }
  set (pl := filter (date_leb c) ps).
  assert (NDks : NoDup ks)
    by (apply (sorted_NoDup id_cohort_compare id_cohort_compare_eq);
        exact Sks).
  assert (Gu : map (fun x : Z * date * date * Z * Z => fst (fst x))
                 (filter (fun x => id_eqb (keyU x) (id, c)) (users_base df))
               = map (pair (id, c)) pl).
  { transitivity
      (filter (fun k : Z * date * date => id_eqb (fst k) (id, c))
         (map (fun x : Z * date * date * Z * Z => fst (fst x))
              (users_base df))).
    - rewrite filter_map_comm. reflexivity.
    - rewrite Hkeys.
      apply (cross_pairs_of_row id_eqb (fun a b => date_leb (snd a) b)
               ks ps (id, c) id_eqb_eq NDks Hkin). }
  assert (Gr : map key3R
                 (filter (fun y => id_eqb (keyR y) (id, c)) (revenue_base df))
               = map (pair (id, c)) pl).
  { transitivity
      (filter (fun k : Z * date * date => id_eqb (fst k) (id, c))
         (map key3R (revenue_base df))).
    - rewrite filter_map_comm. reflexivity.
    - unfold key3R. rewrite revenue_base_keys3, Hkeys.
      apply (cross_pairs_of_row id_eqb (fun a b => date_leb (snd a) b)
               ks ps (id, c) id_eqb_eq NDks Hkin). }
  (* the cohort's own period is the first of the group *)
  assert (Hcp : In c pl).
  { apply filter_In. split; [|apply date_leb_refl].
    apply Hps. destruct (cohort_attained df W r0 Hr0) as (r' & Hr' & _ & E).
    exists r'. split; [exact Hr'|congruence]. }
  assert (Hact : active df id c = true).
  { apply active_spec.
    destruct (cohort_attained df W r0 Hr0) as (r' & Hr' & Ei' & E).
    exists r'. split; [exact Hr'|]. split; congruence. }
  pose proof (sorted_filter date_lt (date_leb c) ps Sps) as Spl.
  fold pl in Spl.
  (* the change of uniques *)
  destruct (groupby_diff_previous id_eqb keyU id_eqb_eq snd Z.sub
              (users_base df) i (id, c, p, f, u) Hx) as (R1 & D1 & P1).
  fold (users_change df) in D1.
  change (keyU (id, c, p, f, u)) with (id, c) in R1, D1, P1.
  set (m := rank_of id_eqb (map keyU (users_base df)) i (id, c)) in *.
  assert (Hm : nth_error pl m = Some p).
  { apply (nth_error_map_pair (id, c)). rewrite <- Gu.
    rewrite nth_error_map, R1. reflexivity. }
  match type of D1 with _ = Some ?z => set (ch := z) in * end.
  set (chv := match ch with Some c0 => c0 | None => 2 end).
  set (urow := mkuser id c p f u chv (chv + u)).
  assert (Eur : nth_error (df_users df) i = Some urow).
  { unfold df_users. rewrite (nth_error_zip_with _ _ _ _ _ _ Hx D1).
    reflexivity. }
  assert (Eb : nth_error (revenue_base df) i
               = Some (urow, revenue_cell df id p)).
  { unfold revenue_base. rewrite nth_error_map, Eur. reflexivity. }
  destruct (groupby_diff_previous id_eqb keyR id_eqb_eq snd Qminus
              (revenue_base df) i (urow, revenue_cell df id p) Eb)
    as (R2 & D2 & P2).
  fold (revenue_change df) in D2.
  change (keyR (urow, revenue_cell df id p)) with (id, c) in R2, D2, P2.
  unfold keyR in R2, D2, P2 at 1. 
  rewrite revenue_base_keys in R2, D2, P2.
  fold keyU in R2, D2, P2. fold m in R2, D2, P2.
  match type of D2 with _ = Some ?z => set (rc := z) in * end.
  eexists. split.
  { unfold df_revenue. rewrite (nth_error_zip_with _ _ _ _ _ _ Eb D2).
    reflexivity. }
  cbn [v_id v_cohort_rep v_period_rep v_revenue v_revchange v_revstatus
       v_retained v_supercolumn u_id u_cohort_rep u_period_rep
       u_supercolumn urow fst snd].
  split; [reflexivity|]. split; [exact Hid|]. split; [exact Hle|].
  split; [reflexivity|]. split; [reflexivity|]. split; [reflexivity|].
  destruct m as [|m'] eqn:Em.
  - left.
    assert (Epc : p = c).
    { apply In_nth_error in Hcp. destruct Hcp as (j & Hj).
      apply date_leb_antisym; [|exact Hle].
      apply (sorted_index_le pl Spl 0 j); [lia|exact Hm|exact Hj]. }
    split; [exact Epc|]. split; [reflexivity|].
    unfold chv, ch. rewrite Eu, Epc, Hact. reflexivity.
  - right.
    destruct (P1 m' eq_refl) as (x' & Hx').
    destruct (P2 m' eq_refl) as (y' & Hy').
    assert (Hp' : exists p', nth_error pl m' = Some p'
                             /\ fst (fst x') = (id, c, p')
                             /\ key3R y' = (id, c, p')).
    { assert (X : nth_error (map (pair (id, c)) pl) m'
                  = Some (fst (fst x'))).
      { rewrite <- Gu, nth_error_map, Hx'. reflexivity. }
      assert (Y : nth_error (map (pair (id, c)) pl) m' = Some (key3R y')).
      { rewrite <- Gr, nth_error_map, Hy'. reflexivity. }
      rewrite nth_error_map in X, Y.
      destruct (nth_error pl m') as [p'|]; [|discriminate].
      cbn in X, Y. exists p'. split; [reflexivity|]. split; congruence. }
    destruct Hp' as (p' & Hm' & Ex' & Ey').
    destruct (later_periods_next ps c p p' m' Sps Hm' Hm)
      as (Hin' & Hc' & Hlt & Hlatest).
    exists p'. split; [|split; [exact Hc'|split]].
    + split; [apply Hps; exact Hin'|]. split; [exact Hlt|].
      intros q Hq. apply Hlatest. apply Hps. exact Hq.
    + unfold rc. pose proof Hy' as Hy2. unfold keyR in Hy2. rewrite Hy2.
      cbn [option_map snd]. do 2 f_equal.
      rewrite (revenue_base_cells df y'
                 (proj1 (proj1 (filter_In _ _ _) (nth_error_In _ _ Hy')))).
      unfold key3R in Ey'. injection Ey' as -> _ ->. reflexivity.
    + unfold chv, ch. rewrite Hx'. cbn [option_map snd].
      assert (Eu' : snd x' = if active df id p' then 1 else 0).
      { rewrite <- (uniques_cell_active df id c p' W Hid), <- Ex'.
        apply users_base_cells.
        exact (proj1 (proj1 (filter_In _ _ _) (nth_error_In _ _ Hx'))). }
      rewrite Eu', Eu.
      destruct (active df id p), (active df id p'); reflexivity.
Qed.

Lemma revenue_row_cases df v :
  well_prepared df -> In v (df_revenue df) ->
  (exists r, In r df /\ r_id r = v_id v /\ r_cohort r = v_cohort_rep v)
  /\ date_leb (v_cohort_rep v) (v_period_rep v) = true
  /\ v_revenue v = revenue_cell df (v_id v) (v_period_rep v)
  /\ v_revstatus v = revstatus_of (v_revchange v)
  /\ v_retained v = retained_of (v_revenue v) (v_revchange v)
  /\ ((v_period_rep v = v_cohort_rep v /\ v_revchange v = None
       /\ v_supercolumn v = 3)
      \/ exists p',
           latest_before df p' (v_period_rep v)
           /\ date_leb (v_cohort_rep v) p' = true
           /\ v_revchange v
              = Some (revenue_cell df (v_id v) (v_period_rep v)
                      - revenue_cell df (v_id v) p')%Q
           /\ v_supercolumn v
              = status_of (active df (v_id v) (v_period_rep v))
                          (active df (v_id v) p')).
Proof.
  intros W Hv. destruct (in_df_revenue_index df v Hv) as (i & x & Ev & Ex).
  destruct (revenue_row_history df i x W Ex) as (v' & Ev' & _ & H).
  assert (v' = v) by congruence. subst v'. exact H.
Qed.

Lemma latest_before_unique df p p1 p2 :
  latest_before df p1 p -> latest_before df p2 p -> p1 = p2.
Proof.
  intros (O1 & L1 & M1) (O2 & L2 & M2).
  apply date_leb_antisym; [apply M2|apply M1]; assumption.
Qed.

Lemma id_rows_cohort df v r :
  well_prepared df ->
  (exists r0, In r0 df /\ r_id r0 = v_id v /\ r_cohort r0 = v_cohort_rep v) ->
  In r df -> r_id r = v_id v -> r_cohort r = v_cohort_rep v.
Proof.
  intros W (r0 & Hr0 & Ei & Ec) Hr E. rewrite <- Ec.
  apply (cohort_of_id df W); [exact Hr|exact Hr0|congruence].
Qed.

End GrowthHistory.

(** * The growth categories and the events of the dataset *)

Module GrowthEvents.
Import OrderFacts ListFacts PrepareFacts GridFacts GrowthRows GrowthColumns
       GrowthRates GrowthReconciliation GrowthAccountingPmf GrowthHistory.

Lemma qsum_scale {A} (k : Q) (f : A -> Q) l :
  (qsum (fun a => k * f a) l == k * qsum f l)%Q.
Proof.
  induction l as [|x l IH]; cbn; [ring|]. rewrite IH. ring.
Qed.

Lemma qsum_nonneg {A} (f : A -> Q) l :
  (forall v, In v l -> (0 <= f v)%Q) -> (0 <= qsum f l)%Q.
Proof.
  induction l as [|x l IH]; intros H; cbn; [apply Qle_refl|].
  apply (Qle_trans _ (0 + 0)); [apply Qle_refl|].
  apply Qplus_le_compat; [apply H; left; reflexivity|].
  apply IH. intros v Hv. apply H. right. exact Hv.
Qed.

Lemma qsum_nonpos {A} (f : A -> Q) l :
  (forall v, In v l -> (f v <= 0)%Q) -> (qsum f l <= 0)%Q.
Proof.
  induction l as [|x l IH]; intros H; cbn; [apply Qle_refl|].
  apply (Qle_trans _ (0 + 0)); [|apply Qle_refl].
  apply Qplus_le_compat; [apply H; left; reflexivity|].
  apply IH. intros v Hv. apply H. right. exact Hv.
Qed.

(** The rows of df_revenue of an observed period [p]: one for every id
    whose cohort is not after [p]. *)
Lemma period_rows_ids df p ks ps :
  well_prepared df ->
  StronglySorted date_lt ps -> In p ps ->
  map (fun x : Z * date * date * Z * Z => fst (fst x)) (users_base df)
  = cross_pairs (fun a b => date_leb (snd a) b) ks ps ->
  map (fun v => (v_id v, v_cohort_rep v)) (rows_of_period p (df_revenue df))
  = filter (fun a => date_leb (snd a) p) ks.
Proof.
  intros W Sps Hp Hkeys.
  transitivity
    (map fst (filter (fun x : Z * date * date => date_eqb (snd x) p)
                (map (fun v => ((v_id v, v_cohort_rep v), v_period_rep v))
                     (df_revenue df)))).
  - unfold rows_of_period. rewrite filter_map_comm, map_map. reflexivity.
  - rewrite (revenue_keys df W), Hkeys.
    rewrite cross_pairs_of_column.
    + rewrite map_map. apply map_id.
    + apply sorted_dates_NoDup. exact Sps.
    + exact Hp.
Qed.

(** Rows of a period whose value is, id by id, [k] times the quantity of
    the events of the id that satisfy [E]: their sum is [k] times the
    quantity of all the events that satisfy [E]. *)
Lemma period_rows_events df p (g : revenue_row -> Q) (k : Q)
  (E : prow -> bool) :
  well_prepared df -> observed_period df p ->
  (forall r, In r df -> E r = true -> date_leb (r_cohort r) p = true) ->
  (forall v, In v (df_revenue df) -> v_period_rep v = p ->
     (g v
      == k * input_sum (filter (fun r => E r && (r_id r =? v_id v)) df))%Q) ->
  (qsum g (rows_of_period p (df_revenue df))
   == k * input_sum (filter E df))%Q.
Proof.
  intros W Hp Hcoh Hrow.
  destruct (users_base_spec df W)
    as (ks & ps & Hks & Hps & Sks & Sps & Hkeys & _).
  set (T := fun a : Z * date =>
              input_sum (filter (fun r => E r && (r_id r =? fst a)) df)).
  rewrite (qsum_ext _ (fun v => k * T (v_id v, v_cohort_rep v))%Q).
  2: { intros v Hv. unfold rows_of_period in Hv. apply filter_In in Hv.
       destruct Hv as [Hv Ep]. apply date_eqb_eq in Ep.
       unfold T. cbn [fst]. apply Hrow; assumption. }
  rewrite <- (qsum_map (fun v => (v_id v, v_cohort_rep v))
                (fun a => k * T a)%Q).
  rewrite (period_rows_ids df p ks ps W Sps (proj2 (Hps p) Hp) Hkeys).
  assert (Hc : forall a r, In a ks -> In r df -> r_id r = fst a ->
                           r_cohort r = snd a).
  { intros a r Ha Hr Hid. apply Hks in Ha. destruct Ha as (r0 & Hr0 & <-).
    cbn in *. apply (cohort_of_id df W); assumption. }
  rewrite qsum_filter_zero.
  2: { intros a Ha Hle. unfold T, input_sum.
       rewrite filter_false; [cbn; ring|].
       intros r Hr. destruct (E r) eqn:Er; [|reflexivity].
       destruct (r_id r =? fst a) eqn:Ei; [|reflexivity]. exfalso.
       apply Z.eqb_eq in Ei. pose proof (Hcoh r Hr Er) as L.
       rewrite (Hc a r Ha Hr Ei) in L. congruence. }
  rewrite qsum_scale. apply Qmult_comp; [reflexivity|].
  unfold input_sum.
  rewrite <- (qsum_partition id_eqb (fun r => (r_id r, r_cohort r)) r_input
                ks (filter E df) id_eqb_eq).
  - apply qsum_ext. intros a Ha. unfold T, input_sum.
    rewrite filter_and.
    rewrite (filter_ext_in
               (fun r => E r && (r_id r =? fst a))
               (fun r => E r && id_eqb (r_id r, r_cohort r) a)%bool);
      [reflexivity|].
    intros r Hr. f_equal.
    destruct (r_id r =? fst a) eqn:Ei.
    + symmetry. apply id_eqb_eq. apply Z.eqb_eq in Ei.
      rewrite (Hc a r Ha Hr Ei), Ei. destruct a; reflexivity.
    + symmetry. destruct (id_eqb (r_id r, r_cohort r) a) eqn:X;
        [|reflexivity].
      apply id_eqb_eq in X. subst a. cbn in Ei.
      rewrite Z.eqb_refl in Ei. discriminate.
  - apply (sorted_NoDup id_cohort_compare id_cohort_compare_eq). exact Sks.
  - intros r Hr. apply filter_In in Hr.
    apply Hks. exists r. split; [tauto|reflexivity].
Qed.

(** The events of one id among the events that satisfy [E], when [E]
    tests the period of the event and a property [b] of the id. *)
Lemma id_events_filter df id (E : prow -> bool) q (b : bool) :
  (forall r, In r df -> r_id r = id ->
             E r = (date_eqb (r_period r) q && b)%bool) ->
  (input_sum (filter (fun r => E r && (r_id r =? id)) df)
   == if b then revenue_cell df id q else 0)%Q.
Proof.
  intros H. destruct b.
  - rewrite revenue_cell_value. unfold id_period_rows.
    rewrite (filter_ext_in
               (fun r => E r && (r_id r =? id))
               (fun r => (r_id r =? id) && date_eqb (r_period r) q)%bool);
      [reflexivity|].
    intros r Hr. destruct (r_id r =? id) eqn:Ei.
    + apply Z.eqb_eq in Ei. rewrite (H r Hr Ei).
      rewrite !andb_true_r. reflexivity.
    + rewrite andb_false_r. reflexivity.
  - rewrite filter_false; [reflexivity|].
    intros r Hr. destruct (r_id r =? id) eqn:Ei;
      [|apply andb_false_r].
    apply Z.eqb_eq in Ei. rewrite (H r Hr Ei), andb_false_r. reflexivity.
Qed.

(** A row of df_revenue of period [p], seen from the latest period [p']
    before [p]. *)
Lemma row_view df v p p' :
  well_prepared df -> In v (df_revenue df) -> v_period_rep v = p ->
  latest_before df p' p ->
  (forall r, In r df -> r_id r = v_id v -> r_cohort r = v_cohort_rep v)
  /\ v_revenue v = revenue_cell df (v_id v) p
  /\ v_revstatus v = revstatus_of (v_revchange v)
  /\ v_retained v = retained_of (v_revenue v) (v_revchange v)
  /\ ((date_eqb (v_cohort_rep v) p = true
       /\ active df (v_id v) p = true /\ active df (v_id v) p' = false
       /\ v_supercolumn v = 3 /\ v_revchange v = None)
      \/ (date_eqb (v_cohort_rep v) p = false
          /\ v_supercolumn v
             = status_of (active df (v_id v) p) (active df (v_id v) p')
          /\ v_revchange v
             = Some (revenue_cell df (v_id v) p
                     - revenue_cell df (v_id v) p')%Q)).
Proof.
  intros W Hv Ep L.
  destruct (revenue_row_cases df v W Hv)
    as (Hid & Hle & Er & Es & Et & Hc).
  rewrite Ep in *.
  assert (Hcoh : forall r, In r df -> r_id r = v_id v ->
                           r_cohort r = v_cohort_rep v).
  { intros r Hr E. apply (id_rows_cohort df v r W Hid Hr E). }
  split; [exact Hcoh|]. split; [exact Er|]. split; [exact Es|].
  split; [exact Et|].
  destruct L as (O' & Lt' & M').
  destruct Hc as [(Epc & Erc & Esc)|(p'' & L'' & Hc' & Erc & Esc)].
  - left. rewrite <- Epc.
    split; [apply date_eqb_eq; reflexivity|].
    destruct Hid as (r0 & Hr0 & Ei0 & Ec0).
    split.
    { apply active_spec.
      destruct (cohort_attained df W r0 Hr0) as (r' & Hr' & Ei' & E').
      exists r'. split; [exact Hr'|]. split; congruence. }
    split; [|auto].
    destruct (active df (v_id v) p') eqn:X; [|reflexivity]. exfalso.
    apply active_spec in X. destruct X as (r & Hr & Ei & Epr).
    pose proof (cohort_least df W r0 r Hr0 Hr ltac:(congruence)) as X.
    rewrite Ec0, Epr, <- Epc in X.
    exact (date_lt_not_leb p' p Lt' X).
  - right.
    assert (p'' = p')
      by (apply (latest_before_unique df p); [exact L''|repeat split; auto]).
    subst p''.
    split; [|auto].
    destruct (date_eqb (v_cohort_rep v) p) eqn:X; [|reflexivity]. exfalso.
    apply date_eqb_eq in X. rewrite X in Hc'.
    exact (date_lt_not_leb p' p Lt' Hc').
Qed.

End GrowthEvents.

(** * Every growth category as a sum over events *)

Module GrowthCategories.
Import OrderFacts ListFacts PrepareFacts GridFacts GrowthRows GrowthColumns
       GrowthRates GrowthReconciliation GrowthAccountingPmf GrowthHistory
       GrowthEvents.

Lemma status_not_new a b : (status_of a b =? 3) = false.
Proof. destruct a, b; reflexivity. Qed.



Ltac view W Hv Ep L :=
  destruct (row_view _ _ _ _ W Hv Ep L)
    as (Hcoh & Er & Es & Et
        & [(Ec & An & Ab & Esc & Erc)|(Ec & Esc & Erc)]).

(** Rows *)

Lemma row_new df v p :
  well_prepared df -> In v (df_revenue df) -> v_period_rep v = p ->
  (contrib is_new some_revenue v
   == 1 * input_sum
            (filter (fun r => date_eqb (r_period r) p
                              && date_eqb (r_cohort r) p
                              && (r_id r =? v_id v)) df))%Q.
Proof.
  intros W Hv Ep.
  destruct (revenue_row_cases df v W Hv)
    as (Hid & Hle & Er & Es & Et & Hc).
  rewrite (id_events_filter df (v_id v)
             (fun r => date_eqb (r_period r) p && date_eqb (r_cohort r) p)
             p (date_eqb (v_cohort_rep v) p)).
  2: { intros r Hr Ei. rewrite (id_rows_cohort df v r W Hid Hr Ei).
       reflexivity. }
  unfold contrib, is_new, some_revenue.
  destruct Hc as [(Epc & _ & Esc)|(p' & (_ & Lt' & _) & Hc' & _ & Esc)].
  - rewrite Esc, <- Epc, Ep.
    rewrite (proj2 (date_eqb_eq p p) eq_refl). cbn [Z.eqb Pos.eqb].
    rewrite Er, Ep. ring.
  - rewrite Esc, status_not_new.
    destruct (date_eqb (v_cohort_rep v) p) eqn:X; [|ring]. exfalso.
    apply date_eqb_eq in X. rewrite X, Ep in *.
    exact (date_lt_not_leb p' p Lt' Hc').
Qed.

Lemma row_resurrected df v p p' :
  well_prepared df -> In v (df_revenue df) -> v_period_rep v = p ->
  latest_before df p' p ->
  (contrib is_resurrected some_revenue v
   == 1 * input_sum
            (filter (fun r => date_eqb (r_period r) p
                              && negb (date_eqb (r_cohort r) p)
                              && negb (active df (r_id r) p')
                              && (r_id r =? v_id v)) df))%Q.
Proof.
  intros W Hv Ep L. view W Hv Ep L.
  - rewrite (id_events_filter df (v_id v)
               (fun r => date_eqb (r_period r) p
                         && negb (date_eqb (r_cohort r) p)
                         && negb (active df (r_id r) p')) p false).
    2: { intros r Hr Ei. rewrite (Hcoh r Hr Ei), Ec, Ei.
         destruct (date_eqb (r_period r) p), (active df (v_id v) p');
           reflexivity. }
    unfold contrib, is_resurrected. rewrite Esc. cbn. ring.
  - rewrite (id_events_filter df (v_id v)
               (fun r => date_eqb (r_period r) p
                         && negb (date_eqb (r_cohort r) p)
                         && negb (active df (r_id r) p')) p
               (negb (active df (v_id v) p'))).
    2: { intros r Hr Ei. rewrite (Hcoh r Hr Ei), Ec, Ei.
         destruct (date_eqb (r_period r) p), (active df (v_id v) p');
           reflexivity. }
    unfold contrib, is_resurrected, some_revenue. rewrite Esc, Er.
    destruct (active df (v_id v) p) eqn:A1,
             (active df (v_id v) p') eqn:A2; cbn; try ring.
    rewrite (revenue_cell_idle df _ _ A1). ring.
Qed.

Lemma row_churned df v p p' :
  well_prepared df -> In v (df_revenue df) -> v_period_rep v = p ->
  latest_before df p' p ->
  (contrib is_churned v_revchange v
   == (-1) * input_sum
               (filter (fun r => date_eqb (r_period r) p'
                                 && negb (active df (r_id r) p)
                                 && (r_id r =? v_id v)) df))%Q.
Proof.
  intros W Hv Ep L.
  rewrite (id_events_filter df (v_id v)
             (fun r => date_eqb (r_period r) p'
                       && negb (active df (r_id r) p)) p'
             (negb (active df (v_id v) p))).
  2: { intros r Hr Ei. rewrite Ei. reflexivity. }
  view W Hv Ep L.
  - unfold contrib, is_churned. rewrite Esc, An. cbn. ring.
  - unfold contrib, is_churned. rewrite Esc, Erc.
    destruct (active df (v_id v) p) eqn:A1,
             (active df (v_id v) p') eqn:A2; cbn; try ring.
    + rewrite (revenue_cell_idle df _ _ A1). ring.
    + rewrite (revenue_cell_idle df _ _ A2). ring.
Qed.



(** Periods *)

Lemma cohort_before_period df r :
  well_prepared df -> In r df -> date_leb (r_cohort r) (r_period r) = true.
Proof. intros W Hr. apply (cohort_least df W r r Hr Hr eq_refl). Qed.

Lemma event_cohort_bound df r q p :
  well_prepared df -> In r df -> date_eqb (r_period r) q = true ->
  date_leb q p = true -> date_leb (r_cohort r) p = true.
Proof.
  intros W Hr E L. apply date_eqb_eq in E. subst q.
  eapply date_leb_trans; [exact (cohort_before_period df r W Hr)|exact L].
Qed.

Lemma date_lt_le a b : date_lt a b -> date_leb a b = true.
Proof. intros H. apply date_leb_spec. right. exact H. Qed.

Lemma new_events df p :
  well_prepared df -> observed_period df p ->
  (class_sum is_new some_revenue p (df_revenue df)
   == input_sum (first_events df p))%Q.
Proof.
  intros W Hp. rewrite class_sum_qsum.
  rewrite (period_rows_events df p _ 1
             (fun r => date_eqb (r_period r) p && date_eqb (r_cohort r) p)
             W Hp).
  - unfold first_events. ring.
  - intros r Hr E. apply andb_true_iff in E. destruct E as [_ E].
    apply date_eqb_eq in E. rewrite E. apply date_leb_refl.
  - intros v Hv Ep. apply row_new; assumption.
Qed.

Lemma resurrected_events df p p' :
  well_prepared df -> observed_period df p -> latest_before df p' p ->
  (class_sum is_resurrected some_revenue p (df_revenue df)
   == input_sum (returning_events df p p'))%Q.
Proof.
  intros W Hp L. rewrite class_sum_qsum.
  rewrite (period_rows_events df p _ 1
             (fun r => date_eqb (r_period r) p
                       && negb (date_eqb (r_cohort r) p)
                       && negb (active df (r_id r) p')) W Hp).
  - unfold returning_events. ring.
  - intros r Hr E. apply andb_true_iff in E. destruct E as [E _].
    apply andb_true_iff in E. destruct E as [E _].
    apply (event_cohort_bound df r p p W Hr E). apply date_leb_refl.
  - intros v Hv Ep. apply row_resurrected; assumption.
Qed.

Lemma churned_events df p p' :
  well_prepared df -> observed_period df p -> latest_before df p' p ->
  (class_sum is_churned v_revchange p (df_revenue df)
   == - input_sum (events_of_idle df p' p))%Q.
Proof.
  intros W Hp L. rewrite class_sum_qsum.
  rewrite (period_rows_events df p _ (-1)
             (fun r => date_eqb (r_period r) p'
                       && negb (active df (r_id r) p)) W Hp).
  - unfold events_of_idle. ring.
  - intros r Hr E. apply andb_true_iff in E. destruct E as [E _].
    apply (event_cohort_bound df r p' p W Hr E).
    apply date_lt_le. exact (proj1 (proj2 L)).
  - intros v Hv Ep. apply row_churned; assumption.
Qed.





End GrowthCategories.

(** * The table of the growth accounting, category by category *)

Module GrowthFlows.
Import OrderFacts ListFacts PrepareFacts GridFacts GrowthRows GrowthColumns
       GrowthRates GrowthReconciliation GrowthAccountingPmf GrowthHistory
       GrowthEvents GrowthCategories.

(** The fitted table: its rows are periods of df. *)
Lemma fitted_table self data column_input self' :
  fit self data column_input = Ok self' ->
  exists df,
    prepare (self_period self) (self_simple self) data = Ok df
    /\ well_prepared df
    /\ GrowthAccountingPmf.df self'
       = Some (mkframe (growth_index df) (df_table df))
    /\ forall i p, nth_error (growth_index df) i = Some p ->
                   observed_cohort df p /\ observed_period df p.
Proof.
  intros H. destruct (fit_table _ _ _ _ H) as (df & P & T & _).
  pose proof (prepare_well_prepared _ _ _ _ P) as W.
  exists df. split; [exact P|]. split; [exact W|]. split; [exact T|].
  intros i p Hp.
  assert (Hc : observed_cohort df p).
  { apply (proj1 (growth_index_In df p)). eapply nth_error_In. exact Hp. }
  split; [exact Hc|].
  destruct Hc as (r & Hr & <-).
  destruct (cohort_attained df W r Hr) as (r' & Hr' & _ & E).
  exists r'. auto.
Qed.

Lemma class_new : In ("new"%string, is_new, some_revenue) category_classes.
Proof. left. reflexivity. Qed.

Lemma class_resurrected :
  In ("resurrected"%string, is_resurrected, some_revenue) category_classes.
Proof. right. left. reflexivity. Qed.

Lemma class_expansion :
  In ("expansion"%string, is_expansion, v_revchange) category_classes.
Proof. do 2 right. left. reflexivity. Qed.

Lemma class_contraction :
  In ("contraction"%string, is_contraction, v_revchange) category_classes.
Proof. do 3 right. left. reflexivity. Qed.

Lemma class_retained :
  In ("retained"%string, is_retained, v_retained) category_classes.
Proof. do 4 right. left. reflexivity. Qed.

Lemma class_churned :
  In ("churned"%string, is_churned, v_revchange) category_classes.
Proof. do 5 right. left. reflexivity. Qed.

(** In the sample dataset January is the latest period before
    February. *)
Lemma sample_latest :
  latest_before
    [mkprow 1 0 1 jan jan; mkprow 1 1 1 mar jan; mkprow 2 2 1 feb feb]
    jan feb.
Proof.
  split; [|split].
  - eexists. split; [left; reflexivity|reflexivity].
  - reflexivity.
  - intros q (r & Hr & <-) L.
    destruct Hr as [<-|[<-|[<-|[]]]]; cbn in *;
      first [reflexivity|discriminate L].
Qed.

(** In every row of the table, of period [p], 'new' is the quantity of the
    events of [p] that belong to the ids whose first period is [p]. *)
Theorem new_is_first_period_revenue (self : GrowthAccounting)
  (data : list event) (input : option string) (self' : GrowthAccounting) :
  fit self data input = Ok self' ->
  exists df t new,
    prepare (self_period self) (self_simple self) data = Ok df
    /\ GrowthAccountingPmf.df self' = Some t
    /\ find_col "new" (cols t) = Some new
    /\ forall i p,
         nth_error (index t) i = Some p ->
         exists qn,
           nth_error new i = Some (Fin qn)
           /\ (qn == input_sum (first_events df p))%Q.
Proof.
  intros H. destruct (fitted_table _ _ _ _ H) as (df & P & W & T & Hidx).
  destruct (category_column df _ _ _ class_new) as (cn & Fn & Hn).
  exists df, (mkframe (growth_index df) (df_table df)), cn.
  split; [exact P|]. split; [exact T|]. split; [exact Fn|].
  cbn [index]. intros i p Hp. destruct (Hidx i p Hp) as [_ Hop].
  eexists. split; [exact (proj1 (Hn i p Hp))|].
  apply new_events; assumption.
Qed.

Lemma new_is_first_period_revenue_witness :
  exists self',
    fit (init Tm true) sample_events None = Ok self'
    /\ exists df t new,
         prepare (self_period (init Tm true)) (self_simple (init Tm true))
           sample_events = Ok df
         /\ GrowthAccountingPmf.df self' = Some t
         /\ find_col "new" (cols t) = Some new
         /\ forall i p,
              nth_error (index t) i = Some p ->
              exists qn,
                nth_error new i = Some (Fin qn)
                /\ (qn == input_sum (first_events df p))%Q.
Proof.
  remember (fit (init Tm true) sample_events None) as r eqn:Er.
  destruct r as [self'|e]; [|vm_compute in Er; discriminate].
  exists self'. split; [reflexivity|].
  apply (new_is_first_period_revenue (init Tm true) sample_events None
           self').
  symmetry. exact Er.
Defined.

(** In a row of period [p] whose latest earlier period of the dataset is
    [p'], 'resurrected' is the quantity of the events of [p] of the ids of
    an earlier cohort that have no event in [p'], and 'churned' is minus
    the quantity of the events of [p'] of the ids that have no event in
    [p]. *)
Theorem resurrected_and_churned_events (self : GrowthAccounting)
  (data : list event) (input : option string) (self' : GrowthAccounting) :
  fit self data input = Ok self' ->
  exists df t resurrected churned,
    prepare (self_period self) (self_simple self) data = Ok df
    /\ GrowthAccountingPmf.df self' = Some t
    /\ find_col "resurrected" (cols t) = Some resurrected
    /\ find_col "churned" (cols t) = Some churned
    /\ forall i p p',
         nth_error (index t) i = Some p -> latest_before df p' p ->
         exists qr qh,
           nth_error resurrected i = Some (Fin qr)
           /\ nth_error churned i = Some (Fin qh)
           /\ (qr == input_sum (returning_events df p p'))%Q
           /\ (qh == - input_sum (events_of_idle df p' p))%Q.
Proof.
  intros H. destruct (fitted_table _ _ _ _ H) as (df & P & W & T & Hidx).
  destruct (category_column df _ _ _ class_resurrected) as (cr & Fr & Hr).
  destruct (category_column df _ _ _ class_churned) as (ch & Fh & Hh).
  exists df, (mkframe (growth_index df) (df_table df)), cr, ch.
  split; [exact P|]. split; [exact T|]. split; [exact Fr|].
  split; [exact Fh|].
  cbn [index]. intros i p p' Hp L. destruct (Hidx i p Hp) as [_ Hop].
  do 2 eexists. split; [exact (proj1 (Hr i p Hp))|].
  split; [exact (proj1 (Hh i p Hp))|].
  split; [apply resurrected_events|apply churned_events]; assumption.
Qed.

Lemma resurrected_and_churned_events_witness :
  exists self',
    fit (init Tm true) sample_events None = Ok self'
    /\ exists df t resurrected churned,
         prepare (self_period (init Tm true)) (self_simple (init Tm true))
           sample_events = Ok df
         /\ GrowthAccountingPmf.df self' = Some t
         /\ find_col "resurrected" (cols t) = Some resurrected
         /\ find_col "churned" (cols t) = Some churned
         /\ nth_error (index t) 1 = Some feb
         /\ latest_before df jan feb
         /\ forall i p p',
              nth_error (index t) i = Some p -> latest_before df p' p ->
              exists qr qh,
                nth_error resurrected i = Some (Fin qr)
                /\ nth_error churned i = Some (Fin qh)
                /\ (qr == input_sum (returning_events df p p'))%Q
                /\ (qh == - input_sum (events_of_idle df p' p))%Q.
Proof.
  remember (fit (init Tm true) sample_events None) as r eqn:Er.
  destruct r as [self'|e]; [|vm_compute in Er; discriminate].
  exists self'. split; [reflexivity|].
  destruct (resurrected_and_churned_events (init Tm true) sample_events None
              self' (eq_sym Er))
    as (df & t & resurrected & churned
        & P & T & F0 & F1 & Hcells).
  assert (S : nth_error (index t) 1 = Some feb /\ latest_before df jan feb).
  { clear - P T Er. vm_compute in P. injection P as <-.
    vm_compute in Er. injection Er as ->.
    cbn [GrowthAccountingPmf.df] in T. injection T as <-.
    split; [reflexivity|exact sample_latest]. }
  exists df, t, resurrected, churned.
  split; [exact P|]. split; [exact T|].
  split; [exact F0|].
  split; [exact F1|].
  split; [exact (proj1 S)|]. split; [exact (proj2 S)|]. exact Hcells.
Defined.





End GrowthFlows.

(** * Signs of the growth categories, and the first row of the table *)

Module GrowthSigns.
Import OrderFacts ListFacts PrepareFacts GridFacts GrowthRows GrowthColumns
       GrowthRates GrowthReconciliation GrowthAccountingPmf GrowthHistory
       GrowthEvents GrowthCategories GrowthFlows PrepareOrder.

Lemma Qpos_b_true x : Qpos_b x = true -> (0 < x)%Q.
Proof.
  unfold Qpos_b. intros H. apply negb_true_iff in H.
  apply Qnot_le_lt. intros L. apply Qle_bool_iff in L. congruence.
Qed.

Lemma Qneg_b_true x : Qneg_b x = true -> (x < 0)%Q.
Proof.
  unfold Qneg_b. intros H. apply negb_true_iff in H.
  apply Qnot_le_lt. intros L. apply Qle_bool_iff in L. congruence.
Qed.

Lemma expansion_row_sign v :
  v_revstatus v = revstatus_of (v_revchange v) ->
  (0 <= contrib is_expansion v_revchange v)%Q.
Proof.
  intros Es. unfold contrib, is_expansion. rewrite Es.
  destruct (v_supercolumn v =? 1); cbn [andb]; [|apply Qle_refl].
  destruct (v_revchange v) as [x|]; cbn [revstatus_of];
    [|cbn; apply Qle_refl].
  destruct (Qpos_b x) eqn:E1; cbn.
  - apply Qlt_le_weak, Qpos_b_true, E1.
  - destruct (Qneg_b x); cbn; apply Qle_refl.
Qed.

Lemma contraction_row_sign v :
  v_revstatus v = revstatus_of (v_revchange v) ->
  (contrib is_contraction v_revchange v <= 0)%Q.
Proof.
  intros Es. unfold contrib, is_contraction. rewrite Es.
  destruct (v_supercolumn v =? 1); cbn [andb]; [|apply Qle_refl].
  destruct (v_revchange v) as [x|]; cbn [revstatus_of];
    [|cbn; apply Qle_refl].
  destruct (Qpos_b x) eqn:E1; cbn; [apply Qle_refl|].
  destruct (Qneg_b x) eqn:E2; cbn; [|apply Qle_refl].
  apply Qlt_le_weak, Qneg_b_true, E2.
Qed.

Lemma revenue_cell_nonneg df id p :
  (forall r, In r df -> (0 <= r_input r)%Q) ->
  (0 <= revenue_cell df id p)%Q.
Proof.
  intros H. rewrite revenue_cell_value. unfold input_sum.
  apply qsum_nonneg. intros r Hr. apply H.
  unfold id_period_rows in Hr. apply filter_In in Hr. tauto.
Qed.

Lemma revenue_row_sign df v cond :
  well_prepared df -> (forall r, In r df -> (0 <= r_input r)%Q) ->
  In v (df_revenue df) -> (0 <= contrib cond some_revenue v)%Q.
Proof.
  intros W N Hv.
  destruct (revenue_row_cases df v W Hv) as (_ & _ & Er & _).
  unfold contrib, some_revenue. destruct (cond v); [|apply Qle_refl].
  rewrite Er. apply revenue_cell_nonneg. exact N.
Qed.

Lemma retained_row_sign df v :
  well_prepared df -> (forall r, In r df -> (0 <= r_input r)%Q) ->
  In v (df_revenue df) -> (0 <= contrib is_retained v_retained v)%Q.
Proof.
  intros W N Hv.
  destruct (revenue_row_cases df v W Hv) as (_ & _ & Er & _ & Et & Hc).
  unfold contrib. destruct (is_retained v); [|apply Qle_refl].
  rewrite Et.
  destruct Hc as [(_ & -> & _)|(p' & _ & _ & -> & _)];
    [apply Qle_refl|].
  cbn [retained_of]. rewrite Er.
  set (R := revenue_cell df (v_id v) (v_period_rep v)).
  set (R' := revenue_cell df (v_id v) p').
  destruct (Qneg_b (R - R')).
  - assert (E : (R - 0 == R)%Q) by ring. rewrite E.
    apply revenue_cell_nonneg. exact N.
  - assert (E : (R - (R - R') == R')%Q) by ring. rewrite E.
    apply revenue_cell_nonneg. exact N.
Qed.

Lemma churned_row_sign df v :
  well_prepared df -> (forall r, In r df -> (0 <= r_input r)%Q) ->
  In v (df_revenue df) -> (contrib is_churned v_revchange v <= 0)%Q.
Proof.
  intros W N Hv.
  destruct (revenue_row_cases df v W Hv) as (_ & _ & _ & _ & _ & Hc).
  unfold contrib, is_churned.
  destruct Hc as [(_ & -> & ->)|(p' & _ & _ & -> & ->)];
    [apply Qle_refl|].
  destruct (active df (v_id v) (v_period_rep v)) eqn:A1,
           (active df (v_id v) p') eqn:A2; cbn; try apply Qle_refl.
  rewrite (revenue_cell_idle df _ _ A1).
  assert (E : (0 - revenue_cell df (v_id v) p'
               == - revenue_cell df (v_id v) p')%Q) by ring.
  rewrite E.
  apply (Qopp_le_compat 0). apply revenue_cell_nonneg. exact N.
Qed.

Lemma class_sum_nonneg df cond col p :
  (forall v, In v (df_revenue df) -> (0 <= contrib cond col v)%Q) ->
  (0 <= class_sum cond col p (df_revenue df))%Q.
Proof.
  intros H. rewrite class_sum_qsum. apply qsum_nonneg.
  intros v Hv. apply H. unfold rows_of_period in Hv.
  apply filter_In in Hv. tauto.
Qed.

Lemma class_sum_nonpos df cond col p :
  (forall v, In v (df_revenue df) -> (contrib cond col v <= 0)%Q) ->
  (class_sum cond col p (df_revenue df) <= 0)%Q.
Proof.
  intros H. rewrite class_sum_qsum. apply qsum_nonpos.
  intros v Hv. apply H. unfold rows_of_period in Hv.
  apply filter_In in Hv. tauto.
Qed.

Lemma row_status df v :
  well_prepared df -> In v (df_revenue df) ->
  v_revstatus v = revstatus_of (v_revchange v).
Proof.
  intros W Hv. destruct (revenue_row_cases df v W Hv) as (_ & _ & _ & E & _).
  exact E.
Qed.

(** The quantities of df are those of the dataset, or 1 in a simple
    model. *)
Lemma prepared_inputs period simple data df :
  prepare period simple data = Ok df ->
  simple = true \/ (forall e, In e data -> (0 <= ev_quantity e)%Q) ->
  forall r, In r df -> (0 <= r_input r)%Q.
Proof.
  intros P N r Hr.
  destruct (Forall2_In_r _ _ _ r (prepare_rows _ _ _ _ P) Hr)
    as ([i e] & Hin & _ & _ & Ev & _).
  rewrite Ev. cbn [snd]. destruct N as [-> |N]; [discriminate|].
  destruct simple; [discriminate|]. apply N.
  eapply enumerate_In. exact Hin.
Qed.

(** In every row of the table 'expansion' is never negative and
    'contraction' never positive.  When no quantity of the dataset is
    negative (as in a simple model, where every quantity is 1), 'new',
    'resurrected' and 'retained' are never negative and 'churned' is never
    positive. *)
Theorem category_signs (self : GrowthAccounting) (data : list event)
  (input : option string) (self' : GrowthAccounting) :
  fit self data input = Ok self' ->
  exists t new resurrected expansion contraction retained churned,
    GrowthAccountingPmf.df self' = Some t
    /\ find_col "new" (cols t) = Some new
    /\ find_col "resurrected" (cols t) = Some resurrected
    /\ find_col "expansion" (cols t) = Some expansion
    /\ find_col "contraction" (cols t) = Some contraction
    /\ find_col "retained" (cols t) = Some retained
    /\ find_col "churned" (cols t) = Some churned
    /\ forall i p,
         nth_error (index t) i = Some p ->
         exists qn qr qe qc qk qh,
           nth_error new i = Some (Fin qn)
           /\ nth_error resurrected i = Some (Fin qr)
           /\ nth_error expansion i = Some (Fin qe)
           /\ nth_error contraction i = Some (Fin qc)
           /\ nth_error retained i = Some (Fin qk)
           /\ nth_error churned i = Some (Fin qh)
           /\ (0 <= qe)%Q /\ (qc <= 0)%Q
           /\ (self_simple self = true
               \/ (forall e, In e data -> (0 <= ev_quantity e)%Q) ->
               (0 <= qn)%Q /\ (0 <= qr)%Q /\ (0 <= qk)%Q /\ (qh <= 0)%Q).
Proof.
  intros H. destruct (fitted_table _ _ _ _ H) as (df & P & W & T & Hidx).
  destruct (category_column df _ _ _ class_new) as (cn & Fn & Hn).
  destruct (category_column df _ _ _ class_resurrected) as (cr & Fr & Hr).
  destruct (category_column df _ _ _ class_expansion) as (ce & Fe & He).
  destruct (category_column df _ _ _ class_contraction) as (cc & Fc & Hc).
  destruct (category_column df _ _ _ class_retained) as (ck & Fk & Hk).
  destruct (category_column df _ _ _ class_churned) as (ch & Fh & Hh).
  exists (mkframe (growth_index df) (df_table df)), cn, cr, ce, cc, ck, ch.
  split; [exact T|]. cbn [cols index].
  do 6 (split; [assumption|]).
  intros i p Hp. do 6 eexists.
  split; [exact (proj1 (Hn i p Hp))|].
  split; [exact (proj1 (Hr i p Hp))|].
  split; [exact (proj1 (He i p Hp))|].
  split; [exact (proj1 (Hc i p Hp))|].
  split; [exact (proj1 (Hk i p Hp))|].
  split; [exact (proj1 (Hh i p Hp))|].
  split.
  { apply class_sum_nonneg. intros v Hv.
    apply expansion_row_sign, (row_status df v W Hv). }
  split.
  { apply class_sum_nonpos. intros v Hv.
    apply contraction_row_sign, (row_status df v W Hv). }
  intros N. pose proof (prepared_inputs _ _ _ _ P N) as Nd.
  split; [apply class_sum_nonneg; intros v Hv;
          apply (revenue_row_sign df v _ W Nd Hv)|].
  split; [apply class_sum_nonneg; intros v Hv;
          apply (revenue_row_sign df v _ W Nd Hv)|].
  split; [apply class_sum_nonneg; intros v Hv;
          apply (retained_row_sign df v W Nd Hv)|].
  apply class_sum_nonpos. intros v Hv.
  apply (churned_row_sign df v W Nd Hv).
Qed.

Lemma category_signs_witness :
  exists self',
    fit (init Tm true) sample_events None = Ok self'
    /\ (self_simple (init Tm true) = true
        \/ (forall e, In e sample_events -> (0 <= ev_quantity e)%Q))
    /\ exists t new resurrected expansion contraction retained churned,
         GrowthAccountingPmf.df self' = Some t
         /\ find_col "new" (cols t) = Some new
         /\ find_col "resurrected" (cols t) = Some resurrected
         /\ find_col "expansion" (cols t) = Some expansion
         /\ find_col "contraction" (cols t) = Some contraction
         /\ find_col "retained" (cols t) = Some retained
         /\ find_col "churned" (cols t) = Some churned
         /\ forall i p,
              nth_error (index t) i = Some p ->
              exists qn qr qe qc qk qh,
                nth_error new i = Some (Fin qn)
                /\ nth_error resurrected i = Some (Fin qr)
                /\ nth_error expansion i = Some (Fin qe)
                /\ nth_error contraction i = Some (Fin qc)
                /\ nth_error retained i = Some (Fin qk)
                /\ nth_error churned i = Some (Fin qh)
                /\ (0 <= qe)%Q /\ (qc <= 0)%Q
                /\ (self_simple (init Tm true) = true
                    \/ (forall e, In e sample_events ->
                                  (0 <= ev_quantity e)%Q) ->
                    (0 <= qn)%Q /\ (0 <= qr)%Q /\ (0 <= qk)%Q
                    /\ (qh <= 0)%Q).
Proof.
  remember (fit (init Tm true) sample_events None) as r eqn:Er.
  destruct r as [self'|e]; [|vm_compute in Er; discriminate].
  exists self'. split; [reflexivity|].
  split; [left; reflexivity|].
  apply (category_signs (init Tm true) sample_events None self').
  symmetry. exact Er.
Defined.

(** The first row of the table is the earliest period of the dataset, and
    its whole total is new: 'new' equals 'total', the quantity of all the
    events of that period, while 'resurrected', 'expansion',
    'contraction', 'retained' and 'churned' are 0. *)
Theorem first_period_all_new (self : GrowthAccounting) (data : list event)
  (input : option string) (self' : GrowthAccounting) :
  fit self data input = Ok self' ->
  exists df t total new resurrected expansion contraction retained churned,
    prepare (self_period self) (self_simple self) data = Ok df
    /\ GrowthAccountingPmf.df self' = Some t
    /\ find_col "total" (cols t) = Some total
    /\ find_col "new" (cols t) = Some new
    /\ find_col "resurrected" (cols t) = Some resurrected
    /\ find_col "expansion" (cols t) = Some expansion
    /\ find_col "contraction" (cols t) = Some contraction
    /\ find_col "retained" (cols t) = Some retained
    /\ find_col "churned" (cols t) = Some churned
    /\ (data <> [] -> index t <> [])
    /\ forall p rest,
         index t = p :: rest ->
         (forall r, In r df -> date_leb p (r_period r) = true)
         /\ exists q,
              nth_error total 0 = Some (Fin q)
              /\ nth_error new 0 = Some (Fin q)
              /\ (q == input_sum (events_of_period p df))%Q
              /\ nth_error resurrected 0 = Some (Fin 0)
              /\ nth_error expansion 0 = Some (Fin 0)
              /\ nth_error contraction 0 = Some (Fin 0)
              /\ nth_error retained 0 = Some (Fin 0)
              /\ nth_error churned 0 = Some (Fin 0).
Proof.
  intros H. destruct (fitted_table _ _ _ _ H) as (df & P & W & T & Hidx).
  destruct (category_column df _ _ _ class_new) as (cn & Fn & Hn).
  destruct (category_column df _ _ _ class_resurrected) as (cr & Fr & Hr).
  destruct (category_column df _ _ _ class_expansion) as (ce & Fe & He).
  destruct (category_column df _ _ _ class_contraction) as (cc & Fc & Hc).
  destruct (category_column df _ _ _ class_retained) as (ck & Fk & Hk).
  destruct (category_column df _ _ _ class_churned) as (ch & Fh & Hh).
  exists df, (mkframe (growth_index df) (df_table df)),
    (replace_inf (c_total df)), cn, cr, ce, cc, ck, ch.
  split; [exact P|]. split; [exact T|]. cbn [cols index].
  split; [reflexivity|]. do 6 (split; [assumption|]).
  split.
  { intros Hd Hi. destruct data as [|e data]; [congruence|].
    destruct (prepare_event_row _ _ _ _ e P (or_introl eq_refl))
      as (r & Hr' & _).
    assert (X : In (r_cohort r) (growth_index df)).
    { apply growth_index_In. exists r. auto. }
    rewrite Hi in X. destruct X. }
  intros p rest Hi.
  assert (H0 : nth_error (growth_index df) 0 = Some p)
    by (rewrite Hi; reflexivity).
  destruct (Hidx 0%nat p H0) as [Hoc Hop].
  assert (Hmin : forall c, observed_cohort df c -> date_leb p c = true).
  { intros c Hc'. apply growth_index_In in Hc'. rewrite Hi in Hc'.
    destruct Hc' as [<- |Hc']; [apply date_leb_refl|].
    pose proof (growth_index_sorted df) as S. rewrite Hi in S.
    apply StronglySorted_inv in S. destruct S as [_ Hall].
    rewrite Forall_forall in Hall. apply date_lt_le, Hall, Hc'. }
  split.
  { intros r Hr'. eapply date_leb_trans;
      [apply Hmin; exists r; auto|exact (cohort_before_period df r W Hr')]. }
  assert (Hnew : forall v, In v (rows_of_period p (df_revenue df)) ->
                           v_supercolumn v = 3).
  { intros v Hv. unfold rows_of_period in Hv. apply filter_In in Hv.
    destruct Hv as [Hv Ep]. apply date_eqb_eq in Ep.
    destruct (revenue_row_cases df v W Hv)
      as ((r0 & Hr0 & _ & Ec0) & _ & _ & _ & _ & Hcase).
    destruct Hcase as [(_ & _ & E)|(p' & (_ & Lt' & _) & Hc' & _)];
      [exact E|]. exfalso. rewrite Ep in Lt'.
    assert (X : date_leb p p' = true).
    { eapply date_leb_trans; [|exact Hc']. apply Hmin.
      exists r0. auto. }
    exact (date_lt_not_leb p' p Lt' X). }
  assert (Hnone : forall cond,
            (forall v, v_supercolumn v = 3 -> cond v = false) ->
            filter cond (rows_of_period p (df_revenue df)) = []).
  { intros cond Hcond. apply filter_false. intros v Hv.
    apply Hcond, Hnew, Hv. }
  exists (class_sum (fun _ => true) some_revenue p (df_revenue df)).
  split.
  { rewrite total_cells. unfold c_total.
    rewrite (category_nth _ _ _ _ 0 p H0).
    destruct (revenue_row_of_cohort df p W Hoc) as (v & Hv & Ev).
    assert (X : In v (filter (fun _ => true)
                        (rows_of_period p (df_revenue df)))).
    { apply filter_In. split; [|reflexivity].
      apply filter_In. split; [exact Hv|]. apply date_eqb_eq. exact Ev. }
    destruct (filter _ (rows_of_period p (df_revenue df)));
      [destruct X|reflexivity]. }
  split.
  { rewrite (proj1 (Hn 0%nat p H0)). do 2 f_equal. unfold class_sum.
    rewrite (filter_true is_new), (filter_true (fun _ => true));
      [reflexivity|reflexivity|].
    intros v Hv. unfold is_new. rewrite (Hnew v Hv). reflexivity. }
  split; [apply period_total; assumption|].
  split; [apply (proj2 (Hr 0%nat p H0)), Hnone;
          intros v E; unfold is_resurrected; rewrite E; reflexivity|].
  split; [apply (proj2 (He 0%nat p H0)), Hnone;
          intros v E; unfold is_expansion; rewrite E; reflexivity|].
  split; [apply (proj2 (Hc 0%nat p H0)), Hnone;
          intros v E; unfold is_contraction; rewrite E; reflexivity|].
  split; [apply (proj2 (Hk 0%nat p H0)), Hnone;
          intros v E; unfold is_retained; rewrite E; reflexivity|].
  apply (proj2 (Hh 0%nat p H0)), Hnone.
  intros v E. unfold is_churned. rewrite E. reflexivity.
Qed.

Lemma first_period_all_new_witness :
  exists self',
    fit (init Tm true) sample_events None = Ok self'
    /\ exists df t total new resurrected expansion contraction retained
              churned,
         prepare (self_period (init Tm true)) (self_simple (init Tm true))
           sample_events = Ok df
         /\ GrowthAccountingPmf.df self' = Some t
         /\ find_col "total" (cols t) = Some total
         /\ find_col "new" (cols t) = Some new
         /\ find_col "resurrected" (cols t) = Some resurrected
         /\ find_col "expansion" (cols t) = Some expansion
         /\ find_col "contraction" (cols t) = Some contraction
         /\ find_col "retained" (cols t) = Some retained
         /\ find_col "churned" (cols t) = Some churned
         /\ (sample_events <> [] -> index t <> [])
         /\ forall p rest,
              index t = p :: rest ->
              (forall r, In r df -> date_leb p (r_period r) = true)
              /\ exists q,
                   nth_error total 0 = Some (Fin q)
                   /\ nth_error new 0 = Some (Fin q)
                   /\ (q == input_sum (events_of_period p df))%Q
                   /\ nth_error resurrected 0 = Some (Fin 0)
                   /\ nth_error expansion 0 = Some (Fin 0)
                   /\ nth_error contraction 0 = Some (Fin 0)
                   /\ nth_error retained 0 = Some (Fin 0)
                   /\ nth_error churned 0 = Some (Fin 0).
Proof.
  remember (fit (init Tm true) sample_events None) as r eqn:Er.
  destruct r as [self'|e]; [|vm_compute in Er; discriminate].
  exists self'. split; [reflexivity|].
  apply (first_period_all_new (init Tm true) sample_events None self').
  symmetry. exact Er.
Defined.

End GrowthSigns.

(** * The metric columns do not depend on how they were asked for *)

Module MetricColumns.
Import OrderFacts ListFacts PrepareFacts GridFacts CohortsFacts CohortsPmf.
Import CohortColumns FitHow.

Lemma canonical_set df name v cs :
  columns_canonical df cs -> metric_column df name = Some v ->
  columns_canonical df (set_col name v cs).
Proof.
  intros H E n col. rewrite find_col_set_col.
  destruct (String.eqb_spec name n) as [<-|N]; [|apply H].
  intros X. injection X as <-. exact E.
Qed.

Ltac canon H :=
  repeat (apply canonical_set; [|reflexivity]); try exact H.

Lemma canonical_with_total df cs :
  columns_canonical df cs -> columns_canonical df (with_total df cs).
Proof.
  intros H. unfold with_total. destruct (has_col "total" cs); [exact H|].
  canon H.
Qed.

Lemma canonical_with_unique df cs :
  columns_canonical df cs -> columns_canonical df (with_unique_users df cs).
Proof.
  intros H. unfold with_unique_users.
  destruct (has_col "unique_users" cs); [exact H|]. canon H.
Qed.

Lemma item_columns_canonical df item cs cs' :
  columns_canonical df cs -> item_columns df item cs = Some cs' ->
  columns_canonical df cs'.
Proof.
  intros H E. unfold item_columns in E.
  repeat match type of E with
  | (if String.eqb ?a ?b then _ else _) = _ =>
      destruct (String.eqb a b)
  | (if has_col ?a ?b then _ else _) = _ => destruct (has_col a b)
  end; try discriminate; injection E as <-.
  - canon H.
  - canon (canonical_with_total df cs H).
  - canon (canonical_with_total df cs H).
  - canon H.
  - canon H.
  - canon (canonical_with_unique df _ (canonical_with_total df cs H)).
Qed.

Lemma how_columns_canonical df how :
  forall cs cs', columns_canonical df cs ->
                 how_columns df how cs = Some cs' ->
                 columns_canonical df cs'.
Proof.
  induction how as [|item how IH]; intros cs cs' H E; cbn in E.
  - injection E as <-. exact H.
  - destruct (item_columns df item cs) as [cs1|] eqn:E1; [|discriminate].
    exact (IH cs1 cs' (item_columns_canonical df item cs cs1 H E1) E).
Qed.

Lemma fit_canonical self data column_input how self' :
  fit self data column_input how = Ok self' ->
  exists df cs,
    prepare (self_period self) (self_simple self) data = Ok df
    /\ df_cohorts self' = Some (mkframe (grid df) cs)
    /\ df_period_cohort self' = Some df
    /\ columns_canonical df cs.
Proof.
  intros H.
  assert (G : negb (self_simple self) && not_given column_input = false).
  { unfold fit in H.
    destruct (negb (self_simple self) && not_given column_input);
      [discriminate|reflexivity]. }
  destruct (prepare (self_period self) (self_simple self) data) as [df|e]
    eqn:P.
  2: { unfold fit in H. rewrite G, P in H. discriminate. }
  pose proof (fit_columns self data column_input how df G P) as C.
  destruct (how_columns df how []) as [cs|] eqn:E.
  2: { destruct C as (e & E'). congruence. }
  destruct C as [E' _]. rewrite E' in H. injection H as <-.
  exists df, cs. split; [reflexivity|]. split; [reflexivity|].
  split; [reflexivity|].
  apply (how_columns_canonical df how [] cs); [|exact E].
  intros n col X. discriminate X.
Qed.

(** Two fits of the same data under the same period and model give the
    same grid, and every metric column that both tables hold has the same
    values: a column does not depend on the other items of [how], on
    their order, or on whether it was asked for or computed because
    another metric needs it. *)
Theorem metrics_independent_of_how (self1 self2 : Cohorts)
  (data : list event) (input1 input2 : option string)
  (how1 how2 : list string) (fitted1 fitted2 : Cohorts) :
  self_period self1 = self_period self2 ->
  self_simple self1 = self_simple self2 ->
  fit self1 data input1 how1 = Ok fitted1 ->
  fit self2 data input2 how2 = Ok fitted2 ->
  exists f1 f2,
    df_cohorts fitted1 = Some f1 /\ df_cohorts fitted2 = Some f2
    /\ df_period_cohort fitted1 = df_period_cohort fitted2
    /\ keys f1 = keys f2
    /\ forall name c1 c2,
         find_col name (cols f1) = Some c1 ->
         find_col name (cols f2) = Some c2 -> c1 = c2.
Proof.
  intros Ep Es H1 H2.
  destruct (fit_canonical _ _ _ _ _ H1) as (df1 & cs1 & P1 & F1 & D1 & C1).
  destruct (fit_canonical _ _ _ _ _ H2) as (df2 & cs2 & P2 & F2 & D2 & C2).
  rewrite Ep, Es, P2 in P1. injection P1 as <-.
  exists (mkframe (grid df2) cs1), (mkframe (grid df2) cs2).
  split; [exact F1|]. split; [exact F2|]. split; [congruence|].
  split; [reflexivity|]. cbn [cols].
  intros name c1 c2 X1 X2.
  apply C1 in X1. apply C2 in X2. congruence.
Qed.

Lemma metrics_independent_of_how_witness :
  exists fitted1 fitted2,
    self_period (init Tm true) = self_period (init Tm true)
    /\ self_simple (init Tm true) = self_simple (init Tm true)
    /\ fit (init Tm true) sample_events None
         ["per_user"; "churn_total"]%string = Ok fitted1
    /\ fit (init Tm true) sample_events None
         ["total"; "unique_users"; "per_user"]%string = Ok fitted2
    /\ exists f1 f2,
         df_cohorts fitted1 = Some f1 /\ df_cohorts fitted2 = Some f2
         /\ df_period_cohort fitted1 = df_period_cohort fitted2
         /\ keys f1 = keys f2
         /\ forall name c1 c2,
              find_col name (cols f1) = Some c1 ->
              find_col name (cols f2) = Some c2 -> c1 = c2.
Proof.
  remember (fit (init Tm true) sample_events None
              ["per_user"; "churn_total"]%string) as r1 eqn:E1.
  destruct r1 as [fitted1|e]; [|vm_compute in E1; discriminate].
  remember (fit (init Tm true) sample_events None
              ["total"; "unique_users"; "per_user"]%string) as r2 eqn:E2.
  destruct r2 as [fitted2|e]; [|vm_compute in E2; discriminate].
  exists fitted1, fitted2.
  split; [reflexivity|]. split; [reflexivity|]. split; [reflexivity|].
  split; [reflexivity|].
  exact (metrics_independent_of_how (init Tm true) (init Tm true)
           sample_events None None _ _ fitted1 fitted2 eq_refl eq_refl
           (eq_sym E1) (eq_sym E2)).
Defined.

End MetricColumns.

(** * Bounds of the ratios of the growth accounting *)

Module GrowthRatios.
Import OrderFacts ListFacts PrepareFacts GridFacts GrowthRows GrowthColumns
       GrowthRates GrowthReconciliation GrowthAccountingPmf GrowthHistory
       GrowthEvents GrowthCategories GrowthFlows GrowthSigns.















End GrowthRatios.

(** * The cohort matrix of transform_pd and transform_np *)

Module CohortMatrix.
Import OrderFacts ListFacts PrepareFacts GridFacts CohortsFacts CohortsPmf.
Import CohortColumns FitHow CohortCells CohortRetention MetricColumns.
Import Transform.

Lemma wlabel_compare_eq a b : wlabel_compare a b = Eq <-> a = b.
Proof.
  destruct a as [x|x], b as [y|y]; cbn; split; intros H;
    try discriminate.
  - apply date_compare_eq in H. congruence.
  - injection H as ->. apply date_compare_eq. reflexivity.
  - apply Z.compare_eq_iff in H. congruence.
  - injection H as ->. apply Z.compare_refl.
Qed.

Lemma wlabel_compare_antisym a b :
  wlabel_compare b a = CompOpp (wlabel_compare a b).
Proof.
  destruct a as [x|x], b as [y|y]; cbn; try reflexivity.
  - apply date_compare_antisym.
  - apply Z.compare_antisym.
Qed.

Lemma wlabel_compare_trans a b c :
  wlabel_compare a b = Lt -> wlabel_compare b c = Lt ->
  wlabel_compare a c = Lt.
Proof.
  destruct a as [x|x], b as [y|y], c as [z|z]; cbn; try discriminate;
    try reflexivity.
  - apply date_compare_trans.
  - apply Z_compare_trans.
Qed.

Lemma key_compare_eq a b : key_compare a b = Eq <-> a = b.
Proof.
  apply pair_compare_eq; [apply date_compare_eq|apply wlabel_compare_eq].
Qed.

Section Lookup.
Context {K V : Type} (cmp : K -> K -> comparison).
Hypothesis cmp_eq : forall a b, cmp a b = Eq <-> a = b.

Lemma lookup_nodup (s : list (K * V)) :
  NoDup (map fst s) ->
  forall r k v, nth_error s r = Some (k, v) -> lookup cmp k s = Some v.
Proof.
  induction s as [|[k0 v0] s IH]; intros Hn r k v Hr;
    [destruct r; discriminate|].
  cbn [map fst] in Hn. apply NoDup_cons_iff in Hn. destruct Hn as [Hk0 Hn].
  cbn [lookup]. destruct r as [|r]; cbn in Hr.
  - injection Hr as -> ->. rewrite (cmp_eqb_refl cmp cmp_eq). reflexivity.
  - destruct (cmp_eqb cmp k0 k) eqn:E.
    + apply (cmp_eqb_true cmp cmp_eq) in E. subst k0. exfalso. apply Hk0.
      apply in_map_iff. exists (k, v). split; [reflexivity|].
      eapply nth_error_In. exact Hr.
    + exact (IH Hn r k v Hr).
Qed.

Lemma lookup_absent (s : list (K * V)) k :
  ~ In k (map fst s) -> lookup cmp k s = None.
Proof.
  induction s as [|[k0 v0] s IH]; intros H; [reflexivity|].
  cbn [lookup]. destruct (cmp_eqb cmp k0 k) eqn:E.
  - apply (cmp_eqb_true cmp cmp_eq) in E. subst k0. exfalso. apply H.
    left. reflexivity.
  - apply IH. intros X. apply H. right. exact X.
Qed.
End Lookup.

Lemma has_duplicates_NoDup l : NoDup l -> has_duplicates l = false.
Proof.
  induction 1 as [|x l Hx Hn IH]; [reflexivity|]. cbn [has_duplicates].
  rewrite IH, orb_false_r.
  destruct (existsb (cmp_eqb key_compare x) l) eqn:E; [|reflexivity].
  apply existsb_exists in E. destruct E as (y & Hy & E).
  apply (cmp_eqb_true key_compare key_compare_eq) in E. subst y.
  contradiction.
Qed.

(** The index that set_index builds over the grid has no duplicate. *)
Lemma NoDup_map_injective {A B} (f : A -> B) l :
  (forall x y, In x l -> In y l -> f x = f y -> x = y) ->
  NoDup l -> NoDup (map f l).
Proof.
  intros Hf. induction 1 as [|x l Hx Hn IH]; cbn; constructor.
  - intros H. apply in_map_iff in H. destruct H as (y & E & Hy).
    assert (y = x) by (apply Hf; [right; exact Hy|left; reflexivity|exact E]).
    subst y. contradiction.
  - apply IH. intros a b Ha Hb. apply Hf; right; assumption.
Qed.

Lemma NoDup_map_eq {A B} (f : A -> B) l x y :
  NoDup (map f l) -> In x l -> In y l -> f x = f y -> x = y.
Proof.
  induction l as [|a l IH]; intros Hn Hx Hy E; [destruct Hx|].
  cbn in Hn. apply NoDup_cons_iff in Hn. destruct Hn as [Ha Hn].
  destruct Hx as [->|Hx], Hy as [->|Hy]; auto.
  - exfalso. apply Ha. rewrite E. apply in_map. exact Hy.
  - exfalso. apply Ha. rewrite <- E. apply in_map. exact Hx.
Qed.

Lemma NoDup_by_blocks (l : list cell_key) (g : cell_key -> Z) :
  (forall c, NoDup (map g (rows_of_cohort c l))) ->
  NoDup (map (fun k => (cohort k, g k)) l).
Proof.
  induction l as [|x l IH]; intros H; cbn; constructor.
  - intros X. apply in_map_iff in X. destruct X as (y & E & Hy).
    injection E as Ec Eg.
    specialize (H (cohort x)). unfold rows_of_cohort in H. cbn in H.
    rewrite (proj2 (date_eqb_eq _ _) eq_refl) in H. cbn in H.
    apply NoDup_cons_iff in H. destruct H as [H _]. apply H.
    rewrite <- Eg. apply in_map. apply filter_In. split; [exact Hy|].
    apply date_eqb_eq. exact Ec.
  - apply IH. intros c. specialize (H c). unfold rows_of_cohort in *.
    cbn in H. destruct (date_eqb (cohort x) c); [|exact H].
    cbn in H. apply NoDup_cons_iff in H. tauto.
Qed.

Lemma nums_NoDup {A} (l : list A) : NoDup (nums l).
Proof.
  unfold nums. apply NoDup_map_injective; [|apply seq_NoDup].
  intros x y _ _ E. apply Nat2Z.inj. exact E.
Qed.

Lemma index_NoDup df w : NoDup (map (index_key w) (grid df)).
Proof.
  destruct (grid_spec df) as (cs & ps & _ & _ & Scs & Sps & Hg & _ & Hnum).
  destruct w.
  - apply NoDup_map_injective; [|apply grid_NoDup].
    intros x y Hx Hy E. unfold index_key in E. cbn in E.
    injection E as Ec Ep.
    apply (NoDup_map_eq key2 (grid df)); try assumption.
    + rewrite Hg.
      apply grid_pairs_NoDup; apply sorted_dates_NoDup; assumption.
    + unfold key2. congruence.
  - assert (X : NoDup (map (fun k => (cohort k, period_num k)) (grid df))).
    { apply NoDup_by_blocks. intros c. rewrite Hnum.
      apply nums_NoDup. }
    replace (map (index_key by_period_num) (grid df))
      with (map (fun p : date * Z => (fst p, Wnum (snd p)))
              (map (fun k => (cohort k, period_num k)) (grid df)))
      by (rewrite map_map; reflexivity).
    apply NoDup_map_injective; [|exact X].
    intros [a b] [a' b'] _ _ E. cbn in E. congruence.
Qed.

(** transform_pd on a table whose column [label] is a metric column *)

Lemma canonical_not_key df cs label col :
  columns_canonical df cs -> find_col label cs = Some col ->
  String.eqb label "period" = false
  /\ String.eqb label "period_num" = false.
Proof.
  intros C H. apply C in H. split.
  - destruct (String.eqb_spec label "period") as [->|]; [|reflexivity].
    discriminate H.
  - destruct (String.eqb_spec label "period_num") as [->|]; [|reflexivity].
    discriminate H.
Qed.

Lemma indexed_keys w (ks : list cell_key) (col : column) :
  List.length col = List.length ks ->
  map fst
    (map (fun kc : cell_key * fval => (index_key w (fst kc), Val (snd kc)))
         (combine ks col))
  = map (index_key w) ks.
Proof.
  intros L. rewrite map_map. cbn [fst].
  rewrite <- (map_map fst (index_key w)).
  rewrite map_fst_combine by (symmetry; exact L). reflexivity.
Qed.

Lemma transform_pd_unfold self f label col w :
  df_cohorts self = Some f -> find_col label (cols f) = Some col ->
  List.length col = List.length (keys f) ->
  String.eqb label "period" = false ->
  String.eqb label "period_num" = false ->
  NoDup (map (index_key w) (keys f)) ->
  transform_pd self label w
  = Ok (mkmatrix
          (distinct_sorted date_compare (map cohort (keys f)))
          (distinct_sorted wlabel_compare (map (way_key w) (keys f)))
          (map (fun r =>
                  map (fun c =>
                         match lookup key_compare (r, c)
                                 (map (fun kc : cell_key * fval =>
                                         (index_key w (fst kc),
                                          Val (snd kc)))
                                      (combine (keys f) col)) with
                         | Some v => v
                         | None => Val NaN
                         end)
                      (distinct_sorted wlabel_compare
                         (map (way_key w) (keys f))))
               (distinct_sorted date_compare (map cohort (keys f))))).
Proof.
  intros F Hc L E1 E2 Hn. unfold transform_pd, attr_df_cohorts.
  rewrite F. cbn [bind].
  assert (Ei : indexed_label w label f
               = Ok (map (fun kc : cell_key * fval =>
                            (index_key w (fst kc), Val (snd kc)))
                         (combine (keys f) col))).
  { unfold indexed_label, get_col. rewrite Hc.
    destruct w; rewrite ?E1, ?E2; reflexivity. }
  rewrite Ei. cbn [bind]. unfold unstack.
  assert (Ek : map fst
                 (map (fun kc : cell_key * fval =>
                         (index_key w (fst kc), Val (snd kc)))
                      (combine (keys f) col))
               = map (index_key w) (keys f)).
  { apply indexed_keys. exact L. }
  rewrite Ek, (has_duplicates_NoDup _ Hn).
  assert (Er : map (fun x : date * wlabel * mcell => fst (fst x))
                 (map (fun kc : cell_key * fval =>
                         (index_key w (fst kc), Val (snd kc)))
                      (combine (keys f) col))
               = map cohort (keys f)).
  { rewrite <- (map_map fst fst), Ek, map_map. reflexivity. }
  assert (Ec : map (fun x : date * wlabel * mcell => snd (fst x))
                 (map (fun kc : cell_key * fval =>
                         (index_key w (fst kc), Val (snd kc)))
                      (combine (keys f) col))
               = map (way_key w) (keys f)).
  { rewrite <- (map_map fst snd), Ek, map_map. reflexivity. }
  rewrite Er, Ec. reflexivity.
Qed.

Lemma matrix_cell_map {R C} (g : R -> C -> mcell) rows cols ix cl i j r c :
  nth_error rows i = Some r -> nth_error cols j = Some c ->
  matrix_cell (mkmatrix ix cl (map (fun r => map (g r) cols) rows)) i j
  = Some (g r c).
Proof.
  intros Hr Hc. unfold matrix_cell. cbn [m_cells].
  rewrite nth_error_map, Hr. cbn [option_map].
  rewrite nth_error_map, Hc. reflexivity.
Qed.

Lemma wlabels_sorted l :
  StronglySorted wlabel_lt (distinct_sorted wlabel_compare l).
Proof.
  apply distinct_sorted_sorted;
    first [exact wlabel_compare_eq | exact wlabel_compare_antisym
          | exact wlabel_compare_trans].
Qed.

(** On a fitted object, for a metric column [label] of the table:
    [transform_pd] returns a matrix whose rows are the cohorts and whose
    columns are the periods (or the period numbers), both ascending and
    without repeats.  The cell of a cohort and a column label is the value
    that the table holds in the row of that cohort and label, and NaN
    when the table has no such row; the table has a row for a cohort and a
    period exactly when the period is not before the cohort. *)
Theorem transform_pd_cells (self0 : Cohorts) (data : list event)
  (input : option string) (how : list string) (self : Cohorts)
  (f : frame) (label : string) (col : column) (w : way) :
  fit self0 data input how = Ok self ->
  df_cohorts self = Some f -> find_col label (cols f) = Some col ->
  exists df m,
    prepare (self_period self0) (self_simple self0) data = Ok df
    /\ transform_pd self label w = Ok m
    /\ StronglySorted date_lt (m_index m)
    /\ (forall c, In c (m_index m) <-> observed_cohort df c)
    /\ StronglySorted wlabel_lt (m_columns m)
    /\ (forall x, In x (m_columns m)
                  <-> exists k, In k (keys f) /\ way_key w k = x)
    /\ (forall i j c x,
          nth_error (m_index m) i = Some c ->
          nth_error (m_columns m) j = Some x ->
          exists y,
            matrix_cell m i j = Some y
            /\ (forall r k v,
                  nth_error (keys f) r = Some k -> nth_error col r = Some v ->
                  cohort k = c -> way_key w k = x -> y = Val v)
            /\ ((forall k, In k (keys f) -> cohort k = c ->
                           way_key w k <> x) -> y = Val NaN))
    /\ forall c p,
         observed_cohort df c -> observed_period df p ->
         ((exists k, In k (keys f) /\ cohort k = c /\ period k = p)
          <-> date_leb c p = true).
Proof.
  intros H F Hc.
  destruct (fit_fitted _ _ _ _ _ H) as (df & P & W & Fd).
  destruct (fitted_frame df self Fd) as (D & f' & F' & K & OK).
  assert (f' = f) by congruence. subst f'.
  destruct (fit_canonical _ _ _ _ _ H) as (df' & cs & P' & F'' & _ & Cn).
  assert (df' = df) by congruence. subst df'.
  assert (Ecs : cols f = cs) by (rewrite F in F''; injection F'' as ->;
                                 reflexivity).
  rewrite <- Ecs in Cn.
  destruct (canonical_not_key df (cols f) label col Cn Hc) as [E1 E2].
  pose proof (proj1 OK label col Hc) as L. rewrite <- K in L.
  pose proof (index_NoDup df w) as Hn. rewrite <- K in Hn.
  exists df. eexists. split; [exact P|].
  split; [exact (transform_pd_unfold self f label col w F Hc L E1 E2 Hn)|].
  cbn [m_index m_columns].
  split; [apply dates_sorted|].
  split.
  { intros c. rewrite dates_In, in_map_iff, K. split.
    - intros (k & <- & Hk). exact (proj1 (grid_keys df k Hk)).
    - intros Hco. destruct (grid_first_row df c W Hco) as (j0 & _ & Hj & _).
      exists (mkkey c c 0). split; [reflexivity|].
      eapply nth_error_In. exact Hj. }
  split; [apply wlabels_sorted|].
  split.
  { intros x.
    rewrite (distinct_sorted_In wlabel_compare wlabel_compare_eq).
    rewrite in_map_iff. split; intros (k & A & B); exists k; auto. }
  split.
  { intros i j c x Hi Hj.
    rewrite (matrix_cell_map
               (fun r c0 =>
                  match lookup key_compare (r, c0)
                          (map (fun kc : cell_key * fval =>
                                  (index_key w (fst kc), Val (snd kc)))
                               (combine (keys f) col)) with
                  | Some v => v
                  | None => Val NaN
                  end) _ _ _ _ i j c x Hi Hj).
    eexists. split; [reflexivity|]. split.
    - intros r k v Hk Hv Ec Ex.
      rewrite (lookup_nodup key_compare key_compare_eq _
                 ltac:(rewrite (indexed_keys w (keys f) col L); exact Hn)
                 r (c, x) (Val v)); [reflexivity|].
      rewrite nth_error_map.
      rewrite (nth_error_combine _ _ r k v Hk Hv). cbn [option_map fst snd].
      unfold index_key. rewrite Ec, Ex. reflexivity.
    - intros Hno. rewrite lookup_absent; [reflexivity|exact key_compare_eq|].
      rewrite (indexed_keys w (keys f) col L).
      intros X. apply in_map_iff in X. destruct X as (k & E & Hk).
      unfold index_key in E. injection E as Ec Ex.
      exact (Hno k Hk Ec Ex). }
  intros c p Hco Hpo. rewrite K.
  destruct (grid_spec df) as (cs' & ps & Hcs & Hps & _ & _ & Hg & _).
  split.
  - intros (k & Hk & <- & <-). exact (proj2 (proj2 (grid_keys df k Hk))).
  - intros Hle.
    assert (X : In (c, p) (map key2 (grid df))).
    { rewrite Hg. apply grid_pairs_In. rewrite Hcs, Hps. auto. }
    apply in_map_iff in X. destruct X as (k & E & Hk).
    unfold key2 in E. injection E as Ec Ep. exists k. auto.
Qed.

Lemma transform_pd_cells_witness :
  exists self f col,
    fit (init Tm true) sample_events None ["total"%string] = Ok self
    /\ df_cohorts self = Some f
    /\ find_col "total" (cols f) = Some col
    /\ exists df m,
         prepare (self_period (init Tm true)) (self_simple (init Tm true))
           sample_events = Ok df
         /\ transform_pd self "total" by_period = Ok m
         /\ StronglySorted date_lt (m_index m)
         /\ (forall c, In c (m_index m) <-> observed_cohort df c)
         /\ StronglySorted wlabel_lt (m_columns m)
         /\ (forall x, In x (m_columns m)
                       <-> exists k, In k (keys f)
                                     /\ way_key by_period k = x)
         /\ (forall i j c x,
               nth_error (m_index m) i = Some c ->
               nth_error (m_columns m) j = Some x ->
               exists y,
                 matrix_cell m i j = Some y
                 /\ (forall r k v,
                       nth_error (keys f) r = Some k ->
                       nth_error col r = Some v ->
                       cohort k = c -> way_key by_period k = x ->
                       y = Val v)
                 /\ ((forall k, In k (keys f) -> cohort k = c ->
                                way_key by_period k <> x) ->
                     y = Val NaN))
         /\ forall c p,
              observed_cohort df c -> observed_period df p ->
              ((exists k, In k (keys f) /\ cohort k = c /\ period k = p)
               <-> date_leb c p = true).
Proof.
  remember (fit (init Tm true) sample_events None ["total"%string])
    as r eqn:Er.
  destruct r as [self|e]; [|vm_compute in Er; discriminate].
  remember (df_cohorts self) as o eqn:Eo.
  destruct o as [f|].
  2: { exfalso. vm_compute in Er. injection Er as ->. discriminate. }
  remember (find_col "total" (cols f)) as oc eqn:Ec.
  destruct oc as [col|].
  2: { exfalso. vm_compute in Er. injection Er as ->. cbn in Eo.
       injection Eo as ->. discriminate. }
  exists self, f, col.
  split; [reflexivity|]. split; [symmetry; exact Eo|].
  split; [symmetry; exact Ec|].
  exact (transform_pd_cells (init Tm true) sample_events None
           ["total"%string] self f "total" col by_period (eq_sym Er)
           (eq_sym Eo) (eq_sym Ec)).
Defined.

End CohortMatrix.

(** * The labels that transform_np returns with the matrix *)

Module MatrixLabels.
Import OrderFacts ListFacts PrepareFacts GridFacts CohortsFacts CohortsPmf.
Import CohortColumns FitHow CohortCells CohortRetention MetricColumns.
Import Transform CohortMatrix.

Section Unique.
Context {A : Type} (eqb : A -> A -> bool).
Hypothesis eqb_eq : forall a b, eqb a b = true <-> a = b.

Lemma seen_In x seen : existsb (eqb x) seen = true <-> In x seen.
Proof.
  rewrite existsb_exists. split.
  - intros (y & Hy & E). apply eqb_eq in E. subst y. exact Hy.
  - intros H. exists x. split; [exact H|]. apply eqb_eq. reflexivity.
Qed.

Lemma unique_from_skip seen t rest :
  (forall x, In x t -> In x seen) ->
  unique_from eqb seen (t ++ rest) = unique_from eqb seen rest.
Proof.
  induction t as [|x t IH]; intros H; [reflexivity|].
  cbn [app unique_from].
  rewrite (proj2 (seen_In x seen) (H x (or_introl eq_refl))).
  apply IH. intros y Hy. apply H. right. exact Hy.
Qed.

(** The distinct values of a list made of a first part without repeats
    and a rest that brings nothing new: the first part. *)
Lemma unique_from_prefix a :
  NoDup a ->
  forall seen b,
    (forall x, In x a -> ~ In x seen) ->
    (forall x, In x b -> In x seen \/ In x a) ->
    unique_from eqb seen (a ++ b) = a.
Proof.
  induction 1 as [|x a Hx Hn IH]; intros seen b Hs Hb.
  - cbn [app]. rewrite <- (app_nil_r b), unique_from_skip; [reflexivity|].
    intros y Hy. destruct (Hb y Hy) as [X|[]]. exact X.
  - cbn [app unique_from].
    destruct (existsb (eqb x) seen) eqn:E.
    + apply seen_In in E. exfalso. exact (Hs x (or_introl eq_refl) E).
    + f_equal. apply IH.
      * intros y Hy [<-|Hy']; [contradiction|].
        exact (Hs y (or_intror Hy) Hy').
      * intros y Hy. destruct (Hb y Hy) as [X|[<-|X]];
          [left; right; exact X|left; left; reflexivity|right; exact X].
Qed.

(** The distinct values of a list made of one block per label. *)
Lemma unique_from_blocks (blk : A -> list A) cs :
  NoDup cs ->
  forall seen,
    (forall c, In c cs -> ~ In c seen) ->
    (forall c, In c cs -> blk c <> [] /\ forall x, In x (blk c) -> x = c) ->
    unique_from eqb seen (flat_map blk cs) = cs.
Proof.
  induction 1 as [|c cs Hc Hn IH]; intros seen Hs Hb; [reflexivity|].
  cbn [flat_map].
  destruct (Hb c (or_introl eq_refl)) as [Hne Hall].
  destruct (blk c) as [|x t] eqn:E; [congruence|].
  assert (x = c) by (apply Hall; left; reflexivity). subst x.
  cbn [app unique_from].
  destruct (existsb (eqb c) seen) eqn:X.
  - apply seen_In in X. exfalso. exact (Hs c (or_introl eq_refl) X).
  - f_equal. rewrite unique_from_skip.
    + apply IH.
      * intros c' Hc' [<-|Y]; [contradiction|].
        exact (Hs c' (or_intror Hc') Y).
      * intros c' Hc'. apply Hb. right. exact Hc'.
    + intros y Hy. left. symmetry. apply Hall. right. exact Hy.
Qed.
End Unique.

Section Sorted.
Context {K : Type} (cmp : K -> K -> comparison).
Hypothesis cmp_eq : forall a b, cmp a b = Eq <-> a = b.
Hypothesis cmp_trans :
  forall a b c, cmp a b = Lt -> cmp b c = Lt -> cmp a c = Lt.

Lemma lt_irrefl a : cmp a a <> Lt.
Proof.
  assert (E : cmp a a = Eq) by (apply cmp_eq; reflexivity).
  rewrite E. discriminate.
Qed.

(** Two strictly ascending lists with the same elements are equal. *)
Lemma sorted_same_elements l1 :
  StronglySorted (fun a b => cmp a b = Lt) l1 ->
  forall l2, StronglySorted (fun a b => cmp a b = Lt) l2 ->
             (forall x, In x l1 <-> In x l2) -> l1 = l2.
Proof.
  induction 1 as [|x t1 S1 IH A1]; intros l2 S2 H.
  - destruct l2 as [|y t2]; [reflexivity|].
    destruct (proj2 (H y) (or_introl eq_refl)).
  - destruct S2 as [|y t2 S2 A2].
    { destruct (proj1 (H x) (or_introl eq_refl)). }
    rewrite Forall_forall in A1, A2.
    assert (x = y).
    { destruct (proj1 (H x) (or_introl eq_refl)) as [E|Hx]; [auto|].
      destruct (proj2 (H y) (or_introl eq_refl)) as [E|Hy]; [auto|].
      exfalso. apply (lt_irrefl x).
      exact (cmp_trans x y x (A1 y Hy) (A2 x Hx)). }
    subst y. f_equal. apply IH; [exact S2|].
    intros z. split; intros Hz.
    + destruct (proj1 (H z) (or_intror Hz)) as [<-|X]; [|exact X].
      exfalso. exact (lt_irrefl x (A1 x Hz)).
    + destruct (proj2 (H z) (or_intror Hz)) as [<-|X]; [|exact X].
      exfalso. exact (lt_irrefl x (A2 x Hz)).
Qed.
End Sorted.

Lemma partition_prefix {A} (P : A -> bool) (l : list A) n :
  (forall x, In x (firstn n l) -> P x = true) ->
  (forall x, In x (skipn n l) -> P x = false) ->
  filter P l = firstn n l
  /\ l = filter P l ++ skipn n l.
Proof.
  intros H1 H2.
  assert (E : filter P l = firstn n l).
  { rewrite <- (firstn_skipn n l) at 1. rewrite filter_app.
    rewrite (filter_true P _ H1), (filter_false P _ H2). apply app_nil_r. }
  split; [exact E|]. rewrite E. symmetry. apply firstn_skipn.
Qed.

Lemma firstn_app_length {A} (a b : list A) :
  firstn (List.length a) (a ++ b) = a.
Proof. induction a as [|x a IH]; cbn; [reflexivity|]. rewrite IH. reflexivity. Qed.

Lemma skipn_app_length {A} (a b : list A) :
  skipn (List.length a) (a ++ b) = b.
Proof. induction a as [|x a IH]; cbn; [reflexivity|exact IH]. Qed.

Lemma skipped_In {A} (l : list A) :
  forall n x, In x (skipn n l) -> In x l.
Proof.
  induction l as [|y l IH]; intros [|n] x H; cbn in *;
    try contradiction; [exact H|].
  right. exact (IH n x H).
Qed.

Lemma seq_sorted n : forall s, StronglySorted lt (seq s n).
Proof.
  induction n as [|n IH]; intros s; cbn; constructor; [apply IH|].
  apply Forall_forall. intros x Hx. apply in_seq in Hx. lia.
Qed.

Lemma nums_sorted {A} (l : list A) :
  StronglySorted wlabel_lt (map Wnum (nums l)).
Proof.
  unfold nums. rewrite map_map.
  apply (GrowthRows.sorted_map lt); [|apply seq_sorted].
  intros x y H. unfold wlabel_lt. cbn. apply Z.compare_lt_iff. lia.
Qed.

Lemma nums_In {A} (l : list A) z :
  In z (nums l) <-> 0 <= z < Z.of_nat (List.length l).
Proof.
  unfold nums. rewrite in_map_iff. split.
  - intros (i & <- & Hi). apply in_seq in Hi. lia.
  - intros H. exists (Z.to_nat z). split; [lia|]. apply in_seq. lia.
Qed.

(** The grid, cohort by cohort: the cohorts come in blocks, in ascending
    order, and the block of the earliest cohort already holds every period
    (and every period number) of the grid, in ascending order. *)
Lemma grid_blocks df :
  well_prepared df ->
  exists cs,
    (forall c, In c cs <-> observed_cohort df c)
    /\ StronglySorted date_lt cs
    /\ unique date_eqb (map cohort (grid df)) = cs
    /\ forall w,
         exists a b,
           map (way_key w) (grid df) = a ++ b
           /\ StronglySorted wlabel_lt a
           /\ forall x, In x b -> In x a.
Proof.
  intros W.
  destruct (grid_spec df)
    as (cs & ps & Hcs & Hps & Scs & Sps & Hg & Hper & Hnum).
  exists cs. split; [exact Hcs|]. split; [exact Scs|].
  assert (Hown : forall c, In c cs -> In c (filter (date_leb c) ps)).
  { intros c Hc. apply filter_In. split; [|apply date_leb_refl].
    apply Hps. apply Hcs in Hc. destruct Hc as (r & Hr & <-).
    destruct (cohort_attained df W r Hr) as (r' & Hr' & _ & E).
    exists r'. auto. }
  split.
  { replace (map cohort (grid df))
      with (flat_map (fun c => map (fun _ : date => c)
                                   (filter (date_leb c) ps)) cs).
    - apply (unique_from_blocks date_eqb date_eqb_eq).
      + apply sorted_dates_NoDup. exact Scs.
      + intros c _ [].
      + intros c Hc. split.
        * pose proof (Hown c Hc) as X.
          destruct (filter (date_leb c) ps); [destruct X|discriminate].
        * intros x Hx. apply in_map_iff in Hx. destruct Hx as (y & E & _).
          symmetry. exact E.
    - transitivity (map fst (map key2 (grid df)));
        [|rewrite map_map; reflexivity].
      rewrite Hg. unfold grid_pairs. rewrite map_flat_map.
      apply flat_map_ext_in. intros c _. rewrite map_map. reflexivity. }
  intros w.
  destruct cs as [|c0 cs'].
  { exists [], []. cbn in Hg.
    destruct (grid df); [|discriminate Hg].
    split; [reflexivity|]. split; [constructor|]. intros x []. }
  assert (Hall : filter (date_leb c0) ps = ps).
  { apply filter_true. intros p Hp. apply Hps in Hp.
    destruct Hp as (r & Hr & <-).
    eapply date_leb_trans;
      [|exact (cohort_least df W r r Hr Hr eq_refl)].
    assert (X : In (r_cohort r) (c0 :: cs'))
      by (apply Hcs; exists r; auto).
    destruct X as [<-|X]; [apply date_leb_refl|].
    apply StronglySorted_inv in Scs. destruct Scs as [_ A].
    rewrite Forall_forall in A. apply date_leb_spec. right. apply A, X. }
  assert (Hg' : map key2 (grid df)
                = map (pair c0) ps ++ grid_pairs cs' ps).
  { rewrite Hg. unfold grid_pairs. cbn [flat_map]. rewrite Hall.
    reflexivity. }
  set (n := List.length ps).
  assert (Ln : List.length (map (pair c0) ps) = n) by apply length_map.
  assert (Hf : map key2 (firstn n (grid df)) = map (pair c0) ps).
  { rewrite <- firstn_map, Hg', <- Ln. apply firstn_app_length. }
  assert (Hs : map key2 (skipn n (grid df)) = grid_pairs cs' ps).
  { rewrite <- skipn_map, Hg', <- Ln. apply skipn_app_length. }
  assert (Hnot : ~ In c0 cs').
  { apply sorted_dates_NoDup in Scs. apply NoDup_cons_iff in Scs. tauto. }
  destruct (partition_prefix (fun k => date_eqb (cohort k) c0) (grid df) n)
    as [Ef Eg].
  { intros k Hk. apply date_eqb_eq.
    assert (X : In (key2 k) (map (pair c0) ps))
      by (rewrite <- Hf; apply in_map; exact Hk).
    apply in_map_iff in X. destruct X as (p & E & _).
    unfold key2 in E. congruence. }
  { intros k Hk. destruct (date_eqb (cohort k) c0) eqn:E; [|reflexivity].
    apply date_eqb_eq in E. exfalso. apply Hnot.
    assert (X : In (key2 k) (grid_pairs cs' ps))
      by (rewrite <- Hs; apply in_map; exact Hk).
    unfold key2 in X. apply grid_pairs_In in X. rewrite <- E. tauto. }
  fold (rows_of_cohort c0 (grid df)) in Ef, Eg.
  exists (map (way_key w) (rows_of_cohort c0 (grid df))),
    (map (way_key w) (skipn n (grid df))).
  split; [rewrite <- map_app, <- Eg; reflexivity|].
  assert (Hp0 : map period (rows_of_cohort c0 (grid df)) = ps).
  { rewrite Hper by (left; reflexivity). exact Hall. }
  assert (L0 : List.length (rows_of_cohort c0 (grid df)) = n).
  { rewrite <- (length_map period), Hp0. reflexivity. }
  destruct w.
  - replace (map (way_key by_period) (rows_of_cohort c0 (grid df)))
      with (map Wdate ps)
      by (rewrite <- Hp0, map_map; reflexivity).
    split.
    + apply (GrowthRows.sorted_map date_lt); [|exact Sps].
      intros x y H. exact H.
    + intros x Hx. apply in_map_iff in Hx. destruct Hx as (k & <- & Hk).
      cbn [way_key]. apply in_map. apply Hps.
      apply (proj1 (proj2 (grid_keys df k (skipped_In _ _ _ Hk)))).
  - replace (map (way_key by_period_num) (rows_of_cohort c0 (grid df)))
      with (map Wnum (nums (rows_of_cohort c0 (grid df))))
      by (rewrite <- Hnum, map_map; reflexivity).
    split; [apply nums_sorted|].
    intros x Hx. apply in_map_iff in Hx. destruct Hx as (k & <- & Hk).
    apply skipped_In in Hk. cbn [way_key]. apply in_map.
    apply nums_In. rewrite L0.
    assert (Hkc : In k (rows_of_cohort (cohort k) (grid df))).
    { apply filter_In. split; [exact Hk|]. apply date_eqb_eq. reflexivity. }
    assert (X : In (period_num k)
                  (nums (rows_of_cohort (cohort k) (grid df)))).
    { rewrite <- Hnum. apply in_map. exact Hkc. }
    apply nums_In in X.
    assert (Lc : (List.length (rows_of_cohort (cohort k) (grid df))
                  <= n)%nat).
    { rewrite <- (length_map period).
      rewrite Hper
        by (apply Hcs; exact (proj1 (grid_keys df k Hk))).
      apply filter_length_le. }
    lia.
Qed.

Lemma grid_cohorts df c :
  well_prepared df -> (In c (map cohort (grid df)) <-> observed_cohort df c).
Proof.
  intros W. rewrite in_map_iff. split.
  - intros (k & <- & Hk). exact (proj1 (grid_keys df k Hk)).
  - intros Hco. destruct (grid_first_row df c W Hco) as (j0 & _ & Hj & _).
    exists (mkkey c c 0). split; [reflexivity|].
    eapply nth_error_In. exact Hj.
Qed.

Lemma unique_cohorts df :
  well_prepared df ->
  unique date_eqb (map cohort (grid df))
  = distinct_sorted date_compare (map cohort (grid df)).
Proof.
  intros W. destruct (grid_blocks df W) as (cs & Hcs & Scs & -> & _).
  apply (sorted_same_elements date_compare date_compare_eq
           date_compare_trans); [exact Scs|apply dates_sorted|].
  intros x. rewrite dates_In, (grid_cohorts df x W). apply Hcs.
Qed.

Lemma unique_way_labels df w :
  well_prepared df ->
  unique (cmp_eqb wlabel_compare) (map (way_key w) (grid df))
  = distinct_sorted wlabel_compare (map (way_key w) (grid df)).
Proof.
  intros W. destruct (grid_blocks df W) as (cs & _ & _ & _ & Hw).
  destruct (Hw w) as (a & b & -> & Sa & Hb).
  transitivity a.
  - apply (unique_from_prefix (cmp_eqb wlabel_compare)
             (cmp_eqb_true wlabel_compare wlabel_compare_eq)).
    + apply (sorted_NoDup wlabel_compare wlabel_compare_eq). exact Sa.
    + intros x _ [].
    + intros x Hx. right. apply Hb, Hx.
  - apply (sorted_same_elements wlabel_compare wlabel_compare_eq
             wlabel_compare_trans); [exact Sa|apply wlabels_sorted|].
    intros x.
    rewrite (distinct_sorted_In wlabel_compare wlabel_compare_eq).
    rewrite in_app_iff. split; [auto|]. intros [X|X]; [exact X|].
    apply Hb, X.
Qed.

(** On a fitted object, for a metric column [label] of the table:
    [transform_np] returns the cells of the matrix of [transform_pd]
    together with its own row and column labels, and list_cohorts labels
    the rows of that matrix and list_periods its columns, one by one and
    in the same order; every row of the matrix has one cell for each
    label of list_periods. *)
Theorem transform_np_labels (self0 : Cohorts) (data : list event)
  (input : option string) (how : list string) (self : Cohorts)
  (f : frame) (label : string) (col : column) (w : way) :
  fit self0 data input how = Ok self ->
  df_cohorts self = Some f -> find_col label (cols f) = Some col ->
  exists m list_periods list_cohorts,
    transform_pd self label w = Ok m
    /\ transform_np self label w
       = Ok (list_periods, list_cohorts, m_cells m)
    /\ list_cohorts = m_index m
    /\ list_periods = m_columns m
    /\ List.length (m_cells m) = List.length list_cohorts
    /\ forall row, In row (m_cells m) ->
                   List.length row = List.length list_periods.
Proof.
  intros H F Hc.
  destruct (fit_fitted _ _ _ _ _ H) as (df & P & W & Fd).
  destruct (fitted_frame df self Fd) as (D & f' & F' & K & OK).
  assert (f' = f) by congruence. subst f'.
  destruct (fit_canonical _ _ _ _ _ H) as (df' & cs & P' & F'' & _ & Cn).
  assert (df' = df) by congruence. subst df'.
  assert (Ecs : cols f = cs) by (rewrite F in F''; injection F'' as ->;
                                 reflexivity).
  rewrite <- Ecs in Cn.
  destruct (canonical_not_key df (cols f) label col Cn Hc) as [E1 E2].
  pose proof (proj1 OK label col Hc) as L. rewrite <- K in L.
  pose proof (index_NoDup df w) as Hn. rewrite <- K in Hn.
  pose proof (transform_pd_unfold self f label col w F Hc L E1 E2 Hn) as T.
  match type of T with
  | _ = Ok ?m => exists m, (m_columns m), (m_index m)
  end.
  split; [exact T|]. split.
  { unfold transform_np. rewrite T. cbn [bind].
    unfold attr_df_cohorts. rewrite F. cbn [bind m_cells m_columns m_index].
    rewrite K, (unique_cohorts df W), (unique_way_labels df w W).
    reflexivity. }
  split; [reflexivity|]. split; [reflexivity|].
  cbn [m_cells m_index m_columns].
  split; [apply length_map|].
  intros row Hrow. apply in_map_iff in Hrow. destruct Hrow as (r & <- & _).
  apply length_map.
Qed.

Lemma transform_np_labels_witness :
  exists self f col,
    fit (init Tm true) sample_events None ["total"%string] = Ok self
    /\ df_cohorts self = Some f
    /\ find_col "total" (cols f) = Some col
    /\ exists m list_periods list_cohorts,
         transform_pd self "total" by_period_num = Ok m
         /\ transform_np self "total" by_period_num
            = Ok (list_periods, list_cohorts, m_cells m)
         /\ list_cohorts = m_index m
         /\ list_periods = m_columns m
         /\ List.length (m_cells m) = List.length list_cohorts
         /\ forall row, In row (m_cells m) ->
                        List.length row = List.length list_periods.
Proof.
  remember (fit (init Tm true) sample_events None ["total"%string])
    as r eqn:Er.
  destruct r as [self|e]; [|vm_compute in Er; discriminate].
  remember (df_cohorts self) as o eqn:Eo.
  destruct o as [f|].
  2: { exfalso. vm_compute in Er. injection Er as ->. discriminate. }
  remember (find_col "total" (cols f)) as oc eqn:Ec.
  destruct oc as [col|].
  2: { exfalso. vm_compute in Er. injection Er as ->. cbn in Eo.
       injection Eo as ->. discriminate. }
  exists self, f, col.
  split; [reflexivity|]. split; [symmetry; exact Eo|].
  split; [symmetry; exact Ec|].
  exact (transform_np_labels (init Tm true) sample_events None
           ["total"%string] self f "total" col by_period_num (eq_sym Er)
           (eq_sym Eo) (eq_sym Ec)).
Defined.

End MatrixLabels.

(** * Labels that transform_pd and transform_np reject *)

Module MatrixErrors.
Import OrderFacts ListFacts PrepareFacts GridFacts CohortsFacts CohortsPmf.
Import CohortColumns FitHow MetricColumns Transform.

Lemma metric_column_names df label col :
  metric_column df label = Some col -> In label metric_columns.
Proof.
  unfold metric_column, metric_columns. intros H.
  repeat match type of H with
  | (if String.eqb ?a ?b then _ else _) = _ =>
      destruct (String.eqb_spec a b) as [->|_];
        [cbn [In]; tauto|]
  end.
  discriminate H.
Qed.

Lemma unknown_label_raises self f label w :
  df_cohorts self = Some f -> find_col label (cols f) = None ->
  label <> "period"%string -> label <> "period_num"%string ->
  transform_pd self label w = Raise (KeyError label)
  /\ transform_np self label w = Raise (KeyError label).
Proof.
  intros F Hc N1 N2.
  assert (T : transform_pd self label w = Raise (KeyError label)).
  { unfold transform_pd, attr_df_cohorts. rewrite F. cbn [bind].
    unfold indexed_label, get_col. rewrite Hc.
    destruct (String.eqb_spec label "period") as [E|_]; [contradiction|].
    destruct (String.eqb_spec label "period_num") as [E|_];
      [contradiction|].
    destruct w; reflexivity. }
  split; [exact T|]. unfold transform_np. rewrite T. reflexivity.
Qed.

(** On a fitted object, a label that is none of the twelve names of the
    metric columns (nor the key column 'period' or 'period_num') makes
    [transform_pd] and [transform_np] raise KeyError.  This holds for
    'churn_unique_users', also when it was an item of [how] and is listed
    in [arguments]: its column is named 'churn_unique'. *)
Theorem transform_rejects_label (self0 : Cohorts) (data : list event)
  (input : option string) (how : list string) (self : Cohorts)
  (label : string) (w : way) :
  fit self0 data input how = Ok self ->
  ~ In label metric_columns ->
  label <> "period"%string -> label <> "period_num"%string ->
  transform_pd self label w = Raise (KeyError label)
  /\ transform_np self label w = Raise (KeyError label)
  /\ transform_pd self "churn_unique_users" w
     = Raise (KeyError "churn_unique_users")
  /\ (In "churn_unique_users"%string how ->
      In "churn_unique_users"%string (arguments self)).
Proof.
  intros H Nm N1 N2.
  destruct (fit_canonical _ _ _ _ _ H) as (df & cs & P & F & _ & Cn).
  assert (Hnone : forall l, ~ In l metric_columns ->
                            find_col l (cols (mkframe (grid df) cs)) = None).
  { intros l Hl. cbn [cols]. destruct (find_col l cs) as [c|] eqn:E;
      [|reflexivity].
    exfalso. apply Hl. exact (metric_column_names df l c (Cn l c E)). }
  destruct (unknown_label_raises self _ label w F (Hnone label Nm) N1 N2)
    as [T1 T2].
  split; [exact T1|]. split; [exact T2|]. split.
  - apply (unknown_label_raises self _ "churn_unique_users" w F).
    + apply Hnone. unfold metric_columns. cbn [In].
      intros X. repeat (destruct X as [X|X]; [discriminate X|]). exact X.
    + discriminate.
    + discriminate.
  - intros Hin. unfold fit in H.
    destruct (negb (self_simple self0) && not_given input); [discriminate|].
    apply bind_ok in H. destruct H as (df' & _ & H).
    apply bind_ok in H. destruct H as (s' & _ & H).
    injection H as <-. cbn [arguments]. unfold list_set.
    apply nodup_In. apply in_app_iff. left. exact Hin.
Qed.

Lemma transform_rejects_label_witness :
  exists self,
    fit (init Tm true) sample_events None
      ["unique_users"; "churn_unique_users"]%string = Ok self
    /\ ~ In "perc_churn_unique_users"%string metric_columns
    /\ "perc_churn_unique_users"%string <> "period"%string
    /\ "perc_churn_unique_users"%string <> "period_num"%string
    /\ transform_pd self "perc_churn_unique_users" by_period
       = Raise (KeyError "perc_churn_unique_users")
    /\ transform_np self "perc_churn_unique_users" by_period
       = Raise (KeyError "perc_churn_unique_users")
    /\ transform_pd self "churn_unique_users" by_period
       = Raise (KeyError "churn_unique_users")
    /\ (In "churn_unique_users"%string
          ["unique_users"; "churn_unique_users"]%string ->
        In "churn_unique_users"%string (arguments self)).
Proof.
  remember (fit (init Tm true) sample_events None
              ["unique_users"; "churn_unique_users"]%string) as r eqn:Er.
  destruct r as [self|e]; [|vm_compute in Er; discriminate].
  exists self. split; [reflexivity|].
  assert (Nm : ~ In "perc_churn_unique_users"%string metric_columns).
  { unfold metric_columns. cbn [In]. intros X.
    repeat (destruct X as [X|X]; [discriminate X|]). exact X. }
  split; [exact Nm|]. split; [discriminate|]. split; [discriminate|].
  apply (transform_rejects_label (init Tm true) sample_events None
           ["unique_users"; "churn_unique_users"]%string self
           "perc_churn_unique_users" by_period (eq_sym Er) Nm);
    discriminate.
Defined.

End MatrixErrors.

(** * The label lists of the two fits *)

Module LabelLists.
Import CalendarFacts AuxFacts OrderFacts ListFacts PrepareFacts GridFacts.
Import CohortsFacts CohortsPmf PrepareOrder PeriodLabels.
Import CohortColumns FitHow CohortCells CohortRetention MetricColumns.
Import Transform CohortMatrix MatrixLabels.

Lemma option_string_eqb_eq a b : option_string_eqb a b = true <-> a = b.
Proof.
  destruct a as [x|], b as [y|]; cbn; split; intros H;
    try discriminate; try reflexivity.
  - apply String.eqb_eq in H. congruence.
  - injection H as ->. apply String.eqb_refl.
Qed.

Section UniqueMap.
Context {A B : Type} (f : A -> B).
Context (eqa : A -> A -> bool) (eqb : B -> B -> bool).
Hypothesis eqa_eq : forall a b, eqa a b = true <-> a = b.
Hypothesis eqb_eq : forall a b, eqb a b = true <-> a = b.

(** The distinct values of the images of a list, when no two elements of
    the list have the same image: the images of its distinct elements. *)
Lemma unique_from_map l :
  forall seen,
    (forall x y, In x (seen ++ l) -> In y (seen ++ l) -> f x = f y ->
                 x = y) ->
    unique_from eqb (map f seen) (map f l)
    = map f (unique_from eqa seen l).
Proof.
  induction l as [|x l IH]; intros seen Hf; [reflexivity|].
  cbn [map unique_from].
  assert (E : existsb (eqb (f x)) (map f seen) = existsb (eqa x) seen).
  { destruct (existsb (eqa x) seen) eqn:E1.
    - apply (seen_In eqa eqa_eq) in E1. apply (seen_In eqb eqb_eq).
      apply in_map. exact E1.
    - destruct (existsb (eqb (f x)) (map f seen)) eqn:E2; [|reflexivity].
      apply (seen_In eqb eqb_eq) in E2. apply in_map_iff in E2.
      destruct E2 as (y & Ey & Hy).
      assert (y = x).
      { apply Hf; [apply in_app_iff; left; exact Hy
                  |apply in_app_iff; right; left; reflexivity|exact Ey]. }
      subst y. apply (seen_In eqa eqa_eq) in Hy. congruence. }
  rewrite E. destruct (existsb (eqa x) seen).
  - apply IH. intros a b Ha Hb. apply Hf.
    + apply in_app_iff in Ha. apply in_app_iff.
      destruct Ha; [left|right; right]; assumption.
    + apply in_app_iff in Hb. apply in_app_iff.
      destruct Hb; [left|right; right]; assumption.
  - cbn [map]. f_equal. apply (IH (x :: seen)).
    intros a b Ha Hb. apply Hf.
    + cbn in Ha. apply in_app_iff.
      destruct Ha as [<-|Ha]; [right; left; reflexivity|].
      apply in_app_iff in Ha. destruct Ha; [left|right; right]; assumption.
    + cbn in Hb. apply in_app_iff.
      destruct Hb as [<-|Hb]; [right; left; reflexivity|].
      apply in_app_iff in Hb. destruct Hb; [left|right; right]; assumption.
Qed.

Lemma unique_map l :
  (forall x y, In x l -> In y l -> f x = f y -> x = y) ->
  unique eqb (map f l) = map f (unique eqa l).
Proof. intros H. apply (unique_from_map l []). exact H. Qed.

Lemma unique_from_In l :
  forall seen x, In x (unique_from eqa seen l) -> In x l.
Proof.
  induction l as [|y l IH]; intros seen x H; [destruct H|].
  cbn [unique_from] in H. destruct (existsb (eqa y) seen).
  - right. exact (IH seen x H).
  - destruct H as [<-|H]; [left; reflexivity|right; exact (IH _ x H)].
Qed.
End UniqueMap.

Lemma insert_key_Wdate k l :
  insert_key wlabel_compare (Wdate k) (map Wdate l)
  = map Wdate (insert_key date_compare k l).
Proof.
  induction l as [|x l IH]; [reflexivity|]. cbn.
  destruct (date_compare k x); cbn; [reflexivity|reflexivity|].
  rewrite IH. reflexivity.
Qed.

Lemma distinct_sorted_Wdate l :
  distinct_sorted wlabel_compare (map Wdate l)
  = map Wdate (distinct_sorted date_compare l).
Proof.
  induction l as [|x l IH]; [reflexivity|].
  unfold distinct_sorted in *. cbn [map fold_right].
  rewrite IH. apply insert_key_Wdate.
Qed.

Lemma map_Wdate_inj l l' : map Wdate l = map Wdate l' -> l = l'.
Proof.
  revert l'. induction l as [|x l IH]; intros [|y l'] H; cbn in H;
    try discriminate; [reflexivity|].
  injection H as -> H. f_equal. exact (IH l' H).
Qed.

Lemma unique_periods df :
  well_prepared df ->
  unique date_eqb (map period (grid df))
  = distinct_sorted date_compare (map period (grid df)).
Proof.
  intros W. apply map_Wdate_inj.
  rewrite <- distinct_sorted_Wdate.
  rewrite <- (unique_map Wdate date_eqb (cmp_eqb wlabel_compare)
                date_eqb_eq (cmp_eqb_true wlabel_compare wlabel_compare_eq))
    by (intros x y _ _ E; congruence).
  rewrite map_map.
  exact (unique_way_labels df by_period W).
Qed.

(** The periods and the cohorts of df are representatives of dates of the
    dataset. *)
Lemma period_of_event t simple data df p :
  prepare t simple data = Ok df ->
  forallb (fun e => valid (ev_date e)) data = true ->
  observed_period df p ->
  exists d, valid d = true /\ custom_representative t d = Ok p.
Proof.
  intros P V (r & Hr & <-).
  destruct (prepare_row_event _ _ _ _ r P Hr) as (e & He & _ & E).
  exists (ev_date e). split; [|exact E].
  rewrite forallb_forall in V. exact (V e He).
Qed.

Lemma labels_injective t simple data df l :
  prepare t simple data = Ok df ->
  forallb (fun e => valid (ev_date e)) data = true ->
  t <> Tq ->
  (forall p, In p l -> observed_period df p) ->
  forall x y, In x l -> In y l ->
    Labels.custom_period (tag t) x = Labels.custom_period (tag t) y ->
    x = y.
Proof.
  intros P V Nq Hl x y Hx Hy E.
  destruct (period_of_event _ _ _ _ x P V (Hl x Hx)) as (d1 & V1 & E1).
  destruct (period_of_event _ _ _ _ y P V (Hl y Hy)) as (d2 & V2 & E2).
  exact (same_label_same_period t d1 d2 x y Nq V1 V2 E1 E2 E).
Qed.

Lemma NoDup_labels t simple data df l :
  prepare t simple data = Ok df ->
  forallb (fun e => valid (ev_date e)) data = true ->
  t <> Tq ->
  (forall p, In p l -> observed_period df p) ->
  NoDup l -> NoDup (map (Labels.custom_period (tag t)) l).
Proof.
  intros P V Nq Hl Hn. apply NoDup_map_injective; [|exact Hn].
  exact (labels_injective t simple data df l P V Nq Hl).
Qed.

Lemma observed_cohort_period df c :
  well_prepared df -> observed_cohort df c -> observed_period df c.
Proof.
  intros W (r & Hr & <-).
  destruct (cohort_attained df W r Hr) as (r' & Hr' & _ & E).
  exists r'. auto.
Qed.

(** For the periods '7d', '28d', 'm' and 'd' and a dataset of valid dates:
    the cohort_list and period_list that [Cohorts.fit] keeps hold one
    label for every row and for every column of the matrix that
    [transform_pd] builds by period, in the order of its rows and columns,
    and no label twice. *)
Theorem cohorts_label_lists (self0 : Cohorts) (data : list event)
  (input : option string) (how : list string) (self : Cohorts)
  (f : frame) (label : string) (col : column) :
  fit self0 data input how = Ok self ->
  df_cohorts self = Some f -> find_col label (cols f) = Some col ->
  forallb (fun e => valid (ev_date e)) data = true ->
  self_period self0 <> Tq ->
  exists m periods,
    transform_pd self label by_period = Ok m
    /\ m_columns m = map Wdate periods
    /\ CohortsLabels.cohort_list (self_period self0) (keys f)
       = map (Labels.custom_period (tag (self_period self0))) (m_index m)
    /\ CohortsLabels.period_list (self_period self0) (keys f)
       = map (Labels.custom_period (tag (self_period self0))) periods
    /\ NoDup (CohortsLabels.cohort_list (self_period self0) (keys f))
    /\ NoDup (CohortsLabels.period_list (self_period self0) (keys f)).
Proof.
  intros H F Hc V Nq.
  destruct (fit_fitted _ _ _ _ _ H) as (df & P & W & Fd).
  destruct (fitted_frame df self Fd) as (D & f' & F' & K & OK).
  assert (f' = f) by congruence. subst f'.
  destruct (fit_canonical _ _ _ _ _ H) as (df' & cs & P' & F'' & _ & Cn).
  assert (df' = df) by congruence. subst df'.
  assert (Ecs : cols f = cs) by (rewrite F in F''; injection F'' as ->;
                                 reflexivity).
  rewrite <- Ecs in Cn.
  destruct (canonical_not_key df (cols f) label col Cn Hc) as [E1 E2].
  pose proof (proj1 OK label col Hc) as L. rewrite <- K in L.
  pose proof (index_NoDup df by_period) as Hn. rewrite <- K in Hn.
  pose proof (transform_pd_unfold self f label col by_period F Hc L E1 E2
                Hn) as T.
  set (t := self_period self0) in *.
  assert (Hco : forall c, In c (map cohort (grid df)) ->
                          observed_period df c).
  { intros c Hin. apply (observed_cohort_period df c W).
    apply (grid_cohorts df c W). exact Hin. }
  assert (Hpo : forall p, In p (map period (grid df)) ->
                          observed_period df p).
  { intros p Hin. apply in_map_iff in Hin. destruct Hin as (k & <- & Hk).
    exact (proj1 (proj2 (grid_keys df k Hk))). }
  assert (Ecl : CohortsLabels.cohort_list t (keys f)
                = map (Labels.custom_period (tag t))
                      (distinct_sorted date_compare
                         (map cohort (keys f)))).
  { unfold CohortsLabels.cohort_list. rewrite K.
    rewrite <- (map_map cohort (Labels.custom_period (tag t))).
    rewrite (unique_map (Labels.custom_period (tag t)) date_eqb
               option_string_eqb date_eqb_eq option_string_eqb_eq).
    - rewrite (unique_cohorts df W). reflexivity.
    - exact (labels_injective t _ data df _ P V Nq Hco). }
  assert (Epl : CohortsLabels.period_list t (keys f)
                = map (Labels.custom_period (tag t))
                      (distinct_sorted date_compare
                         (map period (keys f)))).
  { unfold CohortsLabels.period_list. rewrite K.
    rewrite <- (map_map period (Labels.custom_period (tag t))).
    rewrite (unique_map (Labels.custom_period (tag t)) date_eqb
               option_string_eqb date_eqb_eq option_string_eqb_eq).
    - rewrite (unique_periods df W). reflexivity.
    - exact (labels_injective t _ data df _ P V Nq Hpo). }
  match type of T with
  | _ = Ok ?m =>
      exists m, (distinct_sorted date_compare (map period (keys f)))
  end.
  split; [exact T|]. cbn [m_columns m_index].
  split.
  { rewrite <- distinct_sorted_Wdate, map_map. reflexivity. }
  split; [exact Ecl|]. split; [exact Epl|].
  rewrite Ecl, Epl, K. split.
  - apply (NoDup_labels t _ data df _ P V Nq).
    + intros c Hin. apply Hco. exact (proj1 (dates_In _ _) Hin).
    + apply sorted_dates_NoDup, dates_sorted.
  - apply (NoDup_labels t _ data df _ P V Nq).
    + intros c Hin. apply Hpo. exact (proj1 (dates_In _ _) Hin).
    + apply sorted_dates_NoDup, dates_sorted.
Qed.

Lemma cohorts_label_lists_witness :
  exists self f col,
    fit (init Tm true) sample_events None ["total"%string] = Ok self
    /\ df_cohorts self = Some f
    /\ find_col "total" (cols f) = Some col
    /\ forallb (fun e => valid (ev_date e)) sample_events = true
    /\ self_period (init Tm true) <> Tq
    /\ exists m periods,
         transform_pd self "total" by_period = Ok m
         /\ m_columns m = map Wdate periods
         /\ CohortsLabels.cohort_list (self_period (init Tm true)) (keys f)
            = map (Labels.custom_period
                     (tag (self_period (init Tm true)))) (m_index m)
         /\ CohortsLabels.period_list (self_period (init Tm true)) (keys f)
            = map (Labels.custom_period
                     (tag (self_period (init Tm true)))) periods
         /\ NoDup (CohortsLabels.cohort_list
                     (self_period (init Tm true)) (keys f))
         /\ NoDup (CohortsLabels.period_list
                     (self_period (init Tm true)) (keys f)).
Proof.
  remember (fit (init Tm true) sample_events None ["total"%string])
    as r eqn:Er.
  destruct r as [self|e]; [|vm_compute in Er; discriminate].
  remember (df_cohorts self) as o eqn:Eo.
  destruct o as [f|].
  2: { exfalso. vm_compute in Er. injection Er as ->. discriminate. }
  remember (find_col "total" (cols f)) as oc eqn:Ec.
  destruct oc as [col|].
  2: { exfalso. vm_compute in Er. injection Er as ->. cbn in Eo.
       injection Eo as ->. discriminate. }
  exists self, f, col.
  split; [reflexivity|]. split; [symmetry; exact Eo|].
  split; [symmetry; exact Ec|]. split; [reflexivity|].
  split; [discriminate|].
  apply (cohorts_label_lists (init Tm true) sample_events None
           ["total"%string] self f "total" col (eq_sym Er) (eq_sym Eo)
           (eq_sym Ec)); [reflexivity|discriminate].
Defined.

(** For the periods '7d', '28d', 'm' and 'd' and a dataset of valid dates:
    the period_list that [GrowthAccounting.fit] keeps holds one label for
    every row of the table, and no label twice. *)
Theorem growth_label_list (self : GrowthAccountingPmf.GrowthAccounting)
  (data : list event) (input : option string)
  (self' : GrowthAccountingPmf.GrowthAccounting) :
  GrowthAccountingPmf.fit self data input = Ok self' ->
  forallb (fun e => valid (ev_date e)) data = true ->
  GrowthAccountingPmf.self_period self <> Tq ->
  exists t,
    GrowthAccountingPmf.df self' = Some t
    /\ GrowthAccountingPmf.period_rep_list self'
       = GrowthAccountingPmf.index t
    /\ List.length
         (GrowthLabels.period_list (GrowthAccountingPmf.self_period self)
            (GrowthAccountingPmf.index t))
       = List.length (GrowthAccountingPmf.index t)
    /\ NoDup
         (GrowthLabels.period_list (GrowthAccountingPmf.self_period self)
            (GrowthAccountingPmf.index t)).
Proof.
  intros H V Nq.
  destruct (GrowthColumns.fit_table _ _ _ _ H) as (df & P & T & R & _).
  pose proof (prepare_well_prepared _ _ _ _ P) as W.
  eexists. split; [exact T|]. cbn [GrowthAccountingPmf.index].
  split; [exact R|]. unfold GrowthLabels.period_list.
  split; [apply length_map|].
  apply (NoDup_labels _ _ data df _ P V Nq).
  - intros c Hin. apply (observed_cohort_period df c W).
    apply GrowthColumns.growth_index_In. exact Hin.
  - apply sorted_dates_NoDup, GrowthColumns.growth_index_sorted.
Qed.

Lemma growth_label_list_witness :
  exists self',
    GrowthAccountingPmf.fit (GrowthAccountingPmf.init Tm true) sample_events
      None = Ok self'
    /\ forallb (fun e => valid (ev_date e)) sample_events = true
    /\ GrowthAccountingPmf.self_period (GrowthAccountingPmf.init Tm true)
       <> Tq
    /\ exists t,
         GrowthAccountingPmf.df self' = Some t
         /\ GrowthAccountingPmf.period_rep_list self'
            = GrowthAccountingPmf.index t
         /\ List.length
              (GrowthLabels.period_list
                 (GrowthAccountingPmf.self_period
                    (GrowthAccountingPmf.init Tm true))
                 (GrowthAccountingPmf.index t))
            = List.length (GrowthAccountingPmf.index t)
         /\ NoDup
              (GrowthLabels.period_list
                 (GrowthAccountingPmf.self_period
                    (GrowthAccountingPmf.init Tm true))
                 (GrowthAccountingPmf.index t)).
Proof.
  remember (GrowthAccountingPmf.fit (GrowthAccountingPmf.init Tm true)
              sample_events None) as r eqn:Er.
  destruct r as [self'|e]; [|vm_compute in Er; discriminate].
  exists self'. split; [reflexivity|]. split; [reflexivity|].
  split; [discriminate|].
  apply (growth_label_list (GrowthAccountingPmf.init Tm true) sample_events
           None self' (eq_sym Er)); [reflexivity|discriminate].
Defined.

End LabelLists.

(** * Under 'q' the label lists can be shorter than the matrix *)

Module QuarterLabels.
Import CalendarFacts AuxFacts OrderFacts ListFacts PrepareFacts GridFacts.
Import CohortsFacts CohortsPmf PrepareOrder PeriodLabels.
Import CohortColumns FitHow CohortCells CohortRetention MetricColumns.
Import Transform CohortMatrix MatrixLabels LabelLists.

Section Count.
Context {A B : Type} (f : A -> B).
Context (eqa : A -> A -> bool) (eqb : B -> B -> bool).
Hypothesis eqa_eq : forall a b, eqa a b = true <-> a = b.
Hypothesis eqb_eq : forall a b, eqb a b = true <-> a = b.

Lemma unique_from_NoDup (l : list A) :
  forall seen, NoDup (unique_from eqa seen l)
               /\ forall x, In x (unique_from eqa seen l) -> ~ In x seen.
Proof.
  induction l as [|y l IH]; intros seen; [split; [constructor|intros x []]|].
  cbn [unique_from]. destruct (existsb (eqa y) seen) eqn:E; [apply IH|].
  destruct (IH (y :: seen)) as [Hn Hs]. split.
  - constructor; [|exact Hn]. intros X. apply (Hs y X). left. reflexivity.
  - intros x [<-|X].
    + intros Y. apply (seen_In eqa eqa_eq) in Y. congruence.
    + intros Y. apply (Hs x X). right. exact Y.
Qed.

Lemma unique_from_complete (l : list A) :
  forall seen x, In x l -> In x seen \/ In x (unique_from eqa seen l).
Proof.
  induction l as [|y l IH]; intros seen x H; [destruct H|].
  cbn [unique_from]. destruct (existsb (eqa y) seen) eqn:E.
  - destruct H as [<-|H]; [left; apply (seen_In eqa eqa_eq); exact E|].
    exact (IH seen x H).
  - destruct H as [<-|H]; [right; left; reflexivity|].
    destruct (IH (y :: seen) x H) as [[<-|X]|X];
      [right; left; reflexivity|left; exact X|right; right; exact X].
Qed.
End Count.

(** Two different values with the same image: the images have fewer
    distinct values than the list. *)
Lemma unique_images_fewer {A B} (f : A -> B) (eqa : A -> A -> bool)
  (eqb : B -> B -> bool) (l : list A) (x y : A) :
  (forall a b, eqa a b = true <-> a = b) ->
  (forall a b, eqb a b = true <-> a = b) ->
  In x l -> In y l -> x <> y -> f x = f y ->
  (List.length (unique eqb (map f l)) < List.length (unique eqa l))%nat.
Proof.
  intros Ha Hb Hx Hy Nxy E.
  set (U := unique eqa l). set (V := unique eqb (map f l)).
  assert (NU : NoDup U) by apply (unique_from_NoDup eqa Ha l []).
  assert (NV : NoDup V) by apply (unique_from_NoDup eqb Hb (map f l) []).
  assert (CU : forall a, In a l -> In a U).
  { intros a Hin. destruct (unique_from_complete eqa Ha l [] a Hin) as [[]|X].
    exact X. }
  assert (HyU : In y U) by (apply CU; exact Hy).
  apply in_split in HyU. destruct HyU as (U1 & U2 & EU).
  assert (Hinc : incl V (map f (U1 ++ U2))).
  { intros b Hbin.
    apply (unique_from_In eqb) in Hbin. apply in_map_iff in Hbin.
    destruct Hbin as (a & <- & Hin).
    destruct (Ha a y) as [_ Hay].
    destruct (eqa a y) eqn:Eay.
    - apply Ha in Eay. subst a. rewrite <- E. apply in_map.
      pose proof (CU x Hx) as X. rewrite EU in X.
      apply in_app_iff in X. apply in_app_iff.
      destruct X as [X|[X|X]]; [left; exact X|congruence|right; exact X].
    - apply in_map. pose proof (CU a Hin) as X. rewrite EU in X.
      apply in_app_iff in X. apply in_app_iff.
      destruct X as [X|[X|X]]; [left; exact X| |right; exact X].
      subst a. rewrite (proj2 (Ha y y) eq_refl) in Eay. discriminate. }
  pose proof (NoDup_incl_length NV Hinc) as Len.
  rewrite length_map in Len. rewrite EU. rewrite !length_app in *.
  cbn [List.length]. lia.
Qed.

(** Under 'q' the periods that start in January and in March of a year
    bear the same label.  When both are cohorts of the dataset,
    cohort_list, from which plot_trends takes the label of the i-th
    cohort, has fewer entries than the matrix has rows. *)
Theorem quarter_cohort_list_short (self0 : Cohorts) (data : list event)
  (input : option string) (how : list string) (self : Cohorts)
  (f : frame) (label : string) (col : column) (df : list prow) (y : Z) :
  fit self0 data input how = Ok self ->
  self_period self0 = Tq ->
  df_cohorts self = Some f -> find_col label (cols f) = Some col ->
  df_period_cohort self = Some df ->
  observed_cohort df (mkdate y 1 1) -> observed_cohort df (mkdate y 3 1) ->
  exists m,
    transform_pd self label by_period = Ok m
    /\ (List.length (CohortsLabels.cohort_list Tq (keys f))
        < List.length (m_index m))%nat.
Proof.
  intros H Eq F Hc D O1 O3.
  destruct (fit_fitted _ _ _ _ _ H) as (df' & P & W & Fd).
  destruct (fitted_frame df' self Fd) as (D' & f' & F' & K & OK).
  assert (f' = f) by congruence. subst f'.
  assert (df' = df) by congruence. subst df'.
  destruct (fit_canonical _ _ _ _ _ H) as (df' & cs & P' & F'' & _ & Cn).
  assert (df' = df) by congruence. subst df'.
  assert (Ecs : cols f = cs) by (rewrite F in F''; injection F'' as ->;
                                 reflexivity).
  rewrite <- Ecs in Cn.
  destruct (canonical_not_key df (cols f) label col Cn Hc) as [E1 E2].
  pose proof (proj1 OK label col Hc) as L. rewrite <- K in L.
  pose proof (index_NoDup df by_period) as Hn. rewrite <- K in Hn.
  pose proof (transform_pd_unfold self f label col by_period F Hc L E1 E2
                Hn) as T.
  match type of T with _ = Ok ?m => exists m end.
  split; [exact T|]. cbn [m_index]. rewrite K.
  rewrite <- (unique_cohorts df W).
  unfold CohortsLabels.cohort_list.
  rewrite <- (map_map cohort (Labels.custom_period (tag Tq))).
  apply (unique_images_fewer (Labels.custom_period (tag Tq)) date_eqb
           option_string_eqb (map cohort (grid df))
           (mkdate y 1 1) (mkdate y 3 1) date_eqb_eq option_string_eqb_eq).
  - apply (grid_cohorts df _ W). exact O1.
  - apply (grid_cohorts df _ W). exact O3.
  - discriminate.
  - reflexivity.
Qed.

Lemma quarter_cohort_list_short_witness :
  exists self f col df,
    fit (init Tq true)
      [mkevent 1 (mkdate 2024 1 15) 1; mkevent 2 (mkdate 2024 3 15) 1]
      None ["total"%string] = Ok self
    /\ self_period (init Tq true) = Tq
    /\ df_cohorts self = Some f
    /\ find_col "total" (cols f) = Some col
    /\ df_period_cohort self = Some df
    /\ observed_cohort df (mkdate 2024 1 1)
    /\ observed_cohort df (mkdate 2024 3 1)
    /\ exists m,
         transform_pd self "total" by_period = Ok m
         /\ (List.length (CohortsLabels.cohort_list Tq (keys f))
             < List.length (m_index m))%nat.
Proof.
  remember (fit (init Tq true)
              [mkevent 1 (mkdate 2024 1 15) 1;
               mkevent 2 (mkdate 2024 3 15) 1]
              None ["total"%string]) as r eqn:Er.
  destruct r as [self|e]; [|vm_compute in Er; discriminate].
  remember (df_cohorts self) as o eqn:Eo.
  destruct o as [f|].
  2: { exfalso. vm_compute in Er. injection Er as ->. discriminate. }
  remember (find_col "total" (cols f)) as oc eqn:Ec.
  destruct oc as [col|].
  2: { exfalso. vm_compute in Er. injection Er as ->. cbn in Eo.
       injection Eo as ->. discriminate. }
  remember (df_period_cohort self) as od eqn:Ed.
  destruct od as [df|].
  2: { exfalso. vm_compute in Er. injection Er as ->. discriminate. }
  assert (O : observed_cohort df (mkdate 2024 1 1)
              /\ observed_cohort df (mkdate 2024 3 1)).
  { clear - Er Ed. vm_compute in Er. injection Er as ->. cbn in Ed.
    injection Ed as ->. split.
    - eexists. split; [left; reflexivity|reflexivity].
    - eexists. split; [right; left; reflexivity|reflexivity]. }
  exists self, f, col, df.
  split; [reflexivity|]. split; [reflexivity|].
  split; [symmetry; exact Eo|]. split; [symmetry; exact Ec|].
  split; [symmetry; exact Ed|]. split; [exact (proj1 O)|].
  split; [exact (proj2 O)|].
  exact (quarter_cohort_list_short (init Tq true) _ None
           ["total"%string] self f "total" col df 2024 (eq_sym Er)
           eq_refl (eq_sym Eo) (eq_sym Ec) (eq_sym Ed) (proj1 O) (proj2 O)).
Defined.

End QuarterLabels.
